(* ===== verification/_CoqProject ===== *)
-Q . S2P
Prelude.v
Format.v
Cde.v
Crypto.v
Witness.v
Fs.v
Storage.v
Vault.v
WitnessService.v
Https.v
Backup.v
Protocol.v
Daemon.v
Cli.v
Utf8.v
Startup.v
Server.v
Bench.v
Toy.v
ToyWire.v
ToyFiles.v
StorageSpec.v
VaultSpec.v
Typed.v
StreamSpec.v
Refinement.v
Integrity.v
Lifecycle.v
WitnessSpec.v
BackupSpec.v
ProtocolSpec.v
DaemonSpec.v
ServerSpec.v
TypedServer.v
MapServer.v
BenchSpec.v
StartupSpec.v
CliSpec.v
Guarantees.v
WitnessGuarantees.v
DaemonGuarantees.v
ServerGuarantees.v
StartupGuarantees.v
CliGuarantees.v
BenchGuarantees.v
