(* ===== verification/Prelude.v ===== *)
(** * VLT/1: a verification development

    VLT/1 is an encrypted object vault written in Rust: a core library that
    seals objects into a SQLite database, a freshness witness (an HTTP service
    with its client) that detects rollback of that database, a local daemon that
    serves the vault to concurrent clients over a Unix socket, a command line
    client, and a benchmark that drives all of it.  This library translates them into executable definitions and
    proves what makes them correct.

    ** Conventions

    This file holds what all others share: Rust's [Result] as [result], state
    passing as [M S E A := S → result A E * S] (the state survives an error,
    as mutations do in the source) with the notations [let*], [;*] and [let?],
    machine integers as [Z] with their checked operations written out, bytes as
    lists of [Z], byte-string and slice operations, the tactics [len],
    [step_ok] and [sbind_step], and the hint databases [vlt] and [vlen].

    The cryptographic primitives, [serde_json], [hex], [base64], SQLite's file
    format, [tempfile], readers, writers, sockets, symbolic links and the HTTP
    transport and listener are not part of the repository: each is a type class,
    and a class with the suffix [Ok] states the documented behaviour a theorem
    relies on.  [Toy], [ToyWire], [ToyFiles] and the [*Guarantees] files give
    executable instances of all of them, so no assumption is empty and every
    definition can be run.  Every system call and SQL statement consults a fault
    schedule; theorems quantify over all schedules unless they ask for none of
    them to fire.

    ** Components (sources under [src/crates])

    - [Format]: [vlt1-core/src/error.rs] and [format.rs]; errors and which of
      them lock a vault, identifiers, sealed records, hexadecimal text.
    - [Cde]: [cde.rs]; the canonical manifest encoder and its decoder.
    - [Crypto]: [crypto.rs]; key derivation, additional data, sealing.
    - [Fs]: [path_safety.rs], [private_file.rs]; paths, the file system, modes.
    - [Storage]: [storage.rs]; the six tables with their schema constraints,
      statements, transactions and every operation of the type [Storage].
    - [Vault]: [vault.rs]; [Vault] with its lifecycle, buffered, streamed and
      witnessed publication, verified reads, sweeps, recovery and rotation.
      A method on [&mut self] is a computation on the vault object, the world
      outside it and what the caller lends (a reader, writer or witness).
    - [Backup]: [backup.rs] and its forwarders; snapshots and restore over
      explicit file contents.
    - [Witness]: [witness.rs]; transcripts, receipts, heads, the provider trait
      as the class [WitnessProvider], its contract [ProviderContract], and the
      in-memory provider.  [Https]: the HTTPS client of the same file, over a
      transport, and a lossy network between it and the service.
    - [WitnessService]: [vlt1-witness/src/lib.rs] and the dispatch of [main.rs];
      the durable epochs and heads, request parsing, authorisation.
    - [Protocol]: [vlt1-protocol/src/lib.rs]; frames and stream items.
    - [Daemon]: [vlt1-daemon/src/lib.rs]; the handlers, each as one function on
      the host ([Daemon]), the streaming reader and writer ([Stream]), and the
      permits as a step relation of their own ([Admission]).
    - [Server]: [Daemon::serve] of the same file with the threads it spawns.
      The handlers again, as programs of atomic actions ([Handlers]): an access
      to the connection, to an atomic, or a section under a mutex; and the
      machine of the listener loop and any number of threads, whose actions
      interleave freely ([Server.step]; [Server.execute] runs a schedule).
    - [Cli]: [vlt1-cli/src/main.rs]; every command, its prompts, files and
      exchange with the daemon, and what it prints.  A client and a daemon meet
      in [CliSpec.exchange]: each reads what the other wrote.
    - [Startup]: [vlt1-daemon/src/main.rs], the start of
      [vlt1-witness/src/main.rs] with its listener loop, and the key tool
      [vlt1-witness-key.rs]; over [Utf8], the texts of Rust's standard library.
    - [Bench]: [vlt1-cli/src/bin/vlt1-bench.rs]; its options, the measured round
      trips on a vault of its own and through a daemon in a thread, the clock,
      the wait for the socket, and the temporary directory.  Here the client's
      and the daemon's ends of a connection are composed in one computation.

    ** Theorems

    - [MapServer]: a daemon without a witness is one map from objects to
      plaintexts shared by its clients, in every interleaving, or a client of
      the run presented a passphrase that opens the vault's envelope to another
      key (the ciphers are not assumed to commit to their key).
    - [ServerSpec]: interleaved connections are served as if one after the other
      by the handlers of [Daemon], a status request perhaps with the vault of an
      earlier moment; permits stay within their limits.
    - [Typed], [TypedServer]: in every reachable machine the rows have their
      types, decode, and keep within the nonce budget with distinct nonces.
    - [Refinement], [StreamSpec], [VaultSpec], [StorageSpec], [Guarantees]: a
      session of vault operations refines a map from objects to plaintexts;
      publications are atomic and preserve the table invariant [db_wf]; what
      was put is what is read; uploads terminate.
    - [Integrity]: a read succeeds only on authenticated data, writes nothing
      before the digest was verified, and the manifest determines the
      plaintext, whatever the database holds.
    - [Lifecycle], [Guarantees]: create, open, unlock, lock, rotate; which
      failures lock (a backup's do not); a failed rotation wrote nothing or has
      changed the stored passphrase.
    - [WitnessSpec], [WitnessGuarantees]: receipts and pointers move together,
      rollback is detected, recovery is idempotent and complete; the service
      never goes back or equivocates; the client accepts only what a pinned
      key signed; retries over a lossy network obtain one epoch.
    - [Cde], [Crypto], [Witness], [Fs]: the encoder and decoder are inverse and
      canonical; additional data and signed bytes are injective; state files
      become private; relative paths are refused.
    - [BackupSpec]: a backup and its restore reproduce the database, a restore
      installs only what its manifest authenticates, no file is overwritten.
    - [ProtocolSpec], [DaemonSpec]: framing round trips and refusals; an upload
      stores exactly the client's items or nothing; a completed download
      carried the whole verified plaintext; refusals have no effect.
    - [CliSpec], [CliGuarantees]: a successful put means the daemon reads back
      the file, a successful get leaves the verified plaintext and nothing else;
      answers shown are the daemon's; loops end.
    - [StartupSpec]: a daemon that starts has the configuration of its command
      line and a client for exactly the witness its options and private files
      name; a witness serves on loopback only; when the pieces of a deployment
      fit together.
    - [BenchSpec]: over connections that may break anywhere, the benchmark never
      reports a corrupted round trip, prints what it measured, and returns unless
      its daemon was never told to stop; its options are read back as written.
    - [DaemonGuarantees], [ServerGuarantees], [StartupGuarantees],
      [BenchGuarantees]: concrete runs of the theorems above.

    ** Fuel

    Recursion that is not structural carries fuel: reader loops use the
    reader's rank, shown to be enough ([upload_terminates], [read_exact_cases],
    [read_ok_cases], [transfers_terminate]); slices, checksums and the stream
    scan use the length of their input; the benchmark's wait of three seconds in
    steps of five milliseconds needs 600 ([poll_triple]).  No theorem has a
    hypothesis on fuel beyond these.

    ** Not modelled

    Zeroisation of secrets, timing, [fsync] durability across power loss, the
    companions SQLite creates beside a snapshot while it is read, a write that
    fails half-way (a failed write of a temporary file, of a backup or of the
    client's output, leaves it as it was: such a file is linked to its name only
    after every write succeeded, and removed otherwise), panics other
    than a slice out of range in the daemon's reader (so no mutex becomes
    poisoned during a run; a poisoned one is handled), and two processes on one
    database.  A section under a mutex is one action of [Server], since nothing
    else can look at its data meanwhile; a status answer combines two sections.
    Option parsing is left to the [clap] crate, except in the benchmark, which
    parses its own; the two floating-point columns it prints are left as the
    duration they are computed from, and each of its connections is served before
    the next one is made, as its client waits for the answer.  Paths are component lists,
    so a trailing separator of a backup destination is not represented. *)

From Stdlib Require Import ZArith Lia.
From stdpp Require Import base numbers list gmap strings sorting.

Open Scope Z_scope.

(** ** Results *)

(** [Result<T, E>] of the source. *)
Inductive result (A E : Type) : Type :=
| Ok (a : A)
| Err (e : E).
Arguments Ok {A E} a.
Arguments Err {A E} e.

Definition rbind {A B E} (r : result A E) (k : A → result B E) : result B E :=
  match r with Ok a => k a | Err e => Err e end.

(** [Option::ok_or] and [Result::map_err(|_| e)] on an optional value. *)
Definition ok_or {A E} (o : option A) (e : E) : result A E :=
  match o with Some a => Ok a | None => Err e end.

Definition is_ok {A E} (r : result A E) : bool :=
  match r with Ok _ => true | Err _ => false end.

(** ** State-passing computations

    [M S E A] is a computation that mutates a state [S] and returns a
    [Result].  The state survives an error: what was mutated before an early
    return stays mutated, as in the source. *)
Definition M (S E A : Type) : Type := S → result A E * S.

Definition sret {S E A} (a : A) : M S E A := λ s, (Ok a, s).
Definition sthrow {S E A} (e : E) : M S E A := λ s, (Err e, s).
Definition sbind {S E A B} (m : M S E A) (k : A → M S E B) : M S E B :=
  λ s, match m s with
       | (Ok a, s') => k a s'
       | (Err e, s') => (Err e, s')
       end.
Definition slift {S E A} (r : result A E) : M S E A := λ s, (r, s).
Definition sget {S E} : M S E S := λ s, (Ok s, s).
Definition sgets {S E A} (f : S → A) : M S E A := λ s, (Ok (f s), s).
Definition smodify {S E} (f : S → S) : M S E unit := λ s, (Ok tt, f s).

(** [Result::map_err], and running a computation on a component of the state. *)
Definition smap_err {S E E' A} (f : E → E') (m : M S E A) : M S E' A :=
  λ s, match m s with (Ok a, s') => (Ok a, s') | (Err e, s') => (Err (f e), s') end.
Definition szoom {S T E A} (get : S → T) (set : T → S → S) (m : M T E A) : M S E A :=
  λ s, let '(r, t) := m (get s) in (r, set t s).

Declare Scope vlt_scope.
Delimit Scope vlt_scope with vlt.

(** The [?] operator on a pure result, and sequencing of stateful
    computations. *)
Notation "'let?' x ':=' r 'in' k" := (rbind r (λ x, k))
  (at level 10, x pattern, r at level 100, k at level 200) : vlt_scope.
Notation "'let*' x ':=' m 'in' k" := (sbind m (λ x, k))
  (at level 10, x pattern, m at level 100, k at level 200) : vlt_scope.
Notation "m ';*' k" := (sbind m (λ _, k))
  (at level 199, right associativity) : vlt_scope.
Open Scope vlt_scope.

(** ** Machine integers *)

Definition u8_max : Z := 255.
Definition u32_max : Z := 2 ^ 32 - 1.
Definition u64_max : Z := 2 ^ 64 - 1.
Definition i64_max : Z := 2 ^ 63 - 1.
(** The supported targets are 64-bit. *)
Definition usize_max : Z := 2 ^ 64 - 1.

Definition is_u8 (x : Z) : Prop := 0 ≤ x ≤ u8_max.
Definition is_u32 (x : Z) : Prop := 0 ≤ x ≤ u32_max.
Definition is_u64 (x : Z) : Prop := 0 ≤ x ≤ u64_max.

(** [u32::try_from] and the checked additions; values are never negative. *)
Definition u32_try_from (x : Z) : option Z := if x <=? u32_max then Some x else None.
Definition u32_checked_add (a b : Z) : option Z := if a + b <=? u32_max then Some (a + b) else None.
Definition u64_checked_add (a b : Z) : option Z := if a + b <=? u64_max then Some (a + b) else None.
Definition u64_checked_sub (a b : Z) : option Z := if b <=? a then Some (a - b) else None.
Definition usize_checked_add (a b : nat) : option nat :=
  if Z.of_nat (a + b) <=? usize_max then Some (a + b)%nat else None.

(** ** Bytes *)

Abbreviation bytes := (list Z).
Definition wf_bytes (bs : bytes) : Prop := Forall is_u8 bs.

Definition lenZ {A} (l : list A) : Z := Z.of_nat (length l).

(** Rust's byte-string literals. *)
Fixpoint str_bytes (s : string) : bytes :=
  match s with
  | EmptyString => []
  | String c s => Z.of_N (Ascii.N_of_ascii c) :: str_bytes s
  end.

(** [to_be_bytes] / [from_be_bytes] for an [n]-byte unsigned integer. *)
Fixpoint be_bytes (n : nat) (v : Z) : bytes :=
  match n with
  | O => []
  | S n => (v / 256 ^ Z.of_nat n) `mod` 256 :: be_bytes n v
  end.

Fixpoint from_be_bytes (bs : bytes) : Z :=
  match bs with
  | [] => 0
  | b :: bs => b * 256 ^ lenZ bs + from_be_bytes bs
  end.

(** [&l[..n]] and [&l[n..]] with the bound clamped, for a machine integer [n]. *)
Fixpoint takeZ {A} (n : Z) (l : list A) : list A :=
  match l with
  | [] => []
  | x :: l => if 0 <? n then x :: takeZ (n - 1) l else []
  end.
Fixpoint dropZ {A} (n : Z) (l : list A) : list A :=
  match l with
  | [] => []
  | x :: l' => if 0 <? n then dropZ (n - 1) l' else l
  end.

(** [chunks(n)] of a slice, for [0 < n]; [fuel] bounds the number of pieces
    and [length l] is always enough. *)
Fixpoint chunks_fuel {A} (fuel : nat) (n : Z) (l : list A) : list (list A) :=
  match fuel, l with
  | _, [] => []
  | O, _ => []
  | S fuel, _ => takeZ n l :: chunks_fuel fuel n (dropZ n l)
  end.
Definition slice_chunks {A} (n : Z) (l : list A) : list (list A) :=
  chunks_fuel (length l) n l.

(** Whether some entry of a finite map satisfies a test. *)
Definition map_any `{Countable K} {V} (f : K → V → bool) (m : gmap K V) : bool :=
  existsb (λ kv, f kv.1 kv.2) (map_to_list m).

(** Byte strings in [memcmp] order, SQLite's order on BLOBs. *)
Fixpoint bytes_leb (a b : bytes) : bool :=
  match a, b with
  | [], _ => true
  | _ :: _, [] => false
  | x :: a, y :: b => (x <? y) || ((x =? y) && bytes_leb a b)
  end.

(** ** Automation *)

Create HintDb vlt discriminated.
Create Rewrite HintDb vlen.

#[export] Hint Rewrite @length_app @length_cons @length_nil @length_take @length_drop
  @length_fmap @length_replicate @length_seq @length_reverse : vlen.

(** Normalise list lengths, then linear arithmetic. *)
Ltac len := unfold lenZ in *; autorewrite with vlen in *; simpl in *; lia.

(** Split one step of a computation that is known to have succeeded. *)
Ltac step_ok H :=
  match type of H with
  | rbind (ok_or ?o _) _ = _ => let E := fresh "E" in destruct o eqn:E; simpl in H; [|discriminate H]
  | rbind ?r _ = _ => let E := fresh "E" in destruct r eqn:E; simpl in H; [|discriminate H]
  | ok_or ?r _ = Ok _ => let E := fresh "E" in destruct r eqn:E; simpl in H; [|discriminate H]
  | (if ?b then _ else _) = _ => let E := fresh "E" in destruct b eqn:E; simpl in H; try discriminate H
  | (let '(_, _) := ?p in _) = _ => let E := fresh "E" in destruct p eqn:E; simpl in H
  end.
Ltac steps_ok H := repeat step_ok H.

(** ** Shared lemmas *)

Lemma rbind_ok {A B E} (r : result A E) (k : A → result B E) b :
  rbind r k = Ok b ↔ ∃ a, r = Ok a ∧ k a = Ok b.
Proof. destruct r; simpl; split; [eauto|intros (?&?&?)|done|intros (?&?&?)]; congruence. Qed.

Lemma ok_or_ok {A E} (o : option A) (e : E) a : ok_or o e = Ok a ↔ o = Some a.
Proof. destruct o; simpl; naive_solver. Qed.

Lemma sbind_ok {S E A B} (m : M S E A) (k : A → M S E B) s b s' :
  sbind m k s = (Ok b, s') ↔ ∃ a s1, m s = (Ok a, s1) ∧ k a s1 = (Ok b, s').
Proof.
  unfold sbind. destruct (m s) as [[a|e] s1]; split; [by eauto|by intros (? & ? & [= <- <-] & ?)|done|].
  by intros (? & ? & ? & ?).
Qed.

(** Split a successful stateful computation into its steps; [H] is left on the
    last one. *)
Ltac sbind_step H :=
  match type of H with
  | sbind _ _ _ = (Ok _, _) =>
      let a := fresh "a" in let s := fresh "s" in let E := fresh "E" in
      apply sbind_ok in H as (a & s & E & H); cbn beta in H
  end.

Lemma sbind_err {S E A B} (m : M S E A) (k : A → M S E B) s e s' :
  sbind m k s = (Err e, s') ↔
  m s = (Err e, s') ∨ ∃ a s1, m s = (Ok a, s1) ∧ k a s1 = (Err e, s').
Proof.
  unfold sbind. destruct (m s) as [[a|e1] s1]; split.
  - intros ?. right. eauto.
  - by intros [?|(? & ? & [= <- <-] & ?)].
  - intros [= <- <-]. by left.
  - intros [[= <- <-]|(? & ? & ? & ?)]; done.
Qed.

Lemma sbind_eq {S E A B} (m : M S E A) (k : A → M S E B) s a s1 :
  m s = (Ok a, s1) → sbind m k s = k a s1.
Proof. intros E1. unfold sbind. by rewrite E1. Qed.

Lemma sbind_ext {S E A B} (m : M S E A) (k k' : A → M S E B) s :
  (∀ a s1, m s = (Ok a, s1) → k a s1 = k' a s1) → sbind m k s = sbind m k' s.
Proof. unfold sbind. destruct (m s) as [[a|e] s1]; auto. Qed.

Lemma smap_err_ok {S E E' A} (f : E → E') (m : M S E A) s a s' :
  smap_err f m s = (Ok a, s') ↔ m s = (Ok a, s').
Proof. unfold smap_err. destruct (m s) as [[?|?] ?]; split; congruence. Qed.

Lemma u32_try_from_some x y : u32_try_from x = Some y ↔ x = y ∧ x ≤ u32_max.
Proof. unfold u32_try_from. destruct (Z.leb_spec x u32_max); split; intros; destruct_and?; simplify_eq; auto; lia. Qed.

Lemma u32_try_from_ok x : is_u32 x → u32_try_from x = Some x.
Proof. intros [_ ?]. by apply u32_try_from_some. Qed.

Lemma usize_checked_add_some a b c :
  usize_checked_add a b = Some c ↔ c = (a + b)%nat ∧ Z.of_nat (a + b) ≤ usize_max.
Proof.
  unfold usize_checked_add. destruct (Z.leb_spec (Z.of_nat (a + b)) usize_max); split; intros; destruct_and?; simplify_eq; auto; lia.
Qed.

Lemma u64_checked_add_some a b c :
  u64_checked_add a b = Some c ↔ c = a + b ∧ a + b ≤ u64_max.
Proof. unfold u64_checked_add. destruct (Z.leb_spec (a + b) u64_max); split; intros; destruct_and?; simplify_eq; auto; lia. Qed.

Lemma u32_checked_add_some a b c :
  u32_checked_add a b = Some c ↔ c = a + b ∧ a + b ≤ u32_max.
Proof. unfold u32_checked_add. destruct (Z.leb_spec (a + b) u32_max); split; intros; destruct_and?; simplify_eq; auto; lia. Qed.

Lemma lenZ_app {A} (a b : list A) : lenZ (a ++ b) = lenZ a + lenZ b.
Proof. unfold lenZ. rewrite length_app. lia. Qed.

Lemma lenZ_nonneg {A} (l : list A) : 0 ≤ lenZ l.
Proof. unfold lenZ. lia. Qed.

(** A run is its result and its final state. *)
Lemma run_eq {A B} (r : A * B) (a : A) : r.1 = a → r = (a, r.2).
Proof. by destruct r; intros <-. Qed.

Lemma append_length a b : String.length (String.append a b) = (String.length a + String.length b)%nat.
Proof. induction a as [|x a IH]; simpl; [done|]. by rewrite IH. Qed.

Lemma length_be_bytes n v : length (be_bytes n v) = n.
Proof. induction n; simpl; auto. Qed.
#[export] Hint Rewrite length_be_bytes : vlen.

Lemma wf_be_bytes n v : wf_bytes (be_bytes n v).
Proof.
  unfold wf_bytes. induction n; simpl; constructor; auto.
  unfold is_u8, u8_max. pose proof (Z.mod_pos_bound (v / 256 ^ Z.of_nat n) 256). lia.
Qed.

Lemma from_be_be_bytes n v : from_be_bytes (be_bytes n v) = v `mod` 256 ^ Z.of_nat n.
Proof.
  induction n as [|n IH]; simpl; [by rewrite Z.mod_1_r|].
  unfold lenZ. rewrite length_be_bytes, IH, Nat2Z.inj_succ, Z.pow_succ_r by lia.
  rewrite (Z.mul_comm 256). rewrite Z.rem_mul_r; [lia|lia|lia].
Qed.

Lemma from_be_bytes_bound bs : wf_bytes bs → 0 ≤ from_be_bytes bs < 256 ^ lenZ bs.
Proof.
  induction 1 as [|b bs Hb _ IH]; unfold lenZ in *; simpl length; simpl from_be_bytes; [simpl; lia|].
  rewrite Nat2Z.inj_succ, Z.pow_succ_r by lia.
  unfold is_u8, u8_max in Hb. unfold lenZ. nia.
Qed.

Lemma be_bytes_mod n v : be_bytes n (v `mod` 256 ^ Z.of_nat n) = be_bytes n v.
Proof.
  enough (∀ k, (n ≤ k)%nat → be_bytes n (v `mod` 256 ^ Z.of_nat k) = be_bytes n v) by auto.
  induction n as [|n IH]; intros k Hk; simpl; [done|]. f_equal; [|apply IH; lia].
  pose proof (Z.pow_pos_nonneg 256 (Z.of_nat n)) as Hp.
  pose proof (Z.pow_pos_nonneg 256 (Z.of_nat (k - S n))) as Hq.
  replace (Z.of_nat k) with (Z.of_nat n + (1 + Z.of_nat (k - S n))) by lia.
  rewrite (Z.pow_add_r 256 (Z.of_nat n)), (Z.pow_add_r 256 1), Z.pow_1_r by lia.
  rewrite Z.rem_mul_r, (Z.mul_comm (256 ^ Z.of_nat n)) by lia.
  rewrite Z.div_add, (Z.div_small (v `mod` _)) by (try apply Z.mod_pos_bound; lia).
  rewrite Z.add_0_l, Z.rem_mul_r, Z.mul_comm, Z_mod_plus_full by lia.
  apply Z.mod_mod; lia.
Qed.

Lemma be_bytes_from_be bs : wf_bytes bs → be_bytes (length bs) (from_be_bytes bs) = bs.
Proof.
  induction 1 as [|b bs Hb Hbs IH]; simpl; [done|].
  pose proof (from_be_bytes_bound bs Hbs) as Hbd. unfold lenZ in *.
  unfold is_u8, u8_max in Hb. f_equal.
  - rewrite Z.add_comm, Z.div_add, Z.div_small by lia. apply Z.mod_small. lia.
  - trans (be_bytes (length bs) (from_be_bytes bs)); [|done].
    rewrite <- be_bytes_mod, Z.add_comm, Z_mod_plus_full. apply be_bytes_mod.
Qed.

Lemma from_be_be_bytes_small n v : 0 ≤ v < 256 ^ Z.of_nat n → from_be_bytes (be_bytes n v) = v.
Proof. intros. rewrite from_be_be_bytes. by apply Z.mod_small. Qed.

Lemma be_bytes_inj n v w :
  0 ≤ v < 256 ^ Z.of_nat n → 0 ≤ w < 256 ^ Z.of_nat n → be_bytes n v = be_bytes n w → v = w.
Proof.
  intros Hv Hw E. rewrite <- (from_be_be_bytes_small n v Hv), <- (from_be_be_bytes_small n w Hw).
  by rewrite E.
Qed.

Lemma wf_bytes_app bs cs : wf_bytes (bs ++ cs) ↔ wf_bytes bs ∧ wf_bytes cs.
Proof. apply Forall_app. Qed.

Lemma wf_bytes_take n bs : wf_bytes bs → wf_bytes (take n bs).
Proof. apply Forall_take. Qed.

Lemma wf_bytes_drop n bs : wf_bytes bs → wf_bytes (drop n bs).
Proof. apply Forall_drop. Qed.
#[export] Hint Resolve wf_be_bytes wf_bytes_take wf_bytes_drop : vlt.

Lemma str_bytes_wf s : wf_bytes (str_bytes s).
Proof.
  unfold wf_bytes. induction s as [|c s IH]; simpl; constructor; auto.
  unfold is_u8, u8_max. pose proof (Ascii.N_ascii_bounded c). lia.
Qed.
#[export] Hint Resolve str_bytes_wf : vlt.

Lemma takeZ_take {A} n (l : list A) : takeZ n l = take (Z.to_nat n) l.
Proof.
  revert n. induction l as [|x l IH]; intros n; simpl; [by rewrite take_nil|].
  destruct (Z.ltb_spec 0 n); [|by rewrite Z2Nat.nonpos by lia].
  replace (Z.to_nat n) with (S (Z.to_nat (n - 1))) by lia. simpl. by rewrite IH.
Qed.

Lemma dropZ_drop {A} n (l : list A) : dropZ n l = drop (Z.to_nat n) l.
Proof.
  revert n. induction l as [|x l IH]; intros n; simpl; [by rewrite drop_nil|].
  destruct (Z.ltb_spec 0 n); [|by rewrite Z2Nat.nonpos by lia].
  replace (Z.to_nat n) with (S (Z.to_nat (n - 1))) by lia. simpl. by rewrite IH.
Qed.

Lemma chunks_fuel_enough {A} f1 f2 n (l : list A) :
  0 < n → (length l ≤ f1)%nat → (length l ≤ f2)%nat → chunks_fuel f1 n l = chunks_fuel f2 n l.
Proof.
  intros Hn. revert f2 l. induction f1 as [|f1 IH]; intros [|f2] [|x l] H1 H2; simpl in H1, H2; try done; try lia.
  cbn [chunks_fuel]. f_equal. apply IH; rewrite dropZ_drop, length_drop; simpl length; lia.
Qed.

(** The recursion equation of [chunks]. *)
Lemma slice_chunks_cons {A} n (l : list A) :
  0 < n → l ≠ [] → slice_chunks n l = takeZ n l :: slice_chunks n (dropZ n l).
Proof.
  intros Hn Hl. unfold slice_chunks. destruct l as [|x l]; [done|]. cbn [length chunks_fuel]. f_equal.
  apply chunks_fuel_enough; [done| |done]. rewrite dropZ_drop, length_drop. simpl length. lia.
Qed.

Lemma map_any_true `{Countable K} {V} (f : K → V → bool) (m : gmap K V) :
  map_any f m = true ↔ ∃ k v, m !! k = Some v ∧ f k v = true.
Proof.
  unfold map_any. rewrite existsb_exists. split.
  - intros ([k v] & Hin%list_elem_of_In & Hf). apply elem_of_map_to_list in Hin. by exists k, v.
  - intros (k & v & Hl & Hf). exists (k, v). split; [|done].
    by apply list_elem_of_In, elem_of_map_to_list.
Qed.

Lemma map_any_false `{Countable K} {V} (f : K → V → bool) (m : gmap K V) :
  map_any f m = false ↔ ∀ k v, m !! k = Some v → f k v = false.
Proof.
  rewrite <- not_true_iff_false, map_any_true. split.
  - intros Hn k v Hl. apply not_true_iff_false. intros Ht. apply Hn. by exists k, v.
  - intros Hf (k & v & Hl & Ht). rewrite (Hf k v Hl) in Ht. done.
Qed.

Lemma NoDup_omap_inj {A B} (f : A → option B) (l : list A) :
  (∀ x y b, f x = Some b → f y = Some b → x = y) → NoDup l → NoDup (omap f l).
Proof.
  intros Hinj. induction 1 as [|x l Hx _ IH]; simpl; [constructor|].
  destruct (f x) as [b|] eqn:E; [|done]. constructor; [|done].
  intros (y & Hy & Ey)%list_elem_of_omap. by rewrite (Hinj _ _ _ E Ey) in Hx.
Qed.
