(* ===== verification/Format.v ===== *)
(** * Errors, identifiers and record types

    Models [crates/vlt1-core/src/error.rs] and [crates/vlt1-core/src/format.rs],
    and the lowercase-hexadecimal codecs that [witness.rs], [backup.rs], the
    witness service and the daemon each define for themselves; [serde_json]
    enters as a class with its round trip. *)

From S2P Require Import Prelude.
From Stdlib Require Import ZArith Lia.
From stdpp Require Import base numbers list gmap strings countable.

Open Scope Z_scope.
Open Scope vlt_scope.

(** ** [error.rs] *)

Inductive VaultError : Type :=
| Locked
| UnlockFailed
| Authentication
| InvalidFormat (message : string)
| Invariant (message : string)
| NotFound
| Storage
| InvalidInput (message : string)
| WitnessUnavailable
| WitnessConflict.

#[global] Instance VaultError_eq_dec : EqDecision VaultError.
Proof. solve_decision. Defined.

Definition requires_lock (e : VaultError) : bool :=
  match e with
  | Authentication | InvalidFormat _ | Invariant _ | Storage
  | WitnessUnavailable | WitnessConflict => true
  | _ => false
  end.

Abbreviation Result A := (result A VaultError).

(** ** [format.rs] *)

Definition FORMAT_VERSION : Z := 1.

(** The [identifier!] macro is expanded three times; the index keeps the
    three resulting types apart. *)
Inductive id_kind : Type := KVault | KObject | KVersion.

Record Identifier (k : id_kind) : Type := mkId { as_bytes : bytes }.
Arguments mkId {k} as_bytes.
Arguments as_bytes {k} i.

Abbreviation VaultId := (Identifier KVault).
Abbreviation ObjectId := (Identifier KObject).
Abbreviation VersionId := (Identifier KVersion).

#[global] Instance Identifier_eq_dec k : EqDecision (Identifier k).
Proof. solve_decision. Defined.

#[global] Instance Identifier_countable k : Countable (Identifier k).
Proof. apply (inj_countable' as_bytes mkId). by intros []. Defined.

(** [<[u8; N]>::try_from(&[u8])]. *)
Definition fixed_array (n : nat) (bs : bytes) : option bytes :=
  if decide (length bs = n) then Some bs else None.

Definition from_slice {k} (bs : bytes) : Result (Identifier k) :=
  let? bs := ok_or (fixed_array 16 bs) (InvalidFormat "invalid identifier length") in
  Ok (mkId bs).

(** The type [[u8; 16]] of the only field. *)
Definition wf_id {k} (i : Identifier k) : Prop :=
  length (as_bytes i) = 16%nat ∧ wf_bytes (as_bytes i).

(** One lowercase hexadecimal digit, [char::from(HEX[n])]. *)
Definition hex_digit (n : Z) : Z := if n <? 10 then 48 + n else 87 + n.

(** [format!("{byte:02x}")]. *)
Definition hex_byte (b : Z) : bytes := [hex_digit (Z.shiftr b 4); hex_digit (Z.land b 15)].

Fixpoint hex_encode (value : bytes) : bytes :=
  match value with
  | [] => []
  | byte :: value => hex_byte byte ++ hex_encode value
  end.

Definition to_hex {k} (i : Identifier k) : bytes := hex_encode (as_bytes i).

Record SealedRecord : Type := mkSealed {
  nonce : bytes;
  ciphertext : bytes;
}.

#[global] Instance SealedRecord_eq_dec : EqDecision SealedRecord.
Proof. solve_decision. Defined.

Definition wf_sealed (r : SealedRecord) : Prop :=
  length (nonce r) = 12%nat ∧ wf_bytes (nonce r) ∧
  wf_bytes (ciphertext r) ∧ lenZ (ciphertext r) ≤ u64_max.

Record Manifest : Type := mkManifest {
  format_version : Z;
  object_id : ObjectId;
  version_id : VersionId;
  plaintext_len : Z;
  chunk_size : Z;
  chunk_count : Z;
  chunk_digest : bytes;
}.

#[global] Instance Manifest_eq_dec : EqDecision Manifest.
Proof. solve_decision. Defined.

(** The field types of [Manifest]. *)
Definition wf_manifest (m : Manifest) : Prop :=
  is_u32 (format_version m) ∧ wf_id (object_id m) ∧ wf_id (version_id m) ∧
  is_u64 (plaintext_len m) ∧ is_u32 (chunk_size m) ∧ is_u32 (chunk_count m) ∧
  length (chunk_digest m) = 32%nat ∧ wf_bytes (chunk_digest m).

Record EncryptedChunk : Type := mkChunk {
  chunk_index : Z;
  chunk_record : SealedRecord;
}.

#[global] Instance EncryptedChunk_eq_dec : EqDecision EncryptedChunk.
Proof. solve_decision. Defined.

(** ** Hexadecimal parsing *)

Definition is_ascii_digit (c : Z) : bool := (48 <=? c) && (c <=? 57).
Definition is_ascii_uppercase (c : Z) : bool := (65 <=? c) && (c <=? 90).
Definition is_ascii_hexdigit (c : Z) : bool :=
  is_ascii_digit c || ((65 <=? c) && (c <=? 70)) || ((97 <=? c) && (c <=? 102)).

(** [char::to_digit(16)]. *)
Definition digit_value (c : Z) : option Z :=
  if is_ascii_digit c then Some (c - 48)
  else if (97 <=? c) && (c <=? 102) then Some (c - 87)
  else if (65 <=? c) && (c <=? 70) then Some (c - 55)
  else None.

(** [u8::from_str_radix(pair, 16)] on the two-character strings the callers
    pass: a leading [+] is a sign and is skipped. *)
Definition u8_from_str_radix16 (pair : bytes) : option Z :=
  match pair with
  | [a; b] =>
      if decide (a = 43) then digit_value b
      else match digit_value a, digit_value b with
           | Some x, Some y => Some (16 * x + y)
           | _, _ => None
           end
  | _ => None
  end.

(** [as_bytes().chunks_exact(2)] mapped through the radix parser into a
    fixed array. *)
Fixpoint parse_pairs (s : bytes) : option bytes :=
  match s with
  | a :: b :: s' =>
      match u8_from_str_radix16 [a; b], parse_pairs s' with
      | Some x, Some xs => Some (x :: xs)
      | _, _ => None
      end
  | _ => Some []
  end.

(** [witness.rs: parse_fixed::<N>].  The texts are ASCII after the first
    test, so [str::from_utf8] of a pair never fails. *)
Definition parse_fixed (n : nat) (value : bytes) (error : string) : Result bytes :=
  if negb (bool_decide (length value = n * 2)%nat)
     || negb (forallb (λ c, is_ascii_hexdigit c && negb (is_ascii_uppercase c)) value)
  then Err (InvalidFormat error)
  else ok_or (parse_pairs value) (InvalidFormat error).

(** ** [serde_json] on one record type

    [json_to_vec] is [serde_json::to_vec], [json_from_slice] is
    [serde_json::from_slice]; the derived codecs of a record read back what
    they wrote. *)

Class Json (A : Type) : Type := {
  json_to_vec : A → option bytes;
  json_from_slice : bytes → option A;
}.

Class JsonOk (A : Type) `{Json A} : Prop := {
  json_roundtrip a bs : json_to_vec a = Some bs → json_from_slice bs = Some a;
}.

(** ** Lemmas *)

Lemma fixed_array_some n bs a : fixed_array n bs = Some a ↔ a = bs ∧ length bs = n.
Proof. unfold fixed_array. case_decide; split; intros; destruct_and?; simplify_eq; auto. Qed.

Lemma from_slice_ok {k} bs (i : Identifier k) :
  from_slice bs = Ok i ↔ i = mkId bs ∧ length bs = 16%nat.
Proof.
  unfold from_slice, fixed_array. case_decide; simpl; split; intros; destruct_and?; simplify_eq; auto.
Qed.

Lemma from_slice_as_bytes {k} (i : Identifier k) : wf_id i → from_slice (as_bytes i) = Ok i.
Proof. intros [? _]. apply from_slice_ok. by destruct i. Qed.

Lemma length_hex_encode bs : length (hex_encode bs) = (2 * length bs)%nat.
Proof. induction bs as [|b bs IH]; simpl; lia. Qed.
#[export] Hint Rewrite length_hex_encode : vlen.

(** A nibble's digit is a lowercase hexadecimal character with that value. *)
Lemma hex_digit_spec n :
  0 ≤ n < 16 →
  digit_value (hex_digit n) = Some n ∧ is_ascii_hexdigit (hex_digit n) = true ∧
  is_ascii_uppercase (hex_digit n) = false ∧ hex_digit n ≠ 43.
Proof.
  intros Hn. assert (n = 0 ∨ n = 1 ∨ n = 2 ∨ n = 3 ∨ n = 4 ∨ n = 5 ∨ n = 6 ∨ n = 7 ∨ n = 8 ∨ n = 9 ∨
    n = 10 ∨ n = 11 ∨ n = 12 ∨ n = 13 ∨ n = 14 ∨ n = 15) as H by lia.
  repeat destruct H as [->|H]; subst; done.
Qed.

Lemma byte_nibbles b : is_u8 b → 0 ≤ Z.shiftr b 4 < 16 ∧ 0 ≤ Z.land b 15 < 16 ∧
  16 * Z.shiftr b 4 + Z.land b 15 = b.
Proof.
  unfold is_u8, u8_max. intros Hb. change 15 with (Z.ones 4). rewrite Z.land_ones by lia.
  rewrite Z.shiftr_div_pow2 by lia. change (2 ^ 4) with 16. Z.to_euclidean_division_equations; lia.
Qed.

Lemma parse_hex_byte b s : is_u8 b → parse_pairs (hex_byte b ++ s) = (cons b) <$> parse_pairs s.
Proof.
  intros Hb. destruct (byte_nibbles b Hb) as (H1 & H2 & H3).
  destruct (hex_digit_spec _ H1) as (E1 & _ & _ & N1), (hex_digit_spec _ H2) as (E2 & _).
  simpl. unfold u8_from_str_radix16. rewrite decide_False by done. rewrite E1, E2, H3.
  by destruct (parse_pairs s).
Qed.

Lemma parse_pairs_hex_encode bs : wf_bytes bs → parse_pairs (hex_encode bs) = Some bs.
Proof.
  induction 1 as [|b bs Hb _ IH]; [done|]. cbn [hex_encode]. by rewrite parse_hex_byte, IH.
Qed.

Lemma hex_encode_lower bs :
  wf_bytes bs → forallb (λ c, is_ascii_hexdigit c && negb (is_ascii_uppercase c)) (hex_encode bs) = true.
Proof.
  induction 1 as [|b bs Hb _ IH]; [done|].
  cbn [hex_encode hex_byte app forallb]. rewrite IH. destruct (byte_nibbles b Hb) as (H1 & H2 & _).
  destruct (hex_digit_spec _ H1) as (_ & -> & -> & _), (hex_digit_spec _ H2) as (_ & -> & -> & _). done.
Qed.

Lemma parse_fixed_hex_encode n bs error :
  wf_bytes bs → length bs = n → parse_fixed n (hex_encode bs) error = Ok bs.
Proof.
  intros Hwf Hlen. unfold parse_fixed.
  rewrite bool_decide_eq_true_2, hex_encode_lower by (autorewrite with vlen; lia || done).
  simpl. by rewrite parse_pairs_hex_encode.
Qed.

Lemma lower_hex_digit c :
  is_ascii_hexdigit c && negb (is_ascii_uppercase c) = true →
  ∃ n, digit_value c = Some n ∧ 0 ≤ n < 16 ∧ hex_digit n = c ∧ c ≠ 43.
Proof.
  unfold is_ascii_hexdigit, is_ascii_uppercase, digit_value, hex_digit, is_ascii_digit. intros H.
  destruct ((48 <=? c) && (c <=? 57)) eqn:E1.
  - exists (c - 48). split; [done|]. destruct (Z.ltb_spec (c - 48) 10); lia.
  - destruct ((97 <=? c) && (c <=? 102)) eqn:E2; [|lia].
    exists (c - 87). split; [done|]. destruct (Z.ltb_spec (c - 87) 10); lia.
Qed.

Lemma hex_byte_nibbles x y : 0 ≤ x < 16 → 0 ≤ y < 16 → hex_byte (16 * x + y) = [hex_digit x; hex_digit y].
Proof.
  intros. unfold hex_byte. change 15 with (Z.ones 4). rewrite Z.land_ones, Z.shiftr_div_pow2 by lia.
  change (2 ^ 4) with 16. repeat f_equal; Z.to_euclidean_division_equations; lia.
Qed.

(** Lowercase text parses to the only byte string that prints as it. *)
Lemma parse_pairs_lower n s :
  length s = (n * 2)%nat →
  forallb (λ c, is_ascii_hexdigit c && negb (is_ascii_uppercase c)) s = true →
  ∃ bs, parse_pairs s = Some bs ∧ hex_encode bs = s ∧ length bs = n ∧ wf_bytes bs.
Proof.
  revert s. induction n as [|n IH]; intros s Hs Hl.
  { destruct s; [|done]. exists []. repeat split; constructor. }
  destruct s as [|a [|b s]]; try (simpl in Hs; lia). cbn [forallb] in Hl.
  rewrite !andb_true_iff in Hl. destruct Hl as ([Ha1 Ha2] & [Hb1 Hb2] & Hl).
  destruct (lower_hex_digit a) as (x & Ea & Hx & Exa & Na); [by rewrite Ha1, Ha2|].
  destruct (lower_hex_digit b) as (y & Eb & Hy & Eyb & _); [by rewrite Hb1, Hb2|].
  destruct (IH s) as (bs & E & Ebs & Hlen & Hwf); [simpl in Hs; lia|done|].
  exists (16 * x + y :: bs). cbn [parse_pairs u8_from_str_radix16]. rewrite decide_False, Ea, Eb, E by done. repeat split.
  - cbn [hex_encode]. by rewrite hex_byte_nibbles, Exa, Eyb, Ebs.
  - simpl. lia.
  - constructor; [unfold is_u8, u8_max; lia|done].
Qed.

Lemma parse_fixed_ok n value error bs :
  parse_fixed n value error = Ok bs → hex_encode bs = value ∧ length bs = n ∧ wf_bytes bs.
Proof.
  unfold parse_fixed. intros H. step_ok H. apply orb_false_iff in E as [E1 E2].
  apply negb_false_iff in E1, E2. apply bool_decide_eq_true in E1.
  destruct (parse_pairs_lower n value E1 E2) as (bs' & E & ?). rewrite E in H. simpl in H. naive_solver.
Qed.

Lemma parse_fixed_err n value error e : parse_fixed n value error = Err e → e = InvalidFormat error.
Proof. unfold parse_fixed. case_match; [naive_solver|]. destruct (parse_pairs value); naive_solver. Qed.
