(* ===== verification/Cde.v ===== *)
(** * The canonical Manifest codec

    Models [crates/vlt1-core/src/cde.rs]: the deterministic CBOR writer, the
    offset-based [Decoder] and the two entry points.  The theorems show that
    decoding inverts encoding, that the decoder accepts nothing but an
    encoding (so a Manifest has one byte representation), and that it fails
    with a format error on everything else. *)

From S2P Require Import Prelude Format.
From Stdlib Require Import ZArith Lia.
From stdpp Require Import base numbers list gmap strings.

Open Scope Z_scope.
Open Scope vlt_scope.

Module Cde.

Definition MAP_FIELDS : Z := 8.

(** ** The writer *)

(** [output] is the vector written so far; each function returns it extended. *)
Definition put_major_uint (output : bytes) (major value : Z) : bytes :=
  let bs := be_bytes 8 value in
  let last := default 0 (bs !! 7%nat) in
  if value <=? 0x17 then output ++ [Z.lor (Z.shiftl major 5) last]
  else if value <=? 0xff then output ++ [Z.lor (Z.shiftl major 5) 0x18; last]
  else if value <=? 0xffff then (output ++ [Z.lor (Z.shiftl major 5) 0x19]) ++ drop 6 bs
  else if value <=? 0xffffffff then (output ++ [Z.lor (Z.shiftl major 5) 0x1a]) ++ drop 4 bs
  else (output ++ [Z.lor (Z.shiftl major 5) 0x1b]) ++ bs.

Definition put_uint (output : bytes) (key value : Z) : bytes :=
  put_major_uint (output ++ [key]) 0 value.

Definition put_bytes (output : bytes) (key : Z) (bs : bytes) : bytes :=
  put_major_uint (output ++ [key]) 2 (lenZ bs) ++ bs.

Definition encode_manifest (m : Manifest) : bytes :=
  let output := [Z.lor 0xa0 MAP_FIELDS] in
  let output := put_uint output 1 (format_version m) in
  let output := put_bytes output 2 (as_bytes (object_id m)) in
  let output := put_bytes output 3 (as_bytes (version_id m)) in
  let output := put_uint output 4 (plaintext_len m) in
  let output := put_uint output 5 (chunk_size m) in
  let output := put_uint output 6 (chunk_count m) in
  let output := put_bytes output 7 (chunk_digest m) in
  put_uint output 8 1.

(** ** The reader *)

Record Decoder : Type := mkDecoder { input : bytes; offset : nat }.

Definition decoder_new (input : bytes) : Decoder := mkDecoder input 0.

(** Every method takes the decoder by [&mut] and returns it updated; on an
    error the caller drops it. *)
Definition take_byte (d : Decoder) : Result (Z * Decoder) :=
  let? value := ok_or (input d !! offset d) (InvalidFormat "truncated manifest") in
  Ok (value, mkDecoder (input d) (offset d + 1)).

(** [self.input.get(self.offset..end)]. *)
Definition slice_get (bs : bytes) (start stop : nat) : option bytes :=
  if (stop <=? length bs)%nat then Some (take (stop - start) (drop start bs)) else None.

Definition read_fixed (n : nat) (d : Decoder) : Result (bytes * Decoder) :=
  let? stop := ok_or (usize_checked_add (offset d) n) (InvalidFormat "fixed read overflow") in
  let? bs := ok_or (slice_get (input d) (offset d) stop) (InvalidFormat "truncated integer") in
  let? bs := ok_or (fixed_array n bs) (InvalidFormat "invalid fixed integer") in
  Ok (bs, mkDecoder (input d) stop).

Definition canonical_additional (value : Z) : Z :=
  if value <=? 0x17 then default 0 (be_bytes 8 value !! 7%nat)
  else if value <=? 0xff then 0x18
  else if value <=? 0xffff then 0x19
  else if value <=? 0xffffffff then 0x1a
  else 0x1b.

Definition read_major_uint (expected_major : Z) (d : Decoder) : Result (Z * Decoder) :=
  let? (initial, d) := take_byte d in
  if negb (Z.shiftr initial 5 =? expected_major)
  then Err (InvalidFormat "unexpected CBOR major type") else
  let additional := Z.land initial 0x1f in
  let? (value, d) :=
    if additional <=? 23 then Ok (additional, d)
    else if additional =? 24 then take_byte d
    else if additional =? 25 then
      let? (bs, d) := read_fixed 2 d in Ok (from_be_bytes bs, d)
    else if additional =? 26 then
      let? (bs, d) := read_fixed 4 d in Ok (from_be_bytes bs, d)
    else if additional =? 27 then
      let? (bs, d) := read_fixed 8 d in Ok (from_be_bytes bs, d)
    else Err (InvalidFormat "indefinite or reserved CBOR length") in
  if negb (canonical_additional value =? additional)
  then Err (InvalidFormat "non-canonical integer encoding")
  else Ok (value, d).

Definition read_uint (d : Decoder) : Result (Z * Decoder) := read_major_uint 0 d.

Definition read_bytes_exact (expected_len : nat) (d : Decoder) : Result (bytes * Decoder) :=
  let? (len, d) := read_major_uint 2 d in
  let? len := (if len <=? usize_max then Ok (Z.to_nat len)
               else Err (InvalidFormat "byte string length exceeds usize")) in
  if negb (len =? expected_len)%nat then Err (InvalidFormat "unexpected byte string length") else
  let? stop := ok_or (usize_checked_add (offset d) len) (InvalidFormat "byte string length overflow") in
  let? bs := ok_or (slice_get (input d) (offset d) stop) (InvalidFormat "truncated byte string") in
  Ok (bs, mkDecoder (input d) stop).

Definition finished (d : Decoder) : bool := (offset d =? length (input d))%nat.

(** The seven [Option] locals of [decode_manifest]. *)
Record Fields : Type := mkFields {
  f_format_version : option Z;
  f_object_id : option ObjectId;
  f_version_id : option VersionId;
  f_plaintext_len : option Z;
  f_chunk_size : option Z;
  f_chunk_count : option Z;
  f_chunk_digest : option bytes;
}.

Definition no_fields : Fields := mkFields None None None None None None None.

(** One iteration of [for expected_key in 1..=MAP_FIELDS]. *)
Definition decode_field (expected_key : Z) (f : Fields) (d : Decoder) : Result (Fields * Decoder) :=
  let '(mkFields fv oi vi pl cs cc cd) := f in
  let? (key, d) := read_uint d in
  if negb (key =? expected_key)
  then Err (InvalidFormat "manifest keys must be ordered and unique") else
  if key =? 1 then
    let? (value, d) := read_uint d in
    let? value := ok_or (u32_try_from value) (InvalidFormat "format version exceeds u32") in
    Ok (mkFields (Some value) oi vi pl cs cc cd, d)
  else if key =? 2 then
    let? (bs, d) := read_bytes_exact 16 d in
    let? i := from_slice bs in
    Ok (mkFields fv (Some i) vi pl cs cc cd, d)
  else if key =? 3 then
    let? (bs, d) := read_bytes_exact 16 d in
    let? i := from_slice bs in
    Ok (mkFields fv oi (Some i) pl cs cc cd, d)
  else if key =? 4 then
    let? (value, d) := read_uint d in
    Ok (mkFields fv oi vi (Some value) cs cc cd, d)
  else if key =? 5 then
    let? (value, d) := read_uint d in
    let? value := ok_or (u32_try_from value) (InvalidFormat "chunk size exceeds u32") in
    Ok (mkFields fv oi vi pl (Some value) cc cd, d)
  else if key =? 6 then
    let? (value, d) := read_uint d in
    let? value := ok_or (u32_try_from value) (InvalidFormat "chunk count exceeds u32") in
    Ok (mkFields fv oi vi pl cs (Some value) cd, d)
  else if key =? 7 then
    let? (bs, d) := read_bytes_exact 32 d in
    Ok (mkFields fv oi vi pl cs cc (Some bs), d)
  else
    let? (value, d) := read_uint d in
    if negb (value =? 1) then Err (InvalidFormat "manifest profile marker is invalid")
    else Ok (f, d).

Fixpoint decode_fields (keys : list Z) (f : Fields) (d : Decoder) : Result (Fields * Decoder) :=
  match keys with
  | [] => Ok (f, d)
  | key :: keys =>
      let? (f, d) := decode_field key f d in
      decode_fields keys f d
  end.

Definition decode_manifest (input : bytes) : Result Manifest :=
  let d := decoder_new input in
  let? (initial, d) := take_byte d in
  if negb (initial =? Z.lor 0xa0 MAP_FIELDS)
  then Err (InvalidFormat "manifest must be an eight-field map") else
  let? (f, d) := decode_fields (seqZ 1 MAP_FIELDS) no_fields d in
  if negb (finished d) then Err (InvalidFormat "trailing manifest bytes") else
  let? fv := ok_or (f_format_version f) (InvalidFormat "missing format version") in
  let? oi := ok_or (f_object_id f) (InvalidFormat "missing object ID") in
  let? vi := ok_or (f_version_id f) (InvalidFormat "missing version ID") in
  let? pl := ok_or (f_plaintext_len f) (InvalidFormat "missing plaintext length") in
  let? cs := ok_or (f_chunk_size f) (InvalidFormat "missing chunk size") in
  let? cc := ok_or (f_chunk_count f) (InvalidFormat "missing chunk count") in
  let? cd := ok_or (f_chunk_digest f) (InvalidFormat "missing chunk digest") in
  Ok (mkManifest fv oi vi pl cs cc cd).

(** The fixed wire vector of the source's own test. *)
Definition sample_manifest : Manifest :=
  mkManifest 1 (mkId (seqZ 0 16)) (mkId (seqZ 16 16)) 0x0102 4096 2 (replicate 32 0xa5).

Example sample_encoding :
  encode_manifest sample_manifest =
  [0xa8; 0x01; 0x01; 0x02; 0x50] ++ seqZ 0 16 ++ [0x03; 0x50] ++ seqZ 16 16 ++
  [0x04; 0x19; 0x01; 0x02; 0x05; 0x19; 0x10; 0x00; 0x06; 0x02; 0x07; 0x58; 0x20] ++
  replicate 32 0xa5 ++ [0x08; 0x01].
Proof. vm_compute. reflexivity. Qed.

Example sample_decoding : decode_manifest (encode_manifest sample_manifest) = Ok sample_manifest.
Proof. vm_compute. reflexivity. Qed.

(** ** The decoder's view of its input *)

Definition rest (d : Decoder) : bytes := drop (offset d) (input d).

(** The decoder has not run past the end of its slice. *)
Definition decoder_ok (d : Decoder) : Prop :=
  (offset d ≤ length (input d))%nat ∧ lenZ (input d) ≤ usize_max.

Definition decoder_at (d : Decoder) (r : bytes) : Prop := decoder_ok d ∧ rest d = r.

(** The bytes [put_major_uint] appends. *)
Abbreviation uint_bytes := (put_major_uint []).

Lemma put_major_uint_app output major value :
  put_major_uint output major value = output ++ uint_bytes major value.
Proof. unfold put_major_uint. repeat case_match; by rewrite <-?(assoc_L (++)). Qed.

Lemma advance_at d bs r :
  decoder_at d (bs ++ r) → decoder_at (mkDecoder (input d) (offset d + length bs)) r.
Proof.
  unfold decoder_at, decoder_ok, rest. simpl. intros ((Ho & Hu) & E).
  assert (length (drop (offset d) (input d)) = length (bs ++ r)) as El by by rewrite E.
  rewrite length_drop, length_app in El. split_and!; [lia|done|].
  by rewrite <- drop_drop, E, drop_app_length.
Qed.

Lemma take_byte_at d b r :
  decoder_at d (b :: r) → take_byte d = Ok (b, mkDecoder (input d) (offset d + 1)).
Proof.
  intros [_ E]. unfold rest in E. unfold take_byte.
  assert (input d !! offset d = Some b) as ->; [|done].
  by rewrite <- (Nat.add_0_r (offset d)), <- lookup_drop, E.
Qed.

Lemma slice_at d bs r n :
  decoder_at d (bs ++ r) → n = length bs →
  usize_checked_add (offset d) n = Some (offset d + n)%nat ∧
  slice_get (input d) (offset d) (offset d + n) = Some bs.
Proof.
  intros [(Ho & Hu) E] ->. unfold rest in E.
  assert (length (drop (offset d) (input d)) = length (bs ++ r)) as El by by rewrite E.
  rewrite length_drop, length_app in El. split.
  - apply usize_checked_add_some. unfold lenZ in Hu. lia.
  - unfold slice_get. rewrite (proj2 (Nat.leb_le _ _)) by lia.
    replace (offset d + length bs - offset d)%nat with (length bs) by lia.
    by rewrite E, take_app_length.
Qed.

Lemma read_fixed_at d bs r n :
  decoder_at d (bs ++ r) → n = length bs →
  read_fixed n d = Ok (bs, mkDecoder (input d) (offset d + n)).
Proof.
  intros Hd Hn. destruct (slice_at d bs r n Hd Hn) as [E1 E2].
  unfold read_fixed. rewrite E1. simpl. rewrite E2. simpl.
  by rewrite (proj2 (fixed_array_some n bs bs)).
Qed.

(** ** Reading back what was written *)

Lemma major_initial major a :
  0 ≤ a < 32 →
  Z.shiftr (Z.lor (Z.shiftl major 5) a) 5 = major ∧ Z.land (Z.lor (Z.shiftl major 5) a) 0x1f = a.
Proof.
  intros Ha. assert (Z.shiftr a 5 = 0) as Hs by (rewrite Z.shiftr_div_pow2 by lia; apply Z.div_small; lia).
  split.
  - rewrite Z.shiftr_lor, Hs, Z.lor_0_r, Z.shiftr_shiftl_l by lia. by rewrite Z.shiftl_0_r.
  - change 0x1f with (Z.ones 5). rewrite Z.land_lor_distr_l, !Z.land_ones by lia.
    rewrite Z.shiftl_mul_pow2, Z.mod_mul, Z.lor_0_l by lia. apply Z.mod_small. lia.
Qed.

Lemma be_bytes_last v : 0 ≤ v ≤ 0xff → default 0 (be_bytes 8 v !! 7%nat) = v.
Proof. intros. simpl. rewrite Z.div_1_r. apply Z.mod_small. lia. Qed.

Lemma drop_be_bytes k n v : drop k (be_bytes (k + n) v) = be_bytes n v.
Proof. induction k; simpl; auto. Qed.

Lemma canonical_additional_bound v : 0 ≤ v → 0 ≤ canonical_additional v < 32.
Proof.
  intros. unfold canonical_additional. destruct (Z.leb_spec v 0x17); [|repeat case_match; lia].
  rewrite be_bytes_last; lia.
Qed.

(** The five widths of an encoded head: an initial byte, then the value in the
    smallest of 0, 1, 2, 4 or 8 bytes. *)
Inductive uint_shape (major v : Z) : bytes → Prop :=
| shape_immediate : 0 ≤ v ≤ 0x17 → uint_shape major v [Z.lor (Z.shiftl major 5) v]
| shape_wide k a :
    canonical_additional v = a → 0x18 ≤ a ≤ 0x1b → Z.of_nat k = 2 ^ (a - 0x18) →
    0 ≤ v < 256 ^ Z.of_nat k →
    uint_shape major v (Z.lor (Z.shiftl major 5) a :: be_bytes k v).

Lemma uint_bytes_shape major v : is_u64 v → uint_shape major v (uint_bytes major v).
Proof.
  unfold is_u64, u64_max, put_major_uint. intros [Hv0 Hv].
  destruct (Z.leb_spec v 0x17); [rewrite be_bytes_last by lia; constructor; lia|].
  destruct (Z.leb_spec v 0xff).
  { rewrite be_bytes_last by lia. replace [v] with (be_bytes 1 v)
      by (simpl; rewrite Z.div_1_r, Z.mod_small by lia; done).
    apply shape_wide; [|lia|done|simpl; lia]. unfold canonical_additional.
    repeat (case_match; try lia). }
  destruct (Z.leb_spec v 0xffff).
  { rewrite (drop_be_bytes 6 2). apply (shape_wide _ _ 2); [|lia|done|simpl; lia].
    unfold canonical_additional. repeat (case_match; try lia). }
  destruct (Z.leb_spec v 0xffffffff).
  { rewrite (drop_be_bytes 4 4). apply (shape_wide _ _ 4); [|lia|done|simpl; lia].
    unfold canonical_additional. repeat (case_match; try lia). }
  apply (shape_wide _ _ 8); [|lia|done|simpl; lia].
  unfold canonical_additional. repeat (case_match; try lia).
Qed.

Lemma uint_bytes_length major v : is_u64 v → (length (uint_bytes major v) ≤ 9)%nat.
Proof.
  intros Hv. destruct (uint_bytes_shape major v Hv) as [|k a _ Ha Hk _]; simpl; [lia|].
  rewrite length_be_bytes. assert (a = 0x18 ∨ a = 0x19 ∨ a = 0x1a ∨ a = 0x1b) as H by lia.
  repeat destruct H as [->|H]; subst; simpl in Hk; lia.
Qed.

Lemma read_major_uint_at d major v r :
  is_u64 v → decoder_at d (uint_bytes major v ++ r) →
  ∃ d', read_major_uint major d = Ok (v, d') ∧ decoder_at d' r.
Proof.
  intros Hv Hd. destruct (uint_bytes_shape major v Hv) as [Hi|k a Ha Hab Hk Hvk]; unfold read_major_uint.
  - rewrite (take_byte_at _ _ _ Hd). simpl.
    destruct (major_initial major v) as [-> ->]; [lia|]. rewrite Z.eqb_refl. simpl.
    rewrite (proj2 (Z.leb_le v 23)) by lia. simpl.
    unfold canonical_additional. rewrite (proj2 (Z.leb_le v 0x17)), be_bytes_last, Z.eqb_refl by lia.
    simpl. eexists; split; [done|]. by apply (advance_at d [Z.lor (Z.shiftl major 5) v]).
  - rewrite (take_byte_at _ _ _ Hd). apply (advance_at d [Z.lor (Z.shiftl major 5) a]) in Hd. simpl in Hd |- *.
    destruct (major_initial major a) as [-> ->]; [lia|]. rewrite Z.eqb_refl. simpl.
    set (d1 := mkDecoder _ _) in *.
    assert (read_fixed k d1 = Ok (be_bytes k v, mkDecoder (input d1) (offset d1 + k))) as Hr
      by (apply (read_fixed_at _ _ r); by rewrite ?length_be_bytes).
    apply (advance_at d1) in Hd as Hd2. rewrite length_be_bytes in Hd2.
    pose proof (from_be_be_bytes_small k v Hvk) as Hf.
    assert (a = 0x18 ∨ a = 0x19 ∨ a = 0x1a ∨ a = 0x1b) as H by lia.
    destruct H as [-> |[-> |[-> | ->]]]; simpl in Hk |- *.
    + assert (k = 1%nat) as -> by lia. simpl in Hvk. simpl in Hd.
      rewrite Z.div_1_r, Z.mod_small in Hd by lia. rewrite (take_byte_at _ _ _ Hd). simpl.
      rewrite Ha. simpl. eauto.
    + assert (k = 2%nat) as -> by lia. rewrite Hr. cbn [rbind]. rewrite Hf, Ha. simpl. eauto.
    + assert (k = 4%nat) as -> by lia. rewrite Hr. cbn [rbind]. rewrite Hf, Ha. simpl. eauto.
    + assert (k = 8%nat) as -> by lia. rewrite Hr. cbn [rbind]. rewrite Hf, Ha. simpl. eauto.
Qed.

Lemma read_bytes_exact_at d bs r n :
  n = length bs → (n ≤ 32)%nat → decoder_at d (uint_bytes 2 (lenZ bs) ++ bs ++ r) →
  ∃ d', read_bytes_exact n d = Ok (bs, d') ∧ decoder_at d' r.
Proof.
  intros Hn Hle Hd. assert (is_u64 (lenZ bs)) as Hu by (unfold is_u64, u64_max, lenZ; lia).
  destruct (read_major_uint_at d 2 (lenZ bs) (bs ++ r) Hu Hd) as (d1 & E1 & Hd1).
  unfold read_bytes_exact. rewrite E1. cbn [rbind].
  rewrite (proj2 (Z.leb_le _ _)) by (unfold usize_max, lenZ; lia). cbn [rbind].
  assert (Z.to_nat (lenZ bs) = n) as -> by (unfold lenZ; lia). rewrite Nat.eqb_refl. cbn [negb].
  destruct (slice_at d1 bs r n Hd1 Hn) as [-> E2]. cbn [rbind ok_or]. rewrite E2. cbn [rbind ok_or].
  subst n. eexists; split; [done|]. by apply advance_at.
Qed.

(** The encoding, item by item; a key is itself an immediate integer. *)
Lemma encode_manifest_items m :
  wf_manifest m →
  encode_manifest m =
  0xa8 :: uint_bytes 0 1 ++ uint_bytes 0 (format_version m) ++
  uint_bytes 0 2 ++ uint_bytes 2 (lenZ (as_bytes (object_id m))) ++ as_bytes (object_id m) ++
  uint_bytes 0 3 ++ uint_bytes 2 (lenZ (as_bytes (version_id m))) ++ as_bytes (version_id m) ++
  uint_bytes 0 4 ++ uint_bytes 0 (plaintext_len m) ++
  uint_bytes 0 5 ++ uint_bytes 0 (chunk_size m) ++
  uint_bytes 0 6 ++ uint_bytes 0 (chunk_count m) ++
  uint_bytes 0 7 ++ uint_bytes 2 (lenZ (chunk_digest m)) ++ chunk_digest m ++
  uint_bytes 0 8 ++ uint_bytes 0 1.
Proof.
  intros _. unfold encode_manifest, put_uint, put_bytes.
  repeat rewrite (put_major_uint_app (_ ++ _)).
  change (uint_bytes 0 1) with [1]. change (uint_bytes 0 2) with [2]. change (uint_bytes 0 3) with [3].
  change (uint_bytes 0 4) with [4]. change (uint_bytes 0 5) with [5]. change (uint_bytes 0 6) with [6].
  change (uint_bytes 0 7) with [7]. change (uint_bytes 0 8) with [8].
  change (Z.lor 160 MAP_FIELDS) with 0xa8. rewrite <-!(assoc_L (++)). done.
Qed.

Lemma lenZ_encode_manifest m : wf_manifest m → lenZ (encode_manifest m) ≤ usize_max.
Proof.
  intros Hm. rewrite encode_manifest_items by done.
  destruct Hm as (H1 & [H2 _] & [H3 _] & H4 & H5 & H6 & H7 & _).
  assert (∀ x, is_u32 x → is_u64 x) as Hw by (unfold is_u32, is_u64, u32_max, u64_max; lia).
  unfold lenZ. rewrite H2, H3, H7. cbn [length]. rewrite !length_app, H2, H3, H7.
  repeat match goal with
    |- context [length (uint_bytes ?a ?v)] =>
      let H := fresh in
      assert (length (uint_bytes a v) ≤ 9)%nat as H
        by (apply uint_bytes_length; solve [auto | unfold is_u64, u64_max; lia]);
      revert H; generalize (length (uint_bytes a v)); intros ? H
  end.
  unfold usize_max. lia.
Qed.

Lemma decoder_at_end d : decoder_at d [] → finished d = true.
Proof.
  intros [[Ho _] E]. unfold finished, rest in *. apply (f_equal length) in E.
  rewrite length_drop in E. apply Nat.eqb_eq. simpl in E. lia.
Qed.

(** Drive the decoder over one encoded item. *)
Ltac read_item :=
  match goal with
  | Hd : decoder_at ?d (uint_bytes 2 (lenZ ?bs) ++ ?bs ++ ?r) |- context [read_bytes_exact ?n ?d] =>
      let E := fresh in
      destruct (read_bytes_exact_at d bs r n) as (? & E & ?); [done|lia|exact Hd|];
      rewrite E; clear E Hd; cbn [rbind]
  | Hd : decoder_at ?d (uint_bytes 0 ?v ++ ?r) |- context [read_uint ?d] =>
      let E := fresh in
      destruct (read_major_uint_at d 0 v r) as (? & E & ?);
        [solve [auto | unfold is_u64, u64_max; lia]|exact Hd|];
      change (read_major_uint 0 d) with (read_uint d) in E; rewrite E; clear E Hd; cbn [rbind]
  end.

(** Decoding inverts encoding on every Manifest the field types allow. *)
Lemma decode_encode_manifest m : wf_manifest m → decode_manifest (encode_manifest m) = Ok m.
Proof.
  intros Hm. pose proof (lenZ_encode_manifest m Hm) as Hlen.
  assert (decoder_at (decoder_new (encode_manifest m)) (encode_manifest m)) as Hd
    by (split; [split; [simpl; lia|done]|done]).
  unfold decode_manifest. rewrite encode_manifest_items in Hd at 2 by done.
  rewrite (take_byte_at _ _ _ Hd). apply (advance_at _ [0xa8]) in Hd. cbn [rbind].
  set (d0 := mkDecoder _ _) in *. change (mkDecoder _ _) with d0 in Hd.
  destruct Hm as (H1 & H2 & H3 & H4 & H5 & H6 & H7 & _).
  assert (∀ x, is_u32 x → is_u64 x) as Hw by (unfold is_u32, is_u64, u32_max, u64_max; lia).
  assert (length (as_bytes (object_id m)) = 16%nat) as L2 by apply H2.
  assert (length (as_bytes (version_id m)) = 16%nat) as L3 by apply H3.
  change (seqZ 1 MAP_FIELDS) with [1; 2; 3; 4; 5; 6; 7; 8]. cbn [decode_fields negb Z.eqb].
  unfold decode_field. cbn [no_fields].
  do 2 read_item; cbn [negb Z.eqb Pos.eqb rbind]. rewrite (u32_try_from_ok _ H1). cbn [rbind ok_or].
  do 2 read_item; cbn [negb Z.eqb Pos.eqb rbind]. rewrite (from_slice_as_bytes _ H2). cbn [rbind].
  do 2 read_item; cbn [negb Z.eqb Pos.eqb rbind]. rewrite (from_slice_as_bytes _ H3). cbn [rbind].
  do 2 read_item; cbn [negb Z.eqb Pos.eqb rbind].
  do 2 read_item; cbn [negb Z.eqb Pos.eqb rbind]. rewrite (u32_try_from_ok _ H5). cbn [rbind ok_or].
  do 2 read_item; cbn [negb Z.eqb Pos.eqb rbind]. rewrite (u32_try_from_ok _ H6). cbn [rbind ok_or].
  do 2 read_item; cbn [negb Z.eqb Pos.eqb rbind].
  read_item. rewrite <- (app_nil_r (uint_bytes 0 1)) in *. read_item. cbn [negb Z.eqb Pos.eqb rbind].
  rewrite decoder_at_end by done. by destruct m.
Qed.

Example sample_round_trip :
  decode_manifest (encode_manifest sample_manifest) = Ok sample_manifest.
Proof.
  apply decode_encode_manifest. unfold wf_manifest, wf_id, is_u32, is_u64, wf_bytes, is_u8.
  split_and!; try (vm_compute; done); apply Forall_forall; intros x Hx;
    (apply elem_of_seqZ in Hx || apply elem_of_replicate in Hx); unfold u8_max; simpl in *; lia.
Qed.

(** ** Nothing but an encoding is accepted *)

(** [d'] is [d] after consuming [bs]. *)
Definition consumed (d : Decoder) (bs : bytes) (d' : Decoder) : Prop :=
  decoder_ok d' ∧ input d' = input d ∧ rest d = bs ++ rest d'.

Lemma consumed_trans d1 d2 d3 a b :
  consumed d1 a d2 → consumed d2 b d3 → consumed d1 (a ++ b) d3.
Proof.
  intros (_ & E1 & R1) (? & E2 & R2). split_and!; [done|congruence|]. by rewrite R1, R2, (assoc_L (++)).
Qed.

Lemma consumed_wf d bs d' : wf_bytes (input d) → consumed d bs d' → wf_bytes bs ∧ wf_bytes (input d').
Proof.
  intros Hw (_ & E & R). rewrite E. split; [|done]. clear E. apply (wf_bytes_drop (offset d)) in Hw.
  unfold rest in R. rewrite R in Hw. by apply wf_bytes_app in Hw as [? _].
Qed.

Lemma take_byte_inv d b d' : decoder_ok d → take_byte d = Ok (b, d') → consumed d [b] d'.
Proof.
  unfold take_byte. intros [Ho Hu] H. step_ok H. injection H as -> <-.
  apply lookup_lt_Some in E as Hlt. unfold consumed, decoder_ok, rest. simpl. split_and!; [lia|done|done|].
  rewrite (drop_S _ _ _ E). by rewrite Nat.add_1_r.
Qed.

Lemma slice_inv d n stop bs :
  decoder_ok d → usize_checked_add (offset d) n = Some stop →
  slice_get (input d) (offset d) stop = Some bs →
  consumed d bs (mkDecoder (input d) stop) ∧ length bs = n.
Proof.
  intros [Ho Hu] [-> _]%usize_checked_add_some. unfold slice_get.
  destruct (Nat.leb_spec (offset d + n) (length (input d))); [|done]. intros [= <-].
  replace (offset d + n - offset d)%nat with n by lia. split; [|len].
  unfold consumed, decoder_ok, rest. simpl. split_and!; [lia|done|done|].
  rewrite <- (take_drop n (drop (offset d) (input d))) at 1. by rewrite drop_drop.
Qed.

Lemma read_fixed_inv n d bs d' :
  decoder_ok d → read_fixed n d = Ok (bs, d') → consumed d bs d' ∧ length bs = n.
Proof.
  intros Hd H. unfold read_fixed in H. steps_ok H. injection H as <- <-.
  apply fixed_array_some in E1 as [-> _]. by eapply slice_inv.
Qed.

Lemma major_initial_inv initial major a :
  Z.shiftr initial 5 = major → Z.land initial 0x1f = a → initial = Z.lor (Z.shiftl major 5) a.
Proof.
  intros <- <-. change 0x1f with (Z.ones 5). rewrite <- Z.ldiff_ones_r by lia.
  symmetry. apply Z.lor_ldiff_and.
Qed.

(** A value read from [k] bytes whose canonical width is [k] bytes is written
    back as exactly those bytes. *)
Lemma uint_bytes_canonical major v a :
  canonical_additional v = a → is_u64 v →
  uint_bytes major v = Z.lor (Z.shiftl major 5) a ::
    (if a <=? 23 then [] else be_bytes (Z.to_nat (2 ^ (a - 24))) v).
Proof.
  intros Ha Hv. destruct (uint_bytes_shape major v Hv) as [Hi|k a' Ha' Hab Hk Hvk].
  - assert (v = a) as ->; [|by rewrite (proj2 (Z.leb_le a 23)) by lia].
    rewrite <- Ha. unfold canonical_additional. rewrite (proj2 (Z.leb_le v _)), be_bytes_last by lia. done.
  - assert (a' = a) as -> by congruence. rewrite (proj2 (Z.leb_gt a 23)) by lia.
    by rewrite <- Hk, Nat2Z.id.
Qed.

Lemma read_major_uint_inv major d v d' :
  decoder_ok d → wf_bytes (input d) → read_major_uint major d = Ok (v, d') →
  consumed d (uint_bytes major v) d' ∧ is_u64 v.
Proof.
  intros Hd Hw H. unfold read_major_uint in H.
  destruct (take_byte d) as [[initial d1]|] eqn:E0; [|done]. cbn [rbind] in H.
  apply take_byte_inv in E0; [|done]. destruct (consumed_wf _ _ _ Hw E0) as [_ Hw1].
  assert (decoder_ok d1) as Hd1 by apply E0.
  destruct (negb _) eqn:E1 in H; [done|]. apply negb_false_iff, Z.eqb_eq in E1.
  remember (Z.land initial 31) as a eqn:Ea. symmetry in Ea.
  pose proof (major_initial_inv _ _ _ E1 Ea) as Hini.
  match type of H with rbind ?X _ = _ => destruct X as [[v' d2]|] eqn:E2; [|done] end.
  cbn [rbind] in H. destruct (negb _) eqn:E3 in H; [done|]. apply negb_false_iff, Z.eqb_eq in E3.
  injection H as -> ->.
  enough (consumed d1 (if a <=? 23 then [] else be_bytes (Z.to_nat (2 ^ (a - 24))) v) d' ∧ is_u64 v) as [Hc Hv].
  { rewrite (uint_bytes_canonical major v a) by done. split; [|done].
    rewrite <- Hini. by apply (consumed_trans _ d1 _ [initial]). }
  assert (∀ k, (let? (bs, d) := read_fixed k d1 in Ok (from_be_bytes bs, d)) = Ok (v, d') → (k ≤ 8)%nat →
    consumed d1 (be_bytes k v) d' ∧ is_u64 v) as Hfix.
  { intros k Hk Hk8. destruct (read_fixed k d1) as [[bs d3]|] eqn:E4; [|done]. injection Hk as <- <-.
    apply read_fixed_inv in E4 as [Hc Hl]; [|done]. destruct (consumed_wf _ _ _ Hw1 Hc) as [Hwb _].
    pose proof (from_be_bytes_bound bs Hwb) as Hb. split.
    - by rewrite <- Hl, be_bytes_from_be.
    - unfold is_u64, u64_max. unfold lenZ in Hb. rewrite Hl in Hb.
      pose proof (Z.pow_le_mono_r 256 (Z.of_nat k) 8). lia. }
  assert (0 ≤ a < 32) as Hab.
  { rewrite <- Ea. change 0x1f with (Z.ones 5). rewrite Z.land_ones by lia. apply Z.mod_pos_bound. lia. }
  destruct (Z.leb_spec a 23).
  { injection E2 as -> ->. split; [split_and!; done|unfold is_u64, u64_max; lia]. }
  destruct (Z.eqb_spec a 24) as [->|].
  { apply take_byte_inv in E2; [|done]. destruct (consumed_wf _ _ _ Hw1 E2) as [Hb _].
    apply Forall_inv in Hb. unfold is_u8, u8_max in Hb. simpl. rewrite Z.div_1_r, Z.mod_small by lia.
    split; [done|unfold is_u64, u64_max; lia]. }
  destruct (Z.eqb_spec a 25) as [->|]; [by apply (Hfix 2%nat); [|lia]|].
  destruct (Z.eqb_spec a 26) as [->|]; [by apply (Hfix 4%nat); [|lia]|].
  destruct (Z.eqb_spec a 27) as [->|]; [by apply (Hfix 8%nat); [|lia]|done].
Qed.

Lemma read_bytes_exact_inv n d bs d' :
  decoder_ok d → wf_bytes (input d) → read_bytes_exact n d = Ok (bs, d') →
  consumed d (uint_bytes 2 (lenZ bs) ++ bs) d' ∧ length bs = n ∧ wf_bytes bs.
Proof.
  intros Hd Hw H. unfold read_bytes_exact in H.
  destruct (read_major_uint 2 d) as [[len d1]|] eqn:E0; [|done]. cbn [rbind] in H.
  apply read_major_uint_inv in E0 as [Hc Hl]; [|done..].
  destruct (consumed_wf _ _ _ Hw Hc) as [_ Hw1].
  destruct (len <=? usize_max); [|done]. cbn [rbind] in H.
  destruct (negb _) eqn:E1 in H; [done|]. apply negb_false_iff, Nat.eqb_eq in E1.
  steps_ok H. injection H as -> <-.
  destruct (slice_inv d1 _ _ _ ltac:(apply Hc) E E0) as [Hc2 Hlen].
  destruct (consumed_wf _ _ _ Hw1 Hc2) as [Hwb _].
  assert (len = lenZ bs) as -> by (unfold lenZ; unfold is_u64 in Hl; lia).
  split_and!; [by eapply consumed_trans|lia|done].
Qed.

(** What reading field [k] does: [item] is the value's encoding and the
    corresponding slot of the record is filled. *)
Inductive field_read : Z → Fields → bytes → Fields → Prop :=
| read_format_version v x oi vi pl cs cc cd : is_u32 v →
    field_read 1 (mkFields x oi vi pl cs cc cd) (uint_bytes 0 v) (mkFields (Some v) oi vi pl cs cc cd)
| read_object_id i fv x vi pl cs cc cd : wf_id i →
    field_read 2 (mkFields fv x vi pl cs cc cd) (uint_bytes 2 (lenZ (as_bytes i)) ++ as_bytes i)
      (mkFields fv (Some i) vi pl cs cc cd)
| read_version_id i fv oi x pl cs cc cd : wf_id i →
    field_read 3 (mkFields fv oi x pl cs cc cd) (uint_bytes 2 (lenZ (as_bytes i)) ++ as_bytes i)
      (mkFields fv oi (Some i) pl cs cc cd)
| read_plaintext_len v fv oi vi x cs cc cd : is_u64 v →
    field_read 4 (mkFields fv oi vi x cs cc cd) (uint_bytes 0 v) (mkFields fv oi vi (Some v) cs cc cd)
| read_chunk_size v fv oi vi pl x cc cd : is_u32 v →
    field_read 5 (mkFields fv oi vi pl x cc cd) (uint_bytes 0 v) (mkFields fv oi vi pl (Some v) cc cd)
| read_chunk_count v fv oi vi pl cs x cd : is_u32 v →
    field_read 6 (mkFields fv oi vi pl cs x cd) (uint_bytes 0 v) (mkFields fv oi vi pl cs (Some v) cd)
| read_chunk_digest b fv oi vi pl cs cc x : length b = 32%nat → wf_bytes b →
    field_read 7 (mkFields fv oi vi pl cs cc x) (uint_bytes 2 (lenZ b) ++ b)
      (mkFields fv oi vi pl cs cc (Some b))
| read_profile f : field_read 8 f (uint_bytes 0 1) f.

Ltac inv_read :=
  match goal with
  | Hd : decoder_ok ?d, Hw : wf_bytes (input ?d), H : rbind (read_uint ?d) _ = Ok _ |- _ =>
      let E := fresh "E" in let Hc := fresh "Hc" in let Hv := fresh "Hv" in
      destruct (read_uint d) as [[? ?]|] eqn:E; [|discriminate H]; cbn [rbind] in H;
      apply read_major_uint_inv in E as [Hc Hv]; [|exact Hd|exact Hw]
  | Hd : decoder_ok ?d, Hw : wf_bytes (input ?d), H : rbind (read_bytes_exact _ ?d) _ = Ok _ |- _ =>
      let E := fresh "E" in let Hc := fresh "Hc" in
      destruct (read_bytes_exact _ d) as [[? ?]|] eqn:E; [|discriminate H]; cbn [rbind] in H;
      apply read_bytes_exact_inv in E as (Hc & ? & ?); [|exact Hd|exact Hw]
  end.

Lemma decode_field_inv k f d f' d' :
  1 ≤ k ≤ 8 → decoder_ok d → wf_bytes (input d) → decode_field k f d = Ok (f', d') →
  ∃ item, consumed d (uint_bytes 0 k ++ item) d' ∧ field_read k f item f'.
Proof.
  intros Hk Hd Hw H. destruct f as [fv oi vi pl cs cc cd]. unfold decode_field in H.
  inv_read. destruct (negb _) eqn:Ek in H; [done|]. apply negb_false_iff, Z.eqb_eq in Ek as ->.
  destruct (consumed_wf _ _ _ Hw Hc) as [_ Hw1]. assert (decoder_ok d0) as Hd0 by apply Hc.
  clear Hd Hw Hv.
  assert (k = 1 ∨ k = 2 ∨ k = 3 ∨ k = 4 ∨ k = 5 ∨ k = 6 ∨ k = 7 ∨ k = 8) as Hcase by lia.
  repeat destruct Hcase as [->|Hcase]; [..|subst k]; cbn [Z.eqb Pos.eqb] in H; inv_read;
    try match type of H with rbind (ok_or (u32_try_from _) _) _ = _ =>
      step_ok H; apply u32_try_from_some in E as [<- ?] end;
    try match type of H with rbind (from_slice _) _ = _ =>
      destruct (from_slice _) eqn:E in H; [|done]; cbn [rbind] in H; apply from_slice_ok in E as [-> _] end;
    try (destruct (negb _) eqn:E in H; [done|]; apply negb_false_iff, Z.eqb_eq in E as ->);
    injection H as <- <-; eexists; (split; [by eapply consumed_trans|]);
    first [ apply (read_object_id (mkId _)); by split | apply (read_version_id (mkId _)); by split
          | once constructor; first [done | unfold is_u64 in *; split; [lia|done]] ].
Qed.

Inductive fields_read : list Z → Fields → bytes → Fields → Prop :=
| fields_nil f : fields_read [] f [] f
| fields_cons k keys f item f1 items f2 :
    field_read k f item f1 → fields_read keys f1 items f2 →
    fields_read (k :: keys) f ((uint_bytes 0 k ++ item) ++ items) f2.

Lemma decode_fields_inv keys f d f' d' :
  Forall (λ k, 1 ≤ k ≤ 8) keys → decoder_ok d → wf_bytes (input d) →
  decode_fields keys f d = Ok (f', d') →
  ∃ items, consumed d items d' ∧ fields_read keys f items f'.
Proof.
  intros Hk. revert f d. induction Hk as [|k keys Hk _ IH]; intros f d Hd Hw H; simpl in H.
  { injection H as <- <-. exists []. split; [split_and!; done|constructor]. }
  destruct (decode_field k f d) as [[f1 d1]|] eqn:E; [|done]. cbn [rbind] in H.
  apply decode_field_inv in E as (item & Hc & Hf); [|done..].
  destruct (consumed_wf _ _ _ Hw Hc) as [_ Hw1].
  apply IH in H as (items & Hc' & Hf'); [|apply Hc|done].
  eexists. split; [by eapply consumed_trans|by econstructor].
Qed.

(** What the decoder accepts is the encoding of what it returns. *)
Lemma decode_manifest_canonical bs m :
  wf_bytes bs → lenZ bs ≤ usize_max → decode_manifest bs = Ok m →
  encode_manifest m = bs ∧ wf_manifest m.
Proof.
  intros Hw Hu H. unfold decode_manifest in H.
  assert (decoder_ok (decoder_new bs)) as Hd by (split; [simpl; lia|done]).
  destruct (take_byte _) as [[b d]|] eqn:E0; [|done]. cbn [rbind] in H.
  apply take_byte_inv in E0; [|done]. destruct (consumed_wf (decoder_new bs) _ _ Hw E0) as [_ Hw1].
  destruct (negb _) eqn:Eb in H; [done|]. apply negb_false_iff, Z.eqb_eq in Eb as ->.
  destruct (decode_fields _ _ _) as [[f d1]|] eqn:E1 in H; [|done]. cbn [rbind] in H.
  apply decode_fields_inv in E1 as (items & Hc & Hf); [|repeat constructor; lia|apply E0|done].
  destruct (negb _) eqn:Ef in H; [done|]. apply negb_false_iff, Nat.eqb_eq in Ef.
  pose proof (consumed_trans _ _ _ _ _ E0 Hc) as (_ & _ & R). unfold rest in R. simpl in R.
  rewrite Ef, (drop_ge (input d1)), app_nil_r in R by lia. rewrite drop_0 in R.
  change (seqZ 1 MAP_FIELDS) with [1; 2; 3; 4; 5; 6; 7; 8] in Hf. unfold no_fields in Hf.
  repeat match goal with
    | Hx : fields_read (_ :: _) _ _ _ |- _ => inversion Hx; clear Hx; subst
    | Hx : fields_read [] _ _ _ |- _ => inversion Hx; clear Hx; subst
    | Hx : field_read (Zpos _) _ _ _ |- _ => inversion Hx; clear Hx; subst
    end.
  cbn in H. injection H as <-.
  match goal with |- _ ∧ wf_manifest ?m => assert (wf_manifest m) as Hm by
    (unfold wf_manifest; cbn; split_and!; done) end.
  split; [|done]. rewrite encode_manifest_items by done.
  cbn [format_version object_id version_id plaintext_len chunk_size chunk_count chunk_digest].
  by rewrite app_nil_r, <-!(assoc_L (++)).
Qed.

(** C5: the decoder accepts exactly the canonical encodings.  On any byte string
    it returns a Manifest precisely when the Manifest's fields are in range and
    the bytes are what the encoder writes for it: encoding and decoding are
    inverse to each other, and no Manifest has a second accepted encoding. *)
Theorem decode_manifest_iff bs m :
  wf_bytes bs → lenZ bs ≤ usize_max →
  decode_manifest bs = Ok m ↔ wf_manifest m ∧ bs = encode_manifest m.
Proof.
  intros Hw Hl. split.
  - intros [? ?]%decode_manifest_canonical; done.
  - intros [? ->]. by apply decode_encode_manifest.
Qed.

Lemma decode_manifest_iff_witness :
  wf_manifest sample_manifest ∧ encode_manifest sample_manifest = encode_manifest sample_manifest.
Proof.
  apply decode_manifest_iff.
  - unfold wf_bytes. apply Forall_forall. intros x Hx. unfold is_u8, u8_max.
    assert (forallb (λ y, (0 <=? y) && (y <=? 255)) (encode_manifest sample_manifest) = true) as Hall
      by (vm_compute; reflexivity).
    rewrite forallb_forall in Hall. apply list_elem_of_In in Hx. specialize (Hall x Hx). lia.
  - vm_compute. done.
  - apply sample_decoding.
Defined.

End Cde.
