(* ===== verification/Crypto.v ===== *)
(** * Key hierarchy and authenticated encryption

    Models [crates/vlt1-core/src/crypto.rs].  The cipher, the hash, the two
    key-derivation functions and the signature scheme come from third-party
    crates: they are the operations of the class [Primitives], and what the
    source relies on is the class [PrimitivesOk].  The operating-system random
    generator is an explicit byte stream.  [zeroize] has no effect on any
    value that is read later and is not represented. *)

From S2P Require Import Prelude Format.
From Stdlib Require Import ZArith Lia.
From stdpp Require Import base numbers list gmap strings.

Open Scope Z_scope.
Open Scope vlt_scope.

(** ** Third-party primitives *)

Class Primitives : Type := {
  (** [Params::new(memory, iterations, lanes, Some(32)).is_ok()] *)
  argon2_params_ok : Z → Z → Z → bool;
  (** [Argon2id::hash_password_into(passphrase, salt)] into 32 bytes *)
  argon2id : Z → Z → Z → bytes → bytes → option bytes;
  (** [Hkdf::<Sha256>::new(Some(salt), ikm).expand(info)] into 32 bytes *)
  hkdf_sha256 : bytes → bytes → bytes → option bytes;
  sha256 : bytes → bytes;
  (** [Aes256GcmSiv::encrypt] / [decrypt]: key, nonce, AAD, message *)
  aead_encrypt : bytes → bytes → bytes → bytes → option bytes;
  aead_decrypt : bytes → bytes → bytes → bytes → option bytes;
  (** Ed25519: [verifying_key], [sign], [VerifyingKey::from_bytes], [verify] *)
  ed_public : bytes → bytes;
  ed_sign : bytes → bytes → bytes;
  ed_key_ok : bytes → bool;
  ed_verify : bytes → bytes → bytes → bool;
}.

(** Documented behaviour of the primitives. *)
Class PrimitivesOk `{Primitives} : Prop := {
  argon2id_length m t p pw salt k : argon2id m t p pw salt = Some k → length k = 32%nat;
  hkdf_length salt ikm info k : hkdf_sha256 salt ikm info = Some k → length k = 32%nat;
  sha256_length m : length (sha256 m) = 32%nat;
  sha256_wf m : wf_bytes (sha256 m);
  aead_correct k n a m c : aead_encrypt k n a m = Some c → aead_decrypt k n a c = Some m;
  aead_wf k n a m c : aead_encrypt k n a m = Some c → wf_bytes c;
  ed_public_length s : length (ed_public s) = 32%nat;
  ed_public_wf s : wf_bytes (ed_public s);
  ed_sign_length s m : length (ed_sign s m) = 64%nat;
  ed_sign_wf s m : wf_bytes (ed_sign s m);
  ed_public_ok s : ed_key_ok (ed_public s) = true;
  ed_correct s m : ed_verify (ed_public s) m (ed_sign s m) = true;
}.

(** [OsRng]: the bytes it will deliver and how many were taken. *)
Record Rng : Type := mkRng { rng_stream : nat → Ascii.ascii; rng_pos : nat }.

Definition byte_Z (b : Ascii.ascii) : Z := Z.of_N (Ascii.N_of_ascii b).

(** [OsRng.fill_bytes(&mut [u8; n])]. *)
Definition fill_bytes {E} (n : nat) : M Rng E bytes :=
  λ r, (Ok (map (λ i, byte_Z (rng_stream r i)) (seq (rng_pos r) n)),
        mkRng (rng_stream r) (rng_pos r + n)).

(** [VaultId::random()], [ObjectId::random()], [VersionId::random()]. *)
Definition random_id {k E} : M Rng E (Identifier k) :=
  let* bs := fill_bytes 16 in sret (mkId bs).

Module Crypto.
Section crypto.
Context `{Primitives}.

(** ** KDF parameters *)

Definition DEFAULT_ARGON2_MEMORY_KIB : Z := 65536.
Definition DEFAULT_ARGON2_ITERATIONS : Z := 3.
Definition DEFAULT_ARGON2_LANES : Z := 4.
Definition MAX_ARGON2_MEMORY_KIB : Z := 256 * 1024.
Definition MAX_ARGON2_ITERATIONS : Z := 10.
Definition MAX_ARGON2_LANES : Z := 8.

Record KdfParams : Type := mkKdf { memory_kib : Z; iterations : Z; lanes : Z }.

Definition interactive : KdfParams :=
  mkKdf DEFAULT_ARGON2_MEMORY_KIB DEFAULT_ARGON2_ITERATIONS DEFAULT_ARGON2_LANES.

Definition within_resource_policy (p : KdfParams) : bool :=
  (memory_kib p <=? MAX_ARGON2_MEMORY_KIB) && (iterations p <=? MAX_ARGON2_ITERATIONS)
  && (lanes p <=? MAX_ARGON2_LANES).

Definition params_new (p : KdfParams) (e : VaultError) : Result unit :=
  if argon2_params_ok (memory_kib p) (iterations p) (lanes p) then Ok tt else Err e.

Definition validate_for_creation (p : KdfParams) : Result unit :=
  if negb (within_resource_policy p) then Err (InvalidInput "Argon2id KDF parameter policy")
  else params_new p (InvalidInput "invalid Argon2id parameters").

Definition validate_persisted (p : KdfParams) : Result unit :=
  if negb (within_resource_policy p) then Err (InvalidFormat "Argon2id KDF parameter policy")
  else params_new p (InvalidFormat "invalid Argon2id parameters").

Record RootEnvelope : Type := mkEnvelope {
  env_vault_id : VaultId;
  env_salt : bytes;
  env_params : KdfParams;
  env_record : SealedRecord;
}.

(** ** Transcripts *)

Definition root_aad (vault_id : VaultId) : bytes :=
  str_bytes "VLT1/ROOT" ++ [0] ++ as_bytes vault_id.

Definition chunk_aad (vault_id : VaultId) (object_id : ObjectId) (version_id : VersionId)
    (chunk_index plaintext_len : Z) : bytes :=
  str_bytes "VLT1/CHUNK" ++ [0] ++ as_bytes vault_id ++ as_bytes object_id ++ as_bytes version_id
  ++ be_bytes 4 chunk_index ++ be_bytes 4 plaintext_len.

Definition manifest_aad (vault_id : VaultId) (object_id : ObjectId) (version_id : VersionId) : bytes :=
  str_bytes "VLT1/MANIFEST" ++ [0] ++ as_bytes vault_id ++ as_bytes object_id ++ as_bytes version_id.

Definition wrapped_dek_aad (vault_id : VaultId) (object_id : ObjectId) (version_id : VersionId) : bytes :=
  str_bytes "VLT1/WRAPPED-DEK" ++ [0] ++ as_bytes vault_id ++ as_bytes object_id ++ as_bytes version_id.

(** [Sha256] absorbs its input incrementally: the state is what was absorbed. *)
Record ChunkDigestBuilder : Type := mkDigest { hasher : bytes }.

Definition digest_new : ChunkDigestBuilder := mkDigest (str_bytes "VLT1/CHUNK-DIGEST" ++ [0]).

Definition digest_update (b : ChunkDigestBuilder) (index : Z) (record : SealedRecord) : ChunkDigestBuilder :=
  mkDigest (hasher b ++ be_bytes 4 index ++ nonce record
            ++ be_bytes 8 (lenZ (ciphertext record)) ++ ciphertext record).

Definition digest_finalize (b : ChunkDigestBuilder) : bytes := sha256 (hasher b).

(** ** Sealing and opening *)

Definition seal (key aad plaintext : bytes) : M Rng VaultError SealedRecord :=
  if negb (bool_decide (length key = 32%nat)) then sthrow (Invariant "AES-256 key length") else
  let* nonce := fill_bytes 12 in
  let* ciphertext := slift (ok_or (aead_encrypt key nonce aad plaintext) Authentication) in
  sret (mkSealed nonce ciphertext).

Definition open (key aad : bytes) (record : SealedRecord) : Result bytes :=
  if negb (bool_decide (length key = 32%nat)) then Err (Invariant "AES-256 key length") else
  ok_or (aead_decrypt key (nonce record) aad (ciphertext record)) Authentication.

Definition derive_passphrase_key (passphrase salt : bytes) (p : KdfParams) : Result bytes :=
  let? _ := validate_persisted p in
  let? _ := params_new p (InvalidFormat "invalid Argon2id parameters") in
  ok_or (argon2id (memory_kib p) (iterations p) (lanes p) passphrase salt) UnlockFailed.

Definition derive_domain_key (root salt label : bytes) : Result bytes :=
  ok_or (hkdf_sha256 salt root label) (Invariant "HKDF expansion").

Definition derive_kek (root_key : bytes) (vault_id : VaultId) : Result bytes :=
  derive_domain_key root_key (as_bytes vault_id) (str_bytes "VLT1/KEK").

Definition derive_manifest_key (dek : bytes) (version_id : VersionId) : Result bytes :=
  derive_domain_key dek (as_bytes version_id) (str_bytes "VLT1/MANIFEST").

Definition generate_root_key : M Rng VaultError bytes := fill_bytes 32.
Definition generate_dek : M Rng VaultError bytes := fill_bytes 32.

Definition seal_root_key (passphrase : bytes) (vault_id : VaultId) (root_key : bytes) (p : KdfParams)
    : M Rng VaultError RootEnvelope :=
  let* _ := slift (validate_for_creation p) in
  let* salt := fill_bytes 16 in
  let* passphrase_key := slift (derive_passphrase_key passphrase salt p) in
  let* record := seal passphrase_key (root_aad vault_id) root_key in
  sret (mkEnvelope vault_id salt p record).

Definition open_root_key (passphrase : bytes) (envelope : RootEnvelope) : Result bytes :=
  let? passphrase_key := derive_passphrase_key passphrase (env_salt envelope) (env_params envelope) in
  match open passphrase_key (root_aad (env_vault_id envelope)) (env_record envelope) with
  | Err _ => Err UnlockFailed
  | Ok plaintext => ok_or (fixed_array 32 plaintext) UnlockFailed
  end.

(** ** Lemmas *)

(** The context a sealed record is bound to. *)
Inductive Context : Type :=
| RootContext (v : VaultId)
| DekContext (v : VaultId) (o : ObjectId) (x : VersionId)
| ManifestContext (v : VaultId) (o : ObjectId) (x : VersionId)
| ChunkContext (v : VaultId) (o : ObjectId) (x : VersionId) (index len : Z).

Definition context_aad (c : Context) : bytes :=
  match c with
  | RootContext v => root_aad v
  | DekContext v o x => wrapped_dek_aad v o x
  | ManifestContext v o x => manifest_aad v o x
  | ChunkContext v o x i n => chunk_aad v o x i n
  end.

Definition wf_context (c : Context) : Prop :=
  match c with
  | RootContext v => wf_id v
  | DekContext v o x | ManifestContext v o x => wf_id v ∧ wf_id o ∧ wf_id x
  | ChunkContext v o x i n => wf_id v ∧ wf_id o ∧ wf_id x ∧ is_u32 i ∧ is_u32 n
  end.

Lemma id_ext {k} (i j : Identifier k) : as_bytes i = as_bytes j → i = j.
Proof. destruct i, j; simpl; congruence. Qed.

Lemma ids_app_inj (v v' : VaultId) (o o' : ObjectId) (x x' : VersionId) r r' :
  wf_id v → wf_id v' → wf_id o → wf_id o' → wf_id x → wf_id x' →
  as_bytes v ++ as_bytes o ++ as_bytes x ++ r = as_bytes v' ++ as_bytes o' ++ as_bytes x' ++ r' →
  v = v' ∧ o = o' ∧ x = x' ∧ r = r'.
Proof.
  intros [Hv _] [Hv' _] [Ho _] [Ho' _] [Hx _] [Hx' _] E.
  apply app_inj_1 in E as [Ev E]; [|congruence]. apply app_inj_1 in E as [Eo E]; [|congruence].
  apply app_inj_1 in E as [Ex E]; [|congruence].
  split_and!; auto using id_ext.
Qed.

Lemma u32_be_inj v w : is_u32 v → is_u32 w → be_bytes 4 v = be_bytes 4 w → v = w.
Proof. unfold is_u32, u32_max. intros. apply (be_bytes_inj 4); simpl; lia || done. Qed.

Lemma u64_be_inj v w : is_u64 v → is_u64 w → be_bytes 8 v = be_bytes 8 w → v = w.
Proof. unfold is_u64, u64_max. intros. apply (be_bytes_inj 8); simpl; lia || done. Qed.

(** The additional data of a sealed record determines the whole context the
    record was sealed in (its kind, vault, object, version, chunk index and
    chunk length), so no record of one context is associated with the data of
    another. *)
Lemma context_aad_injective c c' :
  wf_context c → wf_context c' → context_aad c = context_aad c' → c = c'.
Proof.
  intros Hc Hc' E.
  assert (length (context_aad c) = length (context_aad c')) as El by by rewrite E.
  destruct c, c'; simpl in Hc, Hc'; destruct_and?;
    repeat match goal with Hi : wf_id _ |- _ => pose proof (proj1 Hi); revert Hi end; intros;
    unfold context_aad, root_aad, wrapped_dek_aad, manifest_aad, chunk_aad in El;
    autorewrite with vlen in El; simpl in El; try lia; unfold context_aad in E.
  - unfold root_aad in E. do 2 apply app_inv_head in E. f_equal. by apply id_ext.
  - unfold wrapped_dek_aad in E. do 2 apply app_inv_head in E.
    rewrite <- (app_nil_r (as_bytes x)), <- (app_nil_r (as_bytes x0)) in E.
    by apply ids_app_inj in E as (-> & -> & -> & _).
  - unfold manifest_aad in E. do 2 apply app_inv_head in E.
    rewrite <- (app_nil_r (as_bytes x)), <- (app_nil_r (as_bytes x0)) in E.
    by apply ids_app_inj in E as (-> & -> & -> & _).
  - unfold chunk_aad in E. do 2 apply app_inv_head in E.
    apply ids_app_inj in E as (-> & -> & -> & E); [|done..].
    apply app_inj_1 in E as [E1 E2]; [|by rewrite !length_be_bytes].
    apply u32_be_inj in E1 as ->; [|done..]. by apply u32_be_inj in E2 as ->.
Qed.

(** The bytes a digest absorbs for a list of chunks. *)
Definition digest_chunk_bytes (c : EncryptedChunk) : bytes :=
  be_bytes 4 (chunk_index c) ++ nonce (chunk_record c)
  ++ be_bytes 8 (lenZ (ciphertext (chunk_record c))) ++ ciphertext (chunk_record c).

Definition digest_chunks (b : ChunkDigestBuilder) (cs : list EncryptedChunk) : ChunkDigestBuilder :=
  foldl (λ b c, digest_update b (chunk_index c) (chunk_record c)) b cs.

Definition wf_chunk (c : EncryptedChunk) : Prop := is_u32 (chunk_index c) ∧ wf_sealed (chunk_record c).

Lemma digest_chunks_bytes b cs :
  hasher (digest_chunks b cs) = hasher b ++ concat (map digest_chunk_bytes cs).
Proof.
  revert b. induction cs as [|c cs IH]; intros b; simpl; [by rewrite app_nil_r|].
  rewrite IH. simpl. by rewrite <-(assoc_L (++)).
Qed.

Lemma digest_chunk_bytes_inj c c' r r' :
  wf_chunk c → wf_chunk c' → digest_chunk_bytes c ++ r = digest_chunk_bytes c' ++ r' → c = c' ∧ r = r'.
Proof.
  intros [Hi (Hn & _ & _ & Hl)] [Hi' (Hn' & _ & _ & Hl')] E. unfold digest_chunk_bytes in E.
  rewrite <-!(assoc_L (++)) in E.
  apply app_inj_1 in E as [E1 E]; [|by rewrite !length_be_bytes].
  apply app_inj_1 in E as [E2 E]; [|congruence].
  apply app_inj_1 in E as [E3 E]; [|by rewrite !length_be_bytes].
  apply u32_be_inj in E1; [|done..]. apply u64_be_inj in E3; [|unfold is_u64, lenZ in *; lia..].
  apply app_inj_1 in E as [E4 E]; [|unfold lenZ in E3; lia].
  destruct c as [? []], c' as [? []]; simpl in *; naive_solver.
Qed.

(** The digest transcript of a version determines its chunks: their number,
    order, indices, nonces and ciphertexts. *)
Lemma digest_chunks_inj cs cs' :
  Forall wf_chunk cs → Forall wf_chunk cs' →
  hasher (digest_chunks digest_new cs) = hasher (digest_chunks digest_new cs') → cs = cs'.
Proof.
  intros Hcs Hcs' E. rewrite !digest_chunks_bytes in E. apply app_inv_head in E.
  revert cs' Hcs' E. induction Hcs as [|c cs Hc _ IH]; intros cs' Hcs' E.
  - destruct cs' as [|c' cs']; [done|]. simpl in E. unfold digest_chunk_bytes in E. done.
  - destruct cs' as [|c' cs']; [simpl in E; unfold digest_chunk_bytes in E; done|].
    apply Forall_cons in Hcs' as [Hc' Hcs']. simpl in E.
    apply digest_chunk_bytes_inj in E as [-> E]; [|done..]. f_equal. by apply IH.
Qed.

(** ** Sealing round trips *)

Lemma fill_bytes_length {E} n r bs r' :
  fill_bytes (E:=E) n r = (Ok bs, r') → length bs = n ∧ wf_bytes bs.
Proof.
  unfold fill_bytes. intros [= <- <-]. split; [by rewrite length_map, length_seq|].
  apply Forall_forall. intros x Hx. apply list_elem_of_In, in_map_iff in Hx as (i & <- & _).
  unfold byte_Z, is_u8, u8_max. pose proof (Ascii.N_ascii_bounded (rng_stream r i)). lia.
Qed.

Context `{!PrimitivesOk}.

Lemma seal_ok key aad m r rec r' :
  seal key aad m r = (Ok rec, r') →
  length key = 32%nat ∧ length (nonce rec) = 12%nat ∧ wf_bytes (nonce rec) ∧
  aead_encrypt key (nonce rec) aad m = Some (ciphertext rec).
Proof.
  unfold seal. case_bool_decide as Hk; simpl; [|done]. unfold sbind.
  destruct (fill_bytes 12 r) as [[n|] r1] eqn:En; [|done].
  apply fill_bytes_length in En as [Hn Hw]. unfold slift.
  destruct (aead_encrypt key n aad m) eqn:Ee; simpl; [|done]. intros [= <- <-]. done.
Qed.

Lemma open_seal key aad m r rec r' : seal key aad m r = (Ok rec, r') → open key aad rec = Ok m.
Proof.
  intros (Hk & _ & _ & He)%seal_ok. unfold open. rewrite bool_decide_eq_true_2 by done. simpl.
  by rewrite (aead_correct _ _ _ _ _ He).
Qed.

Lemma open_seal_root_key passphrase vault_id root_key p r env r' :
  length root_key = 32%nat → seal_root_key passphrase vault_id root_key p r = (Ok env, r') →
  open_root_key passphrase env = Ok root_key ∧ env_vault_id env = vault_id ∧ env_params env = p.
Proof.
  intros Hlen. unfold seal_root_key, sbind, slift.
  destruct (validate_for_creation p); [|done]. destruct (fill_bytes 16 r) as [[salt|] r1]; [|done].
  destruct (derive_passphrase_key passphrase salt p) as [k|] eqn:Ek; [|done].
  destruct (seal k (root_aad vault_id) root_key r1) as [[rec|] r2] eqn:Es; [|done].
  intros [= <- <-]. unfold open_root_key. simpl. rewrite Ek. simpl.
  rewrite (open_seal _ _ _ _ _ _ Es). by rewrite (proj2 (fixed_array_some 32 root_key root_key)).
Qed.

End crypto.

(** Two chunks of one version, at positions 1 and 2. *)
Lemma context_aad_injective_witness :
  let at_index i := ChunkContext (mkId (replicate 16 1)) (mkId (replicate 16 2)) (mkId (replicate 16 3)) i 4 in
  context_aad (at_index 1) = context_aad (at_index (3 - 2)) ∧ at_index 1 = at_index (3 - 2).
Proof.
  intros at_index.
  assert (∀ i, is_u32 i → wf_context (at_index i)) as Hw.
  { intros i Hi. assert (∀ n, is_u8 n → wf_bytes (replicate 16 n)) as Hr by (intros; by apply Forall_replicate).
    split_and!; try done; split; try done; by apply Hr. }
  split; [done|]. apply context_aad_injective; [apply Hw; done|apply Hw; done|done].
Defined.

End Crypto.
