(* ===== verification/Witness.v ===== *)
(** * Freshness receipts, heads and providers

    Models [crates/vlt1-core/src/witness.rs] without the HTTPS client: the
    commitment and signing transcripts, [WitnessRequest], [WitnessReceipt] and
    [WitnessHead] with their constructors and checks, the [WitnessProvider]
    trait as a class of operations, and [InMemoryTestProvider].

    [ProviderContract] states what the vault may rely on in a provider; the
    in-memory provider is shown to satisfy it from any reachable state. *)

From S2P Require Import Prelude Format Crypto.
From Stdlib Require Import ZArith Lia.
From stdpp Require Import base numbers list gmap strings.

Open Scope Z_scope.
Open Scope vlt_scope.

Record WitnessRequest : Type := mkRequest {
  req_vault_id : VaultId;
  req_object_id : ObjectId;
  req_version_id : VersionId;
  req_commitment : bytes;
}.

Record WitnessReceipt : Type := mkReceipt {
  rc_vault_id : VaultId;
  rc_object_id : ObjectId;
  rc_version_id : VersionId;
  rc_epoch : Z;
  rc_commitment : bytes;
  rc_public_key : bytes;
  rc_signature : bytes;
}.

Record WitnessHead : Type := mkHead {
  hd_vault_id : VaultId;
  hd_object_id : ObjectId;
  hd_present : bool;
  hd_version_id : option VersionId;
  hd_epoch : Z;
  hd_commitment : option bytes;
  hd_challenge : bytes;
  hd_public_key : bytes;
  hd_signature : bytes;
}.

#[global] Instance WitnessRequest_eq_dec : EqDecision WitnessRequest.
Proof. solve_decision. Defined.
#[global] Instance WitnessReceipt_eq_dec : EqDecision WitnessReceipt.
Proof. solve_decision. Defined.
#[global] Instance WitnessHead_eq_dec : EqDecision WitnessHead.
Proof. solve_decision. Defined.

(** The trait: operations on a provider state [P]. *)
Class WitnessProvider (P : Type) : Type := {
  issue_receipt : WitnessRequest → Z → M P VaultError WitnessReceipt;
  object_head : VaultId → ObjectId → bytes → M P VaultError WitnessHead;
}.

#[local] Arguments be_bytes : simpl never.

Module Witness.
Section witness.
Context `{Primitives}.

Definition COMMITMENT_DOMAIN : bytes := str_bytes "VLT/1 witness commitment v1".
Definition RECEIPT_DOMAIN : bytes := str_bytes "VLT/1 witness receipt v1".
Definition HEAD_DOMAIN : bytes := str_bytes "VLT/1 witness head v1".

(** ** Transcripts *)

Definition commitment_bytes (vault_id : VaultId) (object_id : ObjectId) (version_id : VersionId)
    (manifest : SealedRecord) : bytes :=
  let ciphertext_len := Z.min (lenZ (ciphertext manifest)) u64_max in
  COMMITMENT_DOMAIN ++ as_bytes vault_id ++ as_bytes object_id ++ as_bytes version_id
  ++ nonce manifest ++ be_bytes 8 ciphertext_len ++ ciphertext manifest.

Definition version_commitment (vault_id : VaultId) (object_id : ObjectId) (version_id : VersionId)
    (manifest : SealedRecord) : bytes :=
  sha256 (commitment_bytes vault_id object_id version_id manifest).

Definition receipt_signing_bytes (vault_id : VaultId) (object_id : ObjectId) (version_id : VersionId)
    (witness_epoch : Z) (commitment : bytes) : bytes :=
  RECEIPT_DOMAIN ++ as_bytes vault_id ++ as_bytes object_id ++ as_bytes version_id
  ++ be_bytes 8 witness_epoch ++ commitment.

Definition head_signing_bytes (vault_id : VaultId) (object_id : ObjectId) (present : bool)
    (version_id : option VersionId) (witness_epoch : Z) (commitment : option bytes)
    (challenge : bytes) : bytes :=
  let version := match version_id with Some v => as_bytes v | None => replicate 16 0 end in
  let commitment := default (replicate 32 0) commitment in
  HEAD_DOMAIN ++ as_bytes vault_id ++ as_bytes object_id ++ [if present then 1 else 0] ++ version
  ++ be_bytes 8 witness_epoch ++ commitment ++ challenge.

Definition verify_signature (public_key message signature : bytes) : Result unit :=
  if negb (ed_key_ok public_key) then Err (InvalidFormat "witness public key")
  else if ed_verify public_key message signature then Ok tt else Err Authentication.

(** ** Requests *)

Definition request_new (vault_id : VaultId) (object_id : ObjectId) (version_id : VersionId)
    (manifest : SealedRecord) : WitnessRequest :=
  mkRequest vault_id object_id version_id (version_commitment vault_id object_id version_id manifest).

(** ** Receipts *)

Definition receipt_bytes (r : WitnessReceipt) : bytes :=
  receipt_signing_bytes (rc_vault_id r) (rc_object_id r) (rc_version_id r) (rc_epoch r) (rc_commitment r).

Definition receipt_verify_signature (r : WitnessReceipt) : Result unit :=
  verify_signature (rc_public_key r) (receipt_bytes r) (rc_signature r).

Definition receipt_new (vault_id : VaultId) (object_id : ObjectId) (version_id : VersionId)
    (witness_epoch : Z) (commitment public_key signature : bytes) : Result WitnessReceipt :=
  let receipt := mkReceipt vault_id object_id version_id witness_epoch commitment public_key signature in
  let? _ := receipt_verify_signature receipt in
  Ok receipt.

Definition receipt_issue (request : WitnessRequest) (witness_epoch : Z) (signing_key : bytes) : WitnessReceipt :=
  let signature := ed_sign signing_key
    (receipt_signing_bytes (req_vault_id request) (req_object_id request) (req_version_id request)
       witness_epoch (req_commitment request)) in
  mkReceipt (req_vault_id request) (req_object_id request) (req_version_id request) witness_epoch
    (req_commitment request) (ed_public signing_key) signature.

Definition verify_request (r : WitnessReceipt) (request : WitnessRequest) : Result unit :=
  if negb (bool_decide (rc_vault_id r = req_vault_id request))
     || negb (bool_decide (rc_object_id r = req_object_id request))
     || negb (bool_decide (rc_version_id r = req_version_id request))
     || negb (bool_decide (rc_commitment r = req_commitment request))
  then Err (Invariant "witness receipt binding")
  else receipt_verify_signature r.

(** ** Heads *)

Definition head_bytes (h : WitnessHead) : bytes :=
  head_signing_bytes (hd_vault_id h) (hd_object_id h) (hd_present h) (hd_version_id h) (hd_epoch h)
    (hd_commitment h) (hd_challenge h).

Definition head_verify_signature (h : WitnessHead) : Result unit :=
  verify_signature (hd_public_key h) (head_bytes h) (hd_signature h).

Definition is_some {A} (o : option A) : bool := match o with Some _ => true | None => false end.

Definition head_new (vault_id : VaultId) (object_id : ObjectId) (present : bool)
    (version_id : option VersionId) (witness_epoch : Z) (commitment : option bytes)
    (challenge public_key signature : bytes) : Result WitnessHead :=
  if negb (eqb present (is_some version_id && is_some commitment))
  then Err (InvalidFormat "witness head presence fields")
  else if negb present && negb (witness_epoch =? 0)
  then Err (InvalidFormat "absent witness head epoch")
  else
    let head := mkHead vault_id object_id present version_id witness_epoch commitment challenge
                  public_key signature in
    let? _ := head_verify_signature head in
    Ok head.

Definition head_issue (vault_id : VaultId) (object_id : ObjectId) (receipt : option WitnessReceipt)
    (challenge signing_key : bytes) : WitnessHead :=
  let present := is_some receipt in
  let version_id := rc_version_id <$> receipt in
  let witness_epoch := match receipt with Some r => rc_epoch r | None => 0 end in
  let commitment := rc_commitment <$> receipt in
  let signature := ed_sign signing_key
    (head_signing_bytes vault_id object_id present version_id witness_epoch commitment challenge) in
  mkHead vault_id object_id present version_id witness_epoch commitment challenge
    (ed_public signing_key) signature.

(** ** [InMemoryTestProvider] *)

Record InMemoryTestProvider : Type := mkMem {
  mem_signing_key : bytes;
  mem_next_epoch : Z;
  mem_heads : list WitnessReceipt;
}.

Definition mem_from_seed (seed : bytes) : InMemoryTestProvider := mkMem seed 1 [].

Definition head_matches (vault_id : VaultId) (object_id : ObjectId) (r : WitnessReceipt) : bool :=
  bool_decide (rc_vault_id r = vault_id) && bool_decide (rc_object_id r = object_id).

Definition mem_current_receipt (p : InMemoryTestProvider) (vault_id : VaultId) (object_id : ObjectId)
    : option WitnessReceipt :=
  List.find (head_matches vault_id object_id) (mem_heads p).

(** [iter_mut().find(..)] replaced in place, or pushed at the end. *)
Fixpoint replace_or_push (vault_id : VaultId) (object_id : ObjectId) (new : WitnessReceipt)
    (heads : list WitnessReceipt) : list WitnessReceipt :=
  match heads with
  | [] => [new]
  | r :: heads =>
      if head_matches vault_id object_id r then new :: heads
      else r :: replace_or_push vault_id object_id new heads
  end.

(** The receipt already issued for this very request. *)
Definition already_issued (current : WitnessReceipt) (request : WitnessRequest) (expected_epoch : Z) : bool :=
  bool_decide (rc_version_id current = req_version_id request)
  && bool_decide (rc_commitment current = req_commitment request)
  && (expected_epoch <? rc_epoch current).

Definition mem_advance (request : WitnessRequest) : M InMemoryTestProvider VaultError WitnessReceipt :=
  λ p,
  let epoch := mem_next_epoch p in
  match u64_checked_add epoch 1 with
  | None => (Err (Invariant "witness epoch exhausted"), p)
  | Some next =>
      let receipt := receipt_issue request epoch (mem_signing_key p) in
      (Ok receipt, mkMem (mem_signing_key p) next
        (replace_or_push (req_vault_id request) (req_object_id request) receipt (mem_heads p)))
  end.

Definition mem_issue_receipt (request : WitnessRequest) (expected_epoch : Z)
    : M InMemoryTestProvider VaultError WitnessReceipt :=
  λ p,
  match mem_current_receipt p (req_vault_id request) (req_object_id request) with
  | Some current =>
      if already_issued current request expected_epoch then (Ok current, p)
      else if negb (rc_epoch current =? expected_epoch) then (Err WitnessConflict, p)
      else mem_advance request p
  | None =>
      if negb (expected_epoch =? 0) then (Err WitnessConflict, p)
      else mem_advance request p
  end.

Definition mem_object_head (vault_id : VaultId) (object_id : ObjectId) (challenge : bytes)
    : M InMemoryTestProvider VaultError WitnessHead :=
  λ p, (Ok (head_issue vault_id object_id (mem_current_receipt p vault_id object_id) challenge
              (mem_signing_key p)), p).

#[global] Instance mem_provider : WitnessProvider InMemoryTestProvider := {
  issue_receipt := mem_issue_receipt;
  object_head := mem_object_head;
}.

(** ** The signed transcripts are unambiguous *)

Inductive Signed : Type := SReceipt (r : WitnessReceipt) | SHead (h : WitnessHead).

Definition signed_bytes (s : Signed) : bytes :=
  match s with SReceipt r => receipt_bytes r | SHead h => head_bytes h end.

(** The field types, and for a head the two tests of [head_new]. *)
Definition wf_signed (s : Signed) : Prop :=
  match s with
  | SReceipt r =>
      wf_id (rc_vault_id r) ∧ wf_id (rc_object_id r) ∧ wf_id (rc_version_id r) ∧
      is_u64 (rc_epoch r) ∧ length (rc_commitment r) = 32%nat
  | SHead h =>
      wf_id (hd_vault_id h) ∧ wf_id (hd_object_id h) ∧ is_u64 (hd_epoch h) ∧
      length (hd_challenge h) = 32%nat ∧
      match hd_version_id h, hd_commitment h with
      | Some v, Some c => hd_present h = true ∧ wf_id v ∧ length c = 32%nat
      | None, None => hd_present h = false
      | _, _ => False
      end
  end.

(** What the signature of a message vouches for. *)
Inductive Statement : Type :=
| ReceiptOf (v : VaultId) (o : ObjectId) (x : VersionId) (epoch : Z) (commitment : bytes)
| HeadOf (v : VaultId) (o : ObjectId) (x : option VersionId) (epoch : Z) (commitment : option bytes)
    (challenge : bytes).

Definition statement (s : Signed) : Statement :=
  match s with
  | SReceipt r => ReceiptOf (rc_vault_id r) (rc_object_id r) (rc_version_id r) (rc_epoch r) (rc_commitment r)
  | SHead h => HeadOf (hd_vault_id h) (hd_object_id h) (hd_version_id h) (hd_epoch h) (hd_commitment h)
                 (hd_challenge h)
  end.

Lemma signed_bytes_length s :
  wf_signed s → length (signed_bytes s) = match s with SReceipt _ => 112%nat | SHead _ => 142%nat end.
Proof.
  destruct s as [r|h]; simpl; intros Hs; destruct_and?;
    repeat match goal with Hi : wf_id _ |- _ => pose proof (proj1 Hi); revert Hi end; intros.
  - unfold receipt_bytes, receipt_signing_bytes. autorewrite with vlen. simpl. lia.
  - unfold head_bytes, head_signing_bytes. autorewrite with vlen.
    destruct (hd_version_id h) as [v|], (hd_commitment h) as [c|]; try done; destruct_and?;
      repeat match goal with Hi : wf_id _ |- _ => pose proof (proj1 Hi); revert Hi end; intros;
      simpl in *; rewrite ?length_replicate; lia.
Qed.

(** The part of a head transcript after the version slot. *)
Lemma head_tail_inj e e' c c' ch ch' :
  is_u64 e → is_u64 e' → length c = length c' →
  be_bytes 8 e ++ c ++ ch = be_bytes 8 e' ++ c' ++ ch' → e = e' ∧ c = c' ∧ ch = ch'.
Proof.
  intros He He' Hc E. apply app_inj_1 in E as [E1 E]; [|by rewrite !length_be_bytes].
  apply app_inj_1 in E as [-> ->]; [|done]. by apply Crypto.u64_be_inj in E1 as ->.
Qed.

Lemma head_bytes_injective h h' :
  wf_signed (SHead h) → wf_signed (SHead h') → head_bytes h = head_bytes h' →
  statement (SHead h) = statement (SHead h').
Proof.
  intros (Hv & Ho & He & Hch & Hp) (Hv' & Ho' & He' & Hch' & Hp') E.
  unfold head_bytes, head_signing_bytes in E. apply app_inv_head in E.
  apply app_inj_1 in E as [Ev%Crypto.id_ext E]; [|by destruct Hv as [-> _], Hv' as [-> _]].
  apply app_inj_1 in E as [Eo%Crypto.id_ext E]; [|by destruct Ho as [-> _], Ho' as [-> _]].
  apply app_inj_1 in E as [Ep E]; [|done]. simpl. rewrite Ev, Eo.
  destruct (hd_version_id h) as [x|], (hd_commitment h) as [c|]; try done;
    destruct (hd_version_id h') as [x'|], (hd_commitment h') as [c'|]; try done; cbn [from_option id] in E.
  - destruct Hp as (_ & [Hx _] & Hc), Hp' as (_ & [Hx' _] & Hc').
    apply app_inj_1 in E as [->%Crypto.id_ext E]; [|congruence].
    by apply head_tail_inj in E as (-> & -> & ->); [|done..|congruence].
  - destruct Hp as [Hp _]. rewrite Hp, Hp' in Ep. done.
  - destruct Hp' as [Hp' _]. rewrite Hp, Hp' in Ep. done.
  - apply (app_inv_head (replicate 16 0)) in E. by apply head_tail_inj in E as (-> & _ & ->).
Qed.

(** The bytes a witness signs determine the whole statement: a receipt is
    never mistaken for a head, and no field of either can be exchanged. *)
Lemma signed_bytes_injective s s' :
  wf_signed s → wf_signed s' → signed_bytes s = signed_bytes s' → statement s = statement s'.
Proof.
  intros Hs Hs' E. pose proof (signed_bytes_length s Hs) as L. rewrite E in L.
  rewrite (signed_bytes_length s' Hs') in L. destruct s as [r|h], s' as [r'|h']; try discriminate L; clear L;
    [|by apply head_bytes_injective].
  simpl in *. destruct_and?. unfold receipt_bytes, receipt_signing_bytes in E. apply app_inv_head in E.
  apply Crypto.ids_app_inj in E as (-> & -> & -> & E); [|done..].
  apply app_inj_1 in E as [E1 ->]; [|by rewrite !length_be_bytes]. by apply Crypto.u64_be_inj in E1 as ->.
Qed.

(** ** The provider contract *)

Lemma verify_request_ok r req :
  verify_request r req = Ok tt ↔
  rc_vault_id r = req_vault_id req ∧ rc_object_id r = req_object_id req ∧
  rc_version_id r = req_version_id req ∧ rc_commitment r = req_commitment req ∧
  receipt_verify_signature r = Ok tt.
Proof.
  unfold verify_request. repeat case_bool_decide; simpl; split; intros; destruct_and?; split_and?; done.
Qed.

Lemma receipt_new_ok v o x e c pk s r :
  receipt_new v o x e c pk s = Ok r ↔
  r = mkReceipt v o x e c pk s ∧ receipt_verify_signature r = Ok tt.
Proof.
  unfold receipt_new. set (r0 := mkReceipt _ _ _ _ _ _ _).
  destruct (receipt_verify_signature r0) as [[]|] eqn:E; simpl; split.
  - by intros [= <-].
  - by intros [-> _].
  - done.
  - intros [-> ?]. congruence.
Qed.

Context `{!PrimitivesOk}.

Lemma verify_signature_sign key m : verify_signature (ed_public key) m (ed_sign key m) = Ok tt.
Proof. unfold verify_signature. by rewrite ed_public_ok, ed_correct. Qed.

Lemma receipt_issue_verifies req e key : verify_request (receipt_issue req e key) req = Ok tt.
Proof. apply verify_request_ok. split_and!; try done. apply verify_signature_sign. Qed.

Lemma head_issue_verifies v o r ch key : head_verify_signature (head_issue v o r ch key) = Ok tt.
Proof. apply verify_signature_sign. Qed.

End witness.

(** Two receipts for one statement with different keys and signatures. *)
Lemma signed_bytes_injective_witness :
  let receipt k := SReceipt (mkReceipt (mkId (replicate 16 1)) (mkId (replicate 16 2)) (mkId (replicate 16 3)) 7
                               (replicate 32 4) k k) in
  signed_bytes (receipt [1]) = signed_bytes (receipt [2]) ∧ statement (receipt [1]) = statement (receipt [2]).
Proof.
  intros receipt. assert (∀ k, wf_signed (receipt k)) as Hw.
  { intros k. assert (∀ n, is_u8 n → wf_bytes (replicate 16 n)) as Hr by (intros; by apply Forall_replicate).
    split_and!; try done; split; try done; by apply Hr. }
  split; [done|]. apply signed_bytes_injective; [apply Hw|apply Hw|done].
Defined.

End Witness.

(** The field types of a request. *)
Definition wf_request (req : WitnessRequest) : Prop :=
  wf_id (req_vault_id req) ∧ wf_id (req_object_id req) ∧ wf_id (req_version_id req) ∧
  length (req_commitment req) = 32%nat ∧ wf_bytes (req_commitment req).

(** What the vault relies on in a provider: a conditional, monotonic head per
    [(vault, object)], receipts that verify, idempotent retries, and heads
    that report the recorded receipt.  [pv_head] is the abstract state.  A
    call may fail at any point, also after the witness has recorded the
    receipt, so an error says nothing about the head of the requested object
    beyond what a success would. *)
Class ProviderContract `{Primitives} (P : Type) `{WitnessProvider P} : Type := {
  pv_inv : P → Prop;
  pv_head : P → VaultId → ObjectId → option WitnessReceipt;
  (** only the requested head can change, only by granting the request, and
      only when the expected epoch is the recorded one *)
  pv_issue p req e res p' :
    pv_inv p → wf_request req → is_u64 e → issue_receipt req e p = (res, p') →
    pv_inv p' ∧
    (∀ v o, (v, o) ≠ (req_vault_id req, req_object_id req) → pv_head p' v o = pv_head p v o) ∧
    (pv_head p' (req_vault_id req) (req_object_id req) = pv_head p (req_vault_id req) (req_object_id req) ∨
     e = match pv_head p (req_vault_id req) (req_object_id req) with Some h => rc_epoch h | None => 0 end ∧
     ∃ r, pv_head p' (req_vault_id req) (req_object_id req) = Some r ∧ e < rc_epoch r ∧
       Witness.verify_request r req = Ok tt) ∧
    (∀ r, res = Ok r →
       pv_head p' (req_vault_id req) (req_object_id req) = Some r ∧ e < rc_epoch r ∧
       Witness.verify_request r req = Ok tt);
  (** repeating a request that was granted changes nothing and can only return
      the receipt that was granted *)
  pv_issue_again p req e r res p' :
    pv_inv p → wf_request req → is_u64 e →
    pv_head p (req_vault_id req) (req_object_id req) = Some r → e < rc_epoch r → Witness.verify_request r req = Ok tt →
    issue_receipt req e p = (res, p') →
    (∀ v o, pv_head p' v o = pv_head p v o) ∧ (∀ r', res = Ok r' → r' = r);
  pv_object_head p v o ch res p' :
    pv_inv p → wf_id v → wf_id o → length ch = 32%nat → wf_bytes ch → object_head v o ch p = (res, p') →
    pv_inv p' ∧ (∀ v' o', pv_head p' v' o' = pv_head p v' o') ∧
    ∀ h, res = Ok h →
      Witness.head_verify_signature h = Ok tt ∧ hd_vault_id h = v ∧ hd_object_id h = o ∧ hd_challenge h = ch ∧
      match pv_head p v o with
      | Some r => hd_present h = true ∧ hd_version_id h = Some (rc_version_id r) ∧ hd_epoch h = rc_epoch r ∧
                  hd_commitment h = Some (rc_commitment r) ∧ hd_public_key h = rc_public_key r
      | None => hd_present h = false
      end;
}.

(** ** The in-memory provider satisfies the contract *)

Module MemProvider.
Import Witness.
Section mem.
Context `{Primitives} `{!PrimitivesOk}.

(** Every recorded receipt is signed by this provider with an epoch it has
    already handed out. *)
Definition mem_inv (p : InMemoryTestProvider) : Prop :=
  1 ≤ mem_next_epoch p ∧
  Forall (λ r, receipt_verify_signature r = Ok tt ∧ rc_public_key r = ed_public (mem_signing_key p) ∧
               0 < rc_epoch r < mem_next_epoch p) (mem_heads p).

Lemma head_matches_true v o r : head_matches v o r = true ↔ rc_vault_id r = v ∧ rc_object_id r = o.
Proof. unfold head_matches. rewrite andb_true_iff, !bool_decide_eq_true. done. Qed.

Lemma find_replace v o new l :
  head_matches v o new = true → List.find (head_matches v o) (replace_or_push v o new l) = Some new.
Proof.
  intros Hn. induction l as [|r l IH]; simpl; [by rewrite Hn|].
  destruct (head_matches v o r) eqn:E; simpl; [by rewrite Hn|by rewrite E].
Qed.

Lemma find_replace_other v o v' o' new l :
  head_matches v o new = true → (v', o') ≠ (v, o) →
  List.find (head_matches v' o') (replace_or_push v o new l) = List.find (head_matches v' o') l.
Proof.
  intros Hn Hne. assert (∀ r, head_matches v o r = true → head_matches v' o' r = false) as Hx.
  { intros r [<- <-]%head_matches_true. apply not_true_iff_false. intros [<- <-]%head_matches_true. done. }
  induction l as [|r l IH]; simpl; [by rewrite Hx|].
  destruct (head_matches v o r) eqn:E; simpl; [by rewrite !Hx|by rewrite IH].
Qed.

Lemma replace_Forall (Q : WitnessReceipt → Prop) v o new l :
  Q new → Forall Q l → Forall Q (replace_or_push v o new l).
Proof. intros Hn. induction 1; simpl; [|case_match]; eauto using Forall. Qed.

Lemma current_in_heads p v o r :
  mem_current_receipt p v o = Some r → r ∈ mem_heads p ∧ rc_vault_id r = v ∧ rc_object_id r = o.
Proof.
  intros E%find_some. destruct E as [Hin E]. rewrite head_matches_true in E.
  by rewrite list_elem_of_In.
Qed.

Lemma mem_advance_spec req p r p' :
  mem_inv p → mem_advance req p = (Ok r, p') →
  mem_inv p' ∧ verify_request r req = Ok tt ∧ rc_epoch r = mem_next_epoch p ∧
  mem_current_receipt p' (req_vault_id req) (req_object_id req) = Some r ∧
  (∀ v o, (v, o) ≠ (req_vault_id req, req_object_id req) → mem_current_receipt p' v o = mem_current_receipt p v o).
Proof.
  intros [Hn Hh]. unfold mem_advance. destruct (u64_checked_add _ _) as [next|] eqn:En; [|done].
  apply u64_checked_add_some in En as [-> _]. intros [= <- <-].
  pose proof (receipt_issue_verifies req (mem_next_epoch p) (mem_signing_key p)) as Hv.
  assert (head_matches (req_vault_id req) (req_object_id req)
    (receipt_issue req (mem_next_epoch p) (mem_signing_key p)) = true) as Hm by by apply head_matches_true.
  split_and!; [split; simpl; [lia|]|done|done|by apply find_replace|intros; by apply find_replace_other].
  apply replace_Forall.
  - split_and!; [by apply verify_request_ok in Hv as (_ & _ & _ & _ & ?)|done|simpl; lia|simpl; lia].
  - eapply Forall_impl; [done|]. intros x (? & ? & ?). split_and!; [done..|lia|simpl; lia].
Qed.

Lemma mem_advance_err req p e p' : mem_advance req p = (Err e, p') → p' = p.
Proof. unfold mem_advance. case_match; naive_solver. Qed.

(** The three ways a request is granted or refused. *)
Lemma mem_issue_cases req e p out p' :
  mem_inv p → mem_issue_receipt req e p = (out, p') →
  let cur := mem_current_receipt p (req_vault_id req) (req_object_id req) in
  (∃ r, cur = Some r ∧ already_issued r req e = true ∧ out = Ok r ∧ p' = p) ∨
  (out = Err WitnessConflict ∧ p' = p) ∨
  (e = match cur with Some h => rc_epoch h | None => 0 end ∧ mem_advance req p = (out, p')).
Proof.
  intros _. unfold mem_issue_receipt. destruct (mem_current_receipt _ _ _) as [cur|]; simpl.
  - destruct (already_issued cur req e) eqn:Ea; [intros [= <- <-]; left; eauto|].
    destruct (Z.eqb_spec (rc_epoch cur) e); simpl; [by right; right|]. intros [= <- <-]. by right; left.
  - destruct (Z.eqb_spec e 0); simpl; [by right; right|]. intros [= <- <-]. by right; left.
Qed.

Lemma current_verifies p req e r :
  mem_inv p → mem_current_receipt p (req_vault_id req) (req_object_id req) = Some r →
  already_issued r req e = true → verify_request r req = Ok tt ∧ e < rc_epoch r.
Proof.
  intros [_ Hh] Hc Ha. apply current_in_heads in Hc as (Hin & Ev & Eo).
  rewrite Forall_forall in Hh. specialize (Hh r Hin). unfold already_issued in Ha.
  rewrite !andb_true_iff, !bool_decide_eq_true in Ha. destruct Ha as [[? ?] ?].
  split; [apply verify_request_ok; split_and!; try done; apply Hh|lia].
Qed.

Lemma expected_below_next p v o :
  mem_inv p → match mem_current_receipt p v o with Some h => rc_epoch h | None => 0 end < mem_next_epoch p.
Proof.
  intros [Hn Hh]. destruct (mem_current_receipt p v o) as [r|] eqn:E; [|lia].
  apply current_in_heads in E as (Hin & _). rewrite Forall_forall in Hh. specialize (Hh r Hin). lia.
Qed.

#[global] Instance mem_contract : ProviderContract InMemoryTestProvider.
Proof.
  refine {| pv_inv := mem_inv; pv_head := mem_current_receipt |}.
  - intros p req e res p' Hp _ _ Hi.
    destruct (mem_issue_cases _ _ _ _ _ Hp Hi) as [(r & Hc & Ha & -> & ->)|[[-> ->]|[He Hadv]]].
    + destruct (current_verifies _ _ _ _ Hp Hc Ha). split_and!; [done|done|by left|]. by intros ? [= <-].
    + split_and!; [done|done|by left|done].
    + destruct res as [r|err].
      * destruct (mem_advance_spec _ _ _ _ Hp Hadv) as (? & ? & Ee & ? & ?).
        assert (e < rc_epoch r) by (rewrite Ee, He; by apply expected_below_next).
        split_and!; [done|done| |by intros ? [= <-]]. right. split; [done|]. by exists r.
      * apply mem_advance_err in Hadv as ->. split_and!; [done|done|by left|done].
  - intros p req e r res p' Hp _ _ Hc Hlt (Ev & Eo & Ex & Ec & _)%verify_request_ok Hi.
    assert (already_issued r req e = true) as Ha.
    { unfold already_issued. rewrite !bool_decide_eq_true_2 by done. simpl. by apply Z.ltb_lt. }
    simpl in Hi. unfold mem_issue_receipt in Hi. rewrite Hc, Ha in Hi. injection Hi as <- <-.
    split; [done|]. by intros ? [= <-].
  - intros p v o ch res p' Hp _ _ _ _ Hi. injection Hi as <- <-. split; [done|]. split; [done|]. intros h [= <-].
    split; [apply head_issue_verifies|]. split_and!; try done.
    destruct (mem_current_receipt p v o) as [r|] eqn:E; [|done]. split_and!; try done.
    apply current_in_heads in E as (Hin & _). destruct Hp as [_ Hh]. rewrite Forall_forall in Hh.
    symmetry. apply (Hh r Hin).
Defined.

Lemma mem_from_seed_inv seed : mem_inv (mem_from_seed seed).
Proof. split; [simpl; lia|constructor]. Qed.

End mem.
End MemProvider.
