(* ===== verification/Fs.v ===== *)
(** * File-system environment, path validation and private state files

    Models [crates/vlt1-core/src/path_safety.rs] and
    [crates/vlt1-core/src/private_file.rs] over an explicit file system.

    The environment [Env] carries the file system, the mode a newly created
    file gets, and a fault schedule: the [n]-th system call or SQL statement
    fails when [env_faults n] says so.  Theorems quantify over every schedule. *)

From S2P Require Import Prelude Format.
From Stdlib Require Import ZArith Lia.
From stdpp Require Import base numbers list gmap strings.

Open Scope Z_scope.
Open Scope vlt_scope.

(** ** Paths

    The component view of [std::path::Path]: whether the path starts at the
    root, and its components ([.] is kept only in first position). *)
Record Path : Type := mkPath { absolute : bool; comps : list string }.

#[global] Instance Path_eq_dec : EqDecision Path.
Proof. solve_decision. Defined.
#[global] Instance Path_countable : Countable Path.
Proof. apply (inj_countable' (λ p, (absolute p, comps p)) (λ x, mkPath x.1 x.2)). by intros []. Defined.

Definition path_is_empty (p : Path) : bool :=
  negb (absolute p) && bool_decide (comps p = []).

(** [Path::parent]. *)
Definition parent (p : Path) : option Path :=
  match comps p with
  | [] => None
  | cs => Some (mkPath (absolute p) (removelast cs))
  end.

(** [Path::ancestors]: the path, its parent, and so on to a path without a
    parent. *)
Definition ancestors (p : Path) : list Path :=
  map (λ k, mkPath (absolute p) (take k (comps p))) (rev (seq 0 (S (length (comps p))))).

(** [Path::new] on a text: [/] separates components, empty ones and [.] after
    the first position are dropped. *)
Fixpoint bytes_string (s : bytes) : string :=
  match s with
  | [] => EmptyString
  | b :: s => String (Ascii.ascii_of_N (Z.to_N b)) (bytes_string s)
  end.

Fixpoint split_slash (s : bytes) : list bytes :=
  match s with
  | [] => [[]]
  | c :: s =>
      if c =? 47 then [] :: split_slash s
      else match split_slash s with
           | part :: parts => (c :: part) :: parts
           | [] => [[c]]
           end
  end.

Definition is_dot (s : bytes) : bool := bool_decide (s = [46]).
Definition is_empty_part (s : bytes) : bool := bool_decide (s = []).

Definition path_new (text : bytes) : Path :=
  let parts := split_slash text in
  let keep := filter (λ s, is_empty_part s = false ∧ is_dot s = false) in
  match parts with
  | first :: rest =>
      if is_empty_part first then mkPath (negb (is_empty_part text)) (map bytes_string (keep rest))
      else mkPath false (map bytes_string (first :: keep rest))
  | [] => mkPath false []
  end.

Definition current_dir : Path := mkPath false ["."].

(** [OsString::push]. *)
Definition path_push_suffix (p : Path) (suffix : string) : Path :=
  match last (comps p) with
  | None => mkPath (absolute p) [suffix]
  | Some c => mkPath (absolute p) (removelast (comps p) ++ [String.append c suffix])
  end.

(** ** The environment *)

Inductive FileType : Type := FRegular | FDirectory | FSymlink | FSocket | FOther.
#[global] Instance FileType_eq_dec : EqDecision FileType.
Proof. solve_decision. Defined.

Record Metadata : Type := mkMeta { file_type : FileType; mode : Z }.

Inductive IoError : Type := IoNotFound | IoOther.

Record Env : Type := mkEnv {
  env_fs : gmap Path Metadata;
  env_create_mode : Z;
  env_faults : nat → bool;
  env_tick : nat;
}.

Definition set_fs (fs : gmap Path Metadata) (e : Env) : Env :=
  mkEnv fs (env_create_mode e) (env_faults e) (env_tick e).

(** Consult the fault schedule. *)
Definition io_fault {E} : M Env E bool :=
  λ e, (Ok (env_faults e (env_tick e)),
        mkEnv (env_fs e) (env_create_mode e) (env_faults e) (S (env_tick e))).

(** [fs::symlink_metadata]: the empty path never names a file. *)
Definition symlink_metadata (p : Path) : M Env IoError Metadata :=
  let* fault := io_fault in
  if fault : bool then sthrow IoOther else
  let* fs := sgets env_fs in
  if path_is_empty p then sthrow IoNotFound else
  slift (ok_or (fs !! p) IoNotFound).

(** [fs::set_permissions(path, Permissions::from_mode(mode))]. *)
Definition set_permissions (p : Path) (m : Z) : M Env IoError unit :=
  let* fault := io_fault in
  if fault : bool then sthrow IoOther else
  let* fs := sgets env_fs in
  match fs !! p with
  | None => sthrow IoNotFound
  | Some md => smodify (set_fs (<[p := mkMeta (file_type md) m]> fs))
  end.

Definition is_symlink (md : Metadata) : bool := bool_decide (file_type md = FSymlink).
Definition is_file (md : Metadata) : bool := bool_decide (file_type md = FRegular).
Definition is_dir (md : Metadata) : bool := bool_decide (file_type md = FDirectory).

Module PathSafety.

Fixpoint validate_directories (dirs : list Path) (input : string) : M Env VaultError unit :=
  match dirs with
  | [] => sret tt
  | ancestor :: dirs =>
      let* metadata := smap_err (λ _, InvalidInput input) (symlink_metadata ancestor) in
      if is_symlink metadata || negb (is_dir metadata) then sthrow (InvalidInput input)
      else validate_directories dirs input
  end.

Definition validate_parent_directory (path : Path) (input : string) : M Env VaultError unit :=
  let* parent := slift (ok_or (parent path) (InvalidInput input)) in
  let parent := if path_is_empty parent then current_dir else parent in
  validate_directories (ancestors parent) input.

Definition validate_existing_regular_file (path : Path) (input : string) : M Env VaultError unit :=
  validate_parent_directory path input ;*
  let* metadata := smap_err (λ _, InvalidInput input) (symlink_metadata path) in
  if is_symlink metadata || negb (is_file metadata) then sthrow (InvalidInput input)
  else sret tt.

Definition validate_new_regular_file (path : Path) (input : string) : M Env VaultError unit :=
  validate_parent_directory path input ;*
  λ e, match symlink_metadata path e with
       | (Ok _, e) => (Err (InvalidInput input), e)
       | (Err IoNotFound, e) => (Ok tt, e)
       | (Err _, e) => (Err Storage, e)
       end.

(** Every error of the ancestor walk is the caller's [InvalidInput]. *)
Lemma validate_directories_err dirs input e :
  ∃ out e', validate_directories dirs input e = (out, e') ∧
    (out = Ok tt ∨ out = Err (InvalidInput input)) ∧
    (Exists (λ d, path_is_empty d = true) dirs → out = Err (InvalidInput input)).
Proof.
  revert e. induction dirs as [|d dirs IH]; intros e; simpl.
  { eexists _, _. split; [done|]. split; [by left|]. intros Hx. inversion Hx. }
  unfold sbind at 1. unfold smap_err.
  destruct (symlink_metadata d e) as [[md|k] e1] eqn:E; [|by eauto 10].
  destruct (_ || _); [by eexists _, _; split; [done|auto]|].
  destruct (IH e1) as (out & e2 & E2 & Hout & Hx). exists out, e2. split_and!; [done..|].
  intros [Hd|Ht]%Exists_cons; [|auto]. exfalso. revert E. unfold symlink_metadata, sbind. simpl.
  destruct (env_faults e (env_tick e)); [done|]. unfold sgets. simpl. by rewrite Hd.
Qed.

Lemma ancestors_relative p : absolute p = false → Exists (λ d, path_is_empty d = true) (ancestors p).
Proof.
  intros Hp. apply Exists_exists. exists (mkPath false []). split; [|done].
  unfold ancestors. rewrite Hp. apply list_elem_of_In, in_map_iff. exists 0%nat. split; [done|].
  apply in_rev. rewrite rev_involutive. simpl. by left.
Qed.

(** A relative path is refused whatever the file system holds: the ancestor
    walk ends at the empty path, which [symlink_metadata] never finds. *)
Lemma relative_path_rejected path input e :
  absolute path = false →
  ∃ e', validate_new_regular_file path input e = (Err (InvalidInput input), e') ∧
  ∃ e'', validate_existing_regular_file path input e = (Err (InvalidInput input), e'').
Proof.
  intros Hp. enough (∃ e', validate_parent_directory path input e = (Err (InvalidInput input), e')) as [e' E].
  { unfold validate_new_regular_file, validate_existing_regular_file, sbind. rewrite E. eauto. }
  unfold validate_parent_directory, sbind, slift. unfold parent.
  destruct (comps path) as [|c cs]; simpl; [by eauto|].
  match goal with |- context [validate_directories (ancestors ?q) _ _] =>
    destruct (validate_directories_err (ancestors q) input e) as (out & e' & E & _ & Hx);
    assert (absolute q = false) as Hq by (case_match; done) end.
  exists e'. rewrite E. by rewrite (Hx (ancestors_relative _ Hq)).
Qed.

(** [./vault.sqlite] in an existing current directory. *)
Lemma relative_path_rejected_witness :
  let e := mkEnv {[ current_dir := mkMeta FDirectory 493 ]} 420 (λ _, false) 0 in
  let path := mkPath false ["."; "vault.sqlite"] in
  ∃ e', validate_new_regular_file path "vault path" e = (Err (InvalidInput "vault path"), e') ∧
  ∃ e'', validate_existing_regular_file path "vault path" e = (Err (InvalidInput "vault path"), e'').
Proof. intros e path. apply (relative_path_rejected path). done. Defined.

End PathSafety.

Module PrivateFile.

Definition mode_is_private (m : Z) : bool :=
  (Z.land m 0x3f =? 0) && (Z.land m 0x180 =? 0x180).

(** The source's literals are octal: [0o077] is [0x3f] and [0o600] is [0x180]. *)
Definition enforce_owner_private_file (path : Path) : M Env VaultError unit :=
  let* metadata := smap_err (λ _, Storage) (symlink_metadata path) in
  if negb (is_file metadata) || is_symlink metadata
  then sthrow (InvalidInput "VLT/1 state file type") else
  let m := mode metadata in
  if negb (Z.land m 0x3f =? 0) || negb (Z.land m 0x180 =? 0x180)
  then smap_err (λ _, Storage) (set_permissions path 0x180)
  else sret tt.

Definition enforce_owner_private_optional_file (path : Path) : M Env VaultError unit :=
  λ e, match symlink_metadata path e with
       | (Ok _, e) => enforce_owner_private_file path e
       | (Err IoNotFound, e) => (Ok tt, e)
       | (Err _, e) => (Err Storage, e)
       end.

Definition enforce_owner_private_sqlite_state (path : Path) : M Env VaultError unit :=
  enforce_owner_private_file path ;*
  enforce_owner_private_optional_file (path_push_suffix path "-wal") ;*
  enforce_owner_private_optional_file (path_push_suffix path "-shm").

Definition private_at (fs : gmap Path Metadata) (p : Path) : Prop :=
  ∀ md, fs !! p = Some md → file_type md = FRegular ∧ mode_is_private (mode md) = true.

(** What a successful or failed enforcement may change: only the named file,
    and only its mode, to [0o600]. *)
Definition only_restricts (p : Path) (fs fs' : gmap Path Metadata) : Prop :=
  fs' = fs ∨ ∃ md, fs !! p = Some md ∧ fs' = <[p := mkMeta (file_type md) 0x180]> fs.

Lemma symlink_metadata_ok p e md e' :
  symlink_metadata p e = (Ok md, e') → env_fs e' = env_fs e ∧ env_fs e !! p = Some md.
Proof.
  unfold symlink_metadata, sbind. simpl. destruct (env_faults e (env_tick e)); [done|].
  destruct (path_is_empty p); [done|]. unfold slift. simpl.
  destruct (env_fs e !! p) eqn:E; simpl; [|done]. intros [= <- <-]. done.
Qed.

Lemma symlink_metadata_fs p e r e' : symlink_metadata p e = (r, e') → env_fs e' = env_fs e.
Proof.
  unfold symlink_metadata, sbind. simpl. destruct (env_faults e (env_tick e)); [by intros [= <- <-]|].
  destruct (path_is_empty p); by intros [= <- <-].
Qed.

Lemma enforce_file_spec p e out e' :
  enforce_owner_private_file p e = (out, e') →
  only_restricts p (env_fs e) (env_fs e') ∧ (out = Ok tt → private_at (env_fs e') p).
Proof.
  unfold enforce_owner_private_file, sbind, smap_err.
  destruct (symlink_metadata p e) as [[md|k] e1] eqn:E; [|intros [= <- <-]; split; [left; eapply symlink_metadata_fs; eauto|done]].
  apply symlink_metadata_ok in E as [Efs El].
  destruct (_ || _) eqn:Et; [intros [= <- <-]; split; [by left|done]|].
  apply orb_false_iff in Et as [Et _]. apply negb_false_iff, bool_decide_eq_true in Et.
  destruct (negb _ || negb _) eqn:Em.
  - unfold set_permissions, sbind. simpl. destruct (env_faults e1 (env_tick e1)); [intros [= <- <-]; split; [by left|done]|].
    unfold sgets. simpl. rewrite Efs, El. intros [= <- <-]. split.
    + right. by exists md.
    + intros _ md'. simpl. rewrite lookup_insert_eq. intros [= <-]. done.
  - intros [= <- <-]. split; [by left|]. intros _ md'. rewrite Efs, El. intros [= <-]. split; [done|].
    apply orb_false_iff in Em as [E1 E2]. apply negb_false_iff in E1, E2.
    unfold mode_is_private. by rewrite E1, E2.
Qed.

Lemma enforce_optional_spec p e out e' :
  path_is_empty p = false → enforce_owner_private_optional_file p e = (out, e') →
  only_restricts p (env_fs e) (env_fs e') ∧ (out = Ok tt → private_at (env_fs e') p).
Proof.
  intros Hp. unfold enforce_owner_private_optional_file.
  destruct (symlink_metadata p e) as [[md|k] e1] eqn:E.
  - apply symlink_metadata_ok in E as [<- _]. apply enforce_file_spec.
  - apply symlink_metadata_fs in E as Efs. intros H.
    assert (e' = e1) as -> by (destruct k; congruence). rewrite Efs. split; [by left|].
    intros -> md Hl. destruct k; [|done]. exfalso. revert E. unfold symlink_metadata, sbind. simpl.
    destruct (env_faults e (env_tick e)); [done|]. rewrite Hp. unfold slift. simpl. by rewrite Hl.
Qed.

Lemma path_push_suffix_nonempty p s : path_is_empty (path_push_suffix p s) = false.
Proof.
  unfold path_push_suffix, path_is_empty. destruct (last (comps p)); simpl.
  - rewrite bool_decide_eq_false_2; [by rewrite andb_false_r|]. by destruct (removelast _).
  - by rewrite andb_false_r.
Qed.

Lemma only_restricts_private p q fs fs' :
  only_restricts p fs fs' → private_at fs q → private_at fs' q.
Proof.
  intros [->|(md & Hl & ->)] Hq; [done|]. intros md'. rewrite lookup_insert. case_decide; [|apply Hq].
  subst. intros [= <-]. simpl. split; [|done]. by apply (Hq md).
Qed.

(** *** Success without faults *)

Definition quiet (e : Env) : Prop := ∀ n, env_faults e n = false.

Definition type_at (e : Env) (p : Path) : option FileType := file_type <$> env_fs e !! p.

(** Modes may differ, faults and file types do not. *)
Definition same_types (e e' : Env) : Prop := env_faults e' = env_faults e ∧ ∀ p, type_at e' p = type_at e p.

Lemma symlink_metadata_quiet p e :
  quiet e → path_is_empty p = false →
  ∃ e', symlink_metadata p e = (ok_or (env_fs e !! p) IoNotFound, e') ∧ same_types e e' ∧ env_fs e' = env_fs e.
Proof.
  intros Hq Hp. eexists. unfold symlink_metadata, sbind. simpl. rewrite Hq. rewrite Hp. unfold slift. simpl.
  split; [done|]. done.
Qed.

Lemma enforce_file_quiet p e :
  quiet e → path_is_empty p = false → type_at e p = Some FRegular →
  ∃ e', enforce_owner_private_file p e = (Ok tt, e') ∧ same_types e e'.
Proof.
  intros Hq Hp Ht. unfold type_at in Ht. destruct (env_fs e !! p) as [md|] eqn:El; [|done]. simpl in Ht.
  destruct (symlink_metadata_quiet p e Hq Hp) as (e1 & E1 & [Hf Hs] & Efs). rewrite El in E1.
  unfold enforce_owner_private_file, sbind, smap_err. rewrite E1. simpl.
  unfold is_file, is_symlink. rewrite bool_decide_eq_true_2, bool_decide_eq_false_2 by congruence. simpl.
  destruct (_ || _); [|by exists e1].
  unfold set_permissions, sbind. simpl. rewrite Hf, Hq. unfold sgets. simpl. rewrite Efs, El. unfold smodify.
  eexists. split; [done|]. split; [by simpl|]. intros q. unfold type_at. simpl.
  rewrite lookup_insert. case_decide; [subst|done]. by rewrite El.
Qed.

Lemma enforce_optional_quiet p e :
  quiet e → path_is_empty p = false → (∀ t, type_at e p = Some t → t = FRegular) →
  ∃ e', enforce_owner_private_optional_file p e = (Ok tt, e') ∧ same_types e e'.
Proof.
  intros Hq Hp Ht. destruct (symlink_metadata_quiet p e Hq Hp) as (e1 & E1 & Hs & Efs).
  unfold enforce_owner_private_optional_file. rewrite E1. destruct (env_fs e !! p) as [md|] eqn:El; simpl; [|by exists e1].
  destruct Hs as [Hf Hs]. destruct (enforce_file_quiet p e1) as (e2 & E2 & Hf2 & Hs2); [by intros n; rewrite Hf|done| |].
  - rewrite Hs. unfold type_at in *. rewrite El in *. simpl in *. by rewrite (Ht _ eq_refl).
  - exists e2. split; [done|]. split; [congruence|]. intros q. by rewrite Hs2.
Qed.

(** The database is a regular file and so is each companion that exists. *)
Definition state_files (path : Path) (e : Env) : Prop :=
  path_is_empty path = false ∧ type_at e path = Some FRegular ∧
  ∀ suffix t, type_at e (path_push_suffix path suffix) = Some t → t = FRegular.

Lemma enforce_state_quiet path e :
  quiet e → state_files path e →
  ∃ e', enforce_owner_private_sqlite_state path e = (Ok tt, e') ∧ same_types e e'.
Proof.
  intros Hq (Hp & Ht & Hc). unfold enforce_owner_private_sqlite_state, sbind.
  destruct (enforce_file_quiet path e) as (e1 & -> & Hf1 & Hs1); [done..|].
  destruct (enforce_optional_quiet (path_push_suffix path "-wal") e1) as (e2 & -> & Hf2 & Hs2).
  { by intros n; rewrite Hf1. } { apply path_push_suffix_nonempty. } { intros t. rewrite Hs1. apply Hc. }
  destruct (enforce_optional_quiet (path_push_suffix path "-shm") e2) as (e3 & -> & Hf3 & Hs3).
  { by intros n; rewrite Hf2, Hf1. } { apply path_push_suffix_nonempty. } { intros t. rewrite Hs2, Hs1. apply Hc. }
  exists e3. split; [done|]. split; [congruence|]. intros q. by rewrite Hs3, Hs2.
Qed.

(** After a successful enforcement the database and each companion that exists
    are regular files no group or other user can access. *)
Lemma sqlite_state_private path e e' :
  enforce_owner_private_sqlite_state path e = (Ok tt, e') →
  private_at (env_fs e') path ∧ private_at (env_fs e') (path_push_suffix path "-wal") ∧
  private_at (env_fs e') (path_push_suffix path "-shm").
Proof.
  unfold enforce_owner_private_sqlite_state. intros H. do 2 sbind_step H.
  destruct a, a0.
  apply enforce_file_spec in E as [_ P1]. 
  apply enforce_optional_spec in E0 as [R2 P2]; [|apply path_push_suffix_nonempty].
  apply enforce_optional_spec in H as [R3 P3]; [|apply path_push_suffix_nonempty].
  split_and!; [|eapply only_restricts_private; eauto|by auto].
  eapply only_restricts_private; [done|]. eapply only_restricts_private; eauto.
Qed.

(** A world-readable database with a companion, repaired. *)
Lemma sqlite_state_private_witness :
  let path := mkPath true ["v"] in
  let e := mkEnv {[ path := mkMeta FRegular 0x1a4; path_push_suffix path "-wal" := mkMeta FRegular 0x1a4 ]} 420 (λ _, false) 0 in
  let run := enforce_owner_private_sqlite_state path e in
  mode <$> env_fs run.2 !! path = Some 0x180 ∧
  private_at (env_fs run.2) path ∧ private_at (env_fs run.2) (path_push_suffix path "-wal") ∧
  private_at (env_fs run.2) (path_push_suffix path "-shm").
Proof.
  intros path e run. split; [vm_compute; exact eq_refl|].
  apply (sqlite_state_private path e run.2). vm_compute. exact eq_refl.
Defined.

End PrivateFile.
