(* ===== verification/Storage.v ===== *)
(** * SQLite persistence

    Models [crates/vlt1-core/src/storage.rs].  A database is its six tables;
    every SQL statement of the source is a function on tables that enforces the
    schema's PRIMARY KEY, UNIQUE, CHECK and FOREIGN KEY clauses and fails when
    one is violated.  Integer columns are SQLite's 64-bit integers, so a [u64]
    parameter above [i64::MAX] is refused and a stored value outside the
    requested Rust type is an error on reading, as rusqlite specifies.

    A statement also fails when the fault schedule says so (I/O error, full
    disk, busy database).  A transaction works on the connection's view and is
    rolled back when it is dropped without a successful commit. *)

From S2P Require Import Prelude Format Crypto Witness Fs.
From Stdlib Require Import ZArith Lia.
From stdpp Require Import base numbers list gmap strings sorting.

Open Scope Z_scope.
Open Scope vlt_scope.

(** ** Tables *)

Record MetaRow : Type := mkMetaRow {
  mr_format_version : Z;
  mr_vault_id : bytes;
  mr_root_salt : bytes;
  mr_memory_kib : Z;
  mr_iterations : Z;
  mr_lanes : Z;
  mr_root_nonce : bytes;
  mr_root_ciphertext : bytes;
}.

Record VersionRow : Type := mkVersionRow {
  vr_object_id : bytes;
  vr_dek_nonce : bytes;
  vr_dek_ciphertext : bytes;
  vr_manifest_nonce : bytes;
  vr_manifest_ciphertext : bytes;
  vr_plaintext_len : Z;
  vr_chunk_size : Z;
  vr_chunk_count : Z;
}.

Record ChunkRow : Type := mkChunkRow { cr_nonce : bytes; cr_ciphertext : bytes }.

Record ReceiptRow : Type := mkReceiptRow {
  rr_vault_id : bytes;
  rr_object_id : bytes;
  rr_epoch : Z;
  rr_commitment : bytes;
  rr_public_key : bytes;
  rr_signature : bytes;
}.

#[global] Instance VersionRow_eq_dec : EqDecision VersionRow.
Proof. solve_decision. Defined.
#[global] Instance ChunkRow_eq_dec : EqDecision ChunkRow.
Proof. solve_decision. Defined.

(** The schema of [initialize_schema]; maps are keyed by the primary keys. *)
Record Db : Type := mkDb {
  db_meta : option MetaRow;
  db_objects : gmap bytes bytes;
  db_versions : gmap bytes VersionRow;
  db_chunks : gmap (bytes * Z) ChunkRow;
  db_pending : gmap bytes Z;
  db_receipts : gmap bytes ReceiptRow;
}.

Definition empty_db : Db := mkDb None ∅ ∅ ∅ ∅ ∅.

(** Everything outside the vault object: the database behind the connection,
    what [PRAGMA integrity_check] reports about its file, the environment and
    the random generator. *)
Record World : Type := mkWorld {
  w_db : Db;
  w_integrity_ok : bool;
  w_env : Env;
  w_rng : Rng;
}.

Definition set_db (db : Db) (w : World) : World := mkWorld db (w_integrity_ok w) (w_env w) (w_rng w).
Definition set_env (e : Env) (w : World) : World := mkWorld (w_db w) (w_integrity_ok w) e (w_rng w).
Definition set_rng (r : Rng) (w : World) : World := mkWorld (w_db w) (w_integrity_ok w) (w_env w) r.

Abbreviation IO A := (M World VaultError A).

Definition in_env {A} (m : M Env VaultError A) : IO A := szoom w_env set_env m.
Definition in_rng {A} (m : M Rng VaultError A) : IO A := szoom w_rng set_rng m.

Record StoredVersion : Type := mkStored {
  sv_object_id : ObjectId;
  sv_version_id : VersionId;
  sv_wrapped_dek : SealedRecord;
  sv_manifest : SealedRecord;
  sv_plaintext_len : Z;
  sv_chunk_size : Z;
  sv_chunk_count : Z;
}.

Module Sql.

(** rusqlite's integer conversions. *)
Definition u64_to_sql (v : Z) : option Z := if v <=? i64_max then Some v else None.
Definition u32_of_sql (v : Z) : option Z := if (0 <=? v) && (v <=? u32_max) then Some v else None.
Definition u64_of_sql (v : Z) : option Z := if 0 <=? v then Some v else None.

Definition len_is (n : nat) (b : bytes) : bool := bool_decide (length b = n).

(** [execute]: a fault or a violated constraint is [VaultError::Storage]. *)
Definition exec (stmt : Db → option Db) : IO unit :=
  let* fault := in_env io_fault in
  if fault : bool then sthrow Storage else
  λ w, match stmt (w_db w) with
       | Some db => (Ok tt, set_db db w)
       | None => (Err Storage, w)
       end.

(** A read-only query; [None] stands for no row. *)
Definition query {A} (q : Db → A) : IO A :=
  let* fault := in_env io_fault in
  if fault : bool then sthrow Storage else
  sgets (λ w, q (w_db w)).

Definition insert_meta (row : MetaRow) (db : Db) : option Db :=
  if len_is 16 (mr_vault_id row) && len_is 16 (mr_root_salt row) && len_is 12 (mr_root_nonce row) then
    match db_meta db with
    | Some _ => None
    | None => Some (mkDb (Some row) (db_objects db) (db_versions db) (db_chunks db) (db_pending db) (db_receipts db))
    end
  else None.

Definition insert_version_row (vid : bytes) (row : VersionRow) (db : Db) : option Db :=
  if len_is 16 vid && len_is 16 (vr_object_id row) && len_is 12 (vr_dek_nonce row)
     && len_is 12 (vr_manifest_nonce row) && (0 <=? vr_plaintext_len row) && (0 <? vr_chunk_size row)
     && (0 <=? vr_chunk_count row)
  then
    match db_versions db !! vid with
    | Some _ => None
    | None => Some (mkDb (db_meta db) (db_objects db) (<[vid := row]> (db_versions db)) (db_chunks db)
                      (db_pending db) (db_receipts db))
    end
  else None.

(** The UPDATE of [StreamingPublication::finish] and the number of rows it changed. *)
Definition update_version (vid oid : bytes) (manifest_nonce manifest_ciphertext : bytes)
    (plaintext_len chunk_count : Z) (db : Db) : option (nat * Db) :=
  match db_versions db !! vid with
  | Some row =>
      if decide (vr_object_id row = oid) then
        if len_is 12 manifest_nonce && (0 <=? plaintext_len) && (0 <=? chunk_count) then
          let row := mkVersionRow (vr_object_id row) (vr_dek_nonce row) (vr_dek_ciphertext row)
                       manifest_nonce manifest_ciphertext plaintext_len (vr_chunk_size row) chunk_count in
          Some (1%nat, mkDb (db_meta db) (db_objects db) (<[vid := row]> (db_versions db)) (db_chunks db)
                     (db_pending db) (db_receipts db))
        else None
      else Some (0%nat, db)
  | None => Some (0%nat, db)
  end.

Definition insert_chunk_row (vid : bytes) (index : Z) (row : ChunkRow) (db : Db) : option Db :=
  if len_is 16 vid && (0 <=? index) && len_is 12 (cr_nonce row)
     && bool_decide (is_Some (db_versions db !! vid))
     && negb (map_any (λ k r, bool_decide (k.1 = vid) && bool_decide (cr_nonce r = cr_nonce row)) (db_chunks db))
  then
    match db_chunks db !! (vid, index) with
    | Some _ => None
    | None => Some (mkDb (db_meta db) (db_objects db) (db_versions db) (<[(vid, index) := row]> (db_chunks db))
                      (db_pending db) (db_receipts db))
    end
  else None.

(** [INSERT .. ON CONFLICT(object_id) DO UPDATE]. *)
Definition upsert_object (oid vid : bytes) (db : Db) : option Db :=
  if len_is 16 oid && len_is 16 vid then
    Some (mkDb (db_meta db) (<[oid := vid]> (db_objects db)) (db_versions db) (db_chunks db)
            (db_pending db) (db_receipts db))
  else None.

Definition insert_pending (vid : bytes) (epoch : Z) (db : Db) : option Db :=
  if len_is 16 vid && (0 <=? epoch) && bool_decide (is_Some (db_versions db !! vid)) then
    match db_pending db !! vid with
    | Some _ => None
    | None => Some (mkDb (db_meta db) (db_objects db) (db_versions db) (db_chunks db)
                      (<[vid := epoch]> (db_pending db)) (db_receipts db))
    end
  else None.

Definition delete_pending (vid : bytes) (db : Db) : option Db :=
  Some (mkDb (db_meta db) (db_objects db) (db_versions db) (db_chunks db) (delete vid (db_pending db))
          (db_receipts db)).

Definition insert_receipt_row (vid : bytes) (row : ReceiptRow) (db : Db) : option Db :=
  if len_is 16 vid && len_is 16 (rr_vault_id row) && len_is 16 (rr_object_id row) && (0 <=? rr_epoch row)
     && len_is 32 (rr_commitment row) && len_is 32 (rr_public_key row) && len_is 64 (rr_signature row)
     && bool_decide (is_Some (db_versions db !! vid))
     && negb (map_any (λ _ r, bool_decide (rr_public_key r = rr_public_key row) && (rr_epoch r =? rr_epoch row))
                (db_receipts db))
  then
    match db_receipts db !! vid with
    | Some _ => None
    | None => Some (mkDb (db_meta db) (db_objects db) (db_versions db) (db_chunks db) (db_pending db)
                      (<[vid := row]> (db_receipts db)))
    end
  else None.

(** The UPDATE of [replace_root_envelope]: its WHERE clause names the vault. *)
Definition update_meta (row : MetaRow) (db : Db) : option (nat * Db) :=
  match db_meta db with
  | Some old =>
      if decide (mr_vault_id old = mr_vault_id row) then
        if len_is 16 (mr_root_salt row) && len_is 12 (mr_root_nonce row) then
          Some (1%nat, mkDb (Some (mkMetaRow (mr_format_version old) (mr_vault_id old) (mr_root_salt row)
                      (mr_memory_kib row) (mr_iterations row) (mr_lanes row) (mr_root_nonce row)
                      (mr_root_ciphertext row)))
                     (db_objects db) (db_versions db) (db_chunks db) (db_pending db) (db_receipts db))
        else None
      else Some (0%nat, db)
  | None => Some (0%nat, db)
  end.

(** [execute] returning the number of changed rows. *)
Definition exec_count (stmt : Db → option (nat * Db)) : IO nat :=
  let* fault := in_env io_fault in
  if fault : bool then sthrow Storage else
  λ w, match stmt (w_db w) with
       | Some (n, db) => (Ok n, set_db db w)
       | None => (Err Storage, w)
       end.

(** The orders of the ORDER BY clauses. *)
Definition index_le {V} (a b : Z * V) : Prop := a.1 ≤ b.1.
Definition blob_le (a b : bytes) : Prop := bytes_leb a b = true.
Definition key_le {V} (a b : bytes * V) : Prop := blob_le a.1 b.1.

#[global] Instance index_le_dec {V} : RelDecision (@index_le V).
Proof. intros a b. unfold index_le. apply _. Defined.
#[global] Instance blob_le_dec : RelDecision blob_le.
Proof. intros a b. unfold blob_le. apply _. Defined.
#[global] Instance key_le_dec {V} : RelDecision (@key_le V).
Proof. intros a b. unfold key_le. apply _. Defined.

(** SELECT .. FROM chunks WHERE version_id = ? ORDER BY chunk_index ASC *)
Definition select_chunks (vid : bytes) (db : Db) : list (Z * ChunkRow) :=
  merge_sort index_le
    (omap (λ kv : (bytes * Z) * ChunkRow, if decide (kv.1.1 = vid) then Some (kv.1.2, kv.2) else None)
       (map_to_list (db_chunks db))).

(** SELECT object_id FROM objects ORDER BY object_id ASC *)
Definition select_object_ids (db : Db) : list bytes :=
  merge_sort blob_le (map fst (map_to_list (db_objects db))).

(** SELECT .. FROM pending_witness_publications ORDER BY version_id ASC *)
Definition select_pending (db : Db) : list (bytes * Z) :=
  merge_sort key_le (map_to_list (db_pending db)).

(** ** Transactions *)

(** [Connection::transaction] keeps what a rollback restores. *)
Record Transaction : Type := mkTx { tx_rollback : Db }.

Definition begin_transaction : IO Transaction :=
  let* fault := in_env io_fault in
  if fault : bool then sthrow Storage else sgets (λ w, mkTx (w_db w)).

(** Run the rest of a function that owns the transaction: an early return
    drops it and rolls back. *)
Definition owning {A} (tx : Transaction) (m : IO A) : IO A :=
  λ w, match m w with
       | (Ok a, w') => (Ok a, w')
       | (Err e, w') => (Err e, set_db (tx_rollback tx) w')
       end.

(** [Transaction::commit]; a failed commit rolls back. *)
Definition commit (tx : Transaction) : IO unit :=
  let* fault := in_env io_fault in
  if fault : bool then λ w, (Err Storage, set_db (tx_rollback tx) w) else sret tt.

End Sql.

Module Storage.
Import Sql.
Section storage.
Context `{Primitives}.

(** The [Storage] struct: the connection is the world's database, so only the
    path remains. *)

Definition enforce_owner_private_state_files (path : Path) : IO unit :=
  in_env (PrivateFile.enforce_owner_private_sqlite_state path).

Definition bytes12 (b : bytes) : Result bytes :=
  ok_or (fixed_array 12 b) (InvalidFormat "invalid 96-bit nonce length").
Definition bytes16 (b : bytes) : Result bytes :=
  ok_or (fixed_array 16 b) (InvalidFormat "invalid 128-bit identifier length").
Definition bytes32 (b : bytes) : Result bytes :=
  ok_or (fixed_array 32 b) (InvalidFormat "invalid 256-bit length").
Definition bytes64 (b : bytes) : Result bytes :=
  ok_or (fixed_array 64 b) (InvalidFormat "invalid 512-bit signature length").

(** [Connection::open] creates a missing file with the process's default mode;
    the PRAGMAs, including a journal mode other than WAL, fail with [Storage]. *)
Definition open_connection (path : Path) : IO unit :=
  let* fault := in_env io_fault in
  if fault : bool then sthrow Storage else
  in_env (λ e, match env_fs e !! path with
               | Some _ => (Ok tt, e)
               | None => (Ok tt, set_fs (<[path := mkMeta FRegular (env_create_mode e)]> (env_fs e)) e)
               end) ;*
  let* fault := in_env io_fault in
  if fault : bool then sthrow Storage else
  let* fault := in_env io_fault in
  if fault : bool then sthrow Storage else
  sret tt.

(** [CREATE TABLE IF NOT EXISTS ..] changes no table that exists; the tables of
    a new database start empty. *)
Definition initialize_schema : IO unit := exec Some.

Definition meta_of_envelope (e : Crypto.RootEnvelope) : MetaRow :=
  mkMetaRow FORMAT_VERSION (as_bytes (Crypto.env_vault_id e)) (Crypto.env_salt e)
    (Crypto.memory_kib (Crypto.env_params e)) (Crypto.iterations (Crypto.env_params e))
    (Crypto.lanes (Crypto.env_params e)) (nonce (Crypto.env_record e)) (ciphertext (Crypto.env_record e)).

Definition insert_envelope (e : Crypto.RootEnvelope) : IO unit :=
  exec (insert_meta (meta_of_envelope e)).

(** The path is new, so the database behind the connection is empty. *)
Definition create (path : Path) (envelope : Crypto.RootEnvelope) : IO unit :=
  in_env (PathSafety.validate_new_regular_file path "vault database path") ;*
  open_connection path ;*
  smodify (set_db empty_db) ;*
  initialize_schema ;*
  insert_envelope envelope ;*
  enforce_owner_private_state_files path.

Definition open (path : Path) : IO unit :=
  in_env (PathSafety.validate_existing_regular_file path "vault database path") ;*
  open_connection path ;*
  initialize_schema ;*
  enforce_owner_private_state_files path.

(** ** The root envelope *)

Definition envelope_of_meta (row : MetaRow) : Result Crypto.RootEnvelope :=
  let? format_version := ok_or (u32_of_sql (mr_format_version row)) Storage in
  let? memory_kib := ok_or (u32_of_sql (mr_memory_kib row)) Storage in
  let? iterations := ok_or (u32_of_sql (mr_iterations row)) Storage in
  let? lanes := ok_or (u32_of_sql (mr_lanes row)) Storage in
  if negb (format_version =? FORMAT_VERSION) then Err (InvalidFormat "unsupported vault format version") else
  let params := Crypto.mkKdf memory_kib iterations lanes in
  let? _ := Crypto.validate_persisted params in
  let? vault_id := from_slice (mr_vault_id row) in
  let? salt := bytes16 (mr_root_salt row) in
  let? nonce := bytes12 (mr_root_nonce row) in
  Ok (Crypto.mkEnvelope vault_id salt params (mkSealed nonce (mr_root_ciphertext row))).

Definition root_envelope : IO Crypto.RootEnvelope :=
  let* row := query db_meta in
  slift (let? row := ok_or row NotFound in envelope_of_meta row).

Definition replace_root_envelope (path : Path) (envelope : Crypto.RootEnvelope) : IO unit :=
  let* changed := exec_count (update_meta (meta_of_envelope envelope)) in
  if negb (changed =? 1)%nat then sthrow (Invariant "Root Key envelope replacement") else
  enforce_owner_private_state_files path.

(** ** Inserting rows *)

Definition version_row (v : StoredVersion) (plaintext_len : Z) : VersionRow :=
  mkVersionRow (as_bytes (sv_object_id v)) (nonce (sv_wrapped_dek v)) (ciphertext (sv_wrapped_dek v))
    (nonce (sv_manifest v)) (ciphertext (sv_manifest v)) plaintext_len (sv_chunk_size v) (sv_chunk_count v).

Definition insert_version (v : StoredVersion) : IO unit :=
  exec (λ db, plaintext_len ← u64_to_sql (sv_plaintext_len v);
              Sql.insert_version_row (as_bytes (sv_version_id v)) (version_row v plaintext_len) db).

Definition insert_chunk (version_id : VersionId) (c : EncryptedChunk) : IO unit :=
  exec (Sql.insert_chunk_row (as_bytes version_id) (chunk_index c)
          (mkChunkRow (nonce (chunk_record c)) (ciphertext (chunk_record c)))).

Fixpoint insert_chunks (version_id : VersionId) (cs : list EncryptedChunk) : IO unit :=
  match cs with
  | [] => sret tt
  | c :: cs => insert_chunk version_id c ;* insert_chunks version_id cs
  end.

Definition receipt_row (r : WitnessReceipt) (epoch : Z) : ReceiptRow :=
  mkReceiptRow (as_bytes (rc_vault_id r)) (as_bytes (rc_object_id r)) epoch (rc_commitment r)
    (rc_public_key r) (rc_signature r).

Definition insert_receipt (r : WitnessReceipt) : IO unit :=
  exec (λ db, epoch ← u64_to_sql (rc_epoch r);
              Sql.insert_receipt_row (as_bytes (rc_version_id r)) (receipt_row r epoch) db).

Definition advance_pointer (object_id : ObjectId) (version_id : VersionId) : IO unit :=
  exec (upsert_object (as_bytes object_id) (as_bytes version_id)).

(** ** Publication *)

Definition publish_inner (path : Path) (version : StoredVersion) (chunks : list EncryptedChunk)
    (receipt : option WitnessReceipt) : IO unit :=
  if negb (lenZ chunks =? sv_chunk_count version)
  then sthrow (Invariant "chunk count does not match version metadata") else
  let* tx := begin_transaction in
  owning tx (
    insert_version version ;*
    insert_chunks (sv_version_id version) chunks ;*
    match receipt with Some r => insert_receipt r | None => sret tt end ;*
    advance_pointer (sv_object_id version) (sv_version_id version) ;*
    commit tx) ;*
  enforce_owner_private_state_files path.

Definition publish (path : Path) (version : StoredVersion) (chunks : list EncryptedChunk) : IO unit :=
  publish_inner path version chunks None.

Definition stage_witness_publication (path : Path) (version : StoredVersion)
    (chunks : list EncryptedChunk) (expected_epoch : Z) : IO unit :=
  if negb (lenZ chunks =? sv_chunk_count version)
  then sthrow (Invariant "chunk count does not match version metadata") else
  let* tx := begin_transaction in
  owning tx (
    insert_version version ;*
    insert_chunks (sv_version_id version) chunks ;*
    exec (λ db, epoch ← u64_to_sql expected_epoch;
                insert_pending (as_bytes (sv_version_id version)) epoch db) ;*
    commit tx) ;*
  enforce_owner_private_state_files path.

Definition finalize_witness_publication (path : Path) (version : StoredVersion) (receipt : WitnessReceipt)
    : IO unit :=
  if negb (bool_decide (rc_object_id receipt = sv_object_id version))
     || negb (bool_decide (rc_version_id receipt = sv_version_id version))
  then sthrow (Invariant "freshness receipt version binding") else
  let* tx := begin_transaction in
  owning tx (
    let* staged := query (λ db, db_pending db !! as_bytes (sv_version_id version)) in
    let* staged := slift (match staged with
                          | None => Ok None
                          | Some e => let? e := ok_or (u64_of_sql e) Storage in Ok (Some e)
                          end) in
    (if decide (staged = None) then sthrow (Invariant "missing staged witness publication") else sret tt) ;*
    insert_receipt receipt ;*
    advance_pointer (sv_object_id version) (sv_version_id version) ;*
    exec (delete_pending (as_bytes (sv_version_id version))) ;*
    commit tx) ;*
  enforce_owner_private_state_files path.

(** ** Streaming publication *)

Record StreamingPublication : Type := mkStreaming {
  sp_transaction : Transaction;
  sp_state_path : Path;
  sp_object_id : ObjectId;
  sp_version_id : VersionId;
  sp_next_chunk_index : Z;
  sp_plaintext_len : Z;
}.

Definition placeholder_row (object_id : ObjectId) (wrapped_dek : SealedRecord) (chunk_size : Z) : VersionRow :=
  mkVersionRow (as_bytes object_id) (nonce wrapped_dek) (ciphertext wrapped_dek) (replicate 12 0) [] 0
    chunk_size 0.

Definition insert_streaming_placeholder (object_id : ObjectId) (version_id : VersionId)
    (wrapped_dek : SealedRecord) (chunk_size : Z) : IO unit :=
  exec (Sql.insert_version_row (as_bytes version_id) (placeholder_row object_id wrapped_dek chunk_size)).

Definition begin_streaming_publication (path : Path) (object_id : ObjectId) (version_id : VersionId)
    (wrapped_dek : SealedRecord) (chunk_size : Z) : IO StreamingPublication :=
  let* transaction := begin_transaction in
  owning transaction (
    insert_streaming_placeholder object_id version_id wrapped_dek chunk_size ;*
    sret (mkStreaming transaction path object_id version_id 0 0)).

Definition append_chunk (p : StreamingPublication) (chunk : EncryptedChunk) (plaintext_len : Z)
    : IO StreamingPublication :=
  if negb (chunk_index chunk =? sp_next_chunk_index p) then sthrow (Invariant "streamed chunk index") else
  insert_chunk (sp_version_id p) chunk ;*
  let* next := slift (ok_or (u32_checked_add (sp_next_chunk_index p) 1) (Invariant "streamed chunk count")) in
  let* len := slift (ok_or (u64_checked_add (sp_plaintext_len p) plaintext_len)
                       (Invariant "streamed plaintext length")) in
  sret (mkStreaming (sp_transaction p) (sp_state_path p) (sp_object_id p) (sp_version_id p) next len).

(** [finish] consumes the publication, so an early return drops it. *)
Definition finish (p : StreamingPublication) (manifest : SealedRecord) (chunk_count : Z) : IO unit :=
  owning (sp_transaction p) (
    (if negb (chunk_count =? sp_next_chunk_index p) then sthrow (Invariant "streamed Manifest chunk count")
     else sret tt) ;*
    let* changed := exec_count (λ db,
      plaintext_len ← u64_to_sql (sp_plaintext_len p);
      update_version (as_bytes (sp_version_id p)) (as_bytes (sp_object_id p)) (nonce manifest)
        (ciphertext manifest) plaintext_len chunk_count db) in
    (if negb (changed =? 1)%nat then sthrow (Invariant "streamed version finalization") else sret tt) ;*
    advance_pointer (sp_object_id p) (sp_version_id p) ;*
    commit (sp_transaction p)) ;*
  enforce_owner_private_state_files (sp_state_path p).

(** ** Reading *)

Definition version_of_row (vid : bytes) (row : VersionRow) : Result StoredVersion :=
  let? plaintext_len := ok_or (u64_of_sql (vr_plaintext_len row)) Storage in
  let? chunk_size := ok_or (u32_of_sql (vr_chunk_size row)) Storage in
  let? chunk_count := ok_or (u32_of_sql (vr_chunk_count row)) Storage in
  let? object_id := from_slice (vr_object_id row) in
  let? version_id := from_slice vid in
  let? wrapped_nonce := bytes12 (vr_dek_nonce row) in
  let? manifest_nonce := bytes12 (vr_manifest_nonce row) in
  Ok (mkStored object_id version_id (mkSealed wrapped_nonce (vr_dek_ciphertext row))
        (mkSealed manifest_nonce (vr_manifest_ciphertext row)) plaintext_len chunk_size chunk_count).

Definition version (version_id : VersionId) : IO StoredVersion :=
  let* row := query (λ db, db_versions db !! as_bytes version_id) in
  slift (let? row := ok_or row NotFound in version_of_row (as_bytes version_id) row).

Definition active_version (object_id : ObjectId) : IO StoredVersion :=
  let* vid := query (λ db, db_objects db !! as_bytes object_id) in
  let* vid := slift (ok_or vid NotFound) in
  let* version_id := slift (from_slice vid) in
  version version_id.

Definition receipt_of_row (vid : bytes) (row : ReceiptRow) : Result WitnessReceipt :=
  let? epoch := ok_or (u64_of_sql (rr_epoch row)) Storage in
  let? vault_id := from_slice (rr_vault_id row) in
  let? object_id := from_slice (rr_object_id row) in
  let? version_id := from_slice vid in
  let? commitment := bytes32 (rr_commitment row) in
  let? public_key := bytes32 (rr_public_key row) in
  let? signature := bytes64 (rr_signature row) in
  Witness.receipt_new vault_id object_id version_id epoch commitment public_key signature.

Definition receipt (version_id : VersionId) : IO (option WitnessReceipt) :=
  let* row := query (λ db, db_receipts db !! as_bytes version_id) in
  slift (match row with
         | None => Ok None
         | Some row => let? r := receipt_of_row (as_bytes version_id) row in Ok (Some r)
         end).

Definition active_receipt (object_id : ObjectId) : IO (option WitnessReceipt) :=
  λ w, match active_version object_id w with
       | (Ok v, w) => receipt (sv_version_id v) w
       | (Err NotFound, w) => (Ok None, w)
       | (Err e, w) => (Err e, w)
       end.

Fixpoint from_slices {k} (l : list bytes) : Result (list (Identifier k)) :=
  match l with
  | [] => Ok []
  | b :: l => let? i := from_slice b in let? ids := from_slices l in Ok (i :: ids)
  end.

Definition active_object_ids : IO (list ObjectId) :=
  let* rows := query select_object_ids in
  slift (from_slices rows).

Fixpoint load_pending (rows : list (bytes * Z)) : IO (list (StoredVersion * Z)) :=
  match rows with
  | [] => sret []
  | (vid, epoch) :: rows =>
      let* epoch := slift (ok_or (u64_of_sql epoch) Storage) in
      let* version_id := slift (from_slice vid) in
      let* v := version version_id in
      let* pending := load_pending rows in
      sret ((v, epoch) :: pending)
  end.

Definition pending_witness_publications : IO (list (StoredVersion * Z)) :=
  let* rows := query select_pending in
  load_pending rows.

Definition chunk_of_row (index : Z) (row : ChunkRow) : Result EncryptedChunk :=
  let? index := ok_or (u32_of_sql index) Storage in
  let? nonce := bytes12 (cr_nonce row) in
  Ok (mkChunk index (mkSealed nonce (cr_ciphertext row))).

(** The visitor closure mutates a state [A] of its own. *)
Fixpoint visit_rows {A} (rows : list (Z * ChunkRow)) (visit : EncryptedChunk → M A VaultError unit)
    : M (World * A) VaultError unit :=
  let* fault := szoom fst (λ w s, (w, s.2)) (in_env io_fault) in
  if fault : bool then sthrow Storage else
  match rows with
  | [] => sret tt
  | (index, row) :: rows =>
      let* chunk := slift (chunk_of_row index row) in
      szoom snd (λ a s, (s.1, a)) (visit chunk) ;*
      visit_rows rows visit
  end.

Definition visit_chunks {A} (version_id : VersionId) (visit : EncryptedChunk → M A VaultError unit)
    : M (World * A) VaultError unit :=
  let* rows := szoom fst (λ w s, (w, s.2)) (query (select_chunks (as_bytes version_id))) in
  visit_rows rows visit.

(** ** Structural checks *)

Definition foreign_key_violation (db : Db) : bool :=
  map_any (λ k _, negb (bool_decide (is_Some (db_versions db !! k.1)))) (db_chunks db)
  || map_any (λ vid _, negb (bool_decide (is_Some (db_versions db !! vid)))) (db_pending db)
  || map_any (λ vid _, negb (bool_decide (is_Some (db_versions db !! vid)))) (db_receipts db).

Definition dangling_active_version (db : Db) : bool :=
  map_any (λ oid vid, match db_versions db !! vid with
                      | None => true
                      | Some row => negb (bool_decide (vr_object_id row = oid))
                      end) (db_objects db).

Definition dangling_pending_version (db : Db) : bool :=
  map_any (λ vid _, negb (bool_decide (is_Some (db_versions db !! vid)))) (db_pending db).

(** A row of [PRAGMA foreign_key_check] starts with the table's name; the
    source reads that text column as an [i64], so a violation is a conversion
    error, mapped to [Storage]. *)
Definition startup_integrity_check : IO unit :=
  let* fault := in_env io_fault in
  if fault : bool then sthrow Storage else
  let* ok := sgets w_integrity_ok in
  if negb ok then sthrow (Invariant "SQLite integrity_check") else
  let* violation := query foreign_key_violation in
  if violation : bool then sthrow Storage else
  let* dangling := query dangling_active_version in
  if dangling : bool then sthrow (Invariant "active version pointer binding") else
  let* dangling := query dangling_pending_version in
  if dangling : bool then sthrow (Invariant "pending witness publication binding") else
  sret tt.

(** [PRAGMA wal_checkpoint(FULL)]: a failed statement and a busy result are
    both [Storage]. *)
Definition full_checkpoint : IO unit :=
  let* fault := in_env io_fault in
  if fault : bool then sthrow Storage else
  let* busy := in_env io_fault in
  if busy : bool then sthrow Storage else sret tt.

End storage.
End Storage.
