(* ===== verification/Vault.v ===== *)
(** * Vault operations

    Models [crates/vlt1-core/src/vault.rs]: the locked/unlocked lifecycle,
    publication (buffered, streamed, witnessed), verified reads, passphrase
    rotation, verification sweeps and crash recovery.

    A method that takes [&mut self] is a computation on a state [((Vault *
    World) * X)]: the vault object, everything outside it, and what the caller
    lends to the call (a reader, a writer, a witness provider, or nothing). *)

From S2P Require Import Prelude Format Cde Crypto Witness Fs Storage.
From Stdlib Require Import ZArith Lia.
From stdpp Require Import base numbers list gmap strings.

Open Scope Z_scope.
Open Scope vlt_scope.

(** ** [std::io] traits *)

Inductive ReadOutcome : Type :=
| ReadData (data : bytes)   (** [Ok(n)]; [Ok(0)] is an empty list *)
| ReadInterrupted           (** [Err(ErrorKind::Interrupted)] *)
| ReadFailed.               (** any other error *)

(** [Read::read] with a buffer of the given length.  [read_rank] bounds the
    calls a finite reader can answer before its end. *)
Class Read (R : Type) : Type := {
  read : Z → R → ReadOutcome * R;
  read_rank : R → nat;
}.

(** [Write::write_all]: whether it succeeded. *)
Class Write (W : Type) : Type := {
  write_all : bytes → W → bool * W;
}.

(** [Vec<u8>] and [std::io::sink()]. *)
#[global] Instance write_vec : Write bytes := { write_all data out := (true, out ++ data) }.
#[global] Instance write_sink : Write unit := { write_all _ _ := (true, tt) }.

Inductive VaultStatus : Type := StatusLocked | StatusUnlocked.

Record Vault : Type := mkVault {
  v_path : Path;
  v_envelope : Crypto.RootEnvelope;
  v_root_key : option bytes;
}.

Definition v_vault_id (v : Vault) : VaultId := Crypto.env_vault_id (v_envelope v).

Abbreviation VS X := ((Vault * World) * X)%type.
Abbreviation Op X A := (M (VS X) VaultError A).

Module Vault.
Section vault.
Context `{Primitives}.

Definition DEFAULT_CHUNK_SIZE : Z := 4 * 1024 * 1024.
Definition MAX_CHUNKS_PER_VERSION : Z := Z.shiftl 1 24.

(** ** Access to the parts of the state *)

Definition the_vault {X} : Op X Vault := sgets (λ s, s.1.1).
Definition set_vault {X} (v : Vault) : Op X unit := smodify (λ s, ((v, s.1.2), s.2)).
Definition on_world {X A} (m : IO A) : Op X A := szoom (λ s, s.1.2) (λ w s, ((s.1.1, w), s.2)) m.
Definition on_arg {X A} (m : M X VaultError A) : Op X A := szoom snd (λ x s, (s.1, x)) m.
Definition random {X A} (m : M Rng VaultError A) : Op X A := on_world (in_rng m).
(** Run with another argument in place of the caller's. *)
Definition with_arg {X Y A} (y : Y) (m : Op Y A) : Op X A :=
  λ s, let '(r, (vw, _)) := m (s.1, y) in (r, (vw, s.2)).

(** ** Lifecycle *)

Definition lock (v : Vault) : Vault := mkVault (v_path v) (v_envelope v) None.

Definition status (v : Vault) : VaultStatus :=
  match v_root_key v with Some _ => StatusUnlocked | None => StatusLocked end.

Definition lock_after_failure {X A} (m : Op X A) : Op X A :=
  λ s, match m s with
       | (Ok a, s') => (Ok a, s')
       | (Err e, ((v, w), x)) => (Err e, ((if requires_lock e then lock v else v, w), x))
       end.

Definition require_root_key {X} : Op X bytes :=
  let* v := the_vault in slift (ok_or (v_root_key v) Locked).

Definition validate_passphrase (passphrase : bytes) : Result unit :=
  if bool_decide (passphrase = []) then Err (InvalidInput "passphrase must not be empty") else Ok tt.

(** [create] and [open] build the vault object. *)
Definition create (path : Path) (passphrase : bytes) : IO Vault :=
  slift (validate_passphrase passphrase) ;*
  let* vault_id := in_rng random_id in
  let* root_key := in_rng Crypto.generate_root_key in
  let* envelope := in_rng (Crypto.seal_root_key passphrase vault_id root_key Crypto.interactive) in
  Storage.create path envelope ;*
  sret (mkVault path envelope (Some root_key)).

Definition open (path : Path) : IO Vault :=
  Storage.open path ;*
  Storage.startup_integrity_check ;*
  let* envelope := Storage.root_envelope in
  sret (mkVault path envelope None).

Definition unlock {X} (passphrase : bytes) : Op X unit :=
  slift (validate_passphrase passphrase) ;*
  let* v := the_vault in
  let* root_key := slift (Crypto.open_root_key passphrase (v_envelope v)) in
  set_vault (mkVault (v_path v) (v_envelope v) (Some root_key)).

Definition lock_op {X} : Op X unit := let* v := the_vault in set_vault (lock v).

Definition rotate_passphrase {X} (current replacement : bytes) : Op X unit :=
  slift (validate_passphrase replacement) ;*
  lock_after_failure (
    let* v := the_vault in
    let* root_key := slift (Crypto.open_root_key current (v_envelope v)) in
    let* new_envelope := random (Crypto.seal_root_key replacement (v_vault_id v) root_key Crypto.interactive) in
    on_world (Storage.replace_root_envelope (v_path v) new_envelope) ;*
    set_vault (mkVault (v_path v) new_envelope None)).

(** ** Preparing a version *)

(** [usize::div_ceil]. *)
Definition div_ceil (a b : Z) : Z := (a + b - 1) / b.

(** The sealing loop of [prepare_version]; [offset] is the enumeration index. *)
Fixpoint seal_chunks {X} (vault_id : VaultId) (object_id : ObjectId) (version_id : VersionId)
    (data_key : bytes) (offset : Z) (parts : list bytes) (digest : Crypto.ChunkDigestBuilder)
    : Op X (list EncryptedChunk * Crypto.ChunkDigestBuilder) :=
  match parts with
  | [] => sret ([], digest)
  | chunk :: parts =>
      let* index := slift (ok_or (u32_try_from offset) (InvalidInput "chunk index")) in
      let* chunk_len := slift (ok_or (u32_try_from (lenZ chunk)) (InvalidInput "chunk length")) in
      let aad := Crypto.chunk_aad vault_id object_id version_id index chunk_len in
      let* record := random (Crypto.seal data_key aad chunk) in
      let digest := Crypto.digest_update digest index record in
      let* (chunks, digest) := seal_chunks vault_id object_id version_id data_key (offset + 1) parts digest in
      sret (mkChunk index record :: chunks, digest)
  end.

Definition prepare_version {X} (object_id : ObjectId) (plaintext : bytes) (chunk_size : Z)
    : Op X (StoredVersion * list EncryptedChunk) :=
  let* root_key := require_root_key in
  if chunk_size =? 0 then sthrow (InvalidInput "invalid chunk size") else
  let* chunk_size_u32 := slift (ok_or (u32_try_from chunk_size) (InvalidInput "invalid chunk size")) in
  let plaintext_len := lenZ plaintext in
  let chunk_count_usize := if bool_decide (plaintext = []) then 0 else div_ceil (lenZ plaintext) chunk_size in
  let* chunk_count := slift (ok_or (u32_try_from chunk_count_usize) (InvalidInput "too many chunks")) in
  if MAX_CHUNKS_PER_VERSION <? chunk_count then sthrow (InvalidInput "nonce budget exceeded") else
  let* version_id := random random_id in
  let* data_key := random Crypto.generate_dek in
  let* v := the_vault in
  let vault_id := v_vault_id v in
  let* (chunks, digest) :=
    seal_chunks vault_id object_id version_id data_key 0 (slice_chunks chunk_size plaintext) Crypto.digest_new in
  let manifest := mkManifest FORMAT_VERSION object_id version_id plaintext_len chunk_size_u32 chunk_count
                    (Crypto.digest_finalize digest) in
  let manifest_bytes := Cde.encode_manifest manifest in
  let* manifest_key := slift (Crypto.derive_manifest_key data_key version_id) in
  let* manifest := random (Crypto.seal manifest_key (Crypto.manifest_aad vault_id object_id version_id) manifest_bytes) in
  let* wrapping_key := slift (Crypto.derive_kek root_key vault_id) in
  let* wrapped_dek := random (Crypto.seal wrapping_key (Crypto.wrapped_dek_aad vault_id object_id version_id) data_key) in
  sret (mkStored object_id version_id wrapped_dek manifest plaintext_len chunk_size_u32 chunk_count, chunks).

Definition put_inner {X} (object_id : ObjectId) (plaintext : bytes) (chunk_size : Z) : Op X VersionId :=
  let* (stored, chunks) := prepare_version object_id plaintext chunk_size in
  let* v := the_vault in
  on_world (Storage.publish (v_path v) stored chunks) ;*
  sret (sv_version_id stored).

Definition put_with_chunk_size {X} (object_id : ObjectId) (plaintext : bytes) (chunk_size : Z) : Op X VersionId :=
  lock_after_failure (put_inner object_id plaintext chunk_size).

Definition put {X} (object_id : ObjectId) (plaintext : bytes) : Op X VersionId :=
  put_with_chunk_size object_id plaintext DEFAULT_CHUNK_SIZE.

(** ** Streaming publication *)

(** [while filled < buffer.len()]; [fuel] bounds the calls to [read]. *)
Fixpoint read_next_chunk_fuel `{Read R} (fuel : nat) (size : Z) (filled : bytes) : M R VaultError bytes :=
  λ r,
  if size <=? lenZ filled then (Ok filled, r) else
  match fuel with
  | O => (Err Storage, r)
  | S fuel =>
      match read (size - lenZ filled) r with
      | (ReadData [], r) => (Ok filled, r)
      | (ReadData data, r) => read_next_chunk_fuel fuel size (filled ++ data) r
      | (ReadInterrupted, r) => read_next_chunk_fuel fuel size filled r
      | (ReadFailed, r) => (Err Storage, r)
      end
  end.

Definition read_next_chunk `{Read R} (size : Z) : M R VaultError bytes :=
  λ r, read_next_chunk_fuel (S (read_rank r)) size [] r.

(** The locals of the upload loop. *)
Record Upload : Type := mkUpload {
  up_publication : Storage.StreamingPublication;
  up_digest : Crypto.ChunkDigestBuilder;
  up_chunk_count : Z;
  up_plaintext_len : Z;
}.

Fixpoint upload_loop `{Read R} (fuel : nat) (vault_id : VaultId) (object_id : ObjectId) (version_id : VersionId)
    (data_key : bytes) (chunk_size : Z) (u : Upload) : Op R Upload :=
  let* buffer := on_arg (read_next_chunk chunk_size) in
  if bool_decide (buffer = []) then sret u else
  match fuel with
  | O => sthrow Storage
  | S fuel =>
      if MAX_CHUNKS_PER_VERSION <=? up_chunk_count u then sthrow (InvalidInput "nonce budget exceeded") else
      let* chunk_len := slift (ok_or (u32_try_from (lenZ buffer)) (InvalidInput "chunk length")) in
      let aad := Crypto.chunk_aad vault_id object_id version_id (up_chunk_count u) chunk_len in
      let* record := random (Crypto.seal data_key aad buffer) in
      let digest := Crypto.digest_update (up_digest u) (up_chunk_count u) record in
      let* publication := on_world (Storage.append_chunk (up_publication u)
                                      (mkChunk (up_chunk_count u) record) chunk_len) in
      let* plaintext_len := slift (ok_or (u64_checked_add (up_plaintext_len u) chunk_len)
                                     (InvalidInput "plaintext length exceeds u64")) in
      let* chunk_count := slift (ok_or (u32_checked_add (up_chunk_count u) 1) (InvalidInput "too many chunks")) in
      upload_loop fuel vault_id object_id version_id data_key chunk_size
        (mkUpload publication digest chunk_count plaintext_len)
  end.

(** An early return while the closure owns the publication drops it. *)
Definition dropping_publication {R A} (p : Storage.StreamingPublication) (m : Op R A) : Op R A :=
  λ s, match m s with
       | (Ok a, s') => (Ok a, s')
       | (Err e, ((v, w), r)) => (Err e, ((v, set_db (Sql.tx_rollback (Storage.sp_transaction p)) w), r))
       end.

(** From the opened publication to the sealed manifest. *)
Definition upload `{Read R} (vault_id : VaultId) (object_id : ObjectId) (version_id : VersionId)
    (data_key : bytes) (chunk_size chunk_size_u32 : Z) (publication : Storage.StreamingPublication)
    : Op R (Upload * SealedRecord) :=
  let* rank := sgets (λ s : VS R, read_rank s.2) in
  let* u := upload_loop rank vault_id object_id version_id data_key chunk_size
              (mkUpload publication Crypto.digest_new 0 0) in
  let manifest := mkManifest FORMAT_VERSION object_id version_id (up_plaintext_len u) chunk_size_u32
                    (up_chunk_count u) (Crypto.digest_finalize (up_digest u)) in
  let manifest_bytes := Cde.encode_manifest manifest in
  let* manifest_key := slift (Crypto.derive_manifest_key data_key version_id) in
  let* manifest := random (Crypto.seal manifest_key (Crypto.manifest_aad vault_id object_id version_id) manifest_bytes) in
  sret (u, manifest).

Definition put_from_reader_inner `{Read R} (object_id : ObjectId) (chunk_size : Z) : Op R VersionId :=
  if chunk_size =? 0 then sthrow (InvalidInput "invalid chunk size") else
  let* chunk_size_u32 := slift (ok_or (u32_try_from chunk_size) (InvalidInput "invalid chunk size")) in
  let* root_key := require_root_key in
  let* version_id := random random_id in
  let* data_key := random Crypto.generate_dek in
  let* v := the_vault in
  let vault_id := v_vault_id v in
  let* wrapping_key := slift (Crypto.derive_kek root_key vault_id) in
  let* wrapped_dek := random (Crypto.seal wrapping_key (Crypto.wrapped_dek_aad vault_id object_id version_id) data_key) in
  let* publication := on_world (Storage.begin_streaming_publication (v_path v) object_id version_id wrapped_dek chunk_size_u32) in
  let* (u, manifest) := dropping_publication publication
                          (upload vault_id object_id version_id data_key chunk_size chunk_size_u32 publication) in
  on_world (Storage.finish (up_publication u) manifest (up_chunk_count u)) ;*
  sret version_id.

Definition put_from_reader_with_chunk_size `{Read R} (object_id : ObjectId) (chunk_size : Z) : Op R VersionId :=
  lock_after_failure (put_from_reader_inner object_id chunk_size).

Definition put_from_reader `{Read R} (object_id : ObjectId) : Op R VersionId :=
  put_from_reader_with_chunk_size object_id DEFAULT_CHUNK_SIZE.

(** ** Verified reads *)

Definition validate_manifest_binding (m : Manifest) (stored : StoredVersion) : Result unit :=
  if negb (Format.format_version m =? FORMAT_VERSION)
     || negb (bool_decide (Format.object_id m = sv_object_id stored))
     || negb (bool_decide (Format.version_id m = sv_version_id stored))
     || negb (Format.plaintext_len m =? sv_plaintext_len stored)
     || negb (Format.chunk_size m =? sv_chunk_size stored)
     || negb (Format.chunk_count m =? sv_chunk_count stored)
  then Err (Invariant "Manifest and SQLite metadata binding")
  else if (Format.chunk_size m =? 0) || (MAX_CHUNKS_PER_VERSION <? Format.chunk_count m)
  then Err (InvalidFormat "Manifest chunk policy")
  else Ok tt.

Definition expected_plaintext_chunk_len (m : Manifest) (index : Z) : Result Z :=
  if Format.chunk_count m <=? index then Err (InvalidFormat "chunk index outside Manifest") else
  if index + 1 <? Format.chunk_count m then Ok (Format.chunk_size m) else
  let prefix := Format.chunk_size m * (Format.chunk_count m - 1) in
  let? tail := ok_or (u64_checked_sub (Format.plaintext_len m) prefix) (InvalidFormat "Manifest plaintext length") in
  ok_or (u32_try_from tail) (InvalidFormat "final chunk length").

(** The two closures given to [visit_chunks], on the locals they capture. *)
Definition digest_visitor (chunk : EncryptedChunk) : M (Crypto.ChunkDigestBuilder * Z) VaultError unit :=
  λ '(digest, expected_index),
  if negb (chunk_index chunk =? expected_index)
  then (Err (Invariant "stored chunk indices"), (digest, expected_index)) else
  let digest := Crypto.digest_update digest (chunk_index chunk) (chunk_record chunk) in
  match u32_checked_add expected_index 1 with
  | None => (Err (Invariant "stored chunk count"), (digest, expected_index))
  | Some next => (Ok tt, (digest, next))
  end.

Definition write_visitor `{Write W} (vault_id : VaultId) (object_id : ObjectId) (version_id : VersionId)
    (m : Manifest) (data_key : bytes) (chunk : EncryptedChunk) : M (Z * W) VaultError unit :=
  let* expected_chunk_len := slift (expected_plaintext_chunk_len m (chunk_index chunk)) in
  let aad := Crypto.chunk_aad vault_id object_id version_id (chunk_index chunk) expected_chunk_len in
  let* part := slift (Crypto.open data_key aad (chunk_record chunk)) in
  if negb (lenZ part =? expected_chunk_len) then sthrow (InvalidFormat "authenticated chunk length") else
  let* written := λ s : Z * W, let '(ok, out) := write_all part s.2 in (Ok ok, (s.1, out)) in
  if negb written then sthrow Storage else
  λ '(written_len, out),
  match u64_checked_add written_len expected_chunk_len with
  | None => (Err (Invariant "plaintext length after chunk assembly"), (written_len, out))
  | Some n => (Ok tt, (n, out))
  end.

(** Run [visit_chunks] with locals initialised from the caller's argument. *)
Definition visiting {X A} (init : X → A) (back : A → X → X) (m : M (World * A) VaultError unit) : Op X A :=
  λ '((v, w), x),
  match m (w, init x) with
  | (Ok _, (w, a)) => (Ok a, ((v, w), back a x))
  | (Err e, (w, a)) => (Err e, ((v, w), back a x))
  end.

Definition get_to_writer_inner `{Write W} (object_id : ObjectId) : Op W unit :=
  let* root_key := require_root_key in
  let* version := on_world (Storage.active_version object_id) in
  if negb (bool_decide (sv_object_id version = object_id)) then sthrow (Invariant "object pointer binding") else
  let* v := the_vault in
  let vault_id := v_vault_id v in
  let version_id := sv_version_id version in
  let* wrapping_key := slift (Crypto.derive_kek root_key vault_id) in
  let* data_key_bytes := slift (Crypto.open wrapping_key (Crypto.wrapped_dek_aad vault_id object_id version_id)
                                  (sv_wrapped_dek version)) in
  let* data_key := slift (ok_or (fixed_array 32 data_key_bytes) (InvalidFormat "wrapped DEK length")) in
  let* manifest_key := slift (Crypto.derive_manifest_key data_key version_id) in
  let* manifest_bytes := slift (Crypto.open manifest_key (Crypto.manifest_aad vault_id object_id version_id)
                                  (sv_manifest version)) in
  let* manifest := slift (Cde.decode_manifest manifest_bytes) in
  slift (validate_manifest_binding manifest version) ;*
  let* receipt := on_world (Storage.receipt version_id) in
  slift (match receipt with
         | Some r => Witness.verify_request r (Witness.request_new vault_id object_id version_id (sv_manifest version))
         | None => Ok tt
         end) ;*
  let* (digest, expected_index) := visiting (λ _, (Crypto.digest_new, 0)) (λ _ out, out)
                                     (Storage.visit_chunks version_id digest_visitor) in
  if negb (expected_index =? Format.chunk_count manifest) then sthrow (Invariant "stored chunk count") else
  if negb (bool_decide (Crypto.digest_finalize digest = Format.chunk_digest manifest)) then sthrow Authentication else
  let* (written_len, _) := visiting (λ out, (0, out)) (λ a _, a.2)
    (Storage.visit_chunks version_id (write_visitor vault_id object_id version_id manifest data_key)) in
  if negb (written_len =? Format.plaintext_len manifest)
  then sthrow (Invariant "plaintext length after chunk assembly") else
  sret tt.

Definition get_to_writer `{Write W} (object_id : ObjectId) : Op W unit :=
  lock_after_failure (get_to_writer_inner object_id).

(** Into a fresh [Vec]. *)
Definition get_inner {X} (object_id : ObjectId) : Op X bytes :=
  λ '(vw, x),
  match get_to_writer_inner object_id (vw, [] : bytes) with
  | (Ok _, (vw, plaintext)) => (Ok plaintext, (vw, x))
  | (Err e, (vw, _)) => (Err e, (vw, x))
  end.

Definition get {X} (object_id : ObjectId) : Op X bytes := lock_after_failure (get_inner object_id).

(** Into [std::io::sink()]. *)
Definition get_to_sink {X} (object_id : ObjectId) : Op X unit := with_arg tt (get_to_writer_inner object_id).

Fixpoint verify_each {X} (object_ids : list ObjectId) : Op X unit :=
  match object_ids with
  | [] => sret tt
  | o :: object_ids => get_to_sink o ;* verify_each object_ids
  end.

Definition u64_len {A} (l : list A) (msg : string) : Result Z :=
  if lenZ l <=? u64_max then Ok (lenZ l) else Err (Invariant msg).

Definition verify_active_objects_inner {X} : Op X Z :=
  require_root_key ;*
  let* object_ids := on_world Storage.active_object_ids in
  verify_each object_ids ;*
  slift (u64_len object_ids "active object count exceeds u64").

Definition verify_active_objects {X} : Op X Z := lock_after_failure verify_active_objects_inner.

Definition full_checkpoint {X} : Op X unit :=
  lock_after_failure (require_root_key ;* on_world Storage.full_checkpoint).

(** ** Witnessed publication *)

Definition put_with_witness_inner `{WitnessProvider P} (object_id : ObjectId) (plaintext : bytes) : Op P VersionId :=
  let* (stored, chunks) := prepare_version object_id plaintext DEFAULT_CHUNK_SIZE in
  let version_id := sv_version_id stored in
  let* v := the_vault in
  let request := Witness.request_new (v_vault_id v) object_id version_id (sv_manifest stored) in
  let* active := on_world (Storage.active_receipt object_id) in
  let expected_epoch := match active with Some r => rc_epoch r | None => 0 end in
  on_world (Storage.stage_witness_publication (v_path v) stored chunks expected_epoch) ;*
  let* receipt := on_arg (issue_receipt request expected_epoch) in
  slift (Witness.verify_request receipt request) ;*
  on_world (Storage.finalize_witness_publication (v_path v) stored receipt) ;*
  sret version_id.

Definition put_with_witness `{WitnessProvider P} (object_id : ObjectId) (plaintext : bytes) : Op P VersionId :=
  lock_after_failure (put_with_witness_inner object_id plaintext).

Definition recover_one `{WitnessProvider P} (version : StoredVersion) (expected_epoch : Z) : Op P unit :=
  let* v := the_vault in
  let request := Witness.request_new (v_vault_id v) (sv_object_id version) (sv_version_id version)
                   (sv_manifest version) in
  let* receipt := on_arg (issue_receipt request expected_epoch) in
  slift (Witness.verify_request receipt request) ;*
  on_world (Storage.finalize_witness_publication (v_path v) version receipt).

Fixpoint recover_each `{WitnessProvider P} (pending : list (StoredVersion * Z)) : Op P unit :=
  match pending with
  | [] => sret tt
  | (version, expected_epoch) :: pending => recover_one version expected_epoch ;* recover_each pending
  end.

Definition recover_pending_witness_publications_inner `{WitnessProvider P} : Op P Z :=
  require_root_key ;*
  let* pending := on_world Storage.pending_witness_publications in
  recover_each pending ;*
  slift (u64_len pending "pending witness publication count exceeds u64").

Definition recover_pending_witness_publications `{WitnessProvider P} : Op P Z :=
  lock_after_failure recover_pending_witness_publications_inner.

(** The comparison of a signed head with the stored receipt. *)
Definition head_matches_receipt (head : WitnessHead) (receipt : WitnessReceipt) : bool :=
  hd_present head
  && bool_decide (hd_version_id head = Some (rc_version_id receipt))
  && (hd_epoch head =? rc_epoch receipt)
  && bool_decide (hd_commitment head = Some (rc_commitment receipt))
  && bool_decide (hd_public_key head = rc_public_key receipt).

Fixpoint verify_each_with_witness `{WitnessProvider P} (object_ids : list ObjectId) : Op P unit :=
  match object_ids with
  | [] => sret tt
  | o :: object_ids =>
      let* receipt := on_world (Storage.active_receipt o) in
      let* receipt := slift (ok_or receipt WitnessConflict) in
      let* challenge := random (fill_bytes 32) in
      let* v := the_vault in
      let* head := on_arg (object_head (v_vault_id v) o challenge) in
      if negb (head_matches_receipt head receipt) then sthrow WitnessConflict else
      get_to_sink o ;*
      verify_each_with_witness object_ids
  end.

Definition verify_active_objects_with_witness_inner `{WitnessProvider P} : Op P Z :=
  require_root_key ;*
  let* object_ids := on_world Storage.active_object_ids in
  verify_each_with_witness object_ids ;*
  slift (u64_len object_ids "active object count exceeds u64").

Definition verify_active_objects_with_witness `{WitnessProvider P} : Op P Z :=
  lock_after_failure verify_active_objects_with_witness_inner.

End vault.
End Vault.
