(* ===== verification/WitnessService.v ===== *)
(** * The witness service

    Models [crates/vlt1-witness/src/lib.rs] (the durable state machine behind
    [POST /v1/issue] and [POST /v1/head]) and the request dispatch of
    [crates/vlt1-witness/src/main.rs].

    The [hex] and [serde_json] crates are parameters with their documented
    behaviour; [tiny_http] hands over a method, a URL, the Authorization header
    and a body. *)

From S2P Require Import Prelude Format Crypto Witness Fs.
From Stdlib Require Import ZArith Lia.
From stdpp Require Import base numbers list gmap strings.

Open Scope Z_scope.
Open Scope vlt_scope.

(** ** The [hex] crate *)

Class HexCrate : Type := {
  hex_crate_encode : bytes → bytes;
  hex_crate_decode : bytes → option bytes;
}.

Class HexCrateOk `{HexCrate} : Prop := {
  hex_crate_encode_lower b : wf_bytes b → hex_crate_encode b = hex_encode b;
  hex_crate_decode_lower b : wf_bytes b → hex_crate_decode (hex_encode b) = Some b;
}.

(** ** Wire records *)

Record IssueRequest : Type := mkIssueRequest {
  ir_vault_id : bytes;
  ir_object_id : bytes;
  ir_version_id : bytes;
  ir_commitment : bytes;
  ir_expected_epoch : Z;
}.

Record IssueResponse : Type := mkIssueResponse {
  is_vault_id : bytes;
  is_object_id : bytes;
  is_version_id : bytes;
  is_witness_epoch : Z;
  is_commitment : bytes;
  is_public_key : bytes;
  is_signature : bytes;
}.

Record HeadRequest : Type := mkHeadRequest {
  hq_vault_id : bytes;
  hq_object_id : bytes;
  hq_challenge : bytes;
}.

Record HeadResponse : Type := mkHeadResponse {
  hs_vault_id : bytes;
  hs_object_id : bytes;
  hs_present : bool;
  hs_version_id : option bytes;
  hs_witness_epoch : Z;
  hs_commitment : option bytes;
  hs_challenge : bytes;
  hs_public_key : bytes;
  hs_signature : bytes;
}.

(** ** Durable state *)

Record HeadRow : Type := mkHeadRow {
  hr_version_id : bytes;
  hr_epoch : Z;
  hr_commitment : bytes;
  hr_signature : bytes;
}.

Record WitnessDb : Type := mkWitnessDb {
  wd_epochs : gmap bytes Z;
  wd_heads : gmap (bytes * bytes) HeadRow;
}.

Definition empty_witness_db : WitnessDb := mkWitnessDb ∅ ∅.

Record WitnessWorld : Type := mkWW { ww_db : WitnessDb; ww_env : Env }.

Definition set_ww_db (db : WitnessDb) (w : WitnessWorld) : WitnessWorld := mkWW db (ww_env w).
Definition set_ww_env (e : Env) (w : WitnessWorld) : WitnessWorld := mkWW (ww_db w) e.

Abbreviation WIO A := (M WitnessWorld VaultError A).

Record WitnessService : Type := mkService { ws_path : Path; ws_signing_key : bytes }.

Module Service.
Section service.
Context `{Primitives} `{HexCrate}.

Definition MAX_WIRE_BODY : Z := 16 * 1024.

Definition in_env {A} (m : M Env VaultError A) : WIO A := szoom ww_env set_ww_env m.

(** Statements and transactions, as in the vault's database. *)
Definition exec (stmt : WitnessDb → option WitnessDb) : WIO unit :=
  let* fault := in_env io_fault in
  if fault : bool then sthrow Storage else
  λ w, match stmt (ww_db w) with
       | Some db => (Ok tt, set_ww_db db w)
       | None => (Err Storage, w)
       end.

Definition query {A} (q : WitnessDb → A) : WIO A :=
  let* fault := in_env io_fault in
  if fault : bool then sthrow Storage else sgets (λ w, q (ww_db w)).

Definition begin_transaction : WIO WitnessDb := query id.

Definition owning {A} (tx : WitnessDb) (m : WIO A) : WIO A :=
  λ w, match m w with
       | (Ok a, w') => (Ok a, w')
       | (Err e, w') => (Err e, set_ww_db tx w')
       end.

Definition rollback (tx : WitnessDb) : WIO unit := smodify (set_ww_db tx).

Definition commit (tx : WitnessDb) : WIO unit :=
  let* fault := in_env io_fault in
  if fault : bool then λ w, (Err Storage, set_ww_db tx w) else sret tt.

Definition enforce_owner_private_sqlite_state (path : Path) : WIO unit :=
  in_env (PrivateFile.enforce_owner_private_sqlite_state path).

(** ** Parsing *)

Definition fixed (n : nat) (value : bytes) : Result bytes :=
  ok_or (fixed_array n value) (InvalidFormat "witness fixed-width field").

Definition parse_id (n : nat) (value : bytes) (error : string) : Result bytes :=
  if negb (bool_decide (length value = n * 2)%nat)
     || negb (forallb (λ c, is_ascii_hexdigit c && negb (is_ascii_uppercase c)) value)
  then Err (InvalidFormat error)
  else
    let? bytes := ok_or (hex_crate_decode value) (InvalidFormat error) in
    fixed n bytes.

Definition parse_issue (request : IssueRequest) : Result (WitnessRequest * Z) :=
  let? vault_id := parse_id 16 (ir_vault_id request) "witness vault ID" in
  let? object_id := parse_id 16 (ir_object_id request) "witness object ID" in
  let? version_id := parse_id 16 (ir_version_id request) "witness version ID" in
  let? vault_id := from_slice vault_id in
  let? object_id := from_slice object_id in
  let? version_id := from_slice version_id in
  let? commitment := parse_id 32 (ir_commitment request) "witness commitment" in
  Ok (mkRequest vault_id object_id version_id commitment, ir_expected_epoch request).

Definition parse_head (request : HeadRequest) : Result (VaultId * ObjectId * bytes) :=
  let? vault_id := parse_id 16 (hq_vault_id request) "witness vault ID" in
  let? vault_id := from_slice vault_id in
  let? object_id := parse_id 16 (hq_object_id request) "witness object ID" in
  let? object_id := from_slice object_id in
  let? challenge := parse_id 32 (hq_challenge request) "witness challenge" in
  Ok (vault_id, object_id, challenge).

Definition issue_response (r : WitnessReceipt) : IssueResponse :=
  mkIssueResponse (to_hex (rc_vault_id r)) (to_hex (rc_object_id r)) (to_hex (rc_version_id r)) (rc_epoch r)
    (hex_crate_encode (rc_commitment r)) (hex_crate_encode (rc_public_key r)) (hex_crate_encode (rc_signature r)).

Definition head_response (h : WitnessHead) : HeadResponse :=
  mkHeadResponse (to_hex (hd_vault_id h)) (to_hex (hd_object_id h)) (hd_present h) (to_hex <$> hd_version_id h)
    (hd_epoch h) (hex_crate_encode <$> hd_commitment h) (hex_crate_encode (hd_challenge h))
    (hex_crate_encode (hd_public_key h)) (hex_crate_encode (hd_signature h)).

(** ** Tables *)

(** [u64] parameters above [i64::MAX] are refused; the CHECK clauses of the
    schema. *)
Definition upsert_epoch (vault_id : bytes) (next : Z) (db : WitnessDb) : option WitnessDb :=
  if (next <=? i64_max) && bool_decide (length vault_id = 16%nat) && (0 <? next)
  then Some (mkWitnessDb (<[vault_id := next]> (wd_epochs db)) (wd_heads db))
  else None.

Definition upsert_head (vault_id object_id : bytes) (row : HeadRow) (db : WitnessDb) : option WitnessDb :=
  if (hr_epoch row <=? i64_max) && bool_decide (length vault_id = 16%nat) && bool_decide (length object_id = 16%nat)
     && bool_decide (length (hr_version_id row) = 16%nat) && (0 <? hr_epoch row)
     && bool_decide (length (hr_commitment row) = 32%nat) && bool_decide (length (hr_signature row) = 64%nat)
  then Some (mkWitnessDb (wd_epochs db) (<[(vault_id, object_id) := row]> (wd_heads db)))
  else None.

Definition next_epoch (vault_id : VaultId) : WIO Z :=
  let* next := query (λ db, wd_epochs db !! as_bytes vault_id) in
  let* next := slift (match next with
                      | None => Ok None
                      | Some n => if 0 <=? n then Ok (Some n) else Err Storage
                      end) in
  let epoch := default 1 next in
  let* after := slift (ok_or (u64_checked_add epoch 1) (Invariant "witness epoch exhausted")) in
  exec (upsert_epoch (as_bytes vault_id) after) ;*
  sret epoch.

Definition receipt_of_head_row (vault_id : VaultId) (object_id : ObjectId) (public_key : bytes) (row : HeadRow)
    : Result WitnessReceipt :=
  if negb (0 <=? hr_epoch row) then Err Storage else
  let? version_id := from_slice (hr_version_id row) in
  let? commitment := fixed 32 (hr_commitment row) in
  let? signature := fixed 64 (hr_signature row) in
  Witness.receipt_new vault_id object_id version_id (hr_epoch row) commitment public_key signature.

Definition load_receipt (vault_id : VaultId) (object_id : ObjectId) (public_key : bytes)
    : WIO (option WitnessReceipt) :=
  let* row := query (λ db, wd_heads db !! (as_bytes vault_id, as_bytes object_id)) in
  slift (match row with
         | None => Ok None
         | Some row => let? r := receipt_of_head_row vault_id object_id public_key row in Ok (Some r)
         end).

(** ** Operations *)

(** The open path: [validate_state_path], the PRAGMAs and the schema. *)
Definition validate_state_path (path : Path) : M Env VaultError unit :=
  let input := "witness state path" in
  let* parent := slift (ok_or (parent path) (InvalidInput input)) in
  let parent := if path_is_empty parent then current_dir else parent in
  PathSafety.validate_directories (List.filter (λ p, negb (path_is_empty p)) (ancestors parent)) input ;*
  λ e, match symlink_metadata path e with
       | (Ok metadata, e) => if is_file metadata && negb (is_symlink metadata) then (Ok tt, e)
                             else (Err (InvalidInput input), e)
       | (Err IoNotFound, e) => (Ok tt, e)
       | (Err _, e) => (Err Storage, e)
       end.

Definition open (path : Path) (signing_key : bytes) : WIO WitnessService :=
  in_env (validate_state_path path) ;*
  let* fault := in_env io_fault in
  if fault : bool then sthrow Storage else
  in_env (λ e, match env_fs e !! path with
               | Some _ => (Ok tt, e)
               | None => (Ok tt, set_fs (<[path := mkMeta FRegular (env_create_mode e)]> (env_fs e)) e)
               end) ;*
  let* fault := in_env io_fault in
  if fault : bool then sthrow Storage else
  exec Some ;*
  enforce_owner_private_sqlite_state path ;*
  sret (mkService path signing_key).

Definition public_key (svc : WitnessService) : bytes := ed_public (ws_signing_key svc).

(** The part of [issue_wire] from the epoch allocation to the commit. *)
Definition advance (svc : WitnessService) (tx : WitnessDb) (request : WitnessRequest) : WIO WitnessReceipt :=
  let* epoch := next_epoch (req_vault_id request) in
  let receipt := Witness.receipt_issue request epoch (ws_signing_key svc) in
  exec (upsert_head (as_bytes (rc_vault_id receipt)) (as_bytes (rc_object_id receipt))
          (mkHeadRow (as_bytes (rc_version_id receipt)) (rc_epoch receipt) (rc_commitment receipt)
             (rc_signature receipt))) ;*
  commit tx ;*
  sret receipt.

(** An early return drops the transaction; [inl] is a retry answered from the
    recorded head, [inr] a new receipt. *)
Definition decide_issue (svc : WitnessService) (tx : WitnessDb) (request : WitnessRequest) (expected_epoch : Z)
    : WIO (WitnessReceipt + WitnessReceipt) :=
  let* current := load_receipt (req_vault_id request) (req_object_id request) (public_key svc) in
  match current with
  | Some receipt =>
      if Witness.already_issued receipt request expected_epoch then rollback tx ;* sret (inl receipt)
      else if negb (rc_epoch receipt =? expected_epoch) then sthrow WitnessConflict
      else let* r := advance svc tx request in sret (inr r)
  | None =>
      if negb (expected_epoch =? 0) then sthrow WitnessConflict
      else let* r := advance svc tx request in sret (inr r)
  end.

Definition issue_wire (svc : WitnessService) (request : IssueRequest) : WIO IssueResponse :=
  let* (request, expected_epoch) := slift (parse_issue request) in
  let* tx := begin_transaction in
  let* out := owning tx (decide_issue svc tx request expected_epoch) in
  match out with
  | inl receipt => sret (issue_response receipt)
  | inr receipt => enforce_owner_private_sqlite_state (ws_path svc) ;* sret (issue_response receipt)
  end.

Definition head_wire (svc : WitnessService) (request : HeadRequest) : WIO HeadResponse :=
  let* (vault_id, object_id, challenge) := slift (parse_head request) in
  let* receipt := load_receipt vault_id object_id (public_key svc) in
  sret (head_response (Witness.head_issue vault_id object_id receipt challenge (ws_signing_key svc))).

(** ** HTTP dispatch ([main.rs]) *)

Inductive Method : Type := Get | Post | OtherMethod.

(** An incoming request; the body reader fails ([None]) or yields bytes. *)
Record HttpRequest : Type := mkHttpRequest {
  rq_method : Method;
  rq_url : bytes;
  rq_authorization : option bytes;
  rq_body : option bytes;
}.

Record HttpResponse : Type := mkHttpResponse { rs_status : Z; rs_body : bytes }.

(** The one-field JSON object [{"key":"value"}]. *)
Definition json_pair (key value : string) : bytes :=
  [123; 34] ++ str_bytes key ++ [34; 58; 34] ++ str_bytes value ++ [34; 125].

Definition unauthorized : HttpResponse := mkHttpResponse 401 (json_pair "error" "unauthorized").
Definition witness_conflict : HttpResponse := mkHttpResponse 409 (json_pair "error" "witness_conflict").
Definition invalid_request : HttpResponse := mkHttpResponse 400 (json_pair "error" "invalid_request").
Definition not_found : HttpResponse := mkHttpResponse 404 (json_pair "error" "not_found").
Definition internal : HttpResponse := mkHttpResponse 500 (json_pair "error" "internal").
Definition healthy : HttpResponse := mkHttpResponse 200 (json_pair "status" "ok").

(** [as_reader().take(MAX_WIRE_BODY + 1).read_to_end(..)], the length test and
    the decoder. *)
Definition read_json {A} `{Json A} (request : HttpRequest) : option A :=
  match rq_body request with
  | None => None
  | Some body =>
      let bytes := takeZ (MAX_WIRE_BODY + 1) body in
      if MAX_WIRE_BODY <? lenZ bytes then None else json_from_slice bytes
  end.

Definition serialize_response {A} `{Json A} (status : Z) (value : A) : HttpResponse :=
  match json_to_vec value with Some body => mkHttpResponse status body | None => internal end.

Context `{!Json IssueRequest} `{!Json IssueResponse} `{!Json HeadRequest} `{!Json HeadResponse}.

Definition dispatch (svc : WitnessService) (request : HttpRequest) (w : WitnessWorld)
    : HttpResponse * WitnessWorld :=
  match rq_method request with
  | Get => (if bool_decide (rq_url request = str_bytes "/healthz") then healthy else not_found, w)
  | Post =>
      if bool_decide (rq_url request = str_bytes "/v1/issue") then
        match read_json request with
        | Some body =>
            match issue_wire svc body w with
            | (Ok response, w) => (serialize_response 200 response, w)
            | (Err WitnessConflict, w) => (witness_conflict, w)
            | (Err _, w) => (invalid_request, w)
            end
        | None => (invalid_request, w)
        end
      else if bool_decide (rq_url request = str_bytes "/v1/head") then
        match read_json request with
        | Some body =>
            match head_wire svc body w with
            | (Ok response, w) => (serialize_response 200 response, w)
            | (Err _, w) => (invalid_request, w)
            end
        | None => (invalid_request, w)
        end
      else (not_found, w)
  | OtherMethod => (not_found, w)
  end.

(** [expected] is [Bearer <token>]; the first Authorization header is
    compared. *)
Definition authorized (request : HttpRequest) (expected : bytes) : bool :=
  match rq_authorization request with
  | None => false
  | Some value => bool_decide (value = expected)
  end.

(** The body of the listener loop. *)
Definition serve (svc : WitnessService) (expected : bytes) (request : HttpRequest) (w : WitnessWorld)
    : HttpResponse * WitnessWorld :=
  if authorized request expected then dispatch svc request w else (unauthorized, w).

(** ** Invariant *)

(** A stored head is a receipt this service signed, with an epoch it has
    already handed out for the vault. *)
Record row_ok (svc : WitnessService) (db : WitnessDb) (v o : bytes) (row : HeadRow) : Prop := {
  ro_version : length (hr_version_id row) = 16%nat ∧ wf_bytes (hr_version_id row);
  ro_commitment : length (hr_commitment row) = 32%nat ∧ wf_bytes (hr_commitment row);
  ro_signature : length (hr_signature row) = 64%nat ∧ wf_bytes (hr_signature row);
  ro_epoch : 0 < hr_epoch row < default 1 (wd_epochs db !! v);
  ro_signed : Witness.verify_signature (public_key svc)
    (Witness.receipt_signing_bytes (mkId v) (mkId o) (mkId (hr_version_id row)) (hr_epoch row) (hr_commitment row))
    (hr_signature row) = Ok tt;
}.

Record service_ok (svc : WitnessService) (db : WitnessDb) : Prop := {
  so_epochs v n : wd_epochs db !! v = Some n → 1 ≤ n ≤ i64_max;
  so_heads v o row : wd_heads db !! (v, o) = Some row → row_ok svc db v o row;
}.

Definition receipt_of_row (svc : WitnessService) (v : VaultId) (o : ObjectId) (row : HeadRow) : WitnessReceipt :=
  mkReceipt v o (mkId (hr_version_id row)) (hr_epoch row) (hr_commitment row) (public_key svc) (hr_signature row).

(** The abstract state: the head recorded for an object. *)
Definition head_of (svc : WitnessService) (db : WitnessDb) (v : VaultId) (o : ObjectId) : option WitnessReceipt :=
  receipt_of_row svc v o <$> wd_heads db !! (as_bytes v, as_bytes o).

Definition epoch_of (svc : WitnessService) (db : WitnessDb) (v : VaultId) (o : ObjectId) : Z :=
  match head_of svc db v o with Some r => rc_epoch r | None => 0 end.

Definition next_of (db : WitnessDb) (v : VaultId) : Z := default 1 (wd_epochs db !! as_bytes v).

(** The tables after a request was granted. *)
Definition granted (svc : WitnessService) (db : WitnessDb) (req : WitnessRequest) : WitnessDb :=
  let r := Witness.receipt_issue req (next_of db (req_vault_id req)) (ws_signing_key svc) in
  mkWitnessDb (<[as_bytes (req_vault_id req) := next_of db (req_vault_id req) + 1]> (wd_epochs db))
    (<[(as_bytes (req_vault_id req), as_bytes (req_object_id req)) :=
         mkHeadRow (as_bytes (rc_version_id r)) (rc_epoch r) (rc_commitment r) (rc_signature r)]> (wd_heads db)).

Lemma receipt_of_row_sig svc db v o row :
  row_ok svc db (as_bytes v) (as_bytes o) row → Witness.receipt_verify_signature (receipt_of_row svc v o row) = Ok tt.
Proof. intros Hr. destruct v as [v], o as [o]. apply (ro_signed _ _ _ _ _ Hr). Qed.

Lemma receipt_of_head_row_ok svc db v o row :
  row_ok svc db (as_bytes v) (as_bytes o) row →
  receipt_of_head_row v o (public_key svc) row = Ok (receipt_of_row svc v o row).
Proof.
  intros Hr. pose proof (receipt_of_row_sig _ _ _ _ _ Hr) as Hsig.
  destruct Hr as [[Hv _] [Hc _] [Hs _] He _]. unfold receipt_of_head_row, fixed.
  destruct (Z.leb_spec 0 (hr_epoch row)); [|lia]. simpl.
  rewrite (proj2 (from_slice_ok (k:=KVersion) (hr_version_id row) (mkId (hr_version_id row))) (conj eq_refl Hv)). simpl.
  rewrite (proj2 (fixed_array_some _ _ _) (conj eq_refl Hc)), (proj2 (fixed_array_some _ _ _) (conj eq_refl Hs)). simpl.
  by apply Witness.receipt_new_ok.
Qed.

Lemma epoch_below_next svc db v o : service_ok svc db → epoch_of svc db v o < next_of db v ∧ 0 ≤ epoch_of svc db v o.
Proof.
  intros [He Hh]. unfold epoch_of, head_of, next_of.
  destruct (wd_heads db !! (as_bytes v, as_bytes o)) as [row|] eqn:E; simpl.
  - apply Hh in E. destruct (ro_epoch _ _ _ _ _ E). lia.
  - destruct (wd_epochs db !! as_bytes v) as [n|] eqn:En; simpl; [apply He in En|]; lia.
Qed.

Context `{!PrimitivesOk}.

Lemma granted_ok svc db req :
  wf_request req → service_ok svc db → next_of db (req_vault_id req) + 1 ≤ i64_max →
  service_ok svc (granted svc db req).
Proof.
  intros (Hv & Ho & Hx & Hc & Hcw) [He Hh] Hn.
  assert (1 ≤ next_of db (req_vault_id req)) as Hpos.
  { unfold next_of. destruct (wd_epochs db !! _) as [n|] eqn:En; simpl; [apply He in En|]; lia. }
  constructor; simpl.
  - intros v n [[<- <-]|[_ Hvn]]%lookup_insert_Some; [lia|by eapply He].
  - intros v o row [[[= <- <-] <-]|[Hne Hrow]]%lookup_insert_Some.
    + constructor; simpl.
      * apply Hx.
      * done.
      * split; [apply ed_sign_length|apply ed_sign_wf].
      * rewrite lookup_insert_eq. simpl. lia.
      * destruct (req_vault_id req), (req_object_id req), (req_version_id req). apply Witness.verify_signature_sign.
    + destruct (Hh _ _ _ Hrow) as [? ? ? Hep ?]. constructor; try done. simpl.
      destruct (decide (v = as_bytes (req_vault_id req))) as [->|Hvn].
      * rewrite lookup_insert_eq. simpl. unfold next_of in *. lia.
      * by rewrite lookup_insert_ne.
Qed.

Lemma head_of_granted svc db req :
  head_of svc (granted svc db req) (req_vault_id req) (req_object_id req) =
    Some (Witness.receipt_issue req (next_of db (req_vault_id req)) (ws_signing_key svc)).
Proof.
  unfold head_of, granted. simpl. rewrite lookup_insert_eq. simpl. unfold receipt_of_row, Witness.receipt_issue. simpl.
  assert (mkId (as_bytes (req_version_id req)) = req_version_id req) as -> by by destruct (req_version_id req). done.
Qed.

Lemma head_of_granted_other svc db req v o :
  (v, o) ≠ (req_vault_id req, req_object_id req) → head_of svc (granted svc db req) v o = head_of svc db v o.
Proof.
  intros Hne. unfold head_of, granted. simpl. rewrite lookup_insert_ne; [done|].
  intros [= E1%Crypto.id_ext E2%Crypto.id_ext]. apply Hne. congruence.
Qed.

(** ** Behaviour under every fault schedule *)

Lemma service_in_env_db {A} (m : M Env VaultError A) w r w' : in_env m w = (r, w') → ww_db w' = ww_db w.
Proof. unfold in_env, szoom. destruct (m (ww_env w)). by intros [= <- <-]. Qed.

Lemma query_cases {A} (q : WitnessDb → A) w r w' :
  query q w = (r, w') → ww_db w' = ww_db w ∧ (r = Ok (q (ww_db w)) ∨ r = Err Storage).
Proof.
  unfold query, sbind. destruct (in_env io_fault w) as [[b|] w1] eqn:E; apply service_in_env_db in E as Edb.
  - destruct b; intros [= <- <-]; [by auto|]. rewrite Edb. auto.
  - unfold in_env, szoom in E. done.
Qed.

Lemma service_exec_cases stmt w r w' :
  exec stmt w = (r, w') → (r = Err Storage ∧ ww_db w' = ww_db w) ∨ (r = Ok tt ∧ stmt (ww_db w) = Some (ww_db w')).
Proof.
  unfold exec, sbind. destruct (in_env io_fault w) as [[b|] w1] eqn:E; apply service_in_env_db in E as Edb.
  - destruct b; [intros [= <- <-]; auto|]. rewrite Edb. destruct (stmt (ww_db w)); intros [= <- <-]; auto.
  - unfold in_env, szoom in E. done.
Qed.

Lemma load_receipt_cases svc v o w r w' :
  service_ok svc (ww_db w) → load_receipt v o (public_key svc) w = (r, w') →
  ww_db w' = ww_db w ∧ (r = Ok (head_of svc (ww_db w) v o) ∨ r = Err Storage).
Proof.
  intros Hok. unfold load_receipt, sbind. destruct (query _ w) as [[row|e] w1] eqn:E; apply query_cases in E as [E1 Hr].
  - destruct Hr as [Hr|]; [|done]. injection Hr as ->. unfold slift. intros [= <- <-]. split; [done|]. left.
    unfold head_of. destruct (wd_heads (ww_db w) !! _) as [row|] eqn:Er; [|done]. simpl.
    by rewrite (receipt_of_head_row_ok _ _ _ _ _ (so_heads _ _ Hok _ _ _ Er)).
  - destruct Hr as [|Hr]; [done|]. injection Hr as ->. intros [= <- <-]. auto.
Qed.

(** The epoch allocation and the head update, up to the commit. *)
Lemma advance_ok svc tx req w r w' :
  service_ok svc (ww_db w) → advance svc tx req w = (Ok r, w') →
  r = Witness.receipt_issue req (next_of (ww_db w) (req_vault_id req)) (ws_signing_key svc) ∧
  ww_db w' = granted svc (ww_db w) req ∧ next_of (ww_db w) (req_vault_id req) + 1 ≤ i64_max.
Proof.
  intros Hok. unfold advance. intros (ep & w1 & E1 & E)%sbind_ok. unfold next_epoch in E1.
  apply sbind_ok in E1 as (n & w2 & [F2 [Hn|]]%query_cases & E1); [|done]. injection Hn as ->.
  apply sbind_ok in E1 as (n & w3 & E3 & E1). injection E3 as E3 <-.
  assert (n = wd_epochs (ww_db w) !! as_bytes (req_vault_id req)) as ->.
  { destruct (wd_epochs (ww_db w) !! _) as [k|]; [|congruence]. destruct (0 <=? k); congruence. }
  apply sbind_ok in E1 as (af & w4 & E4 & E1). injection E4 as E4 <-. apply ok_or_ok, u64_checked_add_some in E4 as [-> _].
  apply sbind_ok in E1 as ([] & w5 & [[? _]|[_ E5]]%service_exec_cases & E1); [done|]. injection E1 as <- <-.
  unfold upsert_epoch in E5. destruct (_ && _) eqn:Eg in E5; [|done]. injection E5 as E5.
  rewrite !andb_true_iff, Z.leb_le in Eg. destruct Eg as [[Hle _] _].
  apply sbind_ok in E as ([] & w6 & [[? _]|[_ E6]]%service_exec_cases & E); [done|].
  unfold upsert_head in E6. destruct (_ && _) in E6; [|done]. injection E6 as E6.
  apply sbind_ok in E as ([] & w7 & E7 & E). injection E as <- <-. split; [done|]. split; [|done].
  assert (ww_db w7 = ww_db w6) as ->.
  { unfold commit, sbind in E7. destruct (in_env io_fault w6) as [[b|] w8] eqn:E8; [|done].
    apply service_in_env_db in E8. destruct b; [done|]. injection E7 as <-. done. }
  unfold granted. rewrite <-E6, <-E5, F2. done.
Qed.

Lemma decide_issue_cases svc req e w r w' :
  wf_request req → service_ok svc (ww_db w) →
  owning (ww_db w) (decide_issue svc (ww_db w) req e) w = (r, w') →
  (is_ok r = false ∧ ww_db w' = ww_db w) ∨
  (∃ c, r = Ok (inl c) ∧ ww_db w' = ww_db w ∧ head_of svc (ww_db w) (req_vault_id req) (req_object_id req) = Some c ∧
     Witness.already_issued c req e = true) ∨
  (∃ c, r = Ok (inr c) ∧ ww_db w' = granted svc (ww_db w) req ∧ service_ok svc (ww_db w') ∧
     c = Witness.receipt_issue req (next_of (ww_db w) (req_vault_id req)) (ws_signing_key svc) ∧
     e = epoch_of svc (ww_db w) (req_vault_id req) (req_object_id req)).
Proof.
  intros Hreq Hok. unfold owning. destruct (decide_issue svc (ww_db w) req e w) as [[out|err] w1] eqn:E;
    intros [= <- <-]; [right|by left].
  unfold decide_issue in E. apply sbind_ok in E as (cur & w2 & [F2 [Hc|]]%load_receipt_cases & E); [|done|done].
  injection Hc as ->.
  assert (Hadv : ∀ out : WitnessReceipt + WitnessReceipt, e = epoch_of svc (ww_db w) (req_vault_id req) (req_object_id req) →
     (let* r := advance svc (ww_db w) req in sret (inr r) : WIO (WitnessReceipt + WitnessReceipt)) w2 = (Ok out, w1) →
     ∃ c, Ok (E:=VaultError) out = Ok (inr c) ∧ ww_db w1 = granted svc (ww_db w) req ∧ service_ok svc (ww_db w1) ∧
       c = Witness.receipt_issue req (next_of (ww_db w) (req_vault_id req)) (ws_signing_key svc) ∧
       e = epoch_of svc (ww_db w) (req_vault_id req) (req_object_id req)).
  { intros out' He (c & w3 & E3 & E4)%sbind_ok. injection E4 as <- <-.
    apply advance_ok in E3 as (-> & E3 & Hn); [|by rewrite F2]. rewrite F2 in *. eexists. split_and!; try done.
    rewrite E3. by apply granted_ok. }
  unfold epoch_of in Hadv |- *. destruct (head_of svc (ww_db w) (req_vault_id req) (req_object_id req)) as [c|].
  - destruct (Witness.already_issued c req e) eqn:Ea.
    + left. apply sbind_ok in E as ([] & w3 & E3 & E). injection E3 as <-. injection E as <- <-. simpl. eauto 10.
    + destruct (Z.eqb_spec (rc_epoch c) e) as [He|]; [|done]. simpl in E. right. by apply (Hadv out).
  - destruct (Z.eqb_spec e 0) as [He|]; [|done]. simpl in E. right. by apply (Hadv out).
Qed.

(** What one parsed request does to the durable state. *)
Lemma issue_wire_cases svc wire req e w r w' :
  parse_issue wire = Ok (req, e) → wf_request req → service_ok svc (ww_db w) →
  issue_wire svc wire w = (r, w') →
  (ww_db w' = ww_db w ∧ ∀ resp, r = Ok resp → ∃ c, resp = issue_response c ∧
     head_of svc (ww_db w) (req_vault_id req) (req_object_id req) = Some c ∧ Witness.already_issued c req e = true) ∨
  (ww_db w' = granted svc (ww_db w) req ∧ service_ok svc (ww_db w') ∧
   e = epoch_of svc (ww_db w) (req_vault_id req) (req_object_id req) ∧
   ∀ resp, r = Ok resp → resp = issue_response
     (Witness.receipt_issue req (next_of (ww_db w) (req_vault_id req)) (ws_signing_key svc))).
Proof.
  intros Hp Hreq Hok. unfold issue_wire, sbind at 1, slift. rewrite Hp. unfold sbind at 1, begin_transaction.
  destruct (query id w) as [[tx|e1] w1] eqn:E1; apply query_cases in E1 as [F1 Hr].
  2: { intros [= <- <-]. left. split; [done|]. done. }
  destruct Hr as [Hr|]; [|done]. injection Hr as ->. unfold id. rewrite <-F1 in Hok |- *. unfold sbind at 1.
  destruct (owning _ _ w1) as [out w2] eqn:E2.
  apply decide_issue_cases in E2 as [[Ho F2]|[(c & -> & F2 & Hh & Ha)|(c & -> & F2 & Hok2 & -> & He)]]; [| | |done|done].
  - destruct out; [done|]. intros [= <- <-]. left. split; done.
  - intros [= <- <-]. left. split; [done|]. intros resp [= <-]. eauto.
  - unfold sbind. destruct (enforce_owner_private_sqlite_state _ w2) as [[[]|] w3] eqn:E3; apply service_in_env_db in E3;
      intros [= <- <-]; right; rewrite E3; split_and!; try done. by intros ? [= <-].
Qed.

Lemma head_wire_cases svc wire v o ch w r w' :
  parse_head wire = Ok (v, o, ch) → service_ok svc (ww_db w) → head_wire svc wire w = (r, w') →
  ww_db w' = ww_db w ∧ ∀ resp, r = Ok resp →
    resp = head_response (Witness.head_issue v o (head_of svc (ww_db w) v o) ch (ws_signing_key svc)).
Proof.
  intros Hp Hok. unfold head_wire, sbind at 1, slift. rewrite Hp. unfold sbind.
  destruct (load_receipt _ _ _ w) as [[c|] w1] eqn:E; apply load_receipt_cases in E as [F1 Hr]; try done.
  - destruct Hr as [Hr|]; [|done]. injection Hr as ->. intros [= <- <-]. split; [done|]. by intros ? [= <-].
  - intros [= <- <-]. split; done.
Qed.

(** ** Behaviour without faults *)

(** One more statement was executed. *)
Definition ticked (db : WitnessDb) (w : WitnessWorld) : WitnessWorld :=
  mkWW db (mkEnv (env_fs (ww_env w)) (env_create_mode (ww_env w)) (env_faults (ww_env w)) (S (env_tick (ww_env w)))).

Definition quiet (w : WitnessWorld) : Prop := PrivateFile.quiet (ww_env w).

Lemma query_quiet {A} (q : WitnessDb → A) w : quiet w → query q w = (Ok (q (ww_db w)), ticked (ww_db w) w).
Proof. intros Hq. unfold query, sbind, in_env, szoom, io_fault. simpl. by rewrite Hq. Qed.

Lemma exec_quiet stmt w db : quiet w → stmt (ww_db w) = Some db → exec stmt w = (Ok tt, ticked db w).
Proof. intros Hq Hs. unfold exec, sbind, in_env, szoom, io_fault. simpl. rewrite Hq. simpl. by rewrite Hs. Qed.

Lemma commit_quiet tx w : quiet w → commit tx w = (Ok tt, ticked (ww_db w) w).
Proof. intros Hq. unfold commit, sbind, in_env, szoom, io_fault. simpl. by rewrite Hq. Qed.

Lemma load_receipt_quiet svc v o w :
  quiet w → service_ok svc (ww_db w) →
  load_receipt v o (public_key svc) w = (Ok (head_of svc (ww_db w) v o), ticked (ww_db w) w).
Proof.
  intros Hq Hok. unfold load_receipt, sbind. rewrite query_quiet by done. unfold slift, head_of.
  destruct (wd_heads (ww_db w) !! _) as [row|] eqn:Er; [|done]. simpl.
  by rewrite (receipt_of_head_row_ok _ _ _ _ _ (so_heads _ _ Hok _ _ _ Er)).
Qed.

Lemma next_of_pos svc db v : service_ok svc db → 1 ≤ next_of db v.
Proof. intros [He _]. unfold next_of. destruct (wd_epochs db !! _) eqn:E; simpl; [apply He in E|]; lia. Qed.

Lemma advance_quiet svc tx req w :
  quiet w → wf_request req → service_ok svc (ww_db w) → next_of (ww_db w) (req_vault_id req) + 1 ≤ i64_max →
  ∃ w', advance svc tx req w = (Ok (Witness.receipt_issue req (next_of (ww_db w) (req_vault_id req)) (ws_signing_key svc)), w')
    ∧ ww_db w' = granted svc (ww_db w) req ∧ env_faults (ww_env w') = env_faults (ww_env w)
    ∧ env_fs (ww_env w') = env_fs (ww_env w).
Proof.
  intros Hq (Hv & Ho & Hx & Hc & _) Hok Hn. pose proof (next_of_pos _ _ (req_vault_id req) Hok) as Hpos.
  eexists. unfold advance, next_epoch. unfold sbind at 1 2. rewrite query_quiet by done.
  unfold sbind at 1, slift at 1.
  assert ((match wd_epochs (ww_db w) !! as_bytes (req_vault_id req) with
     | None => Ok None | Some n => if 0 <=? n then Ok (Some n) else Err Storage end) =
     Ok (E:=VaultError) (wd_epochs (ww_db w) !! as_bytes (req_vault_id req))) as ->.
  { destruct (wd_epochs (ww_db w) !! _) as [n|] eqn:E; [|done]. apply (so_epochs _ _ Hok) in E.
    by destruct (Z.leb_spec 0 n); [|lia]. }
  fold (next_of (ww_db w) (req_vault_id req)). set (n := next_of _ _) in *. unfold sbind at 1, slift at 1.
  rewrite (proj2 (u64_checked_add_some n 1 (n + 1))) by (split; [done|unfold u64_max, i64_max in *; lia]). simpl.
  unfold sbind at 1. erewrite exec_quiet; [|done|].
  2: { unfold upsert_epoch. rewrite (proj2 (Z.leb_le _ _)), bool_decide_eq_true_2, (proj2 (Z.ltb_lt _ _)) by (apply Hv || lia). done. }
  unfold sret at 1. unfold sbind at 1. erewrite exec_quiet; [|done|].
  2: { unfold upsert_head. simpl. rewrite ed_sign_length, !bool_decide_eq_true_2 by (apply Hv || apply Ho || apply Hx || done).
       rewrite (proj2 (Z.leb_le _ _)), (proj2 (Z.ltb_lt _ _)) by lia. done. }
  unfold sbind at 1. rewrite commit_quiet by done. simpl. done.
Qed.

(** A request that expects the recorded epoch is granted when nothing fails. *)
Lemma issue_wire_granted svc wire req e w :
  parse_issue wire = Ok (req, e) → wf_request req → service_ok svc (ww_db w) → quiet w →
  PrivateFile.state_files (ws_path svc) (ww_env w) →
  e = epoch_of svc (ww_db w) (req_vault_id req) (req_object_id req) →
  next_of (ww_db w) (req_vault_id req) + 1 ≤ i64_max →
  ∃ w', issue_wire svc wire w =
      (Ok (issue_response (Witness.receipt_issue req (next_of (ww_db w) (req_vault_id req)) (ws_signing_key svc))), w')
    ∧ ww_db w' = granted svc (ww_db w) req.
Proof.
  intros Hp Hreq Hok Hq Hfs He Hn. unfold issue_wire, sbind at 1, slift. rewrite Hp. unfold sbind at 1, begin_transaction.
  rewrite query_quiet by done. set (w1 := ticked (ww_db w) w). unfold id.
  destruct (advance_quiet svc (ww_db w) req (ticked (ww_db w) w1)) as (w2 & Ea & Hdb & Hf & Hfs2); [done..|].
  assert (decide_issue svc (ww_db w) req e w1 =
    (Ok (inr (Witness.receipt_issue req (next_of (ww_db w) (req_vault_id req)) (ws_signing_key svc))), w2)) as Ed.
  { unfold decide_issue, sbind at 1. rewrite load_receipt_quiet by done. change (ww_db w1) with (ww_db w).
    unfold epoch_of in He. destruct (head_of svc (ww_db w) _ _) as [c|].
    - assert (Witness.already_issued c req e = false) as ->.
      { unfold Witness.already_issued. rewrite andb_false_iff. right. lia. }
      rewrite (proj2 (Z.eqb_eq _ _)) by done. simpl. unfold sbind. by rewrite Ea.
    - rewrite (proj2 (Z.eqb_eq _ _)) by done. simpl. unfold sbind. by rewrite Ea. }
  unfold sbind, owning. rewrite Ed. unfold enforce_owner_private_sqlite_state, in_env, szoom.
  destruct (PrivateFile.enforce_state_quiet (ws_path svc) (ww_env w2)) as (e3 & -> & _).
  - intros n. rewrite Hf. apply Hq.
  - destruct Hfs as (? & ? & ?). unfold PrivateFile.state_files, PrivateFile.type_at in *. rewrite Hfs2. done.
  - eexists. split; [done|]. done.
Qed.

(** Without faults a retry of a granted request is answered from the record. *)
Lemma issue_wire_retry svc wire req e w c :
  parse_issue wire = Ok (req, e) → service_ok svc (ww_db w) → quiet w →
  head_of svc (ww_db w) (req_vault_id req) (req_object_id req) = Some c → Witness.already_issued c req e = true →
  ∃ w', issue_wire svc wire w = (Ok (issue_response c), w') ∧ ww_db w' = ww_db w.
Proof.
  intros Hp Hok Hq Hc Ha. unfold issue_wire, sbind at 1, slift. rewrite Hp. unfold sbind at 1, begin_transaction.
  rewrite query_quiet by done. unfold sbind at 1, owning, decide_issue, sbind. rewrite load_receipt_quiet by done.
  change (ww_db (ticked (ww_db w) w)) with (ww_db w). rewrite Hc, Ha. simpl. by eexists.
Qed.

End service.
End Service.
