(* ===== verification/Https.v ===== *)
(** * The HTTPS witness client

    Models [HttpsWitnessProvider] of [crates/vlt1-core/src/witness.rs]: its
    configuration, the two POST requests with their status mapping, the bounded
    response reader, the decoding of receipts and heads, and the checks made on
    them before they reach the vault.

    The network is a class [Transport] whose answers are unconstrained; the
    second half instantiates it with a lossy connection to the witness service
    of [WitnessService.v] and shows that the pair is a provider in the sense of
    [ProviderContract]. *)

From S2P Require Import Prelude Format Crypto Witness Fs WitnessService.
From Stdlib Require Import ZArith Lia.
From stdpp Require Import base numbers list gmap strings.

Open Scope Z_scope.
Open Scope vlt_scope.

(** What [ureq] reports: a response below 400 with a body reader that fails
    ([None]) or yields bytes, a status of 400 or more, or a transport error. *)
Inductive HttpOutcome : Type :=
| HttpOk (body : option bytes)
| HttpStatus (code : Z)
| HttpFailed.

Class Transport (T : Type) : Type := {
  post : bytes → bytes → bytes → T → HttpOutcome * T;
}.

Record HttpsConfig : Type := mkHttps {
  issue_url : bytes;
  head_url : bytes;
  https_authorization : bytes;
  primary_public_key : bytes;
  previous_public_key : option bytes;
}.

(** The client together with the network it talks to ([agent]). *)
Record HttpsWitnessProvider (T : Type) : Type := mkProvider { config : HttpsConfig; agent : T }.
Arguments mkProvider {T} config agent.
Arguments config {T} h.
Arguments agent {T} h.

Module Https.

Definition MAX_HTTP_BODY : Z := 16 * 1024.

(** ** Configuration *)

Fixpoint starts_with (prefix s : bytes) : bool :=
  match prefix, s with
  | [], _ => true
  | p :: prefix, c :: s => (p =? c) && starts_with prefix s
  | _ :: _, [] => false
  end.

(** [trim_end_matches('/')]. *)
Fixpoint trim_end_slashes (s : bytes) : bytes :=
  match s with
  | [] => []
  | c :: s =>
      match trim_end_slashes s with
      | [] => if c =? 47 then [] else [c]
      | t => c :: t
      end
  end.

Definition build (endpoint bearer_token primary : bytes) (previous : option bytes) (allow_http : bool)
    : Result HttpsConfig :=
  if (negb allow_http && negb (starts_with (str_bytes "https://") endpoint))
     || bool_decide (bearer_token = []) || bool_decide (previous = Some primary)
  then Err (InvalidInput "witness endpoint configuration")
  else
    let endpoint := trim_end_slashes endpoint in
    if bool_decide (endpoint = []) || (2048 <? lenZ endpoint)
    then Err (InvalidInput "witness endpoint length")
    else Ok (mkHttps (endpoint ++ str_bytes "/v1/issue") (endpoint ++ str_bytes "/v1/head")
               (str_bytes "Bearer " ++ bearer_token) primary previous).

Definition new_with_previous (endpoint bearer_token primary : bytes) (previous : option bytes) : Result HttpsConfig :=
  build endpoint bearer_token primary previous false.

Definition new (endpoint bearer_token pinned : bytes) : Result HttpsConfig :=
  new_with_previous endpoint bearer_token pinned None.

Definition for_loopback_test_with_previous (endpoint bearer_token primary : bytes) (previous : option bytes)
    : Result HttpsConfig :=
  if negb (starts_with (str_bytes "http://127.0.0.1") endpoint || starts_with (str_bytes "http://[::1]") endpoint)
  then Err (InvalidInput "loopback witness endpoint")
  else build endpoint bearer_token primary previous true.

Section https.
Context `{Primitives} `{!Json IssueRequest} `{!Json IssueResponse} `{!Json HeadRequest} `{!Json HeadResponse}.

(** ** Wire records *)

Definition from_request (request : WitnessRequest) (expected_epoch : Z) : IssueRequest :=
  mkIssueRequest (to_hex (req_vault_id request)) (to_hex (req_object_id request)) (to_hex (req_version_id request))
    (hex_encode (req_commitment request)) expected_epoch.

Definition parse_vault_id (value : bytes) : Result VaultId :=
  let? bs := parse_fixed 16 value "witness vault ID" in from_slice bs.
Definition parse_object_id (value : bytes) : Result ObjectId :=
  let? bs := parse_fixed 16 value "witness object ID" in from_slice bs.
Definition parse_version_id (value : bytes) : Result VersionId :=
  let? bs := parse_fixed 16 value "witness version ID" in from_slice bs.

(** [Option::map(f).transpose()]. *)
Definition transpose {A B} (f : A → Result B) (o : option A) : Result (option B) :=
  match o with None => Ok None | Some a => let? b := f a in Ok (Some b) end.

Definition into_receipt (r : IssueResponse) : Result WitnessReceipt :=
  let? vault_id := parse_vault_id (is_vault_id r) in
  let? object_id := parse_object_id (is_object_id r) in
  let? version_id := parse_version_id (is_version_id r) in
  let? commitment := parse_fixed 32 (is_commitment r) "witness commitment" in
  let? public_key := parse_fixed 32 (is_public_key r) "witness public key" in
  let? signature := parse_fixed 64 (is_signature r) "witness signature" in
  Witness.receipt_new vault_id object_id version_id (is_witness_epoch r) commitment public_key signature.

Definition into_head (r : HeadResponse) : Result WitnessHead :=
  let? version_id := transpose parse_version_id (hs_version_id r) in
  let? commitment := transpose (λ value, parse_fixed 32 value "witness head commitment") (hs_commitment r) in
  let? vault_id := parse_vault_id (hs_vault_id r) in
  let? object_id := parse_object_id (hs_object_id r) in
  let? challenge := parse_fixed 32 (hs_challenge r) "witness head challenge" in
  let? public_key := parse_fixed 32 (hs_public_key r) "witness public key" in
  let? signature := parse_fixed 64 (hs_signature r) "witness head signature" in
  Witness.head_new vault_id object_id (hs_present r) version_id (hs_witness_epoch r) commitment challenge
    public_key signature.

(** The bounded reader and the JSON decoder. *)
Definition read_json {A} `{Json A} (reader : option bytes) : Result A :=
  match reader with
  | None => Err WitnessUnavailable
  | Some body =>
      let bytes := takeZ (MAX_HTTP_BODY + 1) body in
      if MAX_HTTP_BODY <? lenZ bytes then Err (InvalidFormat "witness HTTP response too large")
      else ok_or (json_from_slice bytes) (InvalidFormat "witness HTTP response")
  end.

(** ** Requests *)

Context {T : Type} `{!Transport T}.

Definition post_json {A B} `{Json A} `{Json B} (url : bytes) (request : A)
    : M (HttpsWitnessProvider T) VaultError B :=
  λ p,
  match json_to_vec request with
  | None => (Err WitnessUnavailable, p)
  | Some body =>
      let '(outcome, t) := post url (https_authorization (config p)) body (agent p) in
      (match outcome with
       | HttpOk reader => read_json reader
       | HttpStatus code => if code =? 409 then Err WitnessConflict else Err WitnessUnavailable
       | HttpFailed => Err WitnessUnavailable
       end, mkProvider (config p) t)
  end.

Definition post_issue (request : IssueRequest) : M (HttpsWitnessProvider T) VaultError IssueResponse :=
  λ p, post_json (issue_url (config p)) request p.

Definition post_head (request : HeadRequest) : M (HttpsWitnessProvider T) VaultError HeadResponse :=
  λ p, post_json (head_url (config p)) request p.

Definition check_trusted_key (cfg : HttpsConfig) (public_key : bytes) : Result unit :=
  if negb (bool_decide (public_key = primary_public_key cfg))
     && negb (bool_decide (previous_public_key cfg = Some public_key))
  then Err WitnessConflict else Ok tt.

(** The part of [issue_receipt] after the response was read. *)
Definition accept_receipt (cfg : HttpsConfig) (request : WitnessRequest) (expected_epoch : Z)
    (response : IssueResponse) : Result WitnessReceipt :=
  let? receipt := into_receipt response in
  let? _ := check_trusted_key cfg (rc_public_key receipt) in
  let? _ := Witness.verify_request receipt request in
  if rc_epoch receipt <=? expected_epoch then Err WitnessConflict else Ok receipt.

Definition accept_head (cfg : HttpsConfig) (vault_id : VaultId) (object_id : ObjectId) (challenge : bytes)
    (response : HeadResponse) : Result WitnessHead :=
  let? head := into_head response in
  let? _ := check_trusted_key cfg (hd_public_key head) in
  if negb (bool_decide (hd_vault_id head = vault_id)) || negb (bool_decide (hd_object_id head = object_id))
     || negb (bool_decide (hd_challenge head = challenge))
  then Err WitnessConflict else Ok head.

Definition https_issue_receipt (request : WitnessRequest) (expected_epoch : Z)
    : M (HttpsWitnessProvider T) VaultError WitnessReceipt :=
  λ p,
  (let* response := post_issue (from_request request expected_epoch) in
   slift (accept_receipt (config p) request expected_epoch response)) p.

Definition https_object_head (vault_id : VaultId) (object_id : ObjectId) (challenge : bytes)
    : M (HttpsWitnessProvider T) VaultError WitnessHead :=
  λ p,
  (let* response := post_head (mkHeadRequest (to_hex vault_id) (to_hex object_id) (hex_encode challenge)) in
   slift (accept_head (config p) vault_id object_id challenge response)) p.

#[global] Instance https_provider : WitnessProvider (HttpsWitnessProvider T) := {
  issue_receipt := https_issue_receipt;
  object_head := https_object_head;
}.

(** ** What the client checks, whatever the network answers *)

Definition trusted (cfg : HttpsConfig) (pk : bytes) : Prop :=
  pk = primary_public_key cfg ∨ previous_public_key cfg = Some pk.

Lemma check_trusted_key_ok cfg pk : check_trusted_key cfg pk = Ok tt ↔ trusted cfg pk.
Proof. unfold check_trusted_key, trusted. repeat case_bool_decide; simpl; naive_solver. Qed.

Lemma accept_receipt_ok cfg req e resp r :
  accept_receipt cfg req e resp = Ok r →
  into_receipt resp = Ok r ∧ trusted cfg (rc_public_key r) ∧ Witness.verify_request r req = Ok tt ∧ e < rc_epoch r.
Proof.
  unfold accept_receipt. intros (r' & E1 & ([] & E2 & ([] & E3 & E)%rbind_ok)%rbind_ok)%rbind_ok.
  destruct (Z.leb_spec (rc_epoch r') e); [done|]. injection E as ->.
  apply check_trusted_key_ok in E2. done.
Qed.

Lemma accept_head_ok cfg v o ch resp h :
  accept_head cfg v o ch resp = Ok h →
  into_head resp = Ok h ∧ trusted cfg (hd_public_key h) ∧ hd_vault_id h = v ∧ hd_object_id h = o ∧ hd_challenge h = ch.
Proof.
  unfold accept_head. intros (h' & E1 & ([] & E2 & E)%rbind_ok)%rbind_ok. apply check_trusted_key_ok in E2.
  repeat case_bool_decide; try done. by injection E as ->.
Qed.

(** A decoded head passed the tests of [head_new]. *)
Lemma into_head_ok resp h :
  into_head resp = Ok h →
  Witness.head_verify_signature h = Ok tt ∧ hd_present h = Witness.is_some (hd_version_id h) && Witness.is_some (hd_commitment h) ∧
  (hd_present h = false → hd_epoch h = 0).
Proof.
  unfold into_head. intros E. steps_ok E. unfold Witness.head_new in E. do 2 step_ok E.
  apply negb_false_iff, eqb_prop in E7. apply rbind_ok in E as ([] & Hv & E). injection E as <-. simpl.
  split_and!; [done|done|]. intros Hp. rewrite Hp in E8. simpl in E8. apply negb_false_iff in E8. lia.
Qed.

Lemma post_json_frame {A B} `{Json A} `{Json B} url (request : A) p (r : Result B) p' :
  post_json url request p = (r, p') → config p' = config p.
Proof.
  unfold post_json. destruct (json_to_vec request); [|by intros [= <- <-]].
  destruct (post _ _ _ _). by intros [= _ <-].
Qed.

End https.
End Https.

(** ** A lossy connection to the witness service *)

Inductive Loss : Type := ProxyStatus (code : Z) | ConnectionFailed | BodyUnreadable.

(** What happens to one request: delivered and answered, dropped before it
    reaches the service, or answered with the reply lost on the way back. *)
Inductive Delivery : Type := Delivered | RequestLost (f : Loss) | ReplyLost (f : Loss).

Record Connection : Type := mkConnection {
  cn_service : WitnessService;
  cn_expected : bytes;
  cn_endpoint : bytes;
  cn_world : WitnessWorld;
  cn_schedule : nat → Delivery;
  cn_count : nat;
}.

Module Network.

Abbreviation Client := (HttpsWitnessProvider Connection).

Section network.
Context `{Primitives} `{HexCrate}.
Context `{!Json IssueRequest} `{!Json IssueResponse} `{!Json HeadRequest} `{!Json HeadResponse}.

Definition failed (f : Loss) : HttpOutcome :=
  match f with
  | ProxyStatus code => HttpStatus code
  | ConnectionFailed => HttpFailed
  | BodyUnreadable => HttpOk None
  end.

Definition outcome_of (r : Service.HttpResponse) : HttpOutcome :=
  if Service.rs_status r <? 400 then HttpOk (Some (Service.rs_body r)) else HttpStatus (Service.rs_status r).

(** The TLS proxy forwards the path below its endpoint. *)
Definition forwarded (c : Connection) (url authorization body : bytes) : Service.HttpRequest :=
  Service.mkHttpRequest Service.Post (drop (length (cn_endpoint c)) url) (Some authorization) (Some body).

Definition advance_connection (c : Connection) (w : WitnessWorld) : Connection :=
  mkConnection (cn_service c) (cn_expected c) (cn_endpoint c) w (cn_schedule c) (S (cn_count c)).

Definition connection_post (url authorization body : bytes) (c : Connection) : HttpOutcome * Connection :=
  match cn_schedule c (cn_count c) with
  | RequestLost f => (failed f, advance_connection c (cn_world c))
  | d =>
      let '(reply, w) := Service.serve (cn_service c) (cn_expected c) (forwarded c url authorization body) (cn_world c) in
      (match d with ReplyLost f => failed f | _ => outcome_of reply end, advance_connection c w)
  end.

#[global] Instance connection_transport : Transport Connection := { post := connection_post }.

Definition client_db (p : Client) : WitnessDb := ww_db (cn_world (agent p)).
Definition client_service (p : Client) : WitnessService := cn_service (agent p).

(** The service invariant, and URLs below the endpoint the proxy serves. *)
Record client_inv (p : Client) : Prop := {
  ci_service : Service.service_ok (client_service p) (client_db p);
  ci_issue_url : issue_url (config p) = cn_endpoint (agent p) ++ str_bytes "/v1/issue";
  ci_head_url : head_url (config p) = cn_endpoint (agent p) ++ str_bytes "/v1/head";
}.

Definition client_head (p : Client) : VaultId → ObjectId → option WitnessReceipt :=
  Service.head_of (client_service p) (client_db p).

(** *** Round trips of the wire records *)

Context `{!HexCrateOk} `{!PrimitivesOk}.

Lemma fixed_ok n bs : length bs = n → Service.fixed n bs = Ok bs.
Proof. intros Hl. unfold Service.fixed, fixed_array. by rewrite decide_True. Qed.

Lemma parse_id_hex n bs error : wf_bytes bs → length bs = n → Service.parse_id n (hex_encode bs) error = Ok bs.
Proof.
  intros Hwf Hlen. unfold Service.parse_id.
  rewrite bool_decide_eq_true_2, hex_encode_lower by (autorewrite with vlen; lia || done). simpl.
  rewrite hex_crate_decode_lower by done. by apply fixed_ok.
Qed.

Lemma parse_issue_from_request req e : wf_request req → Service.parse_issue (Https.from_request req e) = Ok (req, e).
Proof.
  intros ([Hv Hv'] & [Ho Ho'] & [Hx Hx'] & Hc & Hc'). unfold Service.parse_issue, Https.from_request, to_hex. simpl.
  rewrite !parse_id_hex by done. simpl. rewrite !from_slice_as_bytes by done. by destruct req.
Qed.

Lemma parse_head_request v o ch :
  wf_id v → wf_id o → length ch = 32%nat → wf_bytes ch →
  Service.parse_head (mkHeadRequest (to_hex v) (to_hex o) (hex_encode ch)) = Ok (v, o, ch).
Proof.
  intros [Hv Hv'] [Ho Ho'] Hc Hc'. unfold Service.parse_head, to_hex. simpl.
  rewrite !parse_id_hex by done. simpl. by rewrite !from_slice_as_bytes.
Qed.

Definition wf_receipt (r : WitnessReceipt) : Prop :=
  wf_id (rc_vault_id r) ∧ wf_id (rc_object_id r) ∧ wf_id (rc_version_id r) ∧
  (length (rc_commitment r) = 32%nat ∧ wf_bytes (rc_commitment r)) ∧
  (length (rc_public_key r) = 32%nat ∧ wf_bytes (rc_public_key r)) ∧
  (length (rc_signature r) = 64%nat ∧ wf_bytes (rc_signature r)).

Lemma parse_hex_id {k} (i : Identifier k) error :
  wf_id i → (let? bs := parse_fixed 16 (to_hex i) error in from_slice (k:=k) bs) = Ok i.
Proof.
  intros Hi. unfold to_hex. rewrite parse_fixed_hex_encode by apply Hi. by apply from_slice_as_bytes.
Qed.

Lemma into_receipt_response r :
  wf_receipt r → Https.into_receipt (Service.issue_response r) =
    Witness.receipt_new (rc_vault_id r) (rc_object_id r) (rc_version_id r) (rc_epoch r) (rc_commitment r)
      (rc_public_key r) (rc_signature r).
Proof.
  intros (Hv & Ho & Hx & [Hc Hc'] & [Hp Hp'] & [Hs Hs']). unfold Https.into_receipt, Service.issue_response,
    Https.parse_vault_id, Https.parse_object_id, Https.parse_version_id. simpl.
  rewrite !parse_hex_id by done. simpl. rewrite !hex_crate_encode_lower by done.
  by rewrite !parse_fixed_hex_encode.
Qed.

Lemma into_head_response h r :
  wf_id (hd_vault_id h) → wf_id (hd_object_id h) →
  match hd_version_id h with Some x => wf_id x | None => True end →
  match hd_commitment h with Some c => length c = 32%nat ∧ wf_bytes c | None => True end →
  (length (hd_challenge h) = 32%nat ∧ wf_bytes (hd_challenge h)) →
  (length (hd_public_key h) = 32%nat ∧ wf_bytes (hd_public_key h)) →
  (length (hd_signature h) = 64%nat ∧ wf_bytes (hd_signature h)) →
  Https.into_head (Service.head_response h) = Ok r → r = h.
Proof.
  intros Hv Ho Hx Hc [Hch Hch'] [Hp Hp'] [Hs Hs']. unfold Https.into_head, Service.head_response. simpl.
  assert (Https.transpose Https.parse_version_id (to_hex <$> hd_version_id h) = Ok (hd_version_id h)) as ->.
  { destruct (hd_version_id h) as [x|]; [|done]. simpl. unfold Https.parse_version_id. by rewrite parse_hex_id. }
  simpl.
  assert (Https.transpose (λ value, parse_fixed 32 value "witness head commitment") (hex_crate_encode <$> hd_commitment h)
    = Ok (hd_commitment h)) as ->.
  { destruct (hd_commitment h) as [c|]; [|done]. simpl. destruct Hc.
    by rewrite hex_crate_encode_lower, parse_fixed_hex_encode. }
  simpl. unfold Https.parse_vault_id, Https.parse_object_id. rewrite !parse_hex_id by done. simpl.
  rewrite !hex_crate_encode_lower, !parse_fixed_hex_encode by done. simpl. unfold Witness.head_new. intros E.
  do 2 step_ok E. apply rbind_ok in E as ([] & _ & E). injection E as <-. by destruct h.
Qed.

(** *** One request over the connection *)

Context `{!JsonOk IssueRequest} `{!JsonOk IssueResponse} `{!JsonOk HeadRequest} `{!JsonOk HeadResponse}.

Lemma takeZ_all {A} n (l : list A) : lenZ (takeZ (n + 1) l) ≤ n → takeZ (n + 1) l = l.
Proof.
  rewrite takeZ_take. unfold lenZ. rewrite length_take. intros Hn. apply take_ge. lia.
Qed.

Lemma service_read_json {A} `{!Json A} `{!JsonOk A} m u a (x : A) body y :
  json_to_vec x = Some body → Service.read_json (Service.mkHttpRequest m u a (Some body)) = Some y → y = x.
Proof.
  intros Hx. unfold Service.read_json. simpl. destruct (Z.ltb_spec Service.MAX_WIRE_BODY (lenZ (takeZ (Service.MAX_WIRE_BODY + 1) body))); [done|].
  rewrite takeZ_all by done. rewrite (json_roundtrip _ _ Hx). congruence.
Qed.

Lemma client_read_json {A} `{!Json A} `{!JsonOk A} (x : A) body y :
  json_to_vec x = Some body → Https.read_json (Some body) = Ok y → y = x.
Proof.
  intros Hx. unfold Https.read_json. destruct (Z.ltb_spec Https.MAX_HTTP_BODY (lenZ (takeZ (Https.MAX_HTTP_BODY + 1) body))); [done|].
  rewrite takeZ_all by done. rewrite (json_roundtrip _ _ Hx). simpl. congruence.
Qed.

Lemma serialize_success {A} `{!Json A} (x : A) :
  Service.rs_status (Service.serialize_response 200 x) < 400 →
  json_to_vec x = Some (Service.rs_body (Service.serialize_response 200 x)).
Proof. unfold Service.serialize_response. destruct (json_to_vec x); simpl; [done|lia]. Qed.

(** A reply the client may read carries the response of the operation. *)
Lemma serve_issue svc expected auth wire body w reply w' :
  json_to_vec wire = Some body →
  Service.serve svc expected (Service.mkHttpRequest Service.Post (str_bytes "/v1/issue") auth (Some body)) w = (reply, w') →
  (w' = w ∧ 400 ≤ Service.rs_status reply) ∨
  ∃ r, Service.issue_wire svc wire w = (r, w') ∧
    (Service.rs_status reply < 400 → ∃ resp, r = Ok resp ∧ json_to_vec resp = Some (Service.rs_body reply)).
Proof.
  intros Hb. unfold Service.serve. destruct (Service.authorized _ _); [|by intros [= <- <-]; left].
  unfold Service.dispatch. cbn [Service.rq_method Service.rq_url]. rewrite bool_decide_eq_true_2 by done.
  destruct (Service.read_json _) as [q|] eqn:Eq; [|by intros [= <- <-]; left].
  apply (service_read_json _ _ _ wire) in Eq as ->; [|done].
  destruct (Service.issue_wire svc wire w) as [[resp|er] w1] eqn:E; intros Hr; right.
  - injection Hr as <- <-. eexists. split; [done|]. intros Hs%serialize_success. eauto.
  - destruct er; injection Hr as <- <-; eexists; (split; [done|]); simpl; lia.
Qed.

Lemma serve_head svc expected auth wire body w reply w' :
  json_to_vec wire = Some body →
  Service.serve svc expected (Service.mkHttpRequest Service.Post (str_bytes "/v1/head") auth (Some body)) w = (reply, w') →
  (w' = w ∧ 400 ≤ Service.rs_status reply) ∨
  ∃ r, Service.head_wire svc wire w = (r, w') ∧
    (Service.rs_status reply < 400 → ∃ resp, r = Ok resp ∧ json_to_vec resp = Some (Service.rs_body reply)).
Proof.
  intros Hb. unfold Service.serve. destruct (Service.authorized _ _); [|by intros [= <- <-]; left].
  unfold Service.dispatch. cbn [Service.rq_method Service.rq_url].
  rewrite bool_decide_eq_false_2, bool_decide_eq_true_2 by done.
  destruct (Service.read_json _) as [q|] eqn:Eq; [|by intros [= <- <-]; left].
  apply (service_read_json _ _ _ wire) in Eq as ->; [|done].
  destruct (Service.head_wire svc wire w) as [[resp|er] w1] eqn:E; intros Hr; right.
  - injection Hr as <- <-. eexists. split; [done|]. intros Hs%serialize_success. eauto.
  - injection Hr as <- <-; eexists; (split; [done|]); simpl; lia.
Qed.

(** Everything but the service's world and the request counter is fixed. *)
Definition same_connection (p p' : Client) : Prop :=
  config p' = config p ∧ client_service p' = client_service p ∧ cn_endpoint (agent p') = cn_endpoint (agent p).

(** A POST either leaves the service alone and fails, or runs the operation
    and hands its response to the client at most. *)
Lemma post_json_cases {A B} `{!Json A} `{!Json B} `{!JsonOk B} (op : WIO B) path (wire : A) p res p' :
  (∀ auth body w reply w', json_to_vec wire = Some body →
     Service.serve (client_service p) (cn_expected (agent p)) (Service.mkHttpRequest Service.Post path auth (Some body)) w
       = (reply, w') →
     (w' = w ∧ 400 ≤ Service.rs_status reply) ∨
     ∃ r, op w = (r, w') ∧
       (Service.rs_status reply < 400 → ∃ resp, r = Ok resp ∧ json_to_vec resp = Some (Service.rs_body reply))) →
  Https.post_json (cn_endpoint (agent p) ++ path) wire p = (res, p') →
  same_connection p p' ∧
  (client_db p' = client_db p ∧ is_ok res = false ∨
   ∃ r w', op (cn_world (agent p)) = (r, w') ∧ client_db p' = ww_db w' ∧ (∀ resp, res = Ok resp → r = Ok resp)).
Proof.
  intros Hop. unfold Https.post_json. destruct (json_to_vec wire) as [body|] eqn:Eb.
  2: { intros [= <- <-]. split; [done|by left]. }
  simpl. unfold connection_post.
  assert (Hfail : ∀ f, is_ok (match failed f with
     | HttpOk reader => Https.read_json (A:=B) reader
     | HttpStatus code => if code =? 409 then Err WitnessConflict else Err WitnessUnavailable
     | HttpFailed => Err WitnessUnavailable end) = false).
  { intros [code| |]; simpl; try case_match; done. }
  unfold forwarded. rewrite drop_app_length.
  destruct (Service.serve _ _ _ _) as [reply w1] eqn:Es. apply Hop in Es; [|done].
  destruct (cn_schedule (agent p) (cn_count (agent p))) as [|f|f]; intros [= <- <-]; (split; [done|]).
  - destruct Es as [[-> Hs]|(r & Er & Hs)].
    + left. split; [done|]. unfold outcome_of. destruct (Z.ltb_spec (Service.rs_status reply) 400); [lia|].
      by destruct (_ =? 409).
    + right. exists r, w1. split_and!; [done|done|]. intros resp. unfold outcome_of.
      destruct (Z.ltb_spec (Service.rs_status reply) 400) as [Hlt|]; [|by destruct (_ =? 409)].
      destruct (Hs Hlt) as (resp' & -> & Hj). intros E. apply (client_read_json resp') in E as ->; done.
  - left. done.
  - destruct Es as [[-> Hs]|(r & Er & Hs)]; [by left|]. right. exists r, w1. split_and!; [done|done|].
    intros resp E. specialize (Hfail f). by rewrite E in Hfail.
Qed.

(** *** The contract *)

Lemma head_of_wf svc db v o r :
  Service.service_ok svc db → wf_id v → wf_id o → Service.head_of svc db v o = Some r →
  wf_receipt r ∧ rc_vault_id r = v ∧ rc_object_id r = o ∧ rc_public_key r = Service.public_key svc ∧
  Witness.receipt_verify_signature r = Ok tt.
Proof.
  intros Hok Hv Ho. unfold Service.head_of. destruct (wd_heads db !! _) as [row|] eqn:E; [|done]. intros [= <-].
  apply (Service.so_heads _ _ Hok) in E. pose proof (Service.receipt_of_row_sig _ _ _ _ _ E).
  destruct E as [[] [] [] ? ?], Hv, Ho. unfold wf_receipt, wf_id, Service.public_key. simpl.
  split_and!; first [done|apply ed_public_length|apply ed_public_wf].
Qed.

Lemma receipt_issue_wf req e key : wf_request req → wf_receipt (Witness.receipt_issue req e key).
Proof.
  intros (? & ? & ? & ? & ?). unfold wf_receipt. simpl.
  split_and!; first [done|apply ed_public_length|apply ed_public_wf|apply ed_sign_length|apply ed_sign_wf].
Qed.

(** The client accepts a response of the service only as the receipt in it. *)
Lemma accept_response cfg req e c r :
  wf_receipt c → Https.accept_receipt cfg req e (Service.issue_response c) = Ok r →
  r = c ∧ e < rc_epoch c ∧ Witness.verify_request c req = Ok tt.
Proof.
  intros Hc (E & _ & Hv & He)%Https.accept_receipt_ok. rewrite into_receipt_response in E by done.
  apply Witness.receipt_new_ok in E as [-> _]. by destruct c.
Qed.

Lemma post_json_service {A B} `{!Json A} `{!Json B} url (wire : A) p (res : Result B) p' :
  Https.post_json url wire p = (res, p') → client_service p' = client_service p.
Proof.
  unfold Https.post_json. destruct (json_to_vec wire); [|by intros [= <- <-]]. simpl. unfold connection_post.
  destruct (cn_schedule _ _); try destruct (Service.serve _ _ _ _); by intros [= <- <-].
Qed.

Lemma https_issue_service p req e res p' :
  Https.https_issue_receipt req e p = (res, p') → client_service p' = client_service p.
Proof.
  unfold Https.https_issue_receipt, Https.post_issue, sbind.
  destruct (Https.post_json _ _ p) as [[resp|] p1] eqn:E; apply post_json_service in E; by intros [= <- <-].
Qed.

(** What a request does to the heads, and what an accepted receipt is. *)
Lemma https_issue_cases p req e res p' :
  client_inv p → wf_request req → Https.https_issue_receipt req e p = (res, p') →
  let cur := client_head p (req_vault_id req) (req_object_id req) in
  client_inv p' ∧
  (client_db p' = client_db p ∧ (∀ r, res = Ok r → cur = Some r ∧ e < rc_epoch r ∧ Witness.verify_request r req = Ok tt) ∨
   client_db p' = Service.granted (client_service p) (client_db p) req ∧
   e = Service.epoch_of (client_service p) (client_db p) (req_vault_id req) (req_object_id req) ∧
   (∀ c, cur = Some c → Witness.already_issued c req e = false) ∧
   (∀ r, res = Ok r → Service.head_of (client_service p) (client_db p') (req_vault_id req) (req_object_id req) = Some r ∧
      e < rc_epoch r ∧ Witness.verify_request r req = Ok tt)).
Proof.
  intros [Hok Hi Hh] Hreq. unfold Https.https_issue_receipt, Https.post_issue, sbind. rewrite Hi.
  destruct (Https.post_json _ _ p) as [res1 p1] eqn:E1. intros Hres. cbv zeta.
  assert (p' = p1 ∧ ∀ r, res = Ok r → ∃ resp, res1 = Ok resp ∧ Https.accept_receipt (config p) req e resp = Ok r) as [-> Hr].
  { destruct res1 as [resp|]; injection Hres as <- <-; (split; [done|]); [eauto|done]. }
  clear Hres. apply (post_json_cases (Service.issue_wire (client_service p) (Https.from_request req e))) in E1
    as [(Ec & Es & Ee) [[Hdb Hf]|(r & w' & Ew & Hdb & Hresp)]].
  - split; [split; rewrite ?Es, ?Hdb, ?Ec, ?Ee; done|]. left. split; [done|]. intros r (resp & -> & _)%Hr. done.
  - apply (Service.issue_wire_cases _ _ req e) in Ew; [|by apply parse_issue_from_request|done|done].
    destruct Ew as [[Hsame Hc]|(Hg & Hok' & He & Hc)]; rewrite <-Hdb in *.
    + split; [split; rewrite ?Es, ?Hsame, ?Ec, ?Ee; done|]. left. split; [done|].
      intros r' (resp & Hres%Hresp & Ha)%Hr. destruct (Hc _ Hres) as (c & -> & Hcur & _).
      destruct (head_of_wf _ _ _ _ _ Hok (proj1 Hreq) (proj1 (proj2 Hreq)) Hcur) as (Hwf & _).
      apply accept_response in Ha as (-> & ? & ?); done.
    + split; [split; rewrite ?Es, ?Ec, ?Ee; done|]. right. split_and!; [done|done| |].
      * intros c Hcur. unfold Service.epoch_of in He. unfold client_head, client_db in Hcur. rewrite Hcur in He.
        unfold Witness.already_issued. rewrite !andb_false_iff. right. lia.
      * intros r' (resp & Hres%Hresp & Ha)%Hr. apply Hc in Hres as ->. rewrite Hg, Service.head_of_granted.
        apply accept_response in Ha as (-> & ? & ?); [done|by apply receipt_issue_wf].
  - intros auth body w reply w' Hb Hs. exact (serve_issue _ _ _ _ _ _ _ _ Hb Hs).
Qed.

Lemma https_head_cases p v o ch res p' :
  client_inv p → wf_id v → wf_id o → length ch = 32%nat → wf_bytes ch →
  Https.https_object_head v o ch p = (res, p') →
  client_inv p' ∧ client_service p' = client_service p ∧ client_db p' = client_db p ∧
  ∀ h, res = Ok h → h = Witness.head_issue v o (client_head p v o) ch (ws_signing_key (client_service p)).
Proof.
  intros [Hok Hi Hh] Hv Ho Hl Hw. unfold Https.https_object_head, Https.post_head, sbind. rewrite Hh.
  destruct (Https.post_json _ _ p) as [res1 p1] eqn:E1. intros Hres.
  assert (p' = p1 ∧ ∀ h, res = Ok h → ∃ resp, res1 = Ok resp ∧ Https.accept_head (config p) v o ch resp = Ok h) as [-> Hr].
  { destruct res1 as [resp|]; injection Hres as <- <-; (split; [done|]); [eauto|done]. }
  clear Hres. set (wire := mkHeadRequest _ _ _) in E1.
  apply (post_json_cases (Service.head_wire (client_service p) wire)) in E1
    as [(Ec & Es & Ee) [[Hdb Hf]|(r & w' & Ew & Hdb & Hresp)]].
  - split_and!; [split; rewrite ?Es, ?Hdb, ?Ec, ?Ee; done|done|done|]. intros h (resp & -> & _)%Hr. done.
  - apply (Service.head_wire_cases _ _ v o ch) in Ew as [Hsame Hc]; [|by apply parse_head_request|done].
    rewrite <-Hdb in Hsame. split_and!; [split; rewrite ?Es, ?Hsame, ?Ec, ?Ee; done|done|done|].
    intros h (resp & Hres%Hresp & Ha)%Hr. apply Hc in Hres as ->.
    apply Https.accept_head_ok in Ha as (Ha & _). apply into_head_response in Ha; try done; simpl.
    + unfold client_db. destruct (Service.head_of _ _ v o) as [c|] eqn:Ecur; simpl; [|done].
      by destruct (head_of_wf _ _ _ _ _ Hok Hv Ho Ecur) as ((_ & _ & ? & _) & _).
    + unfold client_db. destruct (Service.head_of _ _ v o) as [c|] eqn:Ecur; simpl; [|done].
      by destruct (head_of_wf _ _ _ _ _ Hok Hv Ho Ecur) as ((_ & _ & _ & ? & _) & _).
    + split; [apply ed_public_length|apply ed_public_wf].
    + split; [apply ed_sign_length|apply ed_sign_wf].
  - intros auth body w reply w' Hb Hs. exact (serve_head _ _ _ _ _ _ _ _ Hb Hs).
Qed.

Lemma already_issued_granted c req e :
  Witness.verify_request c req = Ok tt → e < rc_epoch c → Witness.already_issued c req e = true.
Proof.
  intros (_ & _ & Ex & Ec & _)%Witness.verify_request_ok He. unfold Witness.already_issued.
  rewrite !bool_decide_eq_true_2 by done. simpl. lia.
Qed.

#[global] Instance network_contract : ProviderContract Client.
Proof.
  refine {| pv_inv := client_inv; pv_head := client_head |}.
  - intros p req e res p' Hp Hreq _ Hi.
    pose proof Hi as Hs. apply https_issue_cases in Hi as [Hp' Hc]; [|done|done]. split; [done|].
    pose proof (https_issue_service _ _ _ _ _ Hs) as Esvc.
    unfold client_head. rewrite Esvc.
    destruct Hc as [[Hdb Hr]|(Hdb & He & _ & Hr)].
    + rewrite Hdb. split_and!; [done|by left|done].
    + split_and!; [intros v o Hne; rewrite Hdb; by apply Service.head_of_granted_other| |done].
      right. split; [done|]. rewrite Hdb, Service.head_of_granted. eexists. split_and!; [done| |].
      * simpl. rewrite He. by apply Service.epoch_below_next, ci_service.
      * apply Witness.receipt_issue_verifies.
  - intros p req e r res p' Hp Hreq _ Hcur He Hv Hi. pose proof Hi as Hs.
    pose proof (https_issue_service _ _ _ _ _ Hs) as Esvc.
    apply https_issue_cases in Hi as [Hp' [[Hdb Hr]|(_ & _ & Hn & _)]]; [| |done|done].
    + unfold client_head. rewrite Esvc, Hdb. split; [done|]. intros r' (Hr' & _)%Hr.
      simpl in Hcur. congruence.
    + apply Hn in Hcur. by rewrite already_issued_granted in Hcur.
  - intros p v o ch res p' Hp Hv Ho Hl Hw Hi.
    apply https_head_cases in Hi as (Hp' & Esvc & Hdb & Hr); [|done..]. split; [done|].
    unfold client_head in *. rewrite Esvc, Hdb. split; [done|]. intros h ->%Hr.
    split_and!; [apply Witness.head_issue_verifies|done..|].
    destruct (Service.head_of _ _ v o) as [r|] eqn:E; [|done].
    apply head_of_wf in E as (_ & _ & _ & E & _); [|apply Hp|done|done]. by rewrite E.
Defined.

End network.
End Network.
