(* ===== verification/Backup.v ===== *)
(** * Encrypted snapshots and verified restore

    Models [crates/vlt1-core/src/backup.rs], with the forwarders
    [Storage::create_backup], [Storage::restore_backup], [Vault::backup_to] and
    [Vault::restore_from_backup].

    The state adds to the [World] the contents of the files that are not the
    live database.  SQLite's file format and the temporary names of the
    [tempfile] crate are parameters, the classes [SqliteFile] and [Tempfile];
    a system call that the fault schedule fails changes nothing, so a file that
    was being written when it failed keeps the contents it had. *)

From S2P Require Import Prelude Format Crypto Fs Storage Vault.
From Stdlib Require Import ZArith Lia.
From stdpp Require Import base numbers list gmap strings.

Open Scope Z_scope.
Open Scope vlt_scope.

Abbreviation Files := (gmap Path bytes).
Abbreviation Fs := (gmap Path Metadata).

(** The file the online backup API writes for some tables and integrity state,
    and what a connection opened on a file sees; [None] when the first
    statement fails. *)
Class SqliteFile : Type := {
  image : Db → bool → bytes;
  load : bytes → option (Db * bool);
}.

(** A backup reads as its source. *)
Class SqliteFileOk `{SqliteFile} : Prop := {
  load_image : ∀ db ok, load (image db ok) = Some (db, ok);
}.

(** The path [NamedTempFile::new_in] picks in a directory. *)
Class Tempfile : Type := { temp_path : Path → Fs → Path }.

(** It is new, lies in the directory and carries the crate's default prefix. *)
Class TempfileOk `{Tempfile} : Prop := {
  temp_new : ∀ dir fs, fs !! temp_path dir fs = None;
  temp_name : ∀ dir fs, ∃ s, temp_path dir fs = mkPath (absolute dir) (comps dir ++ [String.append ".tmp" s]);
}.

(** Strings are UTF-8 byte strings. *)
Record BackupManifest : Type := mkBackup {
  bm_format : bytes;
  bm_vault_id : bytes;
  bm_database_sha256 : bytes;
  bm_database_bytes : Z;
}.

#[global] Instance BackupManifest_eq_dec : EqDecision BackupManifest.
Proof. solve_decision. Defined.

Abbreviation BIO A := (M (World * Files) VaultError A).

Module Backup.
Section backup.
Context `{Primitives} `{SqliteFile} `{Tempfile} `{Json BackupManifest}.

Definition BACKUP_FORMAT : bytes := str_bytes "VLT/1 encrypted SQLite backup v1".

Definition in_world {A} (m : IO A) : BIO A := szoom fst (λ w s, (w, s.2)) m.
Definition in_fs {A} (m : M Env VaultError A) : BIO A := in_world (in_env m).

(** A system call on the file system: every failure is [VaultError::Storage]. *)
Definition syscall {A} (f : Fs * Files → option (A * (Fs * Files))) : BIO A :=
  let* fault := in_fs io_fault in
  if fault : bool then sthrow Storage else
  λ '(w, files),
  match f (env_fs (w_env w), files) with
  | Some (a, (fs, files)) => (Ok a, (set_env (set_fs fs (w_env w)) w, files))
  | None => (Err Storage, (w, files))
  end.

(** ** [std::fs] *)

(** [fs::read] and the contents behind an opened file. *)
Definition read_file (path : Path) : BIO bytes :=
  syscall (λ s, content ← s.2 !! path; Some (content, s)).

(** [File::open(path).and_then(|file| file.sync_all())]. *)
Definition open_and_sync (path : Path) : BIO unit :=
  syscall (λ s, if s.1 !! path then Some (tt, s) else None).

(** [OpenOptions::create_new] with a mode. *)
Definition create_new (path : Path) (m : Z) : BIO unit :=
  syscall (λ '(fs, files),
    match fs !! path with
    | Some _ => None
    | None => Some (tt, (<[path := mkMeta FRegular m]> fs, <[path := []]> files))
    end).

(** Replace the contents of an existing file. *)
Definition write_file (path : Path) (content : bytes) : BIO unit :=
  syscall (λ '(fs, files), _ ← files !! path; Some (tt, (fs, <[path := content]> files))).

Definition hard_link (source destination : Path) : BIO unit :=
  syscall (λ '(fs, files),
    metadata ← fs !! source; content ← files !! source;
    match fs !! destination with
    | Some _ => None
    | None => Some (tt, (<[destination := metadata]> fs, <[destination := content]> files))
    end).

Definition remove_file (path : Path) : BIO unit :=
  syscall (λ '(fs, files), _ ← fs !! path; Some (tt, (delete path fs, delete path files))).

(** [NamedTempFile::new_in]. *)
Definition new_in (parent : Path) : BIO Path :=
  syscall (λ '(fs, files),
    let temporary := temp_path parent fs in
    Some (temporary, (<[temporary := mkMeta FRegular 0x180]> fs, <[temporary := []]> files))).

(** A [NamedTempFile] is removed when it is dropped; a failure is ignored. *)
Definition with_temporary {A} (temporary : Path) (m : BIO A) : BIO A :=
  λ s, let '(r, s) := m s in (r, (remove_file temporary s).2).

(** ** Helpers *)

Definition is_lower_hex (value : bytes) (n : nat) : bool :=
  bool_decide (length value = (n * 2)%nat)
  && forallb (λ item, is_ascii_hexdigit item && negb (is_ascii_uppercase item)) value.

(** [HEX[byte >> 4]] and [HEX[byte & 0x0f]] of each byte. *)
Definition HEX : bytes := str_bytes "0123456789abcdef".
Definition hex_index (n : Z) : Z := default 0 (HEX !! Z.to_nat n).
Fixpoint hex_encode (value : bytes) : bytes :=
  match value with
  | [] => []
  | byte :: value => [hex_index (Z.shiftr byte 4); hex_index (Z.land byte 0x0f)] ++ hex_encode value
  end.

Definition sync_file (path : Path) : BIO unit := open_and_sync path.

Definition sync_parent (path : Path) : BIO unit :=
  let* parent := slift (ok_or (parent path) (InvalidInput "backup destination path")) in
  open_and_sync parent.

Definition publish_new_file (temporary destination : Path) : BIO unit :=
  hard_link temporary destination ;*
  sync_parent destination.

Definition ensure_new_destination (path : Path) : BIO unit :=
  in_fs (PathSafety.validate_new_regular_file path "backup destination path").

Definition create_temporary_file (destination : Path) : BIO Path :=
  in_fs (PathSafety.validate_new_regular_file destination "backup destination path") ;*
  let* parent := slift (ok_or (parent destination) (InvalidInput "backup destination path")) in
  new_in parent.

(** The process's umask applies to the requested mode, as it did to
    [env_create_mode]. *)
Definition write_new_file (path : Path) (content : bytes) : BIO unit :=
  let* e := sgets (λ s : World * Files, w_env s.1) in
  create_new path (Z.land 0x180 (env_create_mode e)) ;*
  write_file path content ;*
  syscall (λ s, Some (tt, s)) ;*
  sync_parent path.

(** The [loop] of [checksum_file]; [rest] is what the file still holds. *)
Fixpoint checksum_loop (fuel : nat) (rest digest : bytes) (n : Z) : BIO (bytes * Z) :=
  syscall (λ s, Some (tt, s)) ;*
  let buffer := takeZ (64 * 1024) rest in
  if bool_decide (buffer = []) then sret (digest, n) else
  match fuel with
  | O => sthrow Storage
  | S fuel =>
      let* n := slift (ok_or (u64_checked_add n (lenZ buffer)) (Invariant "backup size exceeds u64")) in
      checksum_loop fuel (dropZ (64 * 1024) rest) (digest ++ buffer) n
  end.

Definition checksum_file (path : Path) : BIO (bytes * Z) :=
  let* content := read_file path in
  let* (digest, n) := checksum_loop (length content) content [] 0 in
  sret (hex_encode (sha256 digest), n).

(** As at start-up, a foreign-key violation is a row whose first column is
    text, which the source reads as an [i64]. *)
Definition verify_snapshot_database (path : Path) : BIO VaultId :=
  let* content := read_file path in
  syscall (λ s, Some (tt, s)) ;*
  let* (db, integrity) := slift (ok_or (load content) Storage) in
  if negb integrity then sthrow (Invariant "backup SQLite integrity_check") else
  syscall (λ s, Some (tt, s)) ;*
  (if Storage.foreign_key_violation db then sthrow Storage else sret tt) ;*
  syscall (λ s, Some (tt, s)) ;*
  let* row := slift (ok_or (db_meta db) Storage) in
  slift (from_slice (mr_vault_id row)).

(** [Connection::backup] into an existing file. *)
Definition connection_backup (db : Db) (integrity : bool) (destination : Path) : BIO unit :=
  write_file destination (image db integrity).

(** ** The manifest *)

Definition validate (m : BackupManifest) : Result unit :=
  if negb (bool_decide (bm_format m = BACKUP_FORMAT)) || negb (is_lower_hex (bm_vault_id m) 16)
     || negb (is_lower_hex (bm_database_sha256 m) 32)
  then Err (InvalidFormat "backup manifest fields") else Ok tt.

Definition read_from (path : Path) : BIO BackupManifest :=
  in_fs (PathSafety.validate_existing_regular_file path "backup manifest path") ;*
  let* content := read_file path in
  let* manifest := slift (ok_or (json_from_slice content) (InvalidFormat "backup manifest JSON")) in
  slift (validate manifest) ;*
  sret manifest.

Definition verify_backup (m : BackupManifest) (backup_path : Path) : BIO unit :=
  slift (validate m) ;*
  in_fs (PathSafety.validate_existing_regular_file backup_path "backup source path") ;*
  let* (sha, n) := checksum_file backup_path in
  if negb (n =? bm_database_bytes m) || negb (bool_decide (sha = bm_database_sha256 m)) then sthrow Authentication else
  let* snapshot_vault_id := verify_snapshot_database backup_path in
  if negb (bool_decide (to_hex snapshot_vault_id = bm_vault_id m))
  then sthrow (Invariant "backup manifest vault binding") else sret tt.

Definition from_snapshot (vault_id : VaultId) (path : Path) : BIO BackupManifest :=
  let* (database_sha256, database_bytes) := checksum_file path in
  sret (mkBackup BACKUP_FORMAT (to_hex vault_id) database_sha256 database_bytes).

Definition write_to (m : BackupManifest) (path : Path) : BIO unit :=
  let* content := slift (ok_or (json_to_vec m) Storage) in
  write_new_file path content.

(** For a path without a trailing separator. *)
Definition manifest_path (backup : Path) : Path := path_push_suffix backup ".vlt1-backup.json".

(** ** Snapshot and restore *)

Definition create_snapshot (vault_id : VaultId) (destination : Path) : BIO BackupManifest :=
  ensure_new_destination destination ;*
  let* temporary := create_temporary_file destination in
  with_temporary temporary (
    let* w := sgets fst in
    connection_backup (w_db w) (w_integrity_ok w) temporary ;*
    sync_file temporary ;*
    let* snapshot_vault_id := verify_snapshot_database temporary in
    if negb (bool_decide (snapshot_vault_id = vault_id)) then sthrow (Invariant "backup vault ID binding") else
    in_fs (smap_err (λ _, Storage) (set_permissions temporary 0x180)) ;*
    publish_new_file temporary destination ;*
    let* manifest := from_snapshot vault_id destination in
    ensure_new_destination (manifest_path destination) ;*
    write_to manifest (manifest_path destination) ;*
    sret manifest).

Definition restore_snapshot (backup : Path) (manifest : BackupManifest) (destination : Path) : BIO unit :=
  verify_backup manifest backup ;*
  ensure_new_destination destination ;*
  let* temporary := create_temporary_file destination in
  with_temporary temporary (
    let* source := read_file backup in
    let* (db, integrity) := slift (ok_or (load source) Storage) in
    connection_backup db integrity temporary ;*
    sync_file temporary ;*
    verify_snapshot_database temporary ;*
    in_fs (smap_err (λ _, Storage) (set_permissions temporary 0x180)) ;*
    publish_new_file temporary destination).

Definition create_backup (vault_id : VaultId) (destination : Path) : BIO BackupManifest :=
  create_snapshot vault_id destination.

Definition restore_backup (backup : Path) (manifest : BackupManifest) (destination : Path) : BIO unit :=
  restore_snapshot backup manifest destination.

(** [backup_to] borrows the vault; the caller lends the files. *)
Definition backup_to (destination : Path) : Op Files BackupManifest :=
  λ '((v, w), files),
  let '(r, (w, files)) := create_backup (v_vault_id v) destination (w, files) in (r, ((v, w), files)).

Definition restore_from_backup (backup : Path) (manifest : BackupManifest) (destination : Path) : BIO unit :=
  restore_backup backup manifest destination.

End backup.
End Backup.
