(* ===== verification/Protocol.v ===== *)
(** * The local protocol

    Models [crates/vlt1-protocol/src/lib.rs]: the closed request and response
    types, length-prefixed JSON frames and the binary stream items, over any
    reader and writer.  [serde_json] is the [Json] class. *)

From S2P Require Import Prelude Format Crypto Fs Storage Vault.
From Stdlib Require Import ZArith Lia.
From stdpp Require Import base numbers list gmap strings.

Open Scope Z_scope.
Open Scope vlt_scope.

(** [Write::flush]: whether it succeeded. *)
Class Flush (W : Type) : Type := { flush : W → bool * W }.
#[global] Instance flush_vec : Flush bytes := { flush out := (true, out) }.

(** Strings are UTF-8 byte strings. *)
Inductive Request : Type :=
| RqStatus
| RqUnlock (passphrase : bytes)
| RqLock
| RqPut (object_id plaintext_b64 : bytes)
| RqPutStream (object_id : bytes)
| RqGet (object_id : bytes)
| RqGetStream (object_id : bytes)
| RqRotatePassphrase (current_passphrase replacement_passphrase : bytes)
| RqVerify
| RqCheckpoint
| RqBackup (destination : bytes)
| RqShutdown.

Inductive Success : Type :=
| SEmpty
| SStatus (format vault_id lifecycle recovery : bytes) (verified_active_objects : option Z)
| SStreamReady
| SPublished (version_id : bytes)
| SPlaintext (plaintext_b64 : bytes)
| SVerified (active_objects : Z)
| SBackup (format database_sha256 : bytes) (database_bytes : Z).

Inductive ErrorCode : Type :=
| CProtocol | CUnauthorized | CLocked | CNotFound | CInvalidInput | CVerification | CStorage
| CWitnessUnavailable | CWitnessConflict | COverloaded | CPolicy | CInternal.

Record Failure : Type := mkFailure { f_code : ErrorCode; f_message : bytes }.

Inductive Response : Type :=
| ROk (result : Success)
| RError (error : Failure).

#[global] Instance Request_eq_dec : EqDecision Request.
Proof. solve_decision. Defined.
#[global] Instance Success_eq_dec : EqDecision Success.
Proof. solve_decision. Defined.
#[global] Instance ErrorCode_eq_dec : EqDecision ErrorCode.
Proof. solve_decision. Defined.
#[global] Instance Failure_eq_dec : EqDecision Failure.
Proof. solve_decision. Defined.
#[global] Instance Response_eq_dec : EqDecision Response.
Proof. solve_decision. Defined.

Inductive ProtocolError : Type := Truncated | InvalidLength | InvalidJson | PIo.

Inductive StreamItem : Type :=
| ItemData (data : bytes)
| ItemEnd
| ItemError (response : Response).

Module Protocol.

Definition MAX_FRAME_BYTES : Z := 16 * 1024 * 1024.
Definition MAX_STREAM_CHUNK_BYTES : Z := 4 * 1024 * 1024.
Definition STREAM_END : Z := 0.
Definition STREAM_ERROR : Z := u32_max.

(** ** Reading *)

(** [Read::read_exact]: retry interruptions, an empty answer is the end of the
    input; [fuel] bounds the calls to [read]. *)
Fixpoint read_exact_fuel `{Read R} (fuel : nat) (n : Z) (filled : bytes) : M R ProtocolError bytes :=
  λ r,
  if n <=? lenZ filled then (Ok filled, r) else
  match fuel with
  | O => (Err PIo, r)
  | S fuel =>
      match read (n - lenZ filled) r with
      | (ReadData [], r) => (Err Truncated, r)
      | (ReadData data, r) => read_exact_fuel fuel n (filled ++ data) r
      | (ReadInterrupted, r) => read_exact_fuel fuel n filled r
      | (ReadFailed, r) => (Err PIo, r)
      end
  end.

Definition read_exact `{Read R} (n : Z) : M R ProtocolError bytes :=
  λ r, read_exact_fuel (S (read_rank r)) n [] r.

Definition read_frame `{Read R} {A} `{Json A} : M R ProtocolError A :=
  let* length_bytes := read_exact 4 in
  let length := from_be_bytes length_bytes in
  if (length =? 0) || (MAX_FRAME_BYTES <? length) then sthrow InvalidLength else
  let* body := read_exact length in
  slift (ok_or (json_from_slice body) InvalidJson).

Definition read_stream_item `{Read R} `{Json Response} : M R ProtocolError StreamItem :=
  let* length_bytes := read_exact 4 in
  let length := from_be_bytes length_bytes in
  if length =? STREAM_END then sret ItemEnd else
  if length =? STREAM_ERROR then let* response := read_frame in sret (ItemError response) else
  if MAX_STREAM_CHUNK_BYTES <? length then sthrow InvalidLength else
  let* data := read_exact length in
  sret (ItemData data).

(** ** Writing *)

Definition write_bytes `{Write W} (data : bytes) : M W ProtocolError unit :=
  λ w, let '(ok, w) := write_all data w in (if ok then Ok tt else Err PIo, w).

Definition flush_writer `{Flush W} : M W ProtocolError unit :=
  λ w, let '(ok, w) := flush w in (if ok then Ok tt else Err PIo, w).

Definition write_frame `{Write W} `{Flush W} {A} `{Json A} (value : A) : M W ProtocolError unit :=
  let* body := slift (ok_or (json_to_vec value) InvalidJson) in
  if bool_decide (body = []) || (MAX_FRAME_BYTES <? lenZ body) then sthrow InvalidLength else
  let* length := slift (ok_or (u32_try_from (lenZ body)) InvalidLength) in
  write_bytes (be_bytes 4 length) ;*
  write_bytes body ;*
  flush_writer.

Definition write_stream_chunk `{Write W} `{Flush W} (chunk : bytes) : M W ProtocolError unit :=
  if bool_decide (chunk = []) || (MAX_STREAM_CHUNK_BYTES <? lenZ chunk) then sthrow InvalidLength else
  let* length := slift (ok_or (u32_try_from (lenZ chunk)) InvalidLength) in
  write_bytes (be_bytes 4 length) ;*
  write_bytes chunk ;*
  flush_writer.

Definition write_stream_end `{Write W} `{Flush W} : M W ProtocolError unit :=
  write_bytes (be_bytes 4 STREAM_END) ;*
  flush_writer.

Definition write_stream_error `{Write W} `{Flush W} `{Json Response} (response : Response) : M W ProtocolError unit :=
  write_bytes (be_bytes 4 STREAM_ERROR) ;*
  write_frame response.

End Protocol.
