(* ===== verification/Daemon.v ===== *)
(** * The daemon

    Models [crates/vlt1-daemon/src/lib.rs]: the state shared by all
    connections, the request handlers, the streaming exchanges, peer
    authorisation, the private socket, and (in [Admission]) the connection and
    long-operation permits as a transition system with one step per atomic
    operation of the source.

    A handler is a function on the [Host]: the daemon's state, the vault's
    [World] and the files beside it.  A [Mutex] is its value and whether it is
    poisoned; a Unix socket is any type with the [UnixStream] operations. *)

From S2P Require Import Prelude Format Crypto Witness Fs Storage Vault WitnessService Https Backup Protocol.
From Stdlib Require Import ZArith Lia.
From stdpp Require Import base numbers list gmap strings.

Open Scope Z_scope.
Open Scope vlt_scope.

(** [base64::engine::general_purpose::STANDARD]. *)
Class Base64 : Type := {
  b64_encode : bytes → bytes;
  b64_decode : bytes → option bytes;
}.

(** A connected socket: reading, writing, the peer's credentials, timeouts,
    and the number of bytes it has still to deliver. *)
Class UnixStream (T : Type) : Type := {
  us_read :: Read T;
  us_write :: Write T;
  us_flush :: Flush T;
  peer_uid : T → option Z;
  set_read_timeout : T → bool * T;
  set_write_timeout : T → bool * T;
  unread : T → nat;
}.

Record Mutex (A : Type) : Type := mkMutex { m_value : A; m_poisoned : bool }.
Arguments mkMutex {A} m_value m_poisoned.
Arguments m_value {A} m.
Arguments m_poisoned {A} m.

(** [Mutex::lock]: refused once a holder has panicked. *)
Definition lock_mutex {A} (m : Mutex A) : option A := if m_poisoned m then None else Some (m_value m).

Record WitnessConfig : Type := mkWitnessConfig {
  wc_endpoint : bytes;
  wc_bearer_token : bytes;
  wc_public_key : bytes;
  wc_previous_public_key : option bytes;
}.

(** The timeout is in nanoseconds. *)
Record DaemonConfig : Type := mkDaemonConfig {
  dc_socket_path : Path;
  dc_vault_path : Path;
  dc_allowed_uid : Z;
  dc_allow_shutdown : bool;
  dc_witness : option WitnessConfig;
  dc_max_connections : Z;
  dc_io_timeout : Z;
}.

Record RecoveryState : Type := mkRecovery {
  rs_startup_scan : bytes;
  rs_verified_active_objects : option Z;
}.

Record DaemonState (Net : Type) : Type := mkDaemon {
  ds_config : DaemonConfig;
  ds_vault : Mutex Vault;
  ds_recovery : Mutex RecoveryState;
  ds_witness : option (Mutex (HttpsWitnessProvider Net));
  ds_active_connections : Z;
  ds_long_operation_active : bool;
  ds_shutdown : bool;
}.
Arguments mkDaemon {Net} _ _ _ _ _ _ _.
Arguments ds_config {Net} d.
Arguments ds_vault {Net} d.
Arguments ds_recovery {Net} d.
Arguments ds_witness {Net} d.
Arguments ds_active_connections {Net} d.
Arguments ds_long_operation_active {Net} d.
Arguments ds_shutdown {Net} d.

Record Host (Net : Type) : Type := mkHost {
  h_daemon : DaemonState Net;
  h_world : World;
  h_files : Files;
}.
Arguments mkHost {Net} _ _ _.
Arguments h_daemon {Net} h.
Arguments h_world {Net} h.
Arguments h_files {Net} h.

(** ** The binary streams of a connection *)

Record StreamReader (T : Type) : Type := mkReader {
  sr_stream : T;
  sr_current : bytes;
  sr_offset : nat;
  sr_finished : bool;
}.
Arguments mkReader {T} _ _ _ _.
Arguments sr_stream {T} s.
Arguments sr_current {T} s.
Arguments sr_offset {T} s.
Arguments sr_finished {T} s.

Record StreamWriter (T : Type) : Type := mkWriter { sw_stream : T }.
Arguments mkWriter {T} _.
Arguments sw_stream {T} s.

Module Stream.
Section stream.
Context `{UnixStream T} `{Json Response}.

Definition new (stream : T) : StreamReader T := mkReader stream [] 0 false.

(** [while self.offset == self.current.len()]: an item is read until there is
    data; [fuel] bounds the items. *)
Fixpoint fill (fuel : nat) (r : StreamReader T) : option ReadOutcome * StreamReader T :=
  if negb (sr_offset r =? length (sr_current r))%nat then (None, r) else
  let r := mkReader (sr_stream r) [] 0 (sr_finished r) in
  if sr_finished r then (Some (ReadData []), r) else
  match fuel with
  | O => (Some ReadFailed, r)
  | S fuel =>
      match Protocol.read_stream_item (sr_stream r) with
      | (Ok (ItemData data), stream) => fill fuel (mkReader stream data 0 (sr_finished r))
      | (Ok ItemEnd, stream) => (Some (ReadData []), mkReader stream [] 0 true)
      | (Ok (ItemError _), stream) => (Some ReadFailed, mkReader stream [] 0 (sr_finished r))
      | (Err _, stream) => (Some ReadFailed, mkReader stream [] 0 (sr_finished r))
      end
  end.

Definition reader_read (n : Z) (r : StreamReader T) : ReadOutcome * StreamReader T :=
  if n =? 0 then (ReadData [], r) else
  match fill (S (read_rank (sr_stream r))) r with
  | (Some outcome, r) => (outcome, r)
  | (None, r) =>
      (** [&self.current[self.offset..]] panics beyond the end *)
      if (length (sr_current r) <? sr_offset r)%nat then (ReadFailed, r) else
      let available := drop (sr_offset r) (sr_current r) in
      let copied := takeZ n available in
      (ReadData copied, mkReader (sr_stream r) (sr_current r) (sr_offset r + length copied) (sr_finished r))
  end.

#[global] Instance stream_reader : Read (StreamReader T) := {
  read := reader_read;
  read_rank r := (read_rank (sr_stream r) + unread (sr_stream r) + (length (sr_current r) - sr_offset r))%nat;
}.

(** [buffer.chunks(MAX_STREAM_CHUNK_BYTES)], each as one item. *)
Fixpoint write_chunks (chunks : list bytes) : M T ProtocolError unit :=
  match chunks with
  | [] => sret tt
  | chunk :: chunks => Protocol.write_stream_chunk chunk ;* write_chunks chunks
  end.

Definition writer_write (data : bytes) (w : StreamWriter T) : bool * StreamWriter T :=
  let '(r, stream) := write_chunks (slice_chunks Protocol.MAX_STREAM_CHUNK_BYTES data) (sw_stream w) in
  (is_ok r, mkWriter stream).

#[global] Instance stream_writer : Write (StreamWriter T) := { write_all := writer_write }.

End stream.
End Stream.

Module Daemon.
Section daemon.
Context `{Primitives} `{Base64} `{SqliteFile} `{Tempfile} `{Json BackupManifest}.
Context `{HexCrate} `{Json IssueRequest} `{Json IssueResponse} `{Json HeadRequest} `{Json HeadResponse}.
Context `{Json Request} `{Json Response} {Net : Type} `{Transport Net}.

Definition DEFAULT_MAX_CONNECTIONS : Z := 32.
Definition DEFAULT_IO_TIMEOUT : Z := 5 * 10 ^ 9.

Definition for_current_user (current_uid : Z) (socket_path vault_path : Path) : DaemonConfig :=
  mkDaemonConfig socket_path vault_path current_uid false None DEFAULT_MAX_CONNECTIONS DEFAULT_IO_TIMEOUT.

(** ** Responses *)

Definition failure (code : ErrorCode) (message : string) : Failure := mkFailure code (str_bytes message).

Definition error_response (code : ErrorCode) (message : string) : Response := RError (failure code message).

Definition map_vault_error (error : VaultError) : Failure :=
  match error with
  | Locked => failure CLocked "vault is locked"
  | NotFound => failure CNotFound "requested object was not found"
  | InvalidInput _ => failure CInvalidInput "request input is invalid"
  | UnlockFailed | Authentication | Invariant _ => failure CVerification "vault verification failed"
  | InvalidFormat _ => failure CVerification "vault format verification failed"
  | Storage => failure CStorage "vault storage operation failed"
  | WitnessUnavailable => failure CWitnessUnavailable "freshness witness is unavailable"
  | WitnessConflict => failure CWitnessConflict "freshness witness state conflicts with local vault state"
  end.

Definition overloaded_response (message : string) : Response := error_response COverloaded message.

Definition parse_object_id (text : bytes) : result ObjectId Response :=
  if negb (bool_decide (length text = 32%nat)) || negb (forallb is_ascii_hexdigit text)
  then Err (error_response CInvalidInput "object identifier must be 32 hexadecimal characters")
  else match parse_pairs text with
       | None => Err (error_response CInvalidInput "object identifier is malformed")
       | Some bytes =>
           match from_slice bytes with
           | Ok object_id => Ok object_id
           | Err _ => Err (error_response CInvalidInput "object identifier is malformed")
           end
       end.

(** ** Opening *)

Definition witness_of_config (agent : Net) (config : DaemonConfig) : Result (option (HttpsWitnessProvider Net)) :=
  match dc_witness config with
  | None => Ok None
  | Some policy =>
      let? provider := Https.new_with_previous (wc_endpoint policy) (wc_bearer_token policy) (wc_public_key policy)
                         (wc_previous_public_key policy) in
      Ok (Some (mkProvider provider agent))
  end.

Definition open (agent : Net) (config : DaemonConfig) : IO (DaemonState Net) :=
  if (dc_max_connections config =? 0) || (dc_io_timeout config =? 0)
  then sthrow (InvalidInput "daemon resource configuration") else
  let* vault := Vault.open (dc_vault_path config) in
  let* witness := slift (witness_of_config agent config) in
  sret (mkDaemon config (mkMutex vault false) (mkMutex (mkRecovery (str_bytes "startup_integrity_ok") None) false)
          ((λ p, mkMutex p false) <$> witness) 0 false false).

(** ** Access to the shared state *)

Definition set_daemon (f : DaemonState Net → DaemonState Net) (h : Host Net) : Host Net :=
  mkHost (f (h_daemon h)) (h_world h) (h_files h).

Definition set_ds_vault (v : Vault) (d : DaemonState Net) : DaemonState Net :=
  mkDaemon (ds_config d) (mkMutex v (m_poisoned (ds_vault d))) (ds_recovery d) (ds_witness d) (ds_active_connections d)
    (ds_long_operation_active d) (ds_shutdown d).
Definition set_ds_recovery (r : RecoveryState) (d : DaemonState Net) : DaemonState Net :=
  mkDaemon (ds_config d) (ds_vault d) (mkMutex r (m_poisoned (ds_recovery d))) (ds_witness d) (ds_active_connections d)
    (ds_long_operation_active d) (ds_shutdown d).
Definition set_ds_witness (p : HttpsWitnessProvider Net) (d : DaemonState Net) : DaemonState Net :=
  mkDaemon (ds_config d) (ds_vault d) (ds_recovery d) ((λ m, mkMutex p (m_poisoned m)) <$> ds_witness d)
    (ds_active_connections d) (ds_long_operation_active d) (ds_shutdown d).
Definition set_long_operation (b : bool) (d : DaemonState Net) : DaemonState Net :=
  mkDaemon (ds_config d) (ds_vault d) (ds_recovery d) (ds_witness d) (ds_active_connections d) b (ds_shutdown d).
Definition set_shutdown (d : DaemonState Net) : DaemonState Net :=
  mkDaemon (ds_config d) (ds_vault d) (ds_recovery d) (ds_witness d) (ds_active_connections d)
    (ds_long_operation_active d) true.

Definition is_long (h : Host Net) : bool := ds_long_operation_active (h_daemon h).
Definition has_witness (h : Host Net) : bool := bool_decide (is_Some (ds_witness (h_daemon h))).

(** Run a vault operation on the locked vault, lending it [x]. *)
Definition on_vault {X A} (m : Op X A) (x : X) (v : Vault) (h : Host Net) : Result A * X * Host Net :=
  let '(r, ((v, w), x)) := m ((v, h_world h), x) in
  (r, x, mkHost (set_ds_vault v (h_daemon h)) w (h_files h)).

Definition respond (r : Result Success) : Response :=
  match r with Ok result => ROk result | Err error => RError (map_vault_error error) end.

Definition with_vault (operation : Op Files Success) (h : Host Net) : Response * Host Net :=
  match lock_mutex (ds_vault (h_daemon h)) with
  | None => (error_response CInternal "daemon state is unavailable", h)
  | Some vault =>
      let '(r, files, h) := on_vault operation (h_files h) vault h in
      (respond r, mkHost (h_daemon h) (h_world h) files)
  end.

Definition with_vault_result (operation : Op Files Z) (h : Host Net) : Result Z * Host Net :=
  match lock_mutex (ds_vault (h_daemon h)) with
  | None => (Err Storage, h)
  | Some vault =>
      let '(r, files, h) := on_vault operation (h_files h) vault h in
      (r, mkHost (h_daemon h) (h_world h) files)
  end.

Definition with_witness (operation : Op (HttpsWitnessProvider Net) Success) (h : Host Net) : Response * Host Net :=
  match ds_witness (h_daemon h) with
  | None => (error_response CPolicy "external witness is not configured", h)
  | Some witness =>
      match lock_mutex witness with
      | None => (error_response CInternal "witness state is unavailable", h)
      | Some witness =>
          match lock_mutex (ds_vault (h_daemon h)) with
          | None => (error_response CInternal "daemon state is unavailable", h)
          | Some vault =>
              let '(r, witness, h) := on_vault operation witness vault h in
              (respond r, set_daemon (set_ds_witness witness) h)
          end
      end
  end.

Definition with_witness_result (operation : Op (HttpsWitnessProvider Net) Z) (h : Host Net) : Result Z * Host Net :=
  match ds_witness (h_daemon h) with
  | None => (Err WitnessUnavailable, h)
  | Some witness =>
      match lock_mutex witness, lock_mutex (ds_vault (h_daemon h)) with
      | Some witness, Some vault =>
          let '(r, witness, h) := on_vault operation witness vault h in
          (r, set_daemon (set_ds_witness witness) h)
      | _, _ => (Err Storage, h)
      end
  end.

(** [try_acquire_long_operation] and the [Drop] of the permit, around a
    function that owns it. *)
Definition with_long_permit {A} (refused : Host Net → A * Host Net) (operation : Host Net → A * Host Net) (h : Host Net)
    : A * Host Net :=
  if is_long h then refused h else
  let '(a, h) := operation (set_daemon (set_long_operation true) h) in
  (a, set_daemon (set_long_operation false) h).

(** ** Handlers *)

Definition empty {X A} (m : Op X A) : Op X Success := m ;* sret SEmpty.

Definition published {X} (m : Op X VersionId) : Op X Success :=
  let* version := m in sret (SPublished (to_hex version)).

Definition status (h : Host Net) : Response * Host Net :=
  if is_long h then (overloaded_response "daemon long operation is in progress", h) else
  match lock_mutex (ds_vault (h_daemon h)) with
  | None => (error_response CInternal "daemon state is unavailable", h)
  | Some vault =>
      let lifecycle := match Vault.status vault with StatusLocked => "locked" | StatusUnlocked => "unlocked" end in
      match lock_mutex (ds_recovery (h_daemon h)) with
      | None => (error_response CInternal "daemon recovery state is unavailable", h)
      | Some recovery =>
          (ROk (SStatus (str_bytes "VLT/1") (to_hex (v_vault_id vault)) (str_bytes lifecycle) (rs_startup_scan recovery)
                  (rs_verified_active_objects recovery)), h)
      end
  end.

Definition unlock (passphrase : bytes) (h : Host Net) : Response * Host Net :=
  if has_witness h then
    with_witness (
      Vault.unlock passphrase ;*
      Vault.recover_pending_witness_publications ;*
      Vault.verify_active_objects_with_witness ;*
      sret SEmpty) h
  else with_vault (empty (Vault.unlock passphrase)) h.

Definition verify (h : Host Net) : Response * Host Net :=
  with_long_permit (λ h, (overloaded_response "daemon long operation is in progress", h)) (λ h,
    let '(r, h) :=
      if has_witness h then with_witness_result Vault.verify_active_objects_with_witness h
      else with_vault_result Vault.verify_active_objects h in
    match r with
    | Ok active_objects =>
        match lock_mutex (ds_recovery (h_daemon h)) with
        | None => (error_response CInternal "daemon recovery state is unavailable", h)
        | Some recovery =>
            (ROk (SVerified active_objects),
             set_daemon (set_ds_recovery (mkRecovery (rs_startup_scan recovery) (Some active_objects))) h)
        end
    | Err error => (RError (map_vault_error error), h)
    end) h.

Definition backup (destination : Path) (h : Host Net) : Response * Host Net :=
  with_long_permit (λ h, (overloaded_response "daemon long operation is in progress", h)) (λ h,
    with_vault (
      let* manifest := Backup.backup_to destination in
      sret (SBackup (bm_format manifest) (bm_database_sha256 manifest) (bm_database_bytes manifest))) h) h.

Definition put (object_id plaintext_b64 : bytes) (h : Host Net) : Response * Host Net :=
  match parse_object_id object_id with
  | Err response => (response, h)
  | Ok object_id =>
      match b64_decode plaintext_b64 with
      | None => (error_response CInvalidInput "plaintext is not valid base64", h)
      | Some plaintext =>
          if has_witness h then with_witness (published (Vault.put_with_witness object_id plaintext)) h
          else with_vault (published (Vault.put object_id plaintext)) h
      end
  end.

Definition get (object_id : bytes) (h : Host Net) : Response * Host Net :=
  match parse_object_id object_id with
  | Err response => (response, h)
  | Ok object_id =>
      if has_witness h then
        with_witness (
          Vault.verify_active_objects_with_witness ;*
          let* plaintext := Vault.get object_id in
          sret (SPlaintext (b64_encode plaintext))) h
      else
        with_vault (let* plaintext := Vault.get object_id in sret (SPlaintext (b64_encode plaintext))) h
  end.

Definition dispatch (request : Request) (h : Host Net) : Response * Host Net :=
  if is_long h && negb (bool_decide (request = RqShutdown))
  then (overloaded_response "daemon long operation is in progress", h) else
  match request with
  | RqStatus => status h
  | RqUnlock passphrase => unlock passphrase h
  | RqLock => with_vault (empty Vault.lock_op) h
  | RqPut object_id plaintext_b64 => put object_id plaintext_b64 h
  | RqGet object_id => get object_id h
  | RqPutStream _ | RqGetStream _ => (error_response CProtocol "streaming request was not handled as a stream", h)
  | RqRotatePassphrase current_passphrase replacement_passphrase =>
      with_vault (empty (Vault.rotate_passphrase current_passphrase replacement_passphrase)) h
  | RqVerify => verify h
  | RqCheckpoint => with_vault (empty Vault.full_checkpoint) h
  | RqBackup destination => backup (path_new destination) h
  | RqShutdown =>
      if dc_allow_shutdown (ds_config (h_daemon h))
      then (ROk SEmpty, set_daemon set_shutdown h)
      else (error_response CPolicy "daemon shutdown is disabled by policy", h)
  end.

Definition shutdown_requested (h : Host Net) : bool := ds_shutdown (h_daemon h).

(** ** One connection *)

(** Why serving a connection stopped without an answer. *)
Inductive ServeError : Type := SetupFailed | BrokenPipe (what : string).

Section connection.
Context `{UnixStream T}.

Abbreviation Serve A := (M (Host Net * T) ServeError A).

Definition on_stream {A} (what : string) (m : M T ProtocolError A) : Serve A :=
  smap_err (λ _, BrokenPipe what) (szoom snd (λ t s, (s.1, t)) m).

Definition write_response (response : Response) : Serve unit :=
  on_stream "response write failed" (Protocol.write_frame response).

Definition write_stream_response (response : Response) : Serve unit :=
  on_stream "stream error write failed" (Protocol.write_stream_error response).

Definition write_stream_failure (code : ErrorCode) (message : string) : Serve unit :=
  write_stream_response (error_response code message).

(** As [with_long_permit], for a function that also owns the connection. *)
Definition with_long_permit_on {A} (refused operation : Serve A) : Serve A :=
  λ '(h, t),
  if is_long h then refused (h, t) else
  let '(a, (h, t)) := operation (set_daemon (set_long_operation true) h, t) in
  (a, (set_daemon (set_long_operation false) h, t)).

(** The upload proper, on the locked vault: the reader borrows the stream. *)
Definition receive (object_id : ObjectId) (vault : Vault) : Serve (Result VersionId) :=
  λ '(h, t),
  let '(r, reader, h) := on_vault (Vault.put_from_reader object_id) (Stream.new t) vault h in
  (Ok r, (h, sr_stream reader)).

Definition put_stream (object_id : bytes) : Serve unit :=
  with_long_permit_on
    (write_response (overloaded_response "daemon long operation is in progress"))
    (match parse_object_id object_id with
     | Err response => write_response response
     | Ok object_id =>
         write_response (ROk SStreamReady) ;*
         let* vault := sgets (λ s, lock_mutex (ds_vault (h_daemon s.1))) in
         match vault with
         | None => write_stream_failure CInternal "daemon state is unavailable"
         | Some vault =>
             let* result := receive object_id vault in
             match result with
             | Ok version_id => write_response (ROk (SPublished (to_hex version_id)))
             | Err error => write_stream_response (RError (map_vault_error error))
             end
         end
     end).

(** The download proper: the writer borrows the stream. *)
Definition send (object_id : ObjectId) (vault : Vault) : Serve (Result unit) :=
  λ '(h, t),
  let '(r, writer, h) := on_vault (Vault.get_to_writer object_id) (mkWriter t) vault h in
  (Ok r, (h, sw_stream writer)).

Definition get_stream (object_id : bytes) : Serve unit :=
  with_long_permit_on
    (write_response (overloaded_response "daemon long operation is in progress"))
    (match parse_object_id object_id with
     | Err response => write_response response
     | Ok object_id =>
         write_response (ROk SStreamReady) ;*
         let* vault := sgets (λ s, lock_mutex (ds_vault (h_daemon s.1))) in
         match vault with
         | None => write_stream_failure CInternal "daemon state is unavailable"
         | Some vault =>
             let* result := send object_id vault in
             match result with
             | Ok _ => on_stream "stream end write failed" Protocol.write_stream_end
             | Err error => write_stream_response (RError (map_vault_error error))
             end
         end
     end).

Definition authorize (h : Host Net) (t : T) : bool :=
  match peer_uid t with
  | None => false
  | Some uid => uid =? dc_allowed_uid (ds_config (h_daemon h))
  end.

Definition set_timeout (f : T → bool * T) : Serve unit :=
  λ '(h, t), let '(ok, t) := f t in (if ok then Ok tt else Err SetupFailed, (h, t)).

Definition read_request : Serve (result Request ProtocolError) :=
  λ '(h, t), let '(r, t) := Protocol.read_frame t in (Ok r, (h, t)).

Definition dispatch_request (request : Request) : Serve Response :=
  λ '(h, t), let '(response, h) := dispatch request h in (Ok response, (h, t)).

Definition serve_stream : Serve unit :=
  set_timeout set_read_timeout ;*
  set_timeout set_write_timeout ;*
  let* authorized := sgets (λ s, authorize s.1 s.2) in
  if negb authorized then write_response (error_response CUnauthorized "local peer is not authorized") else
  let* request := read_request in
  match request with
  | Ok (RqPutStream object_id) => put_stream object_id
  | Ok (RqGetStream object_id) => get_stream object_id
  | Ok request => let* response := dispatch_request request in write_response response
  | Err _ => write_response (error_response CProtocol "invalid local protocol request")
  end.

(** A connection beyond the limit: errors are ignored. *)
Definition reject_overloaded (t : T) : T :=
  let t := (set_write_timeout t).2 in
  (Protocol.write_frame (overloaded_response "daemon connection limit reached") t).2.

End connection.

(** ** The socket *)

Inductive SocketError : Type := SocketInvalidInput | SocketAlreadyExists | SocketIo (e : IoError).

Fixpoint validate_socket_directories (dirs : list Path) : M Env SocketError unit :=
  match dirs with
  | [] => sret tt
  | ancestor :: dirs =>
      let* metadata := smap_err SocketIo (symlink_metadata ancestor) in
      if is_symlink metadata || negb (is_dir metadata) then sthrow SocketInvalidInput
      else validate_socket_directories dirs
  end.

Definition validate_socket_parent (path : Path) : M Env SocketError unit :=
  let* parent := slift (ok_or (parent path) SocketInvalidInput) in
  let parent := if path_is_empty parent then current_dir else parent in
  validate_socket_directories (ancestors parent).

Definition remove_path (path : Path) : M Env SocketError unit :=
  let* fault := io_fault in
  if fault : bool then sthrow (SocketIo IoOther) else
  let* fs := sgets env_fs in
  match fs !! path with
  | None => sthrow (SocketIo IoNotFound)
  | Some _ => smodify (set_fs (delete path fs))
  end.

(** [UnixListener::bind]: the path must be free. *)
Definition bind_listener (path : Path) : M Env SocketError unit :=
  let* fault := io_fault in
  if fault : bool then sthrow (SocketIo IoOther) else
  let* fs := sgets env_fs in
  match fs !! path with
  | Some _ => sthrow (SocketIo IoOther)
  | None => λ e, (Ok tt, set_fs (<[path := mkMeta FSocket (env_create_mode e)]> fs) e)
  end.

Definition bind_socket (path : Path) : M Env SocketError unit :=
  validate_socket_parent path ;*
  (λ e, match symlink_metadata path e with
        | (Ok metadata, e) =>
            if bool_decide (file_type metadata = FSocket) then remove_path path e else (Err SocketAlreadyExists, e)
        | (Err IoNotFound, e) => (Ok tt, e)
        | (Err k, e) => (Err (SocketIo k), e)
        end) ;*
  bind_listener path ;*
  smap_err SocketIo (set_permissions path 0x180).

End daemon.
End Daemon.

(** ** Admission

    The accept loop of [serve] and the connection threads it spawns, with one
    step per atomic access: any interleaving of the steps is a run. *)

Module Admission.

(** A connection thread holds its [ConnectionPermit]; inside a long operation
    it also holds the [LongOperationPermit]. *)
Inductive Phase : Type := Serving | InLongOperation.

(** The accept loop: between connections, with an accepted connection, and in
    [try_acquire_connection] after its load. *)
Inductive Acceptor : Type := Listening | Accepted | Observed (n : Z).

Record Permits : Type := mkPermits {
  active_connections : Z;
  long_operation_active : bool;
  acceptor : Acceptor;
  threads : gmap nat Phase;
}.

Definition initial : Permits := mkPermits 0 false Listening ∅.

(** [AtomicUsize::fetch_sub(1)] wraps. *)
Definition fetch_sub (n : Z) : Z := (n - 1) `mod` (usize_max + 1).

Inductive step (max_connections : Z) : Permits → Permits → Prop :=
| step_accept n l ts :
    step max_connections (mkPermits n l Listening ts) (mkPermits n l Accepted ts)
| step_load n l ts :
    step max_connections (mkPermits n l Accepted ts) (mkPermits n l (Observed n) ts)
| step_reject n l observed ts :
    max_connections ≤ observed →
    step max_connections (mkPermits n l (Observed observed) ts) (mkPermits n l Listening ts)
| step_exchange_failed n l observed ts :
    (** the value changed, or the weak exchange failed spuriously *)
    observed < max_connections →
    step max_connections (mkPermits n l (Observed observed) ts) (mkPermits n l Accepted ts)
| step_admit n l ts id :
    n < max_connections → ts !! id = None →
    step max_connections (mkPermits n l (Observed n) ts) (mkPermits (n + 1) l Listening (<[id := Serving]> ts))
| step_start_long n a ts id :
    ts !! id = Some Serving →
    step max_connections (mkPermits n false a ts) (mkPermits n true a (<[id := InLongOperation]> ts))
| step_long_refused n a ts id :
    ts !! id = Some Serving →
    step max_connections (mkPermits n true a ts) (mkPermits n true a ts)
| step_finish_long n l a ts id :
    ts !! id = Some InLongOperation →
    step max_connections (mkPermits n l a ts) (mkPermits n false a (<[id := Serving]> ts))
| step_end n l a ts id :
    ts !! id = Some Serving →
    step max_connections (mkPermits n l a ts) (mkPermits (fetch_sub n) l a (delete id ts)).

End Admission.
