(* ===== verification/Cli.v ===== *)
(** * The command line client

    Models [crates/vlt1-cli/src/main.rs]: every command, from its prompts and
    file checks through the exchange with the daemon to what it prints.

    A command is a computation on a [Process]: the file system and vault files
    it sees, the answers its terminal will give, the lines it has printed, and
    the socket it used.  [UnixStream::connect], the reads of an opened file and
    the targets of symbolic links are parameters. *)

From S2P Require Import Prelude Format Crypto Fs Storage Vault Backup Protocol Daemon.
From Stdlib Require Import ZArith Lia.
From stdpp Require Import base numbers list gmap strings.

Open Scope Z_scope.
Open Scope vlt_scope.

(** [UnixStream::connect]; [None] when it fails. *)
Class Connect (T : Type) : Type := { connect : Path → option T }.

(** A [File] opened for reading, given the contents it has. *)
Class OpenFile (F : Type) : Type := {
  of_read :: Read F;
  opened : bytes → F;
}.

(** Whether the target of the symbolic link at a path exists. *)
Class Symlinks : Type := { target_exists : Fs → Path → bool }.

(** ** Messages and errors *)

(** The literal parts and the arguments of a format string. *)
Inductive Piece : Type :=
| PText (s : string)
| PBytes (s : bytes)
| PNumber (n : Z)
| PPath (p : Path).
Abbreviation Line := (list Piece).

#[global] Instance Piece_eq_dec : EqDecision Piece.
Proof. solve_decision. Defined.

Inductive Cause : Type :=
| ByIo
| ByVault (e : VaultError)
| ByProtocol (e : ProtocolError).

(** [anyhow::Error]: a message of its own, or a cause with an optional context. *)
Inductive CliError : Type :=
| Bail (message : Line)
| Caused (context : option Line) (cause : Cause).

Inductive Command : Type :=
| CmdInit (vault : Path)
| CmdStatus (socket : Path)
| CmdUnlock (socket : Path)
| CmdLock (socket : Path)
| CmdPut (socket : Path) (object : bytes) (input : Path)
| CmdGet (socket : Path) (object : bytes) (output : Path)
| CmdRotatePassphrase (socket : Path)
| CmdVerify (socket : Path)
| CmdCheckpoint (socket : Path)
| CmdBackup (socket output : Path)
| CmdRestore (backup : Path) (manifest : option Path) (output : Path).

Record Process (T : Type) : Type := mkProcess {
  p_host : World * Files;
  p_answers : list (option bytes);
  p_printed : list Line;
  p_socket : option T;
}.
Arguments mkProcess {T} _ _ _ _.
Arguments p_host {T} p.
Arguments p_answers {T} p.
Arguments p_printed {T} p.
Arguments p_socket {T} p.

Module Cli.
Section cli.
Context `{Primitives} `{SqliteFile} `{Tempfile} `{Json BackupManifest} `{Json Request} `{Json Response}.
Context `{UnixStream T} `{Connect T} `{OpenFile F} `{Symlinks}.

Abbreviation CLI A := (M (Process T) CliError A).
Abbreviation Conn A := (M (Process T * T) CliError A).

(** ** Access to the parts of a process *)

Definition set_host (s : World * Files) (p : Process T) : Process T :=
  mkProcess s (p_answers p) (p_printed p) (p_socket p).
Definition on_host {A} (f : VaultError → CliError) (m : BIO A) : CLI A := smap_err f (szoom p_host set_host m).
(** A system call with a context. *)
Definition io {A} (context : Line) (m : BIO A) : CLI A := on_host (λ _, Caused (Some context) ByIo) m.
(** An operation of the core library with a context. *)
Definition core {A} (context : Line) (m : BIO A) : CLI A := on_host (λ e, Caused (Some context) (ByVault e)) m.
Definition on_env {E A} (m : M Env E A) : M (Process T) E A :=
  szoom (λ p, w_env (p_host p).1) (λ e p, set_host (set_env e (p_host p).1, (p_host p).2) p) m.

Definition println (line : Line) : CLI unit :=
  smodify (λ p, mkProcess (p_host p) (p_answers p) (p_printed p ++ [line]) (p_socket p)).

(** [rpassword::prompt_password]. *)
Definition prompt_password : CLI bytes :=
  λ p, match p_answers p with
       | [] => (Err (Caused None ByIo), p)
       | answer :: answers =>
           (ok_or answer (Caused None ByIo), mkProcess (p_host p) answers (p_printed p) (p_socket p))
       end.

(** [Path::exists]: any failure is [false]. *)
Definition path_exists (path : Path) : CLI bool :=
  on_env (
    let* fault := io_fault in
    let* fs := sgets env_fs in
    sret (if (fault : bool) || path_is_empty path then false else
          match fs !! path with
          | None => false
          | Some metadata => if is_symlink metadata then target_exists fs path else true
          end)).

(** [Path::to_string_lossy], for a path that is valid UTF-8. *)
Fixpoint join_slash (parts : list bytes) : bytes :=
  match parts with
  | [] => []
  | [part] => part
  | part :: parts => part ++ 47 :: join_slash parts
  end.
Definition to_string_lossy (path : Path) : bytes :=
  (if absolute path then [47] else []) ++ join_slash (map str_bytes (comps path)).

(** ** Talking to the daemon *)

(** The scope of a connection; [p_socket] keeps what was exchanged on it. *)
Definition connected {A} (socket : Path) (m : Conn A) : CLI A :=
  λ p, match connect socket with
       | None => (Err (Caused (Some [PText "could not connect to "; PPath socket]) ByIo), p)
       | Some stream =>
           let '(r, (p, stream)) := m (p, stream) in
           (r, mkProcess (p_host p) (p_answers p) (p_printed p) (Some stream))
       end.

Definition on_process {A} (m : CLI A) : Conn A := szoom fst (λ p s, (p, s.2)) m.
Definition on_socket {A} (context : string) (m : M T ProtocolError A) : Conn A :=
  smap_err (λ e, Caused (Some [PText context]) (ByProtocol e)) (szoom snd (λ t s, (s.1, t)) m).

Definition code_to_text (error : Failure) : string :=
  match f_code error with
  | CProtocol => "protocol error"
  | CUnauthorized => "unauthorized"
  | CLocked => "vault locked"
  | CNotFound => "not found"
  | CInvalidInput => "invalid input"
  | CVerification => "verification failed"
  | CStorage => "storage error"
  | CWitnessUnavailable => "freshness witness unavailable"
  | CWitnessConflict => "freshness witness conflict"
  | COverloaded => "daemon connection limit reached"
  | CPolicy => "policy denied"
  | CInternal => "internal error"
  end.

Definition daemon_error (error : Failure) : CliError :=
  Bail [PText "daemon "; PText (code_to_text error); PText ": "; PBytes (f_message error)].

Definition response_to_result (response : Response) : result Success CliError :=
  match response with
  | ROk result => Ok result
  | RError error => Err (daemon_error error)
  end.

Definition read_response : Conn Success :=
  let* response := on_socket "could not read daemon response" Protocol.read_frame in
  slift (response_to_result response).

Definition request (socket : Path) (operation : Request) : CLI Success :=
  connected socket (
    on_socket "could not write daemon request" (Protocol.write_frame operation) ;*
    read_response).

Definition expect_stream_ready (response : Success) : result unit CliError :=
  if bool_decide (response = SStreamReady) then Ok tt
  else Err (Bail [PText "daemon returned an unexpected streaming readiness payload"]).

(** ** Commands that are one request *)

Definition empty (socket : Path) (operation : Request) (message : string) : CLI unit :=
  let* result := request socket operation in
  match result with
  | SEmpty => println [PText message]
  | _ => sthrow (Bail [PText "daemon returned an unexpected empty payload"])
  end.

Definition status (socket : Path) : CLI unit :=
  let* result := request socket RqStatus in
  match result with
  | SStatus format vault_id lifecycle recovery verified_active_objects =>
      println [PText "format: "; PBytes format] ;*
      println [PText "vault-id: "; PBytes vault_id] ;*
      println [PText "lifecycle: "; PBytes lifecycle] ;*
      println [PText "recovery: "; PBytes recovery] ;*
      match verified_active_objects with
      | Some active_objects => println [PText "verified-active-objects: "; PNumber active_objects]
      | None => sret tt
      end
  | _ => sthrow (Bail [PText "daemon returned an unexpected status payload"])
  end.

Definition unlock (socket : Path) : CLI unit :=
  let* passphrase := prompt_password in
  empty socket (RqUnlock passphrase) "vault unlocked".

Definition verify (socket : Path) : CLI unit :=
  let* result := request socket RqVerify in
  match result with
  | SVerified active_objects => println [PText "verified active object versions: "; PNumber active_objects]
  | _ => sthrow (Bail [PText "daemon returned an unexpected verify payload"])
  end.

Definition prompt_new_passphrase : CLI bytes :=
  let* first := prompt_password in
  if bool_decide (first = []) then sthrow (Bail [PText "passphrase must not be empty"]) else
  let* second := prompt_password in
  if negb (bool_decide (first = second)) then sthrow (Bail [PText "passphrase confirmation does not match"]) else
  sret first.

Definition rotate_passphrase (socket : Path) : CLI unit :=
  let* current_passphrase := prompt_password in
  let* replacement_passphrase := prompt_new_passphrase in
  empty socket (RqRotatePassphrase current_passphrase replacement_passphrase)
    "passphrase rotated; daemon vault is locked".

Definition backup (socket output : Path) : CLI unit :=
  let* taken := path_exists output in
  let* taken := if taken : bool then sret true else path_exists (Backup.manifest_path output) in
  if taken : bool then sthrow (Bail [PText "refusing to overwrite backup output or sidecar: "; PPath output]) else
  let* result := request socket (RqBackup (to_string_lossy output)) in
  match result with
  | SBackup format database_sha256 database_bytes =>
      println [PText "backup format: "; PBytes format] ;*
      println [PText "backup database SHA-256: "; PBytes database_sha256] ;*
      println [PText "backup bytes: "; PNumber database_bytes] ;*
      println [PText "backup sidecar: "; PPath (Backup.manifest_path output)]
  | _ => sthrow (Bail [PText "daemon returned an unexpected backup payload"])
  end.

(** ** Commands on the vault's files *)

Definition init (path : Path) : CLI unit :=
  let* taken := path_exists path in
  if taken : bool then sthrow (Bail [PText "refusing to overwrite existing vault: "; PPath path]) else
  let* parent := slift (ok_or (parent path) (Bail [PText "vault path has no parent directory"])) in
  let* found := path_exists parent in
  if negb found then sthrow (Bail [PText "vault parent directory does not exist: "; PPath parent]) else
  let* passphrase := prompt_new_passphrase in
  let* vault := core [PText "could not create VLT/1 vault"] (Backup.in_world (Vault.create path passphrase)) in
  println [PText "created VLT/1 vault"] ;*
  println [PText "vault-id: "; PBytes (to_hex (v_vault_id vault))] ;*
  println [PText "next: start vlt1d with this vault and a protected local socket"].

Definition restore (backup : Path) (manifest : option Path) (output : Path) : CLI unit :=
  let manifest_path := default (Backup.manifest_path backup) manifest in
  let* manifest := core [PText "could not validate "; PPath manifest_path] (Backup.read_from manifest_path) in
  core [PText "could not restore verified backup "; PPath backup] (Backup.restore_from_backup backup manifest output) ;*
  println [PText "restored verified encrypted vault to "; PPath output].

(** ** Upload *)

(** The [loop] of [put]; [fuel] bounds the calls to [read]. *)
Fixpoint send_file (fuel : nat) (input : Path) (file : F) : Conn unit :=
  match read Protocol.MAX_STREAM_CHUNK_BYTES file with
  | (ReadData [], _) => sret tt
  | (ReadData data, file) =>
      match fuel with
      | O => sthrow (Caused (Some [PText "could not read "; PPath input]) ByIo)
      | S fuel =>
          on_socket "could not write upload chunk" (Protocol.write_stream_chunk data) ;*
          send_file fuel input file
      end
  | (ReadInterrupted, _) | (ReadFailed, _) => sthrow (Caused (Some [PText "could not read "; PPath input]) ByIo)
  end.

Definition put (socket : Path) (object_id : bytes) (input : Path) : CLI unit :=
  let* content := io [PText "could not read "; PPath input] (Backup.read_file input) in
  let file := opened content in
  connected socket (
    on_socket "could not start streaming upload" (Protocol.write_frame (RqPutStream object_id)) ;*
    let* response := read_response in
    slift (expect_stream_ready response) ;*
    send_file (read_rank file) input file ;*
    on_socket "could not finish streaming upload" Protocol.write_stream_end ;*
    let* result := read_response in
    match result with
    | SPublished version_id => on_process (println [PText "published immutable version: "; PBytes version_id])
    | _ => sthrow (Bail [PText "daemon returned an unexpected streaming upload payload"])
    end).

(** ** Download *)

Fixpoint validate_output_directories (dirs : list Path) : CLI unit :=
  match dirs with
  | [] => sret tt
  | ancestor :: dirs =>
      let* metadata :=
        smap_err (λ _, Caused (Some [PText "plaintext output parent directory does not exist: "; PPath ancestor]) ByIo)
          (on_env (symlink_metadata ancestor)) in
      if is_symlink metadata || negb (is_dir metadata)
      then sthrow (Bail [PText "plaintext output parent must be a direct directory path: "; PPath ancestor])
      else validate_output_directories dirs
  end.

Definition validate_new_plaintext_output (output : Path) : CLI Path :=
  let* parent := slift (ok_or (parent output) (Bail [PText "plaintext output path has no parent directory"])) in
  let parent := if path_is_empty parent then current_dir else parent in
  validate_output_directories (filter (λ d, path_is_empty d = false) (ancestors parent)) ;*
  λ p, match on_env (symlink_metadata output) p with
       | (Ok _, p) => (Err (Bail [PText "refusing to overwrite plaintext output: "; PPath output]), p)
       | (Err IoNotFound, p) => (Ok parent, p)
       | (Err _, p) => (Err (Caused (Some [PText "could not inspect plaintext output path: "; PPath output]) ByIo), p)
       end.

(** [temporary.write_all(data)]. *)
Definition append_file (path : Path) (data : bytes) : BIO unit :=
  Backup.syscall (λ '(fs, files), content ← files !! path; Some (tt, (fs, <[path := content ++ data]> files))).

Definition publish_private_temporary_file (temporary output : Path) : CLI unit :=
  let* parent := validate_new_plaintext_output output in
  io [PText "refusing to overwrite plaintext output: "; PPath output] (Backup.hard_link temporary output) ;*
  io [PText "could not sync plaintext output directory: "; PPath parent] (Backup.open_and_sync parent).

(** A [NamedTempFile] is removed when it is dropped; a failure is ignored. *)
Definition dropping_temporary {A} (temporary : Path) (m : CLI A) : CLI A :=
  λ p, let '(r, p) := m p in (r, set_host (Backup.remove_file temporary (p_host p)).2 p).

(** The [loop] of [get]; [fuel] bounds the items. *)
Fixpoint receive_items (fuel : nat) (temporary output : Path) : Conn unit :=
  match fuel with
  | O => sthrow (Caused (Some [PText "could not read download chunk"]) (ByProtocol Truncated))
  | S fuel =>
      let* item := on_socket "could not read download chunk" Protocol.read_stream_item in
      match item with
      | ItemData chunk =>
          on_process (io [PText "could not write temporary output for "; PPath output] (append_file temporary chunk)) ;*
          receive_items fuel temporary output
      | ItemEnd => sret tt
      | ItemError (RError error) => sthrow (daemon_error error)
      | ItemError (ROk _) => sthrow (Bail [PText "daemon returned an invalid successful stream error response"])
      end
  end.

Definition get (socket : Path) (object_id : bytes) (output : Path) : CLI unit :=
  let* parent := validate_new_plaintext_output output in
  let* temporary := io [PText "could not create temporary output beside "; PPath output] (Backup.new_in parent) in
  dropping_temporary temporary (
    smap_err (λ _, Caused (Some [PText "could not protect temporary output for "; PPath output]) ByIo)
      (on_env (set_permissions temporary 0x180)) ;*
    connected socket (
      on_socket "could not start streaming download" (Protocol.write_frame (RqGetStream object_id)) ;*
      let* response := read_response in
      slift (expect_stream_ready response) ;*
      let* fuel := sgets (λ s, S (unread s.2)) in
      receive_items fuel temporary output) ;*
    io [PText "could not sync temporary output for "; PPath output] (Backup.syscall (λ s, Some (tt, s))) ;*
    publish_private_temporary_file temporary output ;*
    println [PText "verified and wrote "; PPath output]).

(** ** [main] *)

Definition main (command : Command) : CLI unit :=
  match command with
  | CmdInit vault => init vault
  | CmdStatus socket => status socket
  | CmdUnlock socket => unlock socket
  | CmdLock socket => empty socket RqLock "vault locked"
  | CmdPut socket object input => put socket object input
  | CmdGet socket object output => get socket object output
  | CmdRotatePassphrase socket => rotate_passphrase socket
  | CmdVerify socket => verify socket
  | CmdCheckpoint socket => empty socket RqCheckpoint "checkpoint completed"
  | CmdBackup socket output => backup socket output
  | CmdRestore backup manifest output => restore backup manifest output
  end.

End cli.
End Cli.
