(* ===== verification/Utf8.v ===== *)
(** * Texts

    What the two processes of the system do with the texts of their secret
    files: [str::from_utf8], [String::from_utf8_lossy] and [str::trim] of the
    Rust standard library, on byte strings.  Used by [Startup]. *)

From S2P Require Import Prelude.
From Stdlib Require Import ZArith Lia.
From stdpp Require Import base numbers list.

Open Scope Z_scope.

Module Utf8.

(** [safe_get]: the byte at an index, 0 beyond the end. *)
Definition safe_get (bs : bytes) (i : nat) : Z := default 0 (bs !! i).

Definition between (lo hi b : Z) : bool := (lo <=? b) && (b <=? hi).
Definition is_continuation (b : Z) : bool := between 0x80 0xbf b.

(** The table [UTF8_CHAR_WIDTH]; 0 for a byte that starts no character. *)
Definition utf8_char_width (b : Z) : nat :=
  if between 0 0x7f b then 1
  else if between 0xc2 0xdf b then 2
  else if between 0xe0 0xef b then 3
  else if between 0xf0 0xf4 b then 4
  else 0.

(** The second bytes a leading byte admits. *)
Definition second_ok (first second : Z) : bool :=
  if first =? 0xe0 then between 0xa0 0xbf second
  else if first =? 0xed then between 0x80 0x9f second
  else if first =? 0xf0 then between 0x90 0xbf second
  else if first =? 0xf4 then between 0x80 0x8f second
  else is_continuation second.

(** One round of the scan: whether a character starts the text, and the number
    of bytes of it, or of the maximal invalid prefix. *)
Definition scan (bs : bytes) : bool * nat :=
  let first := safe_get bs 0 in
  match utf8_char_width first with
  | 1%nat => (true, 1%nat)
  | 2%nat => if is_continuation (safe_get bs 1) then (true, 2%nat) else (false, 1%nat)
  | 3%nat =>
      if negb (second_ok first (safe_get bs 1)) then (false, 1%nat)
      else if negb (is_continuation (safe_get bs 2)) then (false, 2%nat)
      else (true, 3%nat)
  | 4%nat =>
      if negb (second_ok first (safe_get bs 1)) then (false, 1%nat)
      else if negb (is_continuation (safe_get bs 2)) then (false, 2%nat)
      else if negb (is_continuation (safe_get bs 3)) then (false, 3%nat)
      else (true, 4%nat)
  | _ => (false, 1%nat)
  end.

Fixpoint pieces_fuel (fuel : nat) (bs : bytes) : list (bool * bytes) :=
  match fuel, bs with
  | S fuel, _ :: _ => let '(valid, n) := scan bs in (valid, take n bs) :: pieces_fuel fuel (drop n bs)
  | _, _ => []
  end.
(** The characters and invalid pieces of a text; each takes a byte at least. *)
Definition pieces (bs : bytes) : list (bool * bytes) := pieces_fuel (length bs) bs.
Definition chars (bs : bytes) : list bytes := map snd (pieces bs).

(** [str::from_utf8(bs).is_ok()]. *)
Definition is_utf8 (bs : bytes) : bool := forallb fst (pieces bs).

(** [String::from_utf8_lossy]: U+FFFD for each invalid piece. *)
Definition replacement : bytes := [0xef; 0xbf; 0xbd].
Definition lossy_piece (p : bool * bytes) : bytes := if p.1 then p.2 else replacement.
Definition from_utf8_lossy (bs : bytes) : bytes := concat (map lossy_piece (pieces bs)).

(** [char::is_whitespace], on the encoding of a character. *)
Definition whitespace : list bytes :=
  [[0x09]; [0x0a]; [0x0b]; [0x0c]; [0x0d]; [0x20]; [0xc2; 0x85]; [0xc2; 0xa0]; [0xe1; 0x9a; 0x80]] ++
  map (λ b, [0xe2; 0x80; b]) [0x80; 0x81; 0x82; 0x83; 0x84; 0x85; 0x86; 0x87; 0x88; 0x89; 0x8a; 0xa8; 0xa9; 0xaf] ++
  [[0xe2; 0x81; 0x9f]; [0xe3; 0x80; 0x80]].
Definition is_whitespace (c : bytes) : bool := bool_decide (c ∈ whitespace).

Fixpoint trim_front (cs : list bytes) : list bytes :=
  match cs with
  | [] => []
  | c :: cs' => if is_whitespace c then trim_front cs' else cs
  end.
Definition trim_chars (cs : list bytes) : list bytes := reverse (trim_front (reverse (trim_front cs))).
(** [str::trim]. *)
Definition trim (bs : bytes) : bytes := concat (trim_chars (chars bs)).

(** ** Lemmas *)

Lemma scan_pos bs : (1 ≤ (scan bs).2)%nat.
Proof. unfold scan. repeat case_match; simpl; lia. Qed.

(** A character lies within the text: 0 continues nothing. *)
Lemma scan_valid bs n : bs ≠ [] → scan bs = (true, n) → (n ≤ length bs)%nat.
Proof.
  assert (∀ i, is_continuation (safe_get bs i) = true → (i < length bs)%nat) as Hc.
  { intros i. unfold safe_get. destruct (bs !! i) eqn:E; [by apply lookup_lt_Some in E|done]. }
  intros Hne. assert (0 < length bs)%nat by (destruct bs; [done|simpl; lia]).
  unfold scan. destruct (utf8_char_width _) as [|[|[|[|[|]]]]]; [done|intros [= <-]; lia| | | |done].
  - destruct (is_continuation _) eqn:E; [|done]. intros [= <-]. apply Hc in E. lia.
  - destruct (second_ok _ _); [|done]. destruct (is_continuation _) eqn:E; [|done]. intros [= <-]. apply Hc in E. simpl. lia.
  - destruct (second_ok _ _); [|done]. destruct (is_continuation (safe_get bs 2)); [|done].
    destruct (is_continuation _) eqn:E; [|done]. intros [= <-]. apply Hc in E. simpl. lia.
Qed.

Lemma pieces_fuel_eq fuel bs : (length bs ≤ fuel)%nat → pieces_fuel fuel bs = pieces bs.
Proof.
  unfold pieces. revert bs. enough (∀ f g bs, (length bs ≤ f)%nat → (length bs ≤ g)%nat → pieces_fuel f bs = pieces_fuel g bs) by auto.
  induction f as [|f IH]; intros g bs Hf Hg; destruct bs as [|b bs]; simpl in Hf; try lia; [by destruct g..|].
  destruct g as [|g]; [simpl in Hg; lia|]. cbn [pieces_fuel]. pose proof (scan_pos (b :: bs)) as Hs.
  destruct (scan (b :: bs)) as [valid n]. simpl in Hs. f_equal. apply IH; rewrite length_drop; simpl in *; lia.
Qed.

Lemma pieces_cons bs : bs ≠ [] → pieces bs = ((scan bs).1, take (scan bs).2 bs) :: pieces (drop (scan bs).2 bs).
Proof.
  intros Hne. unfold pieces at 1. destruct bs as [|b bs]; [done|]. cbn [length pieces_fuel].
  pose proof (scan_pos (b :: bs)) as Hs. destruct (scan (b :: bs)) as [valid n]. simpl in *. f_equal.
  apply pieces_fuel_eq. rewrite length_drop. simpl. lia.
Qed.

(** Induction along the scan. *)
Lemma pieces_ind (P : bytes → Prop) :
  P [] → (∀ bs, bs ≠ [] → P (drop (scan bs).2 bs) → P bs) → ∀ bs, P bs.
Proof.
  intros H0 H1 bs. remember (length bs) as n eqn:Hn. revert bs Hn. induction (lt_wf n) as [n _ IH]. intros bs ->.
  destruct bs as [|b bs]; [done|]. apply H1; [done|]. pose proof (scan_pos (b :: bs)).
  eapply (IH (length (drop (scan (b :: bs)).2 (b :: bs)))); [|done]. rewrite length_drop. simpl. lia.
Qed.

Lemma chars_concat bs : concat (chars bs) = bs.
Proof.
  induction bs as [|bs Hne IH] using pieces_ind; [done|]. unfold chars in *. rewrite pieces_cons by done. cbn [map concat snd].
  rewrite IH. apply take_drop.
Qed.

Lemma is_utf8_cons bs :
  bs ≠ [] → is_utf8 bs = (scan bs).1 && is_utf8 (drop (scan bs).2 bs).
Proof. intros. unfold is_utf8. by rewrite pieces_cons. Qed.

Lemma safe_get_app a b i : (i < length a)%nat → safe_get (a ++ b) i = safe_get a i.
Proof. intros. unfold safe_get. by rewrite lookup_app_l. Qed.

(** The scan of a character does not look beyond it. *)
Lemma scan_app a b : a ≠ [] → (scan a).1 = true → scan (a ++ b) = scan a.
Proof.
  intros Hne. destruct (scan a) as [[] n] eqn:E; [|done]. intros _. pose proof (scan_valid a n Hne E) as Hn.
  revert E. unfold scan. rewrite (safe_get_app a b 0) by (destruct a; [done|simpl; lia]).
  destruct (utf8_char_width _) as [|[|[|[|[|]]]]]; [done|done| | | |done].
  - destruct (is_continuation (safe_get a 1)) eqn:E1; [|done]. intros [= <-]. by rewrite safe_get_app, E1 by lia.
  - destruct (second_ok _ (safe_get a 1)) eqn:E1; [|done]. destruct (is_continuation (safe_get a 2)) eqn:E2; [|done].
    intros [= <-]. by rewrite !safe_get_app, E1, E2 by lia.
  - destruct (second_ok _ (safe_get a 1)) eqn:E1; [|done]. destruct (is_continuation (safe_get a 2)) eqn:E2; [|done].
    destruct (is_continuation (safe_get a 3)) eqn:E3; [|done]. intros [= <-]. by rewrite !safe_get_app, E1, E2, E3 by lia.
Qed.

Lemma pieces_app a b : is_utf8 a = true → pieces (a ++ b) = pieces a ++ pieces b.
Proof.
  induction a as [|a Hne IH] using pieces_ind; [done|]. rewrite is_utf8_cons by done. intros [Hv Hu]%andb_true_iff.
  rewrite (pieces_cons (a ++ b)) by (by destruct a). rewrite (pieces_cons a) by done. rewrite scan_app by done.
  destruct (scan a) as [v n] eqn:E. simpl in Hv. subst v. pose proof (scan_valid a n Hne E) as Hn. simpl in *.
  rewrite take_app_le, drop_app_le by done. by rewrite IH.
Qed.

Lemma is_utf8_app a b : is_utf8 a = true → is_utf8 b = true → is_utf8 (a ++ b) = true.
Proof. intros Ha Hb. unfold is_utf8 in *. by rewrite pieces_app, forallb_app, Ha, Hb. Qed.

(** Valid texts are unchanged. *)
Lemma from_utf8_lossy_valid bs : is_utf8 bs = true → from_utf8_lossy bs = bs.
Proof.
  induction bs as [|bs Hne IH] using pieces_ind; [done|]. rewrite is_utf8_cons by done. intros [Hv Hu]%andb_true_iff.
  unfold from_utf8_lossy in *. rewrite pieces_cons by done. cbn [map concat lossy_piece fst]. rewrite Hv, IH by done.
  apply take_drop.
Qed.

Lemma scan_width bs n rest : scan bs = (true, n) → (n ≤ length bs)%nat → scan (take n bs ++ rest) = (true, n).
Proof.
  assert (∀ i, (i < n)%nat → (n ≤ length bs)%nat → safe_get (take n bs ++ rest) i = safe_get bs i) as Hg.
  { intros i Hi Hn. unfold safe_get. rewrite lookup_app_l by (rewrite length_take; lia). by rewrite lookup_take_lt. }
  intros E Hn. assert (1 ≤ n)%nat by (pose proof (scan_pos bs); by rewrite E in *). revert E. unfold scan. rewrite Hg by lia.
  destruct (utf8_char_width _) as [|[|[|[|[|]]]]]; [done|done| | | |done].
  - destruct (is_continuation (safe_get bs 1)) eqn:E1; [|done]. intros [= <-]. by rewrite Hg, E1 by lia.
  - destruct (second_ok _ (safe_get bs 1)) eqn:E1; [|done]. destruct (is_continuation (safe_get bs 2)) eqn:E2; [|done].
    intros [= <-]. by rewrite !Hg, E1, E2 by lia.
  - destruct (second_ok _ (safe_get bs 1)) eqn:E1; [|done]. destruct (is_continuation (safe_get bs 2)) eqn:E2; [|done].
    destruct (is_continuation (safe_get bs 3)) eqn:E3; [|done]. intros [= <-]. by rewrite !Hg, E1, E2, E3 by lia.
Qed.

(** The characters of a valid text are valid one by one. *)
Lemma is_utf8_char bs : bs ≠ [] → (scan bs).1 = true → is_utf8 (take (scan bs).2 bs) = true.
Proof.
  intros Hne Hv. destruct (scan bs) as [v n] eqn:E. simpl in *. subst v. pose proof (scan_valid bs n Hne E) as Hn.
  pose proof (scan_pos bs) as Hp. rewrite E in Hp. simpl in Hp.
  pose proof (scan_width bs n [] E Hn) as Hs. rewrite app_nil_r in Hs.
  rewrite is_utf8_cons by (destruct bs, n; simpl; [done|done|lia|done]). rewrite Hs. simpl. by rewrite drop_ge by (rewrite length_take; lia).
Qed.

(** Whatever the bytes were, what [from_utf8_lossy] returns is a text. *)
Lemma from_utf8_lossy_utf8 bs : is_utf8 (from_utf8_lossy bs) = true.
Proof.
  induction bs as [|bs Hne IH] using pieces_ind; [done|]. unfold from_utf8_lossy in *. rewrite pieces_cons by done.
  cbn [map concat]. apply is_utf8_app; [|done]. unfold lossy_piece. cbn [fst snd].
  destruct (scan bs).1 eqn:E; [|done]. by apply is_utf8_char.
Qed.

(** *** Trimming *)

Lemma trim_front_all cs : Forall (λ c, is_whitespace c = true) cs → ∀ ds, trim_front (cs ++ ds) = trim_front ds.
Proof. induction 1 as [|c cs Hc _ IH]; intros ds; [done|]. simpl. by rewrite Hc. Qed.

Lemma trim_front_head c cs : is_whitespace c = false → trim_front (c :: cs) = c :: cs.
Proof. intros H. simpl. by rewrite H. Qed.

(** What is left starts with no white space, and trimming stops there. *)
Lemma trim_front_cases cs : trim_front cs = [] ∨ ∃ c cs', trim_front cs = c :: cs' ∧ is_whitespace c = false.
Proof. induction cs as [|c cs IH]; [by left|]. simpl. destruct (is_whitespace c) eqn:E; [done|]. right. eauto. Qed.

Lemma trim_front_suffix cs : trim_front cs `suffix_of` cs.
Proof. induction cs as [|c cs IH]; [done|]. simpl. destruct (is_whitespace c); [by apply suffix_cons_r|done]. Qed.

(** White space around characters that neither start nor end with it is removed. *)
Lemma trim_chars_padded pre post cs :
  Forall (λ c, is_whitespace c = true) pre → Forall (λ c, is_whitespace c = true) post →
  trim_chars cs = cs → trim_chars (pre ++ cs ++ post) = cs.
Proof.
  intros Hpre Hpost Hcs. unfold trim_chars in *. rewrite (trim_front_all pre) by done.
  destruct (trim_front_cases cs) as [E|(c & cs' & E & Hc)].
  - rewrite E in Hcs. simpl in Hcs. rewrite <-Hcs. simpl.
    replace (trim_front post) with (@nil bytes); [done|]. rewrite <-(app_nil_r post). by rewrite trim_front_all.
  - assert (cs = c :: cs') as ->.
    { pose proof (trim_front_suffix (reverse (trim_front cs))) as Hs. apply suffix_length in Hs.
      apply (f_equal length) in Hcs as Hl. rewrite length_reverse in Hl, Hs.
      pose proof (trim_front_suffix cs) as [k Hk]. rewrite E in Hk.
      assert (length k = 0%nat) as Hk0 by (apply (f_equal length) in Hk; rewrite E in *; rewrite length_app in Hk; lia).
      by destruct k. }
    cbn [app]. rewrite trim_front_head by done. rewrite E in Hcs. change (c :: cs' ++ post) with ((c :: cs') ++ post).
    rewrite reverse_app, trim_front_all by (by apply Forall_reverse). done.
Qed.

Lemma chars_app a b : is_utf8 a = true → chars (a ++ b) = chars a ++ chars b.
Proof. intros. unfold chars. by rewrite pieces_app, map_app. Qed.

(** Texts made of white space. *)
Definition blank (bs : bytes) : Prop := is_utf8 bs = true ∧ Forall (λ c, is_whitespace c = true) (chars bs).

(** A text with no white space at either end. *)
Definition trimmed (bs : bytes) : Prop := is_utf8 bs = true ∧ trim_chars (chars bs) = chars bs.

Lemma trim_padded pre post bs : blank pre → blank post → trimmed bs → trim (pre ++ bs ++ post) = bs.
Proof.
  intros [Hu1 H1] [Hu2 H2] [Hu H]. unfold trim. rewrite !chars_app by done. rewrite trim_chars_padded by done.
  apply chars_concat.
Qed.

Lemma trim_trimmed bs : trimmed bs → trim bs = bs.
Proof. intros [_ H]. unfold trim. rewrite H. apply chars_concat. Qed.

Lemma blank_nil : blank [].
Proof. split; [done|constructor]. Qed.

(** ASCII texts, character by character. *)
Definition is_ascii (bs : bytes) : Prop := Forall (λ b, between 0 0x7f b = true) bs.

Lemma pieces_ascii bs : is_ascii bs → pieces bs = map (λ b, (true, [b])) bs.
Proof.
  induction 1 as [|b bs Hb _ IH]; [done|]. rewrite pieces_cons by done.
  assert (scan (b :: bs) = (true, 1%nat)) as ->.
  { unfold scan. change (safe_get (b :: bs) 0) with b. unfold utf8_char_width. by rewrite Hb. }
  cbn [fst snd map]. change (drop 1 (b :: bs)) with bs. by rewrite IH.
Qed.

Lemma is_utf8_ascii bs : is_ascii bs → is_utf8 bs = true.
Proof. intros H. unfold is_utf8. rewrite pieces_ascii by done. clear H. by induction bs. Qed.

Lemma chars_ascii bs : is_ascii bs → chars bs = map (λ b, [b]) bs.
Proof. intros H. unfold chars. rewrite pieces_ascii by done. clear H. induction bs; [done|]. simpl. by f_equal. Qed.

Lemma trim_front_none cs : Forall (λ c, is_whitespace c = false) cs → trim_front cs = cs.
Proof. intros [|c cs' Hc]; [done|]. by apply trim_front_head. Qed.

Lemma trimmed_ascii bs : is_ascii bs → Forall (λ b, is_whitespace [b] = false) bs → trimmed bs.
Proof.
  intros Ha Hw. split; [by apply is_utf8_ascii|]. rewrite chars_ascii by done.
  assert (Forall (λ c, is_whitespace c = false) (map (λ b, [b]) bs)) as H by (by apply Forall_map).
  unfold trim_chars. rewrite (trim_front_none (map _ _)) by done. rewrite trim_front_none by (by apply Forall_reverse).
  apply reverse_involutive.
Qed.

(** *** Characters one by one *)

Definition valid_char (c : bytes) : Prop := c ≠ [] ∧ scan c = (true, length c).

Lemma chars_valid bs : is_utf8 bs = true → Forall valid_char (chars bs).
Proof.
  induction bs as [|bs Hne IH] using pieces_ind; [by constructor|]. rewrite is_utf8_cons by done. intros [Hv Hu]%andb_true_iff.
  unfold chars in *. rewrite pieces_cons by done. cbn [map snd]. constructor; [|by apply IH].
  destruct (scan bs) as [v n] eqn:E. simpl in *. subst v. pose proof (scan_valid bs n Hne E) as Hn.
  pose proof (scan_pos bs) as Hp. rewrite E in Hp. simpl in Hp. split.
  - destruct bs, n; simpl; [done|done|lia|done].
  - pose proof (scan_width bs n [] E Hn) as Hs. rewrite app_nil_r in Hs. rewrite Hs, length_take. f_equal. lia.
Qed.

Lemma pieces_concat cs : Forall valid_char cs → pieces (concat cs) = map (pair true) cs.
Proof.
  induction 1 as [|c cs [Hne Hc] _ IH]; [done|]. cbn [concat map].
  rewrite pieces_cons by (by destruct c). rewrite scan_app by (by rewrite ?Hc). rewrite Hc. cbn [fst snd].
  rewrite take_app_length, drop_app_length. by rewrite IH.
Qed.

Lemma chars_concat_valid cs : Forall valid_char cs → chars (concat cs) = cs ∧ is_utf8 (concat cs) = true.
Proof.
  intros H. unfold chars, is_utf8. rewrite pieces_concat by done. clear H. induction cs as [|c cs [IH1 IH2]]; [done|].
  simpl in *. by rewrite IH1, IH2.
Qed.

Lemma trim_front_Forall P cs : Forall P cs → Forall P (trim_front cs).
Proof. induction 1 as [|c cs Hc Hcs IH]; [done|]. simpl. case_match; [done|by constructor]. Qed.

Lemma trim_chars_valid cs : Forall valid_char cs → Forall valid_char (trim_chars cs).
Proof. intros H. by apply Forall_reverse, trim_front_Forall, Forall_reverse, trim_front_Forall. Qed.

(** Trimming the end leaves the start. *)
Lemma trim_front_trimmed_end cs : trim_front cs = cs → trim_front (reverse (trim_front (reverse cs))) = reverse (trim_front (reverse cs)).
Proof.
  intros Hcs. destruct (trim_front_suffix (reverse cs)) as [k Hk].
  assert (cs = reverse (trim_front (reverse cs)) ++ reverse k) as E by (by rewrite <-reverse_app, <-Hk, reverse_involutive).
  destruct (reverse (trim_front (reverse cs))) as [|c r] eqn:Er; [done|]. apply trim_front_head.
  rewrite E in Hcs. simpl in Hcs. destruct (is_whitespace c) eqn:Ec; [|done]. exfalso.
  pose proof (trim_front_suffix (r ++ reverse k)) as Hs. apply suffix_length in Hs. rewrite Hcs in Hs. simpl in Hs. lia.
Qed.

Lemma trim_front_idem cs : trim_front (trim_front cs) = trim_front cs.
Proof. destruct (trim_front_cases cs) as [->|(c & cs' & -> & Hc)]; [done|]. by apply trim_front_head. Qed.

Lemma trim_chars_idem cs : trim_chars (trim_chars cs) = trim_chars cs.
Proof.
  unfold trim_chars. rewrite (trim_front_trimmed_end (trim_front cs)) by apply trim_front_idem.
  by rewrite reverse_involutive, trim_front_idem.
Qed.

(** What [trim] returns is trimmed, and only trimmed texts are left as they are. *)
Lemma trim_is_trimmed bs : is_utf8 bs = true → trimmed (trim bs).
Proof.
  intros Hu. destruct (chars_concat_valid (trim_chars (chars bs))) as [Hc Hu']; [by apply trim_chars_valid, chars_valid|].
  split; [done|]. unfold trim. by rewrite Hc, trim_chars_idem.
Qed.

Lemma trim_idem bs : is_utf8 bs = true → trim (trim bs) = trim bs.
Proof. intros. by apply trim_trimmed, trim_is_trimmed. Qed.

Lemma trim_fixpoint bs : is_utf8 bs = true → trim bs = bs → trimmed bs.
Proof. intros Hu E. rewrite <-E. by apply trim_is_trimmed. Qed.

End Utf8.
