(* ===== verification/Startup.v ===== *)
(** * Process start-up

    Models what the processes do before they serve:
    [crates/vlt1-daemon/src/main.rs] (options, secret files and the pinned
    keys), [crates/vlt1-witness/src/main.rs] (the loopback rule, seed and token,
    the listener loop) and the tool [vlt1-witness-key.rs] that prints the key a
    daemon pins.

    A process sees its file system and the contents of its files.
    [fs::metadata] and [fs::read] follow symbolic links; where a link leads is
    the parameter [resolve].  [Server::http] is the parameter [http]: the
    requests that will arrive on an address, if it can be bound. *)

From S2P Require Import Prelude Format Crypto Fs Storage Vault WitnessService Https Backup Protocol Daemon Cli Utf8.
From Stdlib Require Import ZArith Lia.
From stdpp Require Import base numbers list gmap strings.

Open Scope Z_scope.
Open Scope vlt_scope.

(** The path at which a chain of symbolic links ends. *)
Class Links : Type := { resolve : gmap Path Metadata → Path → option Path }.

(** ** Secret files *)

Module Secrets.
Abbreviation SYS A := (M (Env * Files) CliError A).

Section secrets.
Context `{Links}.

Definition cannot {A} (what : string) (path : Path) : SYS A :=
  sthrow (Caused (Some [PText what; PPath path]) ByIo).

(** A system call that reads. *)
Definition reading {A} (what : string) (path : Path) (f : gmap Path Metadata → Files → option A) : SYS A :=
  let* fault := szoom fst (λ e s, (e, s.2)) io_fault in
  let* found := sgets (λ s, f (env_fs s.1) s.2) in
  match found with
  | Some a => if fault : bool then cannot what path else sret a
  | None => cannot what path
  end.

(** [fs::metadata], [fs::read] and [fs::read_to_string], each with its context. *)
Definition metadata (path : Path) : SYS Metadata :=
  reading "cannot stat " path (λ fs _, q ← resolve fs path; fs !! q).
Definition read (path : Path) : SYS bytes :=
  reading "cannot read " path (λ fs files, q ← resolve fs path; files !! q).
Definition read_to_string (path : Path) : SYS bytes :=
  reading "cannot read " path (λ fs files,
    q ← resolve fs path; content ← files !! q; if Utf8.is_utf8 content then Some content else None).

(** The tests both daemons make before they read a secret; the source's
    [0o077] is [0x3f]. *)
Definition check_secret (path : Path) : SYS unit :=
  let* metadata := metadata path in
  if negb (is_file metadata) then sthrow (Bail [PPath path; PText " is not a regular file"]) else
  if negb (Z.land (mode metadata) 0x3f =? 0)
  then sthrow (Bail [PPath path; PText " must not be readable by group or other"]) else
  sret tt.

(** A secret a process may read: what the path leads to, a regular file closed
    to group and others, and its contents. *)
Definition private_secret (s : Env * Files) (path : Path) (content : bytes) : Prop :=
  ∃ q md, resolve (env_fs s.1) path = Some q ∧ env_fs s.1 !! q = Some md ∧ s.2 !! q = Some content ∧
    file_type md = FRegular ∧ Z.land (mode md) 0x3f = 0.

(** The same files: only the fault schedule has moved on. *)
Definition same_files (s s' : Env * Files) : Prop :=
  env_fs s'.1 = env_fs s.1 ∧ env_faults s'.1 = env_faults s.1 ∧ env_create_mode s'.1 = env_create_mode s.1 ∧ s'.2 = s.2.

#[global] Instance same_files_preorder : PreOrder same_files.
Proof. split; unfold same_files; [done|]. intros x y z (? & ? & ? & ?) (? & ? & ? & ?). split_and!; congruence. Qed.

End secrets.
End Secrets.

(** ** The key tool *)

Module KeyTool.
Section tool.
Context `{Primitives} `{HexCrate} `{Links}.

(** [<[u8; 32]>::try_from]. *)
Definition seed_array (seed : bytes) (message : Line) : result bytes CliError :=
  ok_or (fixed_array 32 seed) (Bail message).

(** The text it prints. *)
Definition main (signing_seed : Path) : Secrets.SYS bytes :=
  let* metadata := Secrets.metadata signing_seed in
  if negb (is_file metadata) || negb (Z.land (mode metadata) 0x3f =? 0)
  then sthrow (Bail [PText "witness signing seed must be a regular mode-0600 file"]) else
  let* seed := Secrets.read signing_seed in
  let* seed := slift (seed_array seed [PText "witness signing seed must be exactly 32 bytes"]) in
  sret (hex_crate_encode (ed_public seed) ++ [10]).

End tool.
End KeyTool.

(** ** The vault daemon *)

Module DaemonProcess.
Record Arguments : Type := mkArguments {
  da_vault : Path;
  da_socket : Path;
  da_allow_uid : option Z;
  da_allow_shutdown : bool;
  da_witness_endpoint : option bytes;
  da_witness_token_file : option Path;
  da_witness_public_key_file : option Path;
  da_witness_previous_public_key_file : option Path;
}.

Section process.
Context `{Links}.

Definition read_secret (path : Path) : Secrets.SYS bytes :=
  Secrets.check_secret path ;*
  let* content := Secrets.read_to_string path in
  let content := Utf8.trim content in
  if bool_decide (content = []) then sthrow (Bail [PPath path; PText " is empty"]) else sret content.

(** The texts are ASCII after the first test, so [str::from_utf8] of a pair
    never fails. *)
Definition parse_hex32 (value : bytes) : result bytes CliError :=
  if negb (bool_decide (length value = 64%nat))
     || negb (forallb (λ item, is_ascii_hexdigit item && negb (is_ascii_uppercase item)) value)
  then Err (Bail [PText "witness public key must be 64 lowercase hexadecimal characters"])
  else ok_or (parse_pairs value) (Caused (Some [PText "witness public key encoding"]) ByIo).

Definition read_key (path : Path) : Secrets.SYS bytes :=
  let* value := read_secret path in slift (parse_hex32 (Utf8.trim value)).

Definition witness_config (endpoint : option bytes) (token_file public_key_file previous_public_key_file : option Path)
    : Secrets.SYS (option WitnessConfig) :=
  match endpoint, token_file, public_key_file, previous_public_key_file with
  | None, None, None, None => sret None
  | Some endpoint, Some token_file, Some public_key_file, previous_public_key_file =>
      let* token := read_secret token_file in
      let* public_key := read_key public_key_file in
      let* previous_public_key :=
        match previous_public_key_file with
        | None => sret None
        | Some path => let* key := read_key path in sret (Some key)
        end in
      if bool_decide (previous_public_key = Some public_key)
      then sthrow (Bail [PText "witness previous public key must differ from the primary public key"])
      else sret (Some (mkWitnessConfig endpoint token public_key previous_public_key))
  | _, _, _, _ =>
      sthrow (Bail [PText "witness endpoint, token file and primary public key file must be supplied together"])
  end.

(** The configuration [main] opens the daemon with. *)
Definition configure (current_uid : Z) (arguments : Arguments) : Secrets.SYS DaemonConfig :=
  let config := Daemon.for_current_user current_uid (da_socket arguments) (da_vault arguments) in
  let* witness := witness_config (da_witness_endpoint arguments) (da_witness_token_file arguments)
                    (da_witness_public_key_file arguments) (da_witness_previous_public_key_file arguments) in
  sret (mkDaemonConfig (dc_socket_path config) (dc_vault_path config) (default (dc_allowed_uid config) (da_allow_uid arguments))
          (da_allow_shutdown arguments) witness (dc_max_connections config) (dc_io_timeout config)).

Section start.
Context `{Primitives} {Net : Type}.

Definition in_files {A} (m : Secrets.SYS A) : M (World * Files) CliError A :=
  szoom (λ s, (w_env s.1, s.2)) (λ t s, (set_env t.1 s.1, t.2)) m.

(** [main] up to [daemon.serve()]. *)
Definition start (current_uid : Z) (agent : Net) (arguments : Arguments) : M (World * Files) CliError (DaemonState Net) :=
  let* config := in_files (configure current_uid arguments) in
  smap_err (λ e, Caused (Some [PText "could not open VLT/1 daemon vault"]) (ByVault e))
    (Backup.in_world (Daemon.open agent config)).

End start.
End process.
End DaemonProcess.

(** ** The witness *)

(** [std::net]: an IPv6 address is its 16 octets. *)
Inductive IpAddr : Type :=
| V4 (a b c d : Z)
| V6 (octets : bytes).
Record SocketAddr : Type := mkAddr { sa_ip : IpAddr; sa_port : Z }.

(** [Server::http] and [incoming_requests]. *)
Class Listener : Type := { http : SocketAddr → option (list Service.HttpRequest) }.

Module WitnessProcess.
Record Arguments : Type := mkArguments {
  wa_state : Path;
  wa_signing_seed : Path;
  wa_auth_token_file : Path;
  wa_listen : SocketAddr;
}.

Section process.
Context `{Primitives} `{HexCrate} `{Links} `{Listener}.
Context `{!Json IssueRequest} `{!Json IssueResponse} `{!Json HeadRequest} `{!Json HeadResponse}.

(** [IpAddr::is_loopback]: [127.0.0.0/8] and [::1]. *)
Definition is_loopback (address : IpAddr) : bool :=
  match address with
  | V4 a _ _ _ => a =? 127
  | V6 octets => from_be_bytes octets =? 1
  end.

Definition read_secret (path : Path) : Secrets.SYS bytes :=
  Secrets.check_secret path ;* Secrets.read path.

Definition read_fixed_secret (n : nat) (path : Path) : Secrets.SYS bytes :=
  let* bytes := read_secret path in
  slift (ok_or (fixed_array n bytes) (Bail [PPath path; PText " must contain exactly "; PNumber (Z.of_nat n); PText " raw bytes"])).

(** The header [authorized] compares with. *)
Definition expected (token : bytes) : bytes := str_bytes "Bearer " ++ Utf8.from_utf8_lossy token.

Definition in_files {A} (m : Secrets.SYS A) : M (WitnessWorld * Files) CliError A :=
  szoom (λ s, (ww_env s.1, s.2)) (λ t s, (set_ww_env t.1 s.1, t.2)) m.

(** One answer per request, in order; a failed [respond] is ignored. *)
Fixpoint serve_all (svc : WitnessService) (token : bytes) (requests : list Service.HttpRequest) (w : WitnessWorld)
    : list Service.HttpResponse * WitnessWorld :=
  match requests with
  | [] => ([], w)
  | request :: requests =>
      let '(response, w) := Service.serve svc (expected token) request w in
      let '(responses, w) := serve_all svc token requests w in
      (response :: responses, w)
  end.

(** The service and the token it starts with. *)
Definition start (arguments : Arguments) : M (WitnessWorld * Files) CliError (WitnessService * bytes) :=
  if negb (is_loopback (sa_ip (wa_listen arguments)))
  then sthrow (Bail [PText "vlt1-witnessd accepts only a loopback listener; terminate TLS outside it"]) else
  let* signing_key := in_files (read_fixed_secret 32 (wa_signing_seed arguments)) in
  let* token := in_files (read_secret (wa_auth_token_file arguments)) in
  let* service := smap_err (λ e, Caused (Some [PText "could not open VLT/1 witness state"]) (ByVault e))
                    (szoom fst (λ w s, (w, s.2)) (Service.open (wa_state arguments) signing_key)) in
  sret (service, token).

Definition main (arguments : Arguments) : M (WitnessWorld * Files) CliError (list Service.HttpResponse) :=
  let* started := start arguments in
  let '(service, token) := started in
  match http (wa_listen arguments) with
  | None => sthrow (Bail [PText "could not bind VLT/1 witness listener: "])
  | Some requests => λ s, let '(responses, w) := serve_all service token requests s.1 in (Ok responses, (w, s.2))
  end.

End process.
End WitnessProcess.
