(* ===== verification/Server.v ===== *)
(** * The accept loop and its threads

    Models [Daemon::serve] of [crates/vlt1-daemon/src/lib.rs] with the threads
    it spawns.  [Daemon] gives each handler as one function; here the same
    handlers are programs whose atomic actions interleave: an access to the
    connection of the thread, an access to one of the atomics, a section under
    the vault's mutex (with the witness's, where the source takes both), and a
    section under the recovery mutex.  A section is one action, because the
    data of a mutex is touched only while it is held.

    [Server] is the machine: the listener loop, the permits and any number of
    threads, each taking its next action whenever it likes. *)

From S2P Require Import Prelude Format Crypto Fs Storage Vault WitnessService Https Backup Protocol Daemon.
From Stdlib Require Import ZArith Lia.
From stdpp Require Import base numbers list gmap strings relations.

Open Scope Z_scope.
Open Scope vlt_scope.

(** ** Programs of a connection *)

Inductive Prog (Net T : Type) : Type :=
| Return (r : result unit Daemon.ServeError)
| OnStream {A : Type} (m : T → A * T) (k : A → Prog Net T)
| LoadLong (k : bool → Prog Net T)
| AcquireLong (granted refused : Prog Net T)
| ReleaseLong (k : Prog Net T)
| Critical {A : Type} (m : Host Net * T → A * (Host Net * T)) (k : A → Prog Net T)
| OnRecovery {A : Type} (m : Mutex RecoveryState → A * Mutex RecoveryState) (k : A → Prog Net T).
Arguments Return {Net T} r.
Arguments OnStream {Net T A} m k.
Arguments LoadLong {Net T} k.
Arguments AcquireLong {Net T} granted refused.
Arguments ReleaseLong {Net T} k.
Arguments Critical {Net T A} m k.
Arguments OnRecovery {Net T A} m k.

Module Program.
Section program.
Context {Net T : Type}.

Definition set_recovery (rec : Mutex RecoveryState) (h : Host Net) : Host Net :=
  let d := h_daemon h in
  mkHost (mkDaemon (ds_config d) (ds_vault d) rec (ds_witness d) (ds_active_connections d) (ds_long_operation_active d)
            (ds_shutdown d)) (h_world h) (h_files h).
Definition set_long (b : bool) : Host Net → Host Net := Daemon.set_daemon (Daemon.set_long_operation b).

(** One action. *)
Definition exec (p : Prog Net T) (s : Host Net * T) : Prog Net T * (Host Net * T) :=
  match p with
  | Return r => (Return r, s)
  | OnStream m k => let '(a, t) := m s.2 in (k a, (s.1, t))
  | LoadLong k => (k (Daemon.is_long s.1), s)
  | AcquireLong granted refused => if Daemon.is_long s.1 then (refused, s) else (granted, (set_long true s.1, s.2))
  | ReleaseLong k => (k, (set_long false s.1, s.2))
  | Critical m k => let '(a, s) := m s in (k a, s)
  | OnRecovery m k =>
      let '(a, rec) := m (ds_recovery (h_daemon s.1)) in (k a, (set_recovery rec s.1, s.2))
  end.

(** All actions, without interruption. *)
Fixpoint run (p : Prog Net T) (s : Host Net * T) : result unit Daemon.ServeError * (Host Net * T) :=
  match p with
  | Return r => (r, s)
  | OnStream m k => let '(a, t) := m s.2 in run (k a) (s.1, t)
  | LoadLong k => run (k (Daemon.is_long s.1)) s
  | AcquireLong granted refused =>
      if Daemon.is_long s.1 then run refused s else run granted (set_long true s.1, s.2)
  | ReleaseLong k => run k (set_long false s.1, s.2)
  | Critical m k => let '(a, s) := m s in run (k a) s
  | OnRecovery m k =>
      let '(a, rec) := m (ds_recovery (h_daemon s.1)) in run (k a) (set_recovery rec s.1, s.2)
  end.

End program.
End Program.

(** ** The handlers as programs *)

Module Handlers.
Section handlers.
Context `{Primitives} `{Base64} `{SqliteFile} `{Tempfile} `{Json BackupManifest}.
Context `{HexCrate} `{Json IssueRequest} `{Json IssueResponse} `{Json HeadRequest} `{Json HeadResponse}.
Context `{Json Request} `{Json Response} {Net : Type} `{Transport Net} `{UnixStream T}.

Abbreviation Program := (Prog Net T).

(** A write to the connection, with the error the daemon reports for it. *)
Definition sending (what : string) (m : M T ProtocolError unit) : M T Daemon.ServeError unit :=
  smap_err (λ _, Daemon.BrokenPipe what) m.
Definition response_to (response : Response) : M T Daemon.ServeError unit :=
  sending "response write failed" (Protocol.write_frame response).
Definition stream_error (response : Response) : M T Daemon.ServeError unit :=
  sending "stream error write failed" (Protocol.write_stream_error response).

Definition respond (response : Response) : Program := OnStream (response_to response) Return.
Definition busy : Response := Daemon.overloaded_response "daemon long operation is in progress".
Definition respond_busy : Program := respond busy.

(** A handler that is one critical section. *)
Definition on_host {A} (f : Host Net → A * Host Net) : Host Net * T → A * (Host Net * T) :=
  λ '(h, t), let '(a, h) := f h in (a, (h, t)).

(** *** Status *)

Definition observe_vault (h : Host Net) : option (VaultId * string) * Host Net :=
  (v ← lock_mutex (ds_vault (h_daemon h));
   Some (v_vault_id v, match Vault.status v with StatusLocked => "locked" | StatusUnlocked => "unlocked" end)%string, h).

Definition status_response (vault_id : VaultId) (lifecycle : string) (recovery : Mutex RecoveryState)
    : Response * Mutex RecoveryState :=
  (match lock_mutex recovery with
   | None => Daemon.error_response CInternal "daemon recovery state is unavailable"
   | Some recovery =>
       ROk (SStatus (str_bytes "VLT/1") (to_hex vault_id) (str_bytes lifecycle) (rs_startup_scan recovery)
              (rs_verified_active_objects recovery))
   end, recovery).

(** The vault's mutex is released before the recovery mutex is taken. *)
Definition status_reply (observed : option (VaultId * string)) : Program :=
  match observed with
  | None => respond (Daemon.error_response CInternal "daemon state is unavailable")
  | Some (vault_id, lifecycle) => OnRecovery (status_response vault_id lifecycle) respond
  end.

Definition status : Program :=
  LoadLong (λ long,
    if long : bool then respond_busy else Critical (on_host observe_vault) status_reply).

(** *** Verification *)

Definition sweep (h : Host Net) : Result Z * Host Net :=
  if Daemon.has_witness h then Daemon.with_witness_result Vault.verify_active_objects_with_witness h
  else Daemon.with_vault_result Vault.verify_active_objects h.

Definition record_verified (active_objects : Z) (recovery : Mutex RecoveryState) : Response * Mutex RecoveryState :=
  match lock_mutex recovery with
  | None => (Daemon.error_response CInternal "daemon recovery state is unavailable", recovery)
  | Some value =>
      (ROk (SVerified active_objects),
       mkMutex (mkRecovery (rs_startup_scan value) (Some active_objects)) (m_poisoned recovery))
  end.

(** The permit is dropped when [verify] returns, before the answer is written. *)
Definition verify : Program :=
  AcquireLong
    (Critical (on_host sweep) (λ r,
       match r with
       | Ok active_objects => OnRecovery (record_verified active_objects) (λ response, ReleaseLong (respond response))
       | Err error => ReleaseLong (respond (RError (Daemon.map_vault_error error)))
       end))
    respond_busy.

Definition backup_section (destination : Path) : Host Net → Response * Host Net :=
  Daemon.with_vault (
    let* manifest := Backup.backup_to destination in
    sret (SBackup (bm_format manifest) (bm_database_sha256 manifest) (bm_database_bytes manifest))).

Definition backup (destination : Path) : Program :=
  AcquireLong (Critical (on_host (backup_section destination)) (λ response, ReleaseLong (respond response))) respond_busy.

Definition request_shutdown (h : Host Net) : Response * Host Net :=
  if dc_allow_shutdown (ds_config (h_daemon h))
  then (ROk SEmpty, Daemon.set_daemon Daemon.set_shutdown h)
  else (Daemon.error_response CPolicy "daemon shutdown is disabled by policy", h).

Definition section (f : Host Net → Response * Host Net) : Program := Critical (on_host f) respond.

Definition dispatch (request : Request) : Program :=
  LoadLong (λ long,
    if long && negb (bool_decide (request = RqShutdown)) then respond_busy else
    match request with
    | RqStatus => status
    | RqUnlock passphrase => section (Daemon.unlock passphrase)
    | RqLock => section (Daemon.with_vault (Daemon.empty Vault.lock_op))
    | RqPut object_id plaintext_b64 => section (Daemon.put object_id plaintext_b64)
    | RqGet object_id => section (Daemon.get object_id)
    | RqPutStream _ | RqGetStream _ =>
        respond (Daemon.error_response CProtocol "streaming request was not handled as a stream")
    | RqRotatePassphrase current_passphrase replacement_passphrase =>
        section (Daemon.with_vault (Daemon.empty (Vault.rotate_passphrase current_passphrase replacement_passphrase)))
    | RqVerify => verify
    | RqCheckpoint => section (Daemon.with_vault (Daemon.empty Vault.full_checkpoint))
    | RqBackup destination => backup (path_new destination)
    | RqShutdown => section request_shutdown
    end).

(** *** Streams *)

(** The section of an upload: the vault's mutex is held while the items come. *)
Definition receive_section (object_id : ObjectId) : Host Net * T → option (Result VersionId) * (Host Net * T) :=
  λ '(h, t),
  match lock_mutex (ds_vault (h_daemon h)) with
  | None => (None, (h, t))
  | Some vault =>
      let '(r, reader, h) := Daemon.on_vault (Vault.put_from_reader object_id) (Stream.new t) vault h in
      (Some r, (h, sr_stream reader))
  end.

Definition send_section (object_id : ObjectId) : Host Net * T → option (Result unit) * (Host Net * T) :=
  λ '(h, t),
  match lock_mutex (ds_vault (h_daemon h)) with
  | None => (None, (h, t))
  | Some vault =>
      let '(r, writer, h) := Daemon.on_vault (Vault.get_to_writer object_id) (mkWriter t) vault h in
      (Some r, (h, sw_stream writer))
  end.

Definition unavailable : M T Daemon.ServeError unit :=
  stream_error (Daemon.error_response CInternal "daemon state is unavailable").

Definition put_answer (outcome : option (Result VersionId)) : M T Daemon.ServeError unit :=
  match outcome with
  | None => unavailable
  | Some (Ok version_id) => response_to (ROk (SPublished (to_hex version_id)))
  | Some (Err error) => stream_error (RError (Daemon.map_vault_error error))
  end.

Definition get_answer (outcome : option (Result unit)) : M T Daemon.ServeError unit :=
  match outcome with
  | None => unavailable
  | Some (Ok _) => sending "stream end write failed" Protocol.write_stream_end
  | Some (Err error) => stream_error (RError (Daemon.map_vault_error error))
  end.

Definition finish_long (r : result unit Daemon.ServeError) : Program := ReleaseLong (Return r).

(** The permit is dropped when the handler returns, after the last write. *)
Definition stream {A} (object_id : bytes) (body : ObjectId → Host Net * T → A * (Host Net * T))
    (answer : A → M T Daemon.ServeError unit) : Program :=
  AcquireLong
    (match Daemon.parse_object_id object_id with
     | Err response => OnStream (response_to response) finish_long
     | Ok object_id =>
         OnStream (response_to (ROk SStreamReady)) (λ ready,
           match ready with
           | Err e => finish_long (Err e)
           | Ok _ => Critical (body object_id) (λ outcome, OnStream (answer outcome) finish_long)
           end)
     end)
    respond_busy.

Definition put_stream (object_id : bytes) : Program := stream object_id receive_section put_answer.
Definition get_stream (object_id : bytes) : Program := stream object_id send_section get_answer.

(** *** A connection *)

Definition read_request : M T Daemon.ServeError (result Request ProtocolError) :=
  λ t, let '(r, t) := Protocol.read_frame t in (Ok r, t).

Definition timeout (f : T → bool * T) : M T Daemon.ServeError unit :=
  λ t, let '(ok, t) := f t in (if ok then Ok tt else Err Daemon.SetupFailed, t).

(** Continue with the value of an action that may fail. *)
Definition try {A} (m : M T Daemon.ServeError A) (k : A → Program) : Program :=
  OnStream m (λ r, match r with Ok a => k a | Err e => Return (Err e) end).

Definition authorized (allowed_uid : Z) : M T Daemon.ServeError bool :=
  sgets (λ t, match peer_uid t with None => false | Some uid => uid =? allowed_uid end).

(** The thread of a connection; the configuration never changes. *)
Definition serve_stream (allowed_uid : Z) : Program :=
  try (timeout set_read_timeout) (λ _,
  try (timeout set_write_timeout) (λ _,
  try (authorized allowed_uid) (λ authorized,
  if negb authorized then respond (Daemon.error_response CUnauthorized "local peer is not authorized") else
  try read_request (λ request,
  match request with
  | Ok (RqPutStream object_id) => put_stream object_id
  | Ok (RqGetStream object_id) => get_stream object_id
  | Ok request => dispatch request
  | Err _ => respond (Daemon.error_response CProtocol "invalid local protocol request")
  end)))).

End handlers.
End Handlers.

(** ** The machine *)

(** The listener loop: before its test of the shutdown flag, waiting in
    [accept], with an accepted connection, after the load of
    [try_acquire_connection], and returned. *)
Inductive Loop (T : Type) : Type :=
| Checking
| Waiting
| Accepted (t : T)
| Observed (t : T) (n : Z)
| Returned (r : result unit Daemon.SocketError).
Arguments Checking {T}.
Arguments Waiting {T}.
Arguments Accepted {T} t.
Arguments Observed {T} t n.
Arguments Returned {T} r.

(** A thread: the connection as it was accepted, as it is now, and what is left
    to do. *)
Record Thread (Net T : Type) : Type := mkThread { th_origin : T; th_stream : T; th_prog : Prog Net T }.
Arguments mkThread {Net T} _ _ _.
Arguments th_origin {Net T} t.
Arguments th_stream {Net T} t.
Arguments th_prog {Net T} t.

Record Machine (Net T : Type) : Type := mkMachine {
  sv_host : Host Net;
  sv_loop : Loop T;
  sv_threads : gmap nat (Thread Net T);
}.
Arguments mkMachine {Net T} _ _ _.
Arguments sv_host {Net T} m.
Arguments sv_loop {Net T} m.
Arguments sv_threads {Net T} m.

(** A connection that was served: its origin, the result of [serve_stream] and
    its final state. *)
Record Served (T : Type) : Type := mkServed { sd_origin : T; sd_result : result unit Daemon.ServeError; sd_stream : T }.
Arguments mkServed {T} _ _ _.
Arguments sd_origin {T} s.
Arguments sd_result {T} s.
Arguments sd_stream {T} s.

(** What a step may show: a thread that ended, or a connection turned away. *)
Inductive Event (T : Type) : Type :=
| Ended (s : Served T)
| TurnedAway (t : T).
Arguments Ended {T} s.
Arguments TurnedAway {T} t.

Module Server.
Section server.
Context `{Primitives} `{Base64} `{SqliteFile} `{Tempfile} `{Json BackupManifest}.
Context `{HexCrate} `{Json IssueRequest} `{Json IssueResponse} `{Json HeadRequest} `{Json HeadResponse}.
Context `{Json Request} `{Json Response} {Net : Type} `{Transport Net} `{UnixStream T}.

Definition ignore_not_found (error : Daemon.SocketError) : result unit Daemon.SocketError :=
  match error with
  | Daemon.SocketIo IoNotFound => Ok tt
  | error => Err error
  end.

(** [fs::remove_file(&socket_path).or_else(ignore_not_found)]. *)
Definition remove_socket (path : Path) : M Env Daemon.SocketError unit :=
  λ e, match Daemon.remove_path path e with
       | (Ok _, e) => (Ok tt, e)
       | (Err error, e) => (ignore_not_found error, e)
       end.

Definition on_env {A} (m : M Env Daemon.SocketError A) (h : Host Net) : result A Daemon.SocketError * Host Net :=
  let '(r, e) := m (w_env (h_world h)) in (r, mkHost (h_daemon h) (set_env e (h_world h)) (h_files h)).

Definition set_active (n : Z) (h : Host Net) : Host Net :=
  let d := h_daemon h in
  mkHost (mkDaemon (ds_config d) (ds_vault d) (ds_recovery d) (ds_witness d) n (ds_long_operation_active d) (ds_shutdown d))
    (h_world h) (h_files h).

Definition max_connections (h : Host Net) : Z := dc_max_connections (ds_config (h_daemon h)).

(** The thread [serve] spawns. *)
Definition spawn (h : Host Net) (t : T) : Thread Net T :=
  mkThread t t (Handlers.serve_stream (dc_allowed_uid (ds_config (h_daemon h)))).

Definition is_return (p : Prog Net T) : bool := match p with Return _ => true | _ => false end.

Inductive step : Machine Net T → option (Event T) → Machine Net T → Prop :=
(** the listener loop *)
| step_continue h ts :
    ds_shutdown (h_daemon h) = false → step (mkMachine h Checking ts) None (mkMachine h Waiting ts)
| step_stop h ts r h' :
    ds_shutdown (h_daemon h) = true → on_env (remove_socket (dc_socket_path (ds_config (h_daemon h)))) h = (r, h') →
    step (mkMachine h Checking ts) None (mkMachine h' (Returned r) ts)
| step_accept h ts t : step (mkMachine h Waiting ts) None (mkMachine h (Accepted t) ts)
| step_retry h ts :
    (** [WouldBlock] and [Interrupted] *)
    step (mkMachine h Waiting ts) None (mkMachine h Checking ts)
| step_accept_failed h ts :
    step (mkMachine h Waiting ts) None (mkMachine h (Returned (Err (Daemon.SocketIo IoOther))) ts)
| step_load h ts t :
    step (mkMachine h (Accepted t) ts) None (mkMachine h (Observed t (ds_active_connections (h_daemon h))) ts)
| step_reject h ts t n :
    max_connections h ≤ n →
    step (mkMachine h (Observed t n) ts) (Some (TurnedAway (Daemon.reject_overloaded t))) (mkMachine h Checking ts)
| step_exchange_failed h ts t n :
    (** the value changed, or the weak exchange failed spuriously *)
    n < max_connections h →
    step (mkMachine h (Observed t n) ts) None (mkMachine h (Accepted t) ts)
| step_spawn h ts t n id :
    n < max_connections h → ds_active_connections (h_daemon h) = n → ts !! id = None →
    step (mkMachine h (Observed t n) ts) None (mkMachine (set_active (n + 1) h) Checking (<[id := spawn h t]> ts))
(** the threads *)
| step_thread h l ts id th p h' t' :
    ts !! id = Some th → is_return (th_prog th) = false →
    Program.exec (th_prog th) (h, th_stream th) = (p, (h', t')) →
    step (mkMachine h l ts) None (mkMachine h' l (<[id := mkThread (th_origin th) t' p]> ts))
| step_end h l ts id th r :
    (** the permit is dropped with the thread *)
    ts !! id = Some th → th_prog th = Return r →
    step (mkMachine h l ts) (Some (Ended (mkServed (th_origin th) r (th_stream th))))
      (mkMachine (set_active (Admission.fetch_sub (ds_active_connections (h_daemon h))) h) l (delete id ts)).

(** A run, with what it showed. *)
Inductive steps : Machine Net T → list (Event T) → Machine Net T → Prop :=
| steps_refl s : steps s [] s
| steps_more s1 s2 s3 e es : step s1 e s2 → steps s2 es s3 → steps s1 (option_list e ++ es) s3.

(** The connections that ended, in order. *)
Definition ended (es : list (Event T)) : list (Served T) :=
  omap (λ e, match e with Ended s => Some s | TurnedAway _ => None end) es.

Definition set_nonblocking : M Env Daemon.SocketError unit :=
  let* fault := io_fault in if fault : bool then sthrow (Daemon.SocketIo IoOther) else sret tt.

(** The socket is bound, made private and set not to block. *)
Definition listen (path : Path) : M Env Daemon.SocketError unit := Daemon.bind_socket path ;* set_nonblocking.

(** [serve] up to its loop. *)
Definition serve (h : Host Net) : result (Machine Net T) Daemon.SocketError * Host Net :=
  match on_env (listen (dc_socket_path (ds_config (h_daemon h)))) h with
  | (Ok _, h) => (Ok (mkMachine h Checking ∅), h)
  | (Err error, h) => (Err error, h)
  end.

(** ** Execution

    A schedule is a list of moves: what the listener gets, and which thread acts.
    A move that is not possible stops the execution. *)

Inductive Move : Type :=
| MContinue | MStop | MAccept (t : T) | MRetry | MAcceptFailed | MLoad | MReject | MExchangeFailed
| MSpawn (id : nat) | MThread (id : nat) | MEnd (id : nat).

Definition move (m : Move) (s : Machine Net T) : option (option (Event T) * Machine Net T) :=
  let h := sv_host s in let ts := sv_threads s in
  match m, sv_loop s with
  | MContinue, Checking => if ds_shutdown (h_daemon h) then None else Some (None, mkMachine h Waiting ts)
  | MStop, Checking =>
      if ds_shutdown (h_daemon h)
      then let '(r, h') := on_env (remove_socket (dc_socket_path (ds_config (h_daemon h)))) h in
           Some (None, mkMachine h' (Returned r) ts)
      else None
  | MAccept t, Waiting => Some (None, mkMachine h (Accepted t) ts)
  | MRetry, Waiting => Some (None, mkMachine h Checking ts)
  | MAcceptFailed, Waiting => Some (None, mkMachine h (Returned (Err (Daemon.SocketIo IoOther))) ts)
  | MLoad, Accepted t => Some (None, mkMachine h (Observed t (ds_active_connections (h_daemon h))) ts)
  | MReject, Observed t n =>
      if max_connections h <=? n then Some (Some (TurnedAway (Daemon.reject_overloaded t)), mkMachine h Checking ts) else None
  | MExchangeFailed, Observed t n => if n <? max_connections h then Some (None, mkMachine h (Accepted t) ts) else None
  | MSpawn id, Observed t n =>
      if (n <? max_connections h) && (ds_active_connections (h_daemon h) =? n)
      then match ts !! id with
           | Some _ => None
           | None => Some (None, mkMachine (set_active (n + 1) h) Checking (<[id := spawn h t]> ts))
           end
      else None
  | MThread id, l =>
      match ts !! id with
      | Some th =>
          if is_return (th_prog th) then None else
          let '(p, (h', t')) := Program.exec (th_prog th) (h, th_stream th) in
          Some (None, mkMachine h' l (<[id := mkThread (th_origin th) t' p]> ts))
      | None => None
      end
  | MEnd id, l =>
      match ts !! id with
      | Some th =>
          match th_prog th with
          | Return r =>
              Some (Some (Ended (mkServed (th_origin th) r (th_stream th))),
                    mkMachine (set_active (Admission.fetch_sub (ds_active_connections (h_daemon h))) h) l (delete id ts))
          | _ => None
          end
      | None => None
      end
  | _, _ => None
  end.

Fixpoint execute (ms : list Move) (s : Machine Net T) : option (list (Event T) * Machine Net T) :=
  match ms with
  | [] => Some ([], s)
  | m :: ms =>
      match move m s with
      | Some (e, s) => match execute ms s with Some (es, s) => Some (option_list e ++ es, s) | None => None end
      | None => None
      end
  end.

Lemma move_step m s e s' : move m s = Some (e, s') → step s e s'.
Proof.
  destruct s as [h l ts]. unfold move. cbn [sv_host sv_threads sv_loop]. intros E.
  destruct m, l; try done;
    repeat match type of E with
    | (if ?b then _ else _) = Some _ => destruct b eqn:?; try discriminate E
    | (let '(_, _) := ?x in _) = Some _ => destruct x as [? ?] eqn:?
    | match ?x with _ => _ end = Some _ => destruct x eqn:?; try discriminate E
    end; simplify_eq; try (by econstructor); econstructor; eauto; lia.
Qed.

Lemma execute_steps ms s es s' : execute ms s = Some (es, s') → steps s es s'.
Proof.
  revert s es. induction ms as [|m ms IH]; intros s es E; simpl in E; [injection E as <- <-; constructor|].
  destruct (move m s) as [[e s1]|] eqn:Em; [|done]. destruct (execute ms s1) as [[es1 s2]|] eqn:Ee; [|done].
  injection E as <- <-. econstructor; [by eapply move_step|by apply IH].
Qed.

End server.
End Server.
