(* ===== verification/Bench.v ===== *)
(** * The benchmark driver

    Models [crates/vlt1-cli/src/bin/vlt1-bench.rs]: its options, the payloads
    and the lines it prints, the direct benchmark on a vault of its own, and the
    benchmark that starts a daemon in a thread and talks to it over its socket.

    A run is a computation on a [Driver]: the file system and vault files the
    process and its daemon share, the daemon's thread, the lines printed, and
    the monotonic clock.  The two ends of a Unix socket, the delays of the clock
    and the moment the daemon's thread binds its socket are parameters.  The two
    floating-point columns of a line are functions of the duration it carries. *)

From S2P Require Import Prelude Format Crypto Fs Storage Vault WitnessService Https Backup Protocol Daemon Cli Utf8 Startup Server.
From Stdlib Require Import ZArith Lia.
From stdpp Require Import base numbers list gmap strings pretty sorting.

Open Scope Z_scope.
Open Scope vlt_scope.

(** The ends of a connection to a listening socket: the client's, as [connect]
    returns it; the listener's, given what the client's end has sent; and the
    client's again, once the other end has been served and closed, or was never
    accepted. *)
Class Loopback (T : Type) : Type := {
  client_end : T;
  accepted : T → T;
  replied : T → T → T;
  reset : T → T;
}.

(** ** Errors *)

Inductive BenchCause : Type :=
| CauseIo
| CauseVault (e : VaultError)
| CauseProtocol (e : ProtocolError)
| CauseSocket (e : Daemon.SocketError)
| CauseNumber
| CauseBase64.

(** [anyhow::Error], a panic, or a call that never returns. *)
Inductive BenchError : Type :=
| Bails (message : Line)
| Because (context : option Line) (cause : BenchCause)
| Panics (message : string)
| Blocks.

(** ** Options *)

Module Options.

Inductive Mode : Type := Direct | Rpc | Both.
#[global] Instance Mode_eq_dec : EqDecision Mode.
Proof. solve_decision. Defined.

Record Config : Type := mkConfig { payloads_kib : list Z; runs : Z; mode : Mode }.

(** [--help] prints the usage and exits. *)
Inductive Parsed : Type :=
| Usage
| Run (config : Config).

Definition parse_mode (value : bytes) : result Mode BenchError :=
  if bool_decide (value = str_bytes "direct") then Ok Direct else
  if bool_decide (value = str_bytes "rpc") then Ok Rpc else
  if bool_decide (value = str_bytes "both") then Ok Both else
  Err (Bails [PText "--mode must be one of: direct, rpc, both"]).

Definition includes_direct (m : Mode) : bool := match m with Direct | Both => true | Rpc => false end.
Definition includes_rpc (m : Mode) : bool := match m with Rpc | Both => true | Direct => false end.

(** [str::parse] for an unsigned integer of at most [max]: an optional plus
    sign, then at least one digit, without overflow. *)
Definition digit (c : Z) : option Z := if (48 <=? c) && (c <=? 57) then Some (c - 48) else None.
Fixpoint parse_digits (max acc : Z) (s : bytes) : option Z :=
  match s with
  | [] => Some acc
  | c :: s => d ← digit c; let acc := acc * 10 + d in if acc <=? max then parse_digits max acc s else None
  end.
Definition parse_unsigned (max : Z) (s : bytes) : option Z :=
  match s with
  | [] => None
  | c :: digits => if (c =? 43) && negb (bool_decide (digits = [])) then parse_digits max 0 digits else parse_digits max 0 s
  end.

(** [str::split(',')]. *)
Fixpoint split_comma (s : bytes) : list bytes :=
  match s with
  | [] => [[]]
  | c :: s =>
      if c =? 44 then [] :: split_comma s
      else match split_comma s with
           | part :: parts => (c :: part) :: parts
           | [] => [[c]]
           end
  end.

Definition invalid (context : string) : BenchError := Because (Some [PText context]) CauseNumber.
Definition parse_payloads (value : bytes) : result (list Z) BenchError :=
  ok_or (mapM (parse_unsigned u32_max) (split_comma value)) (invalid "invalid comma-separated payload list").

Definition missing {A} (option_name : string) : result A BenchError :=
  Err (Bails [PText option_name; PText " requires a value"]).

(** The check after the loop. *)
Definition finish (config : Config) : result Parsed BenchError :=
  if bool_decide (payloads_kib config = []) || bool_decide (0 ∈ payloads_kib config) || (runs config =? 0)
  then Err (Bails [PText "payload sizes and run count must be non-zero"])
  else Ok (Run config).

(** [while let Some(argument) = arguments.next()]. *)
Fixpoint parse_from (config : Config) (arguments : list bytes) : result Parsed BenchError :=
  match arguments with
  | [] => finish config
  | argument :: arguments =>
      if bool_decide (argument = str_bytes "--payloads-kib") then
        match arguments with
        | [] => missing "--payloads-kib"
        | value :: arguments =>
            let? payloads := parse_payloads value in
            parse_from (mkConfig payloads (runs config) (mode config)) arguments
        end
      else if bool_decide (argument = str_bytes "--runs") then
        match arguments with
        | [] => missing "--runs"
        | value :: arguments =>
            let? runs := ok_or (parse_unsigned usize_max value) (invalid "invalid --runs value") in
            parse_from (mkConfig (payloads_kib config) runs (mode config)) arguments
        end
      else if bool_decide (argument = str_bytes "--mode") then
        match arguments with
        | [] => missing "--mode"
        | value :: arguments =>
            let? mode := parse_mode value in
            parse_from (mkConfig (payloads_kib config) (runs config) mode) arguments
        end
      else if bool_decide (argument = str_bytes "--help") || bool_decide (argument = str_bytes "-h") then Ok Usage
      else Err (Bails [PText "unknown argument: "; PBytes argument])
  end.

(** The arguments after the program's name. *)
Definition parse (arguments : list bytes) : result Parsed BenchError :=
  parse_from (mkConfig [4; 64; 1024; 4096] 5 Both) arguments.

End Options.

(** ** Payloads and lines *)

Module Payload.

Definition u32_checked_mul (a b : Z) : option Z := if a * b <=? u32_max then Some (a * b) else None.

Definition deterministic_payload (length : Z) : bytes := map (λ index, index `mod` 251) (seqZ 0 length).

(** A [u32] always fits in a [usize]. *)
Definition payload_for (payload_kib : Z) : result bytes BenchError :=
  let? payload_bytes := ok_or (u32_checked_mul payload_kib 1024)
                          (Bails [PText "payload size overflows KiB-to-byte conversion"]) in
  Ok (deterministic_payload payload_bytes).

End Payload.

(** A printed line: the header, the usage text, or one measurement with its
    duration in nanoseconds. *)
Inductive Printed : Type :=
| Header
| UsageText
| Row (mode operation : string) (bytes run elapsed : Z).

(** The daemon's thread: not spawned, spawned and not yet listening, in its
    accept loop, or returned. *)
Inductive Service (Net : Type) : Type :=
| Absent
| Starting (d : DaemonState Net)
| Serving (d : DaemonState Net)
| Stopped (r : result unit Daemon.SocketError).
Arguments Absent {Net}.
Arguments Starting {Net} d.
Arguments Serving {Net} d.
Arguments Stopped {Net} r.

(** [b_delays n] passes before the [n]-th reading of the clock; [b_bind_at] is
    the number of polls of [wait_for_socket] before the daemon's thread binds. *)
Record Driver (Net : Type) : Type := mkDriver {
  b_host : World * Files;
  b_service : Service Net;
  b_printed : list Printed;
  b_now : Z;
  b_delays : nat → N;
  b_readings : nat;
  b_bind_at : nat;
}.
Arguments mkDriver {Net} _ _ _ _ _ _ _.
Arguments b_host {Net} d.
Arguments b_service {Net} d.
Arguments b_printed {Net} d.
Arguments b_now {Net} d.
Arguments b_delays {Net} d.
Arguments b_readings {Net} d.
Arguments b_bind_at {Net} d.

(** What the process finds: [env::temp_dir], its identifiers, the time since the
    epoch in nanoseconds, and the mode [mkdir] gives. *)
Record Surroundings : Type := mkSurroundings {
  temp_dir : Path;
  process_id : Z;
  current_uid : Z;
  since_epoch : option Z;
  directory_mode : Z;
}.

Module Bench.
Section bench.
Context {Net : Type}.

Abbreviation B A := (M (Driver Net) BenchError A).

(** ** Access to the parts of a driver *)

Definition set_host (s : World * Files) (b : Driver Net) : Driver Net :=
  mkDriver s (b_service b) (b_printed b) (b_now b) (b_delays b) (b_readings b) (b_bind_at b).
Definition set_service (s : Service Net) (b : Driver Net) : Driver Net :=
  mkDriver (b_host b) s (b_printed b) (b_now b) (b_delays b) (b_readings b) (b_bind_at b).
Definition on_host {A} (f : VaultError → BenchError) (m : BIO A) : B A := smap_err f (szoom b_host set_host m).
Definition on_env {E A} (m : M Env E A) : M (Driver Net) E A :=
  szoom (λ b, w_env (b_host b).1) (λ e b, set_host (set_env e (b_host b).1, (b_host b).2) b) m.

Definition println (line : Printed) : B unit :=
  smodify (λ b, mkDriver (b_host b) (b_service b) (b_printed b ++ [line]) (b_now b) (b_delays b) (b_readings b) (b_bind_at b)).

(** [Instant::now] and [thread::sleep]. *)
Definition now : B Z :=
  λ b, let time := b_now b + Z.of_N (b_delays b (b_readings b)) in
       (Ok time, mkDriver (b_host b) (b_service b) (b_printed b) time (b_delays b) (S (b_readings b)) (b_bind_at b)).
Definition sleep (duration : Z) : B unit :=
  smodify (λ b, mkDriver (b_host b) (b_service b) (b_printed b) (b_now b + duration) (b_delays b) (b_readings b) (b_bind_at b)).
(** [Instant::elapsed] saturates. *)
Definition elapsed (started : Z) : B Z := let* time := now in sret (Z.max 0 (time - started)).

Definition returned {A} (r : result A BenchError) : B A := slift r.

(** The conversion of [bytes] happens only when some time has passed. *)
Definition emit (mode operation : string) (bytes run duration : Z) : B unit :=
  if (duration =? 0) || bool_decide (is_Some (u32_try_from bytes))
  then println (Row mode operation bytes run duration)
  else sthrow (Panics "benchmark payload must fit in u32").

(** A result that is kept for later; a panic or a blocked call goes on. *)
Definition unwinds (e : BenchError) : bool := match e with Panics _ | Blocks => true | _ => false end.
Definition kept {A} (m : B A) : B (result A BenchError) :=
  λ b, match m b with
       | (Ok a, b) => (Ok (Ok a), b)
       | (Err e, b) => if unwinds e then (Err e, b) else (Ok (Err e), b)
       end.

(** ** The temporary directory *)

Section directories.
Context `{Links}.

Definition leads_to_dir (fs : Fs) (path : Path) : bool :=
  match q ← resolve fs path; fs !! q with Some metadata => is_dir metadata | None => false end.

(** [Path::is_dir]: any failure is [false]. *)
Definition path_is_dir (path : Path) : M Env IoError bool :=
  let* fault := io_fault in
  let* fs := sgets env_fs in
  sret (negb fault && leads_to_dir fs path).

Definition mkdir (m : Z) (path : Path) : M Env IoError unit :=
  let* fault := io_fault in
  if fault : bool then sthrow IoOther else
  let* fs := sgets env_fs in
  match fs !! path, parent path with
  | None, Some dir =>
      if path_is_empty dir || leads_to_dir fs dir then smodify (set_fs (<[path := mkMeta FDirectory m]> fs)) else
      match fs !! dir with None => sthrow IoNotFound | Some _ => sthrow IoOther end
  | _, _ => sthrow IoOther
  end.

(** [mkdir], where a directory that is already there will do. *)
Definition ensure_dir (m : Z) (path : Path) (otherwise : IoError → M Env IoError unit) : M Env IoError unit :=
  λ e, match mkdir m path e with
       | (Ok _, e) => (Ok tt, e)
       | (Err k, e) => otherwise k e
       end.
Definition unless_dir (path : Path) (k : IoError) : M Env IoError unit :=
  let* there := path_is_dir path in if there : bool then sret tt else sthrow k.

(** [fs::create_dir_all]; [depth] is the number of components. *)
Fixpoint create_dirs (depth : nat) (m : Z) (path : Path) : M Env IoError unit :=
  if path_is_empty path then sret tt else
  ensure_dir m path (λ k,
    match k, depth, parent path with
    | IoNotFound, S depth, Some dir => create_dirs depth m dir ;* ensure_dir m path (unless_dir path)
    | IoNotFound, _, _ => sthrow IoOther
    | k, _, _ => unless_dir path k
    end).
Definition create_dir_all (m : Z) (path : Path) : M Env IoError unit := create_dirs (length (comps path)) m path.

(** The entries below a directory, deepest first. *)
Definition is_below (directory path : Path) : bool :=
  bool_decide (absolute path = absolute directory) && bool_decide (comps directory `prefix_of` comps path)
  && negb (bool_decide (path = directory)).
Definition deeper (p q : Path) : Prop := (length (comps q) ≤ length (comps p))%nat.
#[global] Instance deeper_dec : RelDecision deeper.
Proof. intros p q. unfold deeper. apply _. Defined.
Definition entries_below (directory : Path) (fs : Fs) : list Path :=
  merge_sort deeper (filter (λ p, is_below directory p = true) (map fst (map_to_list fs))).

Fixpoint remove_each (paths : list Path) : BIO unit :=
  match paths with
  | [] => sret tt
  | path :: paths => Backup.remove_file path ;* remove_each paths
  end.

(** [fs::remove_dir_all]: a symbolic link is removed itself. *)
Definition remove_dir_all (directory : Path) : BIO unit :=
  let* metadata := Backup.in_fs (smap_err (λ _, Storage) (symlink_metadata directory)) in
  if is_symlink metadata then Backup.remove_file directory else
  if negb (is_dir metadata) then sthrow Storage else
  let* s := sget in
  remove_each (entries_below directory (env_fs (w_env s.1)) ++ [directory]).

Definition benchmark_directory (around : Surroundings) : result Path BenchError :=
  match since_epoch around with
  | None => Err (Panics "system clock before Unix epoch")
  | Some nonce =>
      let name := String.append "vlt1-bench-" (String.append (pretty (process_id around)) (String.append "-" (pretty nonce))) in
      Ok (mkPath (absolute (temp_dir around)) (comps (temp_dir around) ++ [name]))
  end.

End directories.

(** ** The direct benchmark *)

Definition PASSPHRASE : bytes := str_bytes "benchmark-only-passphrase".
Definition join (directory : Path) (name : string) : Path := mkPath (absolute directory) (comps directory ++ [name]).

Section direct.
Context `{Primitives}.

Definition random_object : B ObjectId := on_host (λ e, Because None (CauseVault e)) (Backup.in_world (in_rng random_id)).

(** A method of the vault, with [?]. *)
Definition on_vault {A} (vault : Vault) (m : Op unit A) : B (A * Vault) :=
  on_host (λ e, Because None (CauseVault e)) (Backup.in_world (
    λ w, match m ((vault, w), tt) with
         | (Ok a, ((vault, w), _)) => (Ok (a, vault), w)
         | (Err e, ((_, w), _)) => (Err e, w)
         end)).

Definition direct_run (payload : bytes) (vault : Vault) (run : Z) : B Vault :=
  let* object := random_object in
  let* started := now in
  let* (_, vault) := on_vault vault (Vault.put object payload) in
  let* duration := elapsed started in
  emit "direct" "put" (lenZ payload) run duration ;*
  let* started := now in
  let* (recovered, vault) := on_vault vault (Vault.get object) in
  let* duration := elapsed started in
  emit "direct" "get" (lenZ payload) run duration ;*
  if negb (bool_decide (recovered = payload))
  then sthrow (Bails [PText "direct benchmark round-trip verification failed"])
  else sret vault.

(** [for run in 0..config.runs] and [for payload_kib in &config.payloads_kib],
    threading the loop's variable. *)
Fixpoint each {X V} (body : V → X → B V) (v : V) (xs : list X) : B V :=
  match xs with
  | [] => sret v
  | x :: xs => let* v := body v x in each body v xs
  end.

Definition for_payload {V} (run : bytes → V → Z → B V) (runs : Z) (v : V) (payload_kib : Z) : B V :=
  let* payload := returned (Payload.payload_for payload_kib) in
  each (run payload) v (seqZ 0 runs).

Definition create_vault (context : string) (path : Path) : B Vault :=
  on_host (λ e, Because (Some [PText context]) (CauseVault e)) (Backup.in_world (Vault.create path PASSPHRASE)).

(** The vault is locked and dropped at the end. *)
Definition benchmark_direct (config : Options.Config) (directory : Path) : B unit :=
  let* vault := create_vault "could not initialize direct benchmark vault" (join directory "direct.vlt.sqlite") in
  let* vault := each (for_payload direct_run (Options.runs config)) vault (Options.payloads_kib config) in
  let* _ := on_vault vault Vault.lock_op in
  sret tt.

End direct.

(** ** The benchmark of the daemon *)

Section rpc.
Context `{Primitives} `{Base64} `{SqliteFile} `{Tempfile} `{Json BackupManifest}.
Context `{HexCrate} `{Json IssueRequest} `{Json IssueResponse} `{Json HeadRequest} `{Json HeadResponse}.
Context `{Json Request} `{Json Response} `{Transport Net} `{UnixStream T} `{!Loopback T} `{Symlinks}.

Definition debug_code (code : ErrorCode) : string :=
  match code with
  | CProtocol => "Protocol"
  | CUnauthorized => "Unauthorized"
  | CLocked => "Locked"
  | CNotFound => "NotFound"
  | CInvalidInput => "InvalidInput"
  | CVerification => "Verification"
  | CStorage => "Storage"
  | CWitnessUnavailable => "WitnessUnavailable"
  | CWitnessConflict => "WitnessConflict"
  | COverloaded => "Overloaded"
  | CPolicy => "Policy"
  | CInternal => "Internal"
  end.

Definition host_of (d : DaemonState Net) (b : Driver Net) : Host Net := mkHost d (b_host b).1 (b_host b).2.
Definition from_host (service : DaemonState Net → Service Net) (h : Host Net) (b : Driver Net) : Driver Net :=
  set_service (service (h_daemon h)) (set_host (h_world h, h_files h) b).

(** [UnixStream::connect]: refused without a listener. *)
Definition connect (socket_path : Path) : B T :=
  let* fault := on_env io_fault in
  let* b := sget in
  match env_fs (w_env (b_host b).1) !! socket_path, b_service b, fault : bool with
  | Some _, Serving _, false => sret client_end
  | _, _, _ => sthrow (Because (Some [PText "could not connect to benchmark socket "; PPath socket_path]) CauseIo)
  end.

(** The daemon's side of a connection.  The client waits for the answer, so the
    connection is served before the next one is made; when [accept] fails, the
    loop of [serve] returns its error and the connection is reset. *)
Definition serve_connection (c : T) : B T :=
  let* fault := on_env io_fault in
  λ b, match b_service b with
       | Serving d =>
           if fault : bool then (Ok (reset c), set_service (Stopped (Err (Daemon.SocketIo IoOther))) b)
           else let '(_, (h, t)) := Daemon.serve_stream (host_of d b, accepted c) in (Ok (replied c t), from_host Serving h b)
       | _ => (Ok (reset c), b)
       end.

Definition protocol_error (context : string) (e : ProtocolError) : BenchError := Because (Some [PText context]) (CauseProtocol e).

Definition rpc (socket_path : Path) (request : Request) : B Success :=
  let* stream := connect socket_path in
  let '(written, stream) := Protocol.write_frame request stream in
  let* stream := serve_connection stream in
  match written with
  | Err e => sthrow (protocol_error "could not write benchmark RPC request" e)
  | Ok _ =>
      match (Protocol.read_frame stream).1 with
      | Err e => sthrow (protocol_error "could not read benchmark RPC response" e)
      | Ok (ROk result) => sret result
      | Ok (RError error) => sthrow (Bails [PText "benchmark RPC error: "; PText (debug_code (f_code error))])
      end
  end.

Definition unexpected {A} (what : string) : result A BenchError :=
  Err (Bails [PText "daemon returned an unexpected "; PText what; PText " benchmark response"]).
Definition expect_empty (result : Success) : Prelude.result unit BenchError :=
  match result with SEmpty => Ok tt | _ => unexpected "empty" end.
Definition expect_published (result : Success) : Prelude.result unit BenchError :=
  match result with SPublished _ => Ok tt | _ => unexpected "publish" end.
Definition expect_plaintext (result : Success) : Prelude.result bytes BenchError :=
  match result with
  | SPlaintext plaintext_b64 =>
      ok_or (b64_decode plaintext_b64) (Because (Some [PText "daemon returned invalid benchmark plaintext base64"]) CauseBase64)
  | _ => unexpected "plaintext"
  end.

Definition rpc_run (socket_path : Path) (payload : bytes) (_ : unit) (run : Z) : B unit :=
  let* object := random_object in
  let object_id := to_hex object in
  let* started := now in
  let* result := rpc socket_path (RqPut object_id (b64_encode payload)) in
  returned (expect_published result) ;*
  let* duration := elapsed started in
  emit "rpc" "put" (lenZ payload) run duration ;*
  let* started := now in
  let* result := rpc socket_path (RqGet object_id) in
  let* recovered := returned (expect_plaintext result) in
  let* duration := elapsed started in
  emit "rpc" "get" (lenZ payload) run duration ;*
  if negb (bool_decide (recovered = payload))
  then sthrow (Bails [PText "RPC benchmark round-trip verification failed"])
  else sret tt.

(** The closure [measurement]. *)
Definition measure (config : Options.Config) (socket_path : Path) : B unit :=
  let* unlock := rpc socket_path (RqUnlock PASSPHRASE) in
  returned (expect_empty unlock) ;*
  each (for_payload (rpc_run socket_path) (Options.runs config)) tt (Options.payloads_kib config).

(** *** The daemon's thread *)

(** [serve] up to its loop. *)
Definition listen (b : Driver Net) : Driver Net :=
  match b_service b with
  | Starting d =>
      match Server.serve (T:=T) (host_of d b) with
      | (Ok _, h) => from_host Serving h b
      | (Err e, h) => from_host (λ _, Stopped (Err e)) h b
      end
  | _ => b
  end.

(** [JoinHandle::join]: a thread that was still starting binds its socket; the
    loop of [serve] ends only when a shutdown was requested, and then removes the
    socket. *)
Definition join_server : B (result unit Daemon.SocketError) :=
  λ b, let b := listen b in
       match b_service b with
       | Stopped r => (Ok r, b)
       | Serving d =>
           if ds_shutdown d
           then let '(r, h) := Server.on_env (Server.remove_socket (dc_socket_path (ds_config d))) (host_of d b) in
                (Ok r, from_host (λ _, Stopped r) h b)
           else (Err Blocks, b)
       | Absent | Starting _ => (Ok (Ok tt), b)   (** never: it was spawned, and has begun to listen *)
       end.

(** [Path::exists]. *)
Definition path_exists (path : Path) : B bool :=
  smap_err (λ _, Because None CauseIo)
    (szoom (λ b, mkProcess (b_host b) [] [] (None : option T)) (λ p b, set_host (p_host p) b) (Cli.path_exists path)).

Definition DEADLINE : Z := 3 * 10 ^ 9.
Definition INTERVAL : Z := 5 * 10 ^ 6.

(** [while !socket_path.exists()]; [polls] counts the tests made, and [fuel]
    bounds them. *)
Fixpoint poll (fuel : nat) (socket_path : Path) (deadline : Z) (polls : nat) : B unit :=
  smodify (λ b, if (b_bind_at b =? polls)%nat then listen b else b) ;*
  let* found := path_exists socket_path in
  if found : bool then sret tt else
  let* time := now in
  if deadline <=? time then sthrow (Bails [PText "benchmark daemon socket did not appear"]) else
  sleep INTERVAL ;*
  match fuel with
  | O => sthrow Blocks
  | S fuel => poll fuel socket_path deadline (S polls)
  end.

Definition POLLS : nat := 600.
Definition wait_for_socket (socket_path : Path) : B unit :=
  let* time := now in
  poll POLLS socket_path (time + DEADLINE) 0.

Definition daemon_config (uid : Z) (socket_path vault_path : Path) : DaemonConfig :=
  let config := Daemon.for_current_user uid socket_path vault_path in
  mkDaemonConfig (dc_socket_path config) (dc_vault_path config) (dc_allowed_uid config) true (dc_witness config)
    (dc_max_connections config) (dc_io_timeout config).

(** The vault object of [create] is dropped; the daemon opens the file again. *)
Definition open_daemon (uid : Z) (agent : Net) (socket_path vault_path : Path) : B unit :=
  let* _ := create_vault "could not initialize RPC benchmark vault" vault_path in
  let* daemon := on_host (λ e, Because (Some [PText "could not open RPC benchmark daemon"]) (CauseVault e))
                   (Backup.in_world (Daemon.open agent (daemon_config uid socket_path vault_path))) in
  smodify (set_service (Starting daemon)).

Definition shut_down (socket_path : Path) : B unit :=
  let* result := rpc socket_path RqShutdown in returned (expect_empty result).

(** The results are inspected in this order once the thread has returned. *)
Definition benchmark_rpc (uid : Z) (agent : Net) (config : Options.Config) (directory : Path) : B unit :=
  let socket_path := join directory "vlt1-bench.sock" in
  open_daemon uid agent socket_path (join directory "rpc.vlt.sqlite") ;*
  wait_for_socket socket_path ;*
  let* measurement := kept (measure config socket_path) in
  let* shutdown := kept (shut_down socket_path) in
  let* server_result := join_server in
  returned measurement ;*
  returned shutdown ;*
  match server_result with
  | Ok _ => sret tt
  | Err e => sthrow (Because (Some [PText "RPC benchmark daemon stopped with an error"]) (CauseSocket e))
  end.

(** ** [main] *)

Definition run (uid : Z) (agent : Net) (config : Options.Config) (directory : Path) : B unit :=
  println Header ;*
  (if Options.includes_direct (Options.mode config) then benchmark_direct config directory else sret tt) ;*
  (if Options.includes_rpc (Options.mode config) then benchmark_rpc uid agent config directory else sret tt).

Context `{Links}.

(** The process exits when [main] returns, with whatever thread is left. *)
Definition main (around : Surroundings) (agent : Net) (arguments : list bytes) : B unit :=
  let* parsed := returned (Options.parse arguments) in
  match parsed with
  | Options.Usage => println UsageText
  | Options.Run config =>
      let* directory := returned (benchmark_directory around) in
      smap_err (λ _, Because None CauseIo) (on_env (create_dir_all (directory_mode around) directory)) ;*
      let* result := kept (run (current_uid around) agent config directory) in
      on_host (λ _, Because (Some [PText "could not remove benchmark temporary directory"]) CauseIo) (remove_dir_all directory) ;*
      returned result
  end.

End rpc.
End bench.
End Bench.
