(* ===== verification/Toy.v ===== *)
(** * A concrete instance of the primitives

    Executable stand-ins with the lengths and the correctness equations the
    source relies on, and none of the security: they let the definitions be
    evaluated on concrete inputs and show that the assumptions of
    [PrimitivesOk] can hold together. *)

From S2P Require Import Prelude Format Crypto Fs Storage.
From Stdlib Require Import ZArith Lia.
From stdpp Require Import base numbers list gmap strings.

Open Scope Z_scope.

Module Toy.

(** A polynomial hash, repeated to fill 32 bytes. *)
Definition hash (m : bytes) : bytes :=
  let h := be_bytes 4 (fold_left (λ acc b, (acc * 257 + b + 1) `mod` 4294967291) m 7) in
  h ++ h ++ h ++ h ++ h ++ h ++ h ++ h.

Definition is_byte (b : Z) : bool := (0 <=? b) && (b <=? u8_max).

Definition tag (k n a m : bytes) : bytes := take 16 (hash (k ++ n ++ a ++ m)).

Definition encrypt (k n a m : bytes) : option bytes :=
  if forallb is_byte m then Some (tag k n a m ++ rev m) else None.

Definition decrypt (k n a c : bytes) : option bytes :=
  let m := rev (drop 16 c) in
  if bool_decide (take 16 c = tag k n a m) then Some m else None.

Definition sign (seed m : bytes) : bytes := hash (hash seed ++ m) ++ hash (hash seed ++ m).

#[export] Instance toy_primitives : Primitives := {|
  argon2_params_ok m t p := (8 * p <=? m) && (1 <=? t) && (1 <=? p);
  argon2id m t p pw salt := Some (hash (m :: t :: p :: lenZ pw :: pw ++ salt));
  hkdf_sha256 salt ikm info := Some (hash (lenZ salt :: salt ++ ikm ++ info));
  sha256 := hash;
  aead_encrypt := encrypt;
  aead_decrypt := decrypt;
  ed_public := hash;
  ed_sign := sign;
  ed_key_ok pk := bool_decide (length pk = 32%nat);
  ed_verify pk m sig := bool_decide (sig = hash (pk ++ m) ++ hash (pk ++ m));
|}.

#[local] Arguments hash : simpl never.
#[local] Arguments be_bytes : simpl never.

Lemma length_hash m : length (hash m) = 32%nat.
Proof. unfold hash. by rewrite !length_app, !length_be_bytes. Qed.

Lemma wf_hash m : wf_bytes (hash m).
Proof. unfold hash. repeat apply Forall_app_2; apply wf_be_bytes. Qed.

Lemma length_tag k n a m : length (tag k n a m) = 16%nat.
Proof. unfold tag. by rewrite length_take, length_hash. Qed.

Lemma encrypt_correct k n a m c : encrypt k n a m = Some c → decrypt k n a c = Some m.
Proof.
  unfold encrypt, decrypt. destruct (forallb is_byte m); [|done].
  intros Hc. apply (inj Some) in Hc as <-. cbv zeta. rewrite take_app_length', drop_app_length' by (by rewrite length_tag).
  rewrite rev_involutive. by rewrite bool_decide_eq_true_2.
Qed.

Lemma encrypt_wf k n a m c : encrypt k n a m = Some c → wf_bytes c.
Proof.
  unfold encrypt. destruct (forallb is_byte m) eqn:E; [|done]. intros Hc. apply (inj Some) in Hc as <-.
  apply Forall_app. split; [apply Forall_take, wf_hash|].
  rewrite forallb_forall in E. apply Forall_forall. intros b Hb%list_elem_of_In%in_rev.
  specialize (E b Hb). unfold is_byte in E. unfold is_u8. lia.
Qed.

Lemma length_sign seed m : length (sign seed m) = 64%nat.
Proof. unfold sign. by rewrite length_app, !length_hash. Qed.

Lemma wf_sign seed m : wf_bytes (sign seed m).
Proof. apply Forall_app. split; apply wf_hash. Qed.

#[export] Instance toy_primitives_ok : PrimitivesOk.
Proof.
  split.
  - intros * Hk. apply (inj Some) in Hk as <-. apply length_hash.
  - intros * Hk. apply (inj Some) in Hk as <-. apply length_hash.
  - apply length_hash.
  - apply wf_hash.
  - apply encrypt_correct.
  - apply encrypt_wf.
  - apply length_hash.
  - apply wf_hash.
  - apply length_sign.
  - apply wf_sign.
  - intros. apply bool_decide_eq_true_2, length_hash.
  - intros. by apply bool_decide_eq_true_2.
Qed.

(** ** Concrete surroundings *)

(** A counter as the random stream, a root directory, no faults. *)
Definition rng : Rng := mkRng (λ n, Ascii.ascii_of_nat (Nat.modulo (n * 7 + n / 256) 256)) 0.
Definition root : Path := mkPath true [].
Definition vault_path : Path := mkPath true ["v"].
Definition env : Env := mkEnv {[ root := mkMeta FDirectory 493; vault_path := mkMeta FRegular 420 ]} 420 (λ _, false) 0.
Definition world : World := mkWorld empty_db true env rng.

Definition oid : ObjectId := mkId (replicate 16 9).
Definition vid : VersionId := mkId (replicate 16 5).
Definition record : SealedRecord := mkSealed (replicate 12 1) [1; 2; 3].
Definition stored : StoredVersion := mkStored oid vid record record 3 4 1.
Definition chunk : EncryptedChunk := mkChunk 0 record.

End Toy.
