(* ===== verification/ToyWire.v ===== *)
(** * Concrete [hex] and [serde_json] instances

    Executable stand-ins for the two crates of the wire formats, with the
    round trips [HexCrateOk] and [JsonOk] ask for, and a witness service behind
    a scripted network to evaluate the client against. *)

From S2P Require Import Prelude Format Crypto Witness Fs Storage WitnessService Https Protocol Toy.
From Stdlib Require Import ZArith Lia.
From stdpp Require Import base numbers list gmap strings.

Open Scope Z_scope.
Open Scope vlt_scope.

#[global] Instance IssueRequest_eq_dec : EqDecision IssueRequest.
Proof. solve_decision. Defined.
#[global] Instance IssueResponse_eq_dec : EqDecision IssueResponse.
Proof. solve_decision. Defined.
#[global] Instance HeadRequest_eq_dec : EqDecision HeadRequest.
Proof. solve_decision. Defined.
#[global] Instance HeadResponse_eq_dec : EqDecision HeadResponse.
Proof. solve_decision. Defined.

Module ToyWire.
Import Toy.

#[export] Instance toy_hex : HexCrate := {
  hex_crate_encode := hex_encode;
  hex_crate_decode := parse_pairs;
}.

#[export] Instance toy_hex_ok : HexCrateOk.
Proof. split; [done|]. intros b Hb. by apply parse_pairs_hex_encode. Qed.

(** Length-prefixed fields. *)
Definition put_fields (fs : list bytes) : bytes := concat (map (λ f, lenZ f :: f) fs).

Fixpoint get_fields (n : nat) (s : bytes) : option (list bytes) :=
  match n, s with
  | O, [] => Some []
  | S n, l :: s => if l <=? lenZ s then cons (takeZ l s) <$> get_fields n (dropZ l s) else None
  | _, _ => None
  end.

Definition put_opt (o : option bytes) : bytes := match o with Some b => 1 :: b | None => [] end.
Definition get_opt (s : bytes) : option bytes := match s with _ :: b => Some b | [] => None end.

(** A text is produced only when it reads back. *)
Definition checked {A} `{EqDecision A} (enc : A → bytes) (dec : bytes → option A) (a : A) : option bytes :=
  if decide (dec (enc a) = Some a) then Some (enc a) else None.

Lemma checked_ok {A} `{EqDecision A} (enc : A → bytes) dec (a : A) bs : checked enc dec a = Some bs → dec bs = Some a.
Proof. unfold checked. case_decide; [|done]. by intros [= <-]. Qed.

Definition enc_iq (r : IssueRequest) : bytes :=
  put_fields [ir_vault_id r; ir_object_id r; ir_version_id r; ir_commitment r; [ir_expected_epoch r]].
Definition dec_iq (s : bytes) : option IssueRequest :=
  match get_fields 5 s with Some [a; b; c; d; [e]] => Some (mkIssueRequest a b c d e) | _ => None end.

Definition enc_is (r : IssueResponse) : bytes :=
  put_fields [is_vault_id r; is_object_id r; is_version_id r; [is_witness_epoch r]; is_commitment r; is_public_key r; is_signature r].
Definition dec_is (s : bytes) : option IssueResponse :=
  match get_fields 7 s with Some [a; b; c; [e]; d; f; g] => Some (mkIssueResponse a b c e d f g) | _ => None end.

Definition enc_hq (r : HeadRequest) : bytes := put_fields [hq_vault_id r; hq_object_id r; hq_challenge r].
Definition dec_hq (s : bytes) : option HeadRequest :=
  match get_fields 3 s with Some [a; b; c] => Some (mkHeadRequest a b c) | _ => None end.

Definition enc_hs (r : HeadResponse) : bytes :=
  put_fields [hs_vault_id r; hs_object_id r; [if hs_present r then 1 else 0]; put_opt (hs_version_id r); [hs_witness_epoch r];
    put_opt (hs_commitment r); hs_challenge r; hs_public_key r; hs_signature r].
Definition dec_hs (s : bytes) : option HeadResponse :=
  match get_fields 9 s with
  | Some [a; b; [p]; x; [e]; c; ch; pk; sg] => Some (mkHeadResponse a b (p =? 1) (get_opt x) e (get_opt c) ch pk sg)
  | _ => None
  end.

#[export] Instance toy_iq : Json IssueRequest := { json_to_vec := checked enc_iq dec_iq; json_from_slice := dec_iq }.
#[export] Instance toy_is : Json IssueResponse := { json_to_vec := checked enc_is dec_is; json_from_slice := dec_is }.
#[export] Instance toy_hq : Json HeadRequest := { json_to_vec := checked enc_hq dec_hq; json_from_slice := dec_hq }.
#[export] Instance toy_hs : Json HeadResponse := { json_to_vec := checked enc_hs dec_hs; json_from_slice := dec_hs }.

#[export] Instance toy_iq_ok : JsonOk IssueRequest.
Proof. split. apply checked_ok. Qed.
#[export] Instance toy_is_ok : JsonOk IssueResponse.
Proof. split. apply checked_ok. Qed.
#[export] Instance toy_hq_ok : JsonOk HeadRequest.
Proof. split. apply checked_ok. Qed.
#[export] Instance toy_hs_ok : JsonOk HeadResponse.
Proof. split. apply checked_ok. Qed.

(** The local protocol: a tag per constructor, then its fields. *)
Definition rq_fields (r : Request) : list bytes :=
  match r with
  | RqStatus => [[0]; []; []]
  | RqUnlock p => [[1]; p; []]
  | RqLock => [[2]; []; []]
  | RqPut o d => [[3]; o; d]
  | RqPutStream o => [[4]; o; []]
  | RqGet o => [[5]; o; []]
  | RqGetStream o => [[6]; o; []]
  | RqRotatePassphrase c n => [[7]; c; n]
  | RqVerify => [[8]; []; []]
  | RqCheckpoint => [[9]; []; []]
  | RqBackup d => [[10]; d; []]
  | RqShutdown => [[11]; []; []]
  end.
Definition rq_of_fields (fs : list bytes) : option Request :=
  match fs with
  | [[t]; a; b] =>
      [RqStatus; RqUnlock a; RqLock; RqPut a b; RqPutStream a; RqGet a; RqGetStream a; RqRotatePassphrase a b; RqVerify;
       RqCheckpoint; RqBackup a; RqShutdown] !! Z.to_nat t
  | _ => None
  end.
Definition enc_rq (r : Request) : bytes := put_fields (rq_fields r).
Definition dec_rq (s : bytes) : option Request := get_fields 3 s ≫= rq_of_fields.

Definition codes : list ErrorCode :=
  [CProtocol; CUnauthorized; CLocked; CNotFound; CInvalidInput; CVerification; CStorage; CWitnessUnavailable; CWitnessConflict;
   COverloaded; CPolicy; CInternal].
Definition code_index (c : ErrorCode) : Z :=
  match list_find (eq c) codes with Some (i, _) => Z.of_nat i | None => 0 end.

Definition rs_fields (r : Response) : list bytes :=
  match r with
  | ROk SEmpty => [[0]; []; []; []; []; []]
  | ROk (SStatus f v l c n) => [[1]; f; v; l; c; put_opt ((λ z, [z]) <$> n)]
  | ROk SStreamReady => [[2]; []; []; []; []; []]
  | ROk (SPublished v) => [[3]; v; []; []; []; []]
  | ROk (SPlaintext d) => [[4]; d; []; []; []; []]
  | ROk (SVerified n) => [[5]; [n]; []; []; []; []]
  | ROk (SBackup f d n) => [[6]; f; d; be_bytes 8 n; []; []]
  | RError e => [[7]; [code_index (f_code e)]; f_message e; []; []; []]
  end.
Definition rs_of_fields (fs : list bytes) : option Response :=
  match fs with
  | [[0]; _; _; _; _; _] => Some (ROk SEmpty)
  | [[1]; f; v; l; c; n] => Some (ROk (SStatus f v l c (get_opt n ≫= head)))
  | [[2]; _; _; _; _; _] => Some (ROk SStreamReady)
  | [[3]; v; _; _; _; _] => Some (ROk (SPublished v))
  | [[4]; d; _; _; _; _] => Some (ROk (SPlaintext d))
  | [[5]; [n]; _; _; _; _] => Some (ROk (SVerified n))
  | [[6]; f; d; n; _; _] => Some (ROk (SBackup f d (from_be_bytes n)))
  | [[7]; [c]; m; _; _; _] => c ← codes !! Z.to_nat c; Some (RError (mkFailure c m))
  | _ => None
  end.
Definition enc_rs (r : Response) : bytes := put_fields (rs_fields r).
Definition dec_rs (s : bytes) : option Response := get_fields 6 s ≫= rs_of_fields.

#[export] Instance toy_rq : Json Request := { json_to_vec := checked enc_rq dec_rq; json_from_slice := dec_rq }.
#[export] Instance toy_rs : Json Response := { json_to_vec := checked enc_rs dec_rs; json_from_slice := dec_rs }.
#[export] Instance toy_rq_ok : JsonOk Request.
Proof. split. apply checked_ok. Qed.
#[export] Instance toy_rs_ok : JsonOk Response.
Proof. split. apply checked_ok. Qed.

(** ** A service behind a scripted network *)

Definition svc : WitnessService := mkService vault_path (replicate 32 3).
Definition ww : WitnessWorld := mkWW empty_witness_db env.
Definition endpoint : bytes := str_bytes "https://witness.example".
Definition token : bytes := str_bytes "token".

Definition connection (schedule : nat → Delivery) : Connection :=
  mkConnection svc (str_bytes "Bearer token") endpoint ww schedule 0.

(** The configuration [HttpsWitnessProvider::new] builds for the endpoint. *)
Definition https_config : HttpsConfig :=
  match Https.new (endpoint ++ str_bytes "/") token (Service.public_key svc) with
  | Ok cfg => cfg
  | Err _ => mkHttps [] [] [] [] None
  end.

(** The first reply is lost, the second request is lost, then all is well. *)
Definition lossy (n : nat) : Delivery :=
  match n with
  | O => ReplyLost BodyUnreadable
  | S O => RequestLost ConnectionFailed
  | _ => Delivered
  end.

Definition client (schedule : nat → Delivery) : HttpsWitnessProvider Connection :=
  mkProvider https_config (connection schedule).

Definition vault_id : VaultId := mkId (replicate 16 1).
Definition request : WitnessRequest := mkRequest vault_id oid vid (replicate 32 8).

End ToyWire.
