(* ===== verification/ToyFiles.v ===== *)
(** * Concrete database files and temporary names

    Executable stand-ins for SQLite's file format and for the [tempfile]
    crate, with the properties [SqliteFileOk] and [TempfileOk] ask for, and a
    small vault on a small disk. *)

From S2P Require Import Prelude Format Crypto Fs Storage Vault WitnessService Https Backup Protocol Toy ToyWire.
From Stdlib Require Import ZArith Lia.
From stdpp Require Import base numbers list gmap strings.

Open Scope Z_scope.
Open Scope vlt_scope.

#[global] Instance MetaRow_eq_dec : EqDecision MetaRow.
Proof. solve_decision. Defined.
#[global] Instance ReceiptRow_eq_dec : EqDecision ReceiptRow.
Proof. solve_decision. Defined.
#[global] Instance Db_eq_dec : EqDecision Db.
Proof. solve_decision. Defined.

#[global] Instance MetaRow_countable : Countable MetaRow.
Proof.
  apply (inj_countable'
    (λ r, (mr_format_version r, mr_memory_kib r, mr_iterations r, mr_lanes r, mr_root_ciphertext r, mr_root_nonce r, mr_root_salt r, mr_vault_id r))
    (λ '(a, d, e, f, h, g, c, b), mkMetaRow a b c d e f g h)). by intros [].
Defined.
#[global] Instance VersionRow_countable : Countable VersionRow.
Proof.
  apply (inj_countable'
    (λ r, (vr_object_id r, vr_dek_nonce r, vr_dek_ciphertext r, vr_manifest_nonce r, vr_manifest_ciphertext r, vr_plaintext_len r, vr_chunk_size r, vr_chunk_count r))
    (λ '(a, b, c, d, e, f, g, h), mkVersionRow a b c d e f g h)). by intros [].
Defined.
#[global] Instance ChunkRow_countable : Countable ChunkRow.
Proof. apply (inj_countable' (λ r, (cr_nonce r, cr_ciphertext r)) (λ '(a, b), mkChunkRow a b)). by intros []. Defined.
#[global] Instance ReceiptRow_countable : Countable ReceiptRow.
Proof.
  apply (inj_countable' (λ r, (rr_vault_id r, rr_object_id r, rr_epoch r, rr_commitment r, rr_public_key r, rr_signature r))
    (λ '(a, b, c, d, e, f), mkReceiptRow a b c d e f)). by intros [].
Defined.
#[global] Instance Db_countable : Countable Db.
Proof.
  apply (inj_countable' (λ d, (db_pending d, db_receipts d, db_objects d, db_versions d, db_chunks d, db_meta d))
    (λ '(e, f, b, c, d, a), mkDb a b c d e f)). by intros [].
Defined.

Module ToyFiles.
Import Toy ToyWire.

(** One byte per bit of the database's code. *)
Fixpoint bits (p : positive) : bytes :=
  match p with
  | xH => []
  | xO p => 0 :: bits p
  | xI p => 1 :: bits p
  end.

Fixpoint unbits (s : bytes) : positive :=
  match s with
  | [] => xH
  | b :: s => if b =? 0 then xO (unbits s) else xI (unbits s)
  end.

Lemma unbits_bits p : unbits (bits p) = p.
Proof. induction p as [p IH|p IH|]; simpl; by rewrite ?IH. Qed.

#[export] Instance toy_sqlite : SqliteFile := {
  image db ok := bits (encode (db, ok));
  load content := decode (unbits content);
}.

#[export] Instance toy_sqlite_ok : SqliteFileOk.
Proof. split. intros db ok. simpl. rewrite unbits_bits. apply decode_encode. Qed.

(** A temporary name longer than every name on the disk. *)
Fixpoint xs (n : nat) : string := match n with O => EmptyString | S n => String.append "x" (xs n) end.

Definition name_length (p : Path) : nat := match last (comps p) with Some c => String.length c | None => 0%nat end.

Definition longest (fs : Fs) : nat := foldr (λ kv n, Nat.max (name_length kv.1) n) 0%nat (map_to_list fs).

Lemma longest_bound fs p md : fs !! p = Some md → (name_length p ≤ longest fs)%nat.
Proof.
  intros Hp%elem_of_map_to_list. unfold longest. induction (map_to_list fs) as [|kv l IH]; [by apply not_elem_of_nil in Hp|].
  simpl. apply elem_of_cons in Hp as [<- |Hp]; simpl; [lia|]. specialize (IH Hp). lia.
Qed.

Lemma length_xs n : String.length (xs n) = n.
Proof. induction n as [|n IH]; [done|]. change (S (String.length (xs n)) = S n). by rewrite IH. Qed.

#[export] Instance toy_temp : Tempfile := {
  temp_path dir fs := mkPath (absolute dir) (comps dir ++ [String.append ".tmp" (xs (longest fs))]);
}.

#[export] Instance toy_temp_ok : TempfileOk.
Proof.
  split; [|by eexists]. intros dir fs. destruct (fs !! _) as [md|] eqn:E; [|done]. exfalso.
  apply longest_bound in E. unfold name_length in E. simpl in E. rewrite last_snoc, append_length, length_xs in E. simpl in E. lia.
Qed.

Lemma toy_fields_roundtrip fs : get_fields (length fs) (put_fields fs) = Some fs.
Proof.
  induction fs as [|f fs IH]; [done|]. unfold put_fields in *. cbn [map concat length get_fields app].
  rewrite lenZ_app. pose proof (lenZ_nonneg (concat (map (λ f, lenZ f :: f) fs))).
  rewrite (proj2 (Z.leb_le _ _)) by lia. rewrite takeZ_take, dropZ_drop.
  replace (Z.to_nat (lenZ f)) with (length f) by (unfold lenZ; lia). rewrite take_app_length, drop_app_length. by rewrite IH.
Qed.

Definition enc_bm (m : BackupManifest) : bytes :=
  put_fields [bm_format m; bm_vault_id m; bm_database_sha256 m; [bm_database_bytes m]].
Definition dec_bm (s : bytes) : option BackupManifest :=
  match get_fields 4 s with Some [a; b; c; [d]] => Some (mkBackup a b c d) | _ => None end.

#[export] Instance toy_bm : Json BackupManifest := { json_to_vec m := Some (enc_bm m); json_from_slice := dec_bm }.

#[export] Instance toy_bm_ok : JsonOk BackupManifest.
Proof.
  split. intros m bs Hm. apply (inj Some) in Hm as <-. unfold json_from_slice, toy_bm, dec_bm, enc_bm.
  change 4%nat with (length [bm_format m; bm_vault_id m; bm_database_sha256 m; [bm_database_bytes m]]).
  rewrite toy_fields_roundtrip. by destruct m.
Qed.

(** ** A small vault *)

Definition meta_row : MetaRow := mkMetaRow 1 (replicate 16 1) (replicate 16 2) 8 1 1 (replicate 12 3) [4].
Definition small_db : Db := mkDb (Some meta_row) ∅ ∅ ∅ ∅ ∅.
Definition small_world : World := mkWorld small_db true env rng.
Definition small_vault : Vault :=
  mkVault vault_path (Crypto.mkEnvelope vault_id [] Crypto.interactive (mkSealed [] [])) None.
Definition snapshot_path : Path := mkPath true ["b"].
Definition restored_path : Path := mkPath true ["r"].

End ToyFiles.
