(* ===== verification/StorageSpec.v ===== *)
(** * What the storage layer guarantees

    The database invariant and its agreement with the start-up check, and the
    effect of every publication: all of it or nothing, whatever statement the
    fault schedule makes fail, and never a change to a row already stored. *)

From S2P Require Import Prelude Format Crypto Witness Fs Storage Toy.
From Stdlib Require Import ZArith Lia.
From stdpp Require Import base numbers list gmap strings sorting.

Open Scope Z_scope.
Open Scope vlt_scope.

(** ** Worlds *)

(** The fault schedule never fires. *)
Definition no_faults (w : World) : Prop := ∀ n, env_faults (w_env w) n = false.

(** Only the environment's clock differs. *)
Definition ticks (w w' : World) : Prop :=
  w_db w' = w_db w ∧ w_integrity_ok w' = w_integrity_ok w ∧ w_rng w' = w_rng w ∧
  env_faults (w_env w') = env_faults (w_env w) ∧ env_fs (w_env w') = env_fs (w_env w).

#[global] Instance ticks_preorder : PreOrder ticks.
Proof.
  split; [by intros w|]. unfold ticks. intros w1 w2 w3 (?&?&?&?&?) (?&?&?&?&?). split_and!; congruence.
Qed.

(** [m] yields [a] and changes nothing, or stops with [Storage] because of a fault. *)
Definition reads {A} (m : IO A) (w : World) (a : A) : Prop :=
  ∃ w', ticks w w' ∧ (m w = (Ok a, w') ∨ (m w = (Err Storage, w') ∧ ¬ no_faults w)).

(** The invariant of the tables: foreign keys resolve and every active pointer
    names a version of its own object. *)
Record db_wf (db : Db) : Prop := {
  wf_chunk_fk vid i r : db_chunks db !! (vid, i) = Some r → is_Some (db_versions db !! vid);
  wf_pending_fk vid e : db_pending db !! vid = Some e → is_Some (db_versions db !! vid);
  wf_receipt_fk vid r : db_receipts db !! vid = Some r → is_Some (db_versions db !! vid);
  wf_active oid vid : db_objects db !! oid = Some vid →
    ∃ row, db_versions db !! vid = Some row ∧ vr_object_id row = oid;
}.

(** Versions are immutable: a stored version keeps its row and exactly its
    chunks, and receipts are only added. *)
Definition db_extends (db db' : Db) : Prop :=
  db_meta db' = db_meta db ∧ db_versions db ⊆ db_versions db' ∧ db_receipts db ⊆ db_receipts db' ∧
  ∀ vid i, is_Some (db_versions db !! vid) → db_chunks db' !! (vid, i) = db_chunks db !! (vid, i).

#[global] Instance db_extends_preorder : PreOrder db_extends.
Proof.
  split; [by intros db|]. unfold db_extends.
  intros d1 d2 d3 (?&H2&?&H4) (?&?&?&H8). split_and!; [congruence|by etrans|by etrans|].
  intros vid i Hv. rewrite H8, H4; [done|done|]. destruct Hv as [row Hrow]. exists row.
  by eapply lookup_weaken.
Qed.

Module StorageSpec.
Import Sql Storage.

(** ** One statement *)

Lemma io_fault_ticks w :
  ∃ w', in_env io_fault w = (Ok (env_faults (w_env w) (env_tick (w_env w))), w') ∧ ticks w w'.
Proof. eexists. split; [reflexivity|]. done. Qed.

Lemma ticks_no_faults w w' : ticks w w' → no_faults w' ↔ no_faults w.
Proof. intros (_ & _ & _ & E & _). unfold no_faults. by rewrite E. Qed.

Lemma exec_cases stmt w r w' :
  exec stmt w = (r, w') →
  (r = Err Storage ∧ w_db w' = w_db w) ∨ (r = Ok tt ∧ stmt (w_db w) = Some (w_db w')).
Proof.
  unfold exec, sbind. destruct (io_fault_ticks w) as (w1 & -> & Ht).
  destruct (env_faults _ _); [intros [= <- <-]; left; split; [done|apply Ht]|].
  destruct Ht as (Edb & _). rewrite Edb.
  destruct (stmt (w_db w)); intros [= <- <-]; auto.
Qed.

Lemma exec_ok stmt w w' : exec stmt w = (Ok tt, w') → stmt (w_db w) = Some (w_db w').
Proof. intros [[? _]|[_ ?]]%exec_cases; done. Qed.

Lemma exec_count_ok stmt w n w' :
  exec_count stmt w = (Ok n, w') → stmt (w_db w) = Some (n, w_db w').
Proof.
  unfold exec_count, sbind. destruct (io_fault_ticks w) as (w1 & -> & Ht).
  destruct (env_faults _ _); [done|]. destruct Ht as (Edb & _). rewrite Edb.
  destruct (stmt (w_db w)) as [[k db]|]; intros [= <- <-]. done.
Qed.

Lemma reads_ret {A} (a : A) w : reads (sret a) w a.
Proof. exists w. split; [done|by left]. Qed.

Lemma reads_lift {A} (r : Result A) w a : r = Ok a → reads (slift r) w a.
Proof. intros ->. apply (reads_ret a w). Qed.

Lemma reads_bind {A B} (m : IO A) (k : A → IO B) w a b :
  reads m w a → (∀ w', ticks w w' → reads (k a) w' b) → reads (sbind m k) w b.
Proof.
  intros (w1 & Ht & [E|[E Hf]]) Hk; unfold sbind, reads; rewrite E.
  - destruct (Hk w1 Ht) as (w2 & Ht2 & H2). exists w2. split; [by etrans|].
    by rewrite (ticks_no_faults _ _ Ht) in H2.
  - exists w1. auto.
Qed.

Lemma reads_fallible {A} (m : IO A) w a :
  (∀ w', ticks w w' → reads m w' a) →
  reads (let* fault := in_env io_fault in if fault : bool then sthrow Storage else m) w a.
Proof.
  intros Hm. unfold reads, sbind. destruct (io_fault_ticks w) as (w1 & -> & Ht).
  destruct (env_faults _ _) eqn:Ef.
  - exists w1. split; [done|]. right. split; [done|]. intros Hn. by rewrite Hn in Ef.
  - destruct (Hm w1 Ht) as (w2 & Ht2 & H2). exists w2. split; [by etrans|].
    by rewrite (ticks_no_faults _ _ Ht) in H2.
Qed.

Lemma reads_gets {A} (f : World → A) w a : f w = a → reads (sgets f) w a.
Proof. intros <-. exists w. split; [done|by left]. Qed.

Lemma reads_query {A} (q : Db → A) w : reads (query q) w (q (w_db w)).
Proof. apply reads_fallible. intros w' (E & _). apply reads_gets. by rewrite E. Qed.

Lemma query_ok {A} (q : Db → A) w a w' : query q w = (Ok a, w') → a = q (w_db w) ∧ ticks w w'.
Proof.
  destruct (reads_query q w) as (w1 & Ht & [E|[E _]]); rewrite E; [|done]. by intros [= <- <-].
Qed.

Lemma reads_ok {A} (m : IO A) w a r w' :
  reads m w a → m w = (r, w') → ticks w w' ∧ (r = Ok a ∨ r = Err Storage ∧ ¬ no_faults w).
Proof. intros (w1 & Ht & [E|[E ?]]); rewrite E; intros [= <- <-]; auto. Qed.

(** Computations on the environment alone keep the tables. *)
Lemma in_env_db {A} (m : M Env VaultError A) w r w' : in_env m w = (r, w') → w_db w' = w_db w ∧ w_rng w' = w_rng w.
Proof. unfold in_env, szoom. destruct (m (w_env w)). by intros [= <- <-]. Qed.

Lemma begin_ok w tx w' : begin_transaction w = (Ok tx, w') → tx = mkTx (w_db w) ∧ w_db w' = w_db w.
Proof.
  unfold begin_transaction, sbind. destruct (io_fault_ticks w) as (w1 & -> & Ht).
  destruct (env_faults _ _); [done|]. unfold sgets. destruct Ht as (E & _). rewrite E.
  by intros [= <- <-].
Qed.

Lemma begin_err w e w' : begin_transaction w = (Err e, w') → w_db w' = w_db w.
Proof.
  unfold begin_transaction, sbind. destruct (io_fault_ticks w) as (w1 & -> & Ht).
  destruct (env_faults _ _); [intros [= <- <-]; apply Ht|done].
Qed.

Lemma commit_ok tx w w' : commit tx w = (Ok tt, w') → w_db w' = w_db w.
Proof.
  unfold commit, sbind. destruct (io_fault_ticks w) as (w1 & -> & Ht).
  destruct (env_faults _ _); [done|]. intros [= <-]. apply Ht.
Qed.

(** A transaction followed by the permission check: everything the body did,
    or nothing. *)
Lemma transaction_cases path (body : Transaction → IO unit) w r w' :
  (let* tx := begin_transaction in
   owning tx (body tx) ;* enforce_owner_private_state_files path) w = (r, w') →
  (is_ok r = false ∧ w_db w' = w_db w) ∨
  ∃ tx w1 w2, w_db w1 = w_db w ∧ body tx w1 = (Ok tt, w2) ∧ w_db w' = w_db w2.
Proof.
  unfold sbind at 1. destruct (begin_transaction w) as [[tx|e] w1] eqn:Eb.
  2: { intros [= <- <-]. left. split; [done|]. by eapply begin_err. }
  apply begin_ok in Eb as [-> E1]. unfold sbind at 1, owning.
  destruct (body (mkTx (w_db w)) w1) as [[[]|e] w2] eqn:Eo.
  2: { intros [= <- <-]. by left. }
  intros [Edb _]%in_env_db. right. exists (mkTx (w_db w)), w1, w2. done.
Qed.

(** ** The effect of the statements *)

(** The chunks of a version, in the order they are inserted. *)
Definition row_of_chunk (c : EncryptedChunk) : ChunkRow :=
  mkChunkRow (nonce (chunk_record c)) (ciphertext (chunk_record c)).

Definition put_chunks (vid : bytes) (cs : list EncryptedChunk) (m : gmap (bytes * Z) ChunkRow)
    : gmap (bytes * Z) ChunkRow :=
  foldl (λ m c, <[(vid, chunk_index c) := row_of_chunk c]> m) m cs.

Definition with_version (vid : bytes) (row : VersionRow) (db : Db) : Db :=
  mkDb (db_meta db) (db_objects db) (<[vid := row]> (db_versions db)) (db_chunks db) (db_pending db) (db_receipts db).
Definition with_chunks (vid : bytes) (cs : list EncryptedChunk) (db : Db) : Db :=
  mkDb (db_meta db) (db_objects db) (db_versions db) (put_chunks vid cs (db_chunks db)) (db_pending db) (db_receipts db).
Definition with_active (oid vid : bytes) (db : Db) : Db :=
  mkDb (db_meta db) (<[oid := vid]> (db_objects db)) (db_versions db) (db_chunks db) (db_pending db) (db_receipts db).
Definition with_pending (vid : bytes) (epoch : Z) (db : Db) : Db :=
  mkDb (db_meta db) (db_objects db) (db_versions db) (db_chunks db) (<[vid := epoch]> (db_pending db)) (db_receipts db).
Definition without_pending (vid : bytes) (db : Db) : Db :=
  mkDb (db_meta db) (db_objects db) (db_versions db) (db_chunks db) (delete vid (db_pending db)) (db_receipts db).
Definition with_receipt (vid : bytes) (row : ReceiptRow) (db : Db) : Db :=
  mkDb (db_meta db) (db_objects db) (db_versions db) (db_chunks db) (db_pending db) (<[vid := row]> (db_receipts db)).

Lemma put_chunks_none vid cs m k :
  put_chunks vid cs m !! k = None ↔ m !! k = None ∧ ∀ c, c ∈ cs → k ≠ (vid, chunk_index c).
Proof.
  unfold put_chunks. revert m. induction cs as [|c cs IH]; intros m; simpl.
  - split; [|by intros [? _]]. intros ?. split; [done|]. intros c Hc%not_elem_of_nil. done.
  - rewrite IH, lookup_insert_None. setoid_rewrite elem_of_cons. naive_solver.
Qed.

Lemma put_chunks_lookup vid cs m v i r :
  NoDup (chunk_index <$> cs) →
  put_chunks vid cs m !! (v, i) = Some r ↔
  (v = vid ∧ ∃ c, c ∈ cs ∧ chunk_index c = i ∧ row_of_chunk c = r) ∨
  (m !! (v, i) = Some r ∧ (v = vid → i ∉ chunk_index <$> cs)).
Proof.
  unfold put_chunks. revert m. induction cs as [|c cs IH]; intros m Hnd; simpl.
  - setoid_rewrite elem_of_nil. naive_solver.
  - apply NoDup_cons in Hnd as [Hc Hnd]. rewrite IH by done.
    assert (∀ d, d ∈ cs → chunk_index d ≠ chunk_index c) as Hd
      by (intros d Hd Heq; apply Hc; rewrite <-Heq; by apply list_elem_of_fmap_2).
    rewrite lookup_insert_Some, not_elem_of_cons. setoid_rewrite elem_of_cons. naive_solver.
Qed.

Lemma put_chunks_ne vid cs m v i : v ≠ vid → put_chunks vid cs m !! (v, i) = m !! (v, i).
Proof.
  intros Hne. unfold put_chunks. revert m. induction cs as [|c cs IH]; intros m; simpl; [done|].
  rewrite IH, lookup_insert_ne; congruence.
Qed.

Ltac stmt_ok :=
  repeat match goal with
  | |- (if ?b then _ else _) = Some _ → _ => let E := fresh "E" in destruct b eqn:E; [|discriminate 1]
  | |- match ?o with Some _ => None | None => _ end = Some _ → _ =>
      let E := fresh "E" in destruct o eqn:E; [discriminate 1|]
  end.

Lemma insert_version_some vid row db db' :
  Sql.insert_version_row vid row db = Some db' →
  db' = with_version vid row db ∧ db_versions db !! vid = None ∧ length vid = 16%nat ∧
  length (vr_object_id row) = 16%nat ∧ 0 < vr_chunk_size row.
Proof.
  unfold Sql.insert_version_row, len_is. stmt_ok. intros [= <-]. rewrite !andb_true_iff, !bool_decide_eq_true in *.
  destruct_and?. split_and!; try done; lia.
Qed.

Lemma insert_chunk_some vid c db db' :
  Sql.insert_chunk_row vid (chunk_index c) (row_of_chunk c) db = Some db' →
  db' = with_chunks vid [c] db ∧ db_chunks db !! (vid, chunk_index c) = None ∧
  is_Some (db_versions db !! vid) ∧ length (nonce (chunk_record c)) = 12%nat.
Proof.
  unfold Sql.insert_chunk_row, len_is. stmt_ok. intros [= <-]. rewrite !andb_true_iff, !bool_decide_eq_true in *.
  destruct_and?. done.
Qed.

Lemma insert_receipt_some vid row db db' :
  Sql.insert_receipt_row vid row db = Some db' →
  db' = with_receipt vid row db ∧ db_receipts db !! vid = None ∧ is_Some (db_versions db !! vid) ∧
  0 ≤ rr_epoch row ∧ length (rr_public_key row) = 32%nat ∧ length (rr_signature row) = 64%nat.
Proof.
  unfold Sql.insert_receipt_row, len_is. stmt_ok. intros [= <-]. rewrite !andb_true_iff, !bool_decide_eq_true in *.
  destruct_and?. split_and!; try done; lia.
Qed.

Lemma insert_pending_some vid e db db' :
  insert_pending vid e db = Some db' →
  db' = with_pending vid e db ∧ db_pending db !! vid = None ∧ is_Some (db_versions db !! vid) ∧ 0 ≤ e.
Proof.
  unfold insert_pending, len_is. stmt_ok. intros [= <-]. rewrite !andb_true_iff, !bool_decide_eq_true in *.
  destruct_and?. split_and!; try done; lia.
Qed.

Lemma upsert_object_some oid vid db db' : upsert_object oid vid db = Some db' → db' = with_active oid vid db.
Proof. unfold upsert_object. stmt_ok. by intros [= <-]. Qed.

Lemma update_version_some vid oid n c len count k db db' :
  update_version vid oid n c len count db = Some (k, db') →
  (k = 0%nat ∧ db' = db) ∨
  (k = 1%nat ∧ length n = 12%nat ∧ ∃ row, db_versions db !! vid = Some row ∧ vr_object_id row = oid ∧
     db' = with_version vid (mkVersionRow oid (vr_dek_nonce row) (vr_dek_ciphertext row) n c len
                               (vr_chunk_size row) count) db).
Proof.
  unfold update_version, len_is. destruct (db_versions db !! vid) as [row|] eqn:E; [|intros [= <- <-]; by left].
  case_decide as Ho; [|intros [= <- <-]; by left].
  destruct (bool_decide _ && _ && _) eqn:Eg; [|done]. rewrite !andb_true_iff, bool_decide_eq_true in Eg.
  destruct_and?. intros [= <- <-]. right. subst oid. eauto 10.
Qed.

Lemma u32_of_sql_ok x : 0 ≤ x ≤ u32_max → Sql.u32_of_sql x = Some x.
Proof. intros ?. unfold Sql.u32_of_sql. destruct (Z.leb_spec 0 x), (Z.leb_spec x u32_max); try lia. done. Qed.

Lemma u64_to_sql_some v x : u64_to_sql v = Some x ↔ x = v ∧ v ≤ i64_max.
Proof. unfold u64_to_sql. destruct (Z.leb_spec v i64_max); split; intros; destruct_and?; simplify_eq; auto; lia. Qed.

Section effects.
Context `{Primitives}.

Lemma storage_insert_version_ok v w w' :
  Storage.insert_version v w = (Ok tt, w') →
  w_db w' = with_version (as_bytes (sv_version_id v)) (version_row v (sv_plaintext_len v)) (w_db w) ∧
  db_versions (w_db w) !! as_bytes (sv_version_id v) = None ∧ sv_plaintext_len v ≤ i64_max ∧ 0 < sv_chunk_size v.
Proof.
  unfold Storage.insert_version. intros (x & Hx & Hi)%exec_ok%bind_Some.
  apply u64_to_sql_some in Hx as [-> Hx]. apply insert_version_some in Hi as (-> & ? & _ & _ & ?). done.
Qed.

Lemma storage_insert_receipt_ok r w w' :
  Storage.insert_receipt r w = (Ok tt, w') →
  w_db w' = with_receipt (as_bytes (rc_version_id r)) (receipt_row r (rc_epoch r)) (w_db w) ∧
  db_receipts (w_db w) !! as_bytes (rc_version_id r) = None ∧
  is_Some (db_versions (w_db w) !! as_bytes (rc_version_id r)) ∧ 0 ≤ rc_epoch r ≤ i64_max ∧
  length (rc_public_key r) = 32%nat ∧ length (rc_signature r) = 64%nat.
Proof.
  unfold Storage.insert_receipt. intros (x & Hx & Hi)%exec_ok%bind_Some.
  apply u64_to_sql_some in Hx as [-> Hx]. by apply insert_receipt_some in Hi as (-> & ? & ? & ? & ? & ?).
Qed.

(** A list of chunks that the primary key and the foreign key let in. *)
Definition chunks_fresh (vid : bytes) (cs : list EncryptedChunk) (db : Db) : Prop :=
  NoDup (chunk_index <$> cs) ∧ Forall (λ c, db_chunks db !! (vid, chunk_index c) = None) cs ∧
  Forall (λ c, length (nonce (chunk_record c)) = 12%nat) cs ∧
  (cs = [] ∨ is_Some (db_versions db !! vid)).

Lemma insert_chunks_ok vid cs w w' :
  insert_chunks vid cs w = (Ok tt, w') →
  w_db w' = with_chunks (as_bytes vid) cs (w_db w) ∧ chunks_fresh (as_bytes vid) cs (w_db w).
Proof.
  revert w. induction cs as [|c cs IH]; intros w; simpl.
  - intros [= <-]. split; [by destruct (w_db w)|]. split_and!; [constructor..|by left].
  - intros ([] & w1 & E1 & (E2 & (Hnd & Hf & Hl & _))%IH)%sbind_ok.
    apply exec_ok, insert_chunk_some in E1 as (E1 & Hn & Hv & Hn12). rewrite E2, E1. split; [done|].
    rewrite E1 in Hf. simpl in Hf. split_and!.
    + constructor; [|done]. intros (c' & Hc & Hin)%list_elem_of_fmap. rewrite Forall_forall in Hf.
      specialize (Hf c' Hin). rewrite <-Hc, lookup_insert_eq in Hf. done.
    + constructor; [done|]. eapply Forall_impl; [exact Hf|]. simpl. intros c' Hc'.
      by apply lookup_insert_None in Hc' as [? _].
    + by constructor.
    + by right.
Qed.

(** ** Effect of each publication *)

Definition published (v : StoredVersion) (cs : list EncryptedChunk) (rc : option WitnessReceipt) (db : Db) : Db :=
  let vid := as_bytes (sv_version_id v) in
  let db := with_chunks vid cs (with_version vid (version_row v (sv_plaintext_len v)) db) in
  let db := match rc with
            | Some r => with_receipt (as_bytes (rc_version_id r)) (receipt_row r (rc_epoch r)) db
            | None => db
            end in
  with_active (as_bytes (sv_object_id v)) vid db.

Definition staged (v : StoredVersion) (cs : list EncryptedChunk) (epoch : Z) (db : Db) : Db :=
  let vid := as_bytes (sv_version_id v) in
  with_pending vid epoch (with_chunks vid cs (with_version vid (version_row v (sv_plaintext_len v)) db)).

Definition finalized (v : StoredVersion) (r : WitnessReceipt) (db : Db) : Db :=
  let vid := as_bytes (sv_version_id v) in
  without_pending vid (with_active (as_bytes (sv_object_id v)) vid
    (with_receipt vid (receipt_row r (rc_epoch r)) db)).

(** What the constraints checked on the way. *)
Record admitted (v : StoredVersion) (cs : list EncryptedChunk) (db : Db) : Prop := {
  adm_fresh : db_versions db !! as_bytes (sv_version_id v) = None;
  adm_nodup : NoDup (chunk_index <$> cs);
  adm_chunks : Forall (λ c, db_chunks db !! (as_bytes (sv_version_id v), chunk_index c) = None) cs;
  adm_nonces : Forall (λ c, length (nonce (chunk_record c)) = 12%nat) cs;
  adm_count : lenZ cs = sv_chunk_count v;
  adm_len : sv_plaintext_len v ≤ i64_max;
  adm_size : 0 < sv_chunk_size v;
}.

Lemma version_and_chunks_ok v cs w w1 w2 :
  lenZ cs = sv_chunk_count v →
  Storage.insert_version v w = (Ok tt, w1) → insert_chunks (sv_version_id v) cs w1 = (Ok tt, w2) →
  admitted v cs (w_db w) ∧
  w_db w2 = with_chunks (as_bytes (sv_version_id v)) cs
              (with_version (as_bytes (sv_version_id v)) (version_row v (sv_plaintext_len v)) (w_db w)).
Proof.
  intros Hlen (E1 & Hf & ? & ?)%storage_insert_version_ok (E2 & ? & Hc & ? & _)%insert_chunks_ok.
  rewrite E1 in Hc. rewrite E2, E1. split; [by constructor|done].
Qed.

Lemma publish_cases path v cs rc w r w' :
  publish_inner path v cs rc w = (r, w') →
  (is_ok r = false ∧ w_db w' = w_db w) ∨
  (admitted v cs (w_db w) ∧ w_db w' = published v cs rc (w_db w) ∧
   match rc with
   | Some c => db_receipts (w_db w) !! as_bytes (rc_version_id c) = None ∧
       is_Some (<[as_bytes (sv_version_id v) := version_row v (sv_plaintext_len v)]> (db_versions (w_db w))
                  !! as_bytes (rc_version_id c)) ∧ 0 ≤ rc_epoch c ≤ i64_max
   | None => True
   end).
Proof.
  unfold publish_inner. destruct (lenZ cs =? sv_chunk_count v) eqn:El; [|intros [= <- <-]; by left].
  apply Z.eqb_eq in El. simpl.
  intros [?|(tx & w1 & w2 & E1 & Eb & E2)]%(transaction_cases path (λ tx, _)); [by left|right]. revert Eb.
  intros ([] & wa & Ea & ([] & wb & Eb & ([] & wc & Ec & ([] & wd & Ed & Ef%commit_ok)%sbind_ok)%sbind_ok)%sbind_ok)%sbind_ok.
  destruct (version_and_chunks_ok _ _ _ _ _ El Ea Eb) as [Hadm Eab]. rewrite E1 in Hadm, Eab.
  apply exec_ok, upsert_object_some in Ed. split; [done|]. unfold published.
  destruct rc as [c|].
  - apply storage_insert_receipt_ok in Ec as (Ec & Hr & Hv & ? & _). rewrite Eab in Hr, Hv. simpl in Hr, Hv.
    split; [|done]. by rewrite E2, Ef, Ed, Ec, Eab.
  - injection Ec as <-. split; [|done]. by rewrite E2, Ef, Ed, Eab.
Qed.

Lemma stage_cases path v cs epoch w r w' :
  stage_witness_publication path v cs epoch w = (r, w') →
  (is_ok r = false ∧ w_db w' = w_db w) ∨
  (admitted v cs (w_db w) ∧ w_db w' = staged v cs epoch (w_db w) ∧
   db_pending (w_db w) !! as_bytes (sv_version_id v) = None ∧ 0 ≤ epoch ≤ i64_max).
Proof.
  unfold stage_witness_publication. destruct (lenZ cs =? sv_chunk_count v) eqn:El; [|intros [= <- <-]; by left].
  apply Z.eqb_eq in El. simpl.
  intros [?|(tx & w1 & w2 & E1 & Eb & E2)]%(transaction_cases path (λ tx, _)); [by left|right]. revert Eb.
  intros ([] & wa & Ea & ([] & wb & Eb & ([] & wc & Ec & Ed%commit_ok)%sbind_ok)%sbind_ok)%sbind_ok.
  destruct (version_and_chunks_ok _ _ _ _ _ El Ea Eb) as [Hadm Eab]. rewrite E1 in Hadm, Eab.
  apply exec_ok, bind_Some in Ec as (x & [-> ?]%u64_to_sql_some & (Ec & Hn & _ & ?)%insert_pending_some).
  rewrite Eab in Hn. split; [done|]. split; [|done]. unfold staged. by rewrite E2, Ed, Ec, Eab.
Qed.

Lemma finalize_cases path v c w r w' :
  finalize_witness_publication path v c w = (r, w') →
  (is_ok r = false ∧ w_db w' = w_db w) ∨
  (w_db w' = finalized v c (w_db w) ∧ rc_object_id c = sv_object_id v ∧ rc_version_id c = sv_version_id v ∧
   is_Some (db_pending (w_db w) !! as_bytes (sv_version_id v)) ∧
   db_receipts (w_db w) !! as_bytes (sv_version_id v) = None ∧
   is_Some (db_versions (w_db w) !! as_bytes (sv_version_id v)) ∧ 0 ≤ rc_epoch c ≤ i64_max ∧
   length (rc_public_key c) = 32%nat ∧ length (rc_signature c) = 64%nat).
Proof.
  unfold finalize_witness_publication.
  case_bool_decide as Ho; simpl; [|intros [= <- <-]; by left].
  case_bool_decide as Hv; simpl; [|intros [= <- <-]; by left].
  intros [?|(tx & w1 & w2 & E1 & Eb & E2)]%(transaction_cases path (λ tx, _)); [by left|right]. revert Eb.
  intros (st & wa & [-> (Ea & _)]%query_ok & Eb)%sbind_ok. apply sbind_ok in Eb as (st & wb & Est & Eb).
  unfold slift in Est. injection Est as Est <-. apply sbind_ok in Eb as ([] & wc & Ec & Eb).
  assert (wc = wa ∧ is_Some (db_pending (w_db w1) !! as_bytes (sv_version_id v))) as [-> Hp].
  { destruct (db_pending (w_db w1) !! _); [|injection Est as <-; by rewrite decide_True in Ec].
    destruct (decide (st = None)); [done|]. injection Ec as <-. eauto. }
  apply sbind_ok in Eb as ([] & wd & Ed & Eb). apply sbind_ok in Eb as ([] & we & Ee & Eb).
  apply sbind_ok in Eb as ([] & wf & Ef & Eg%commit_ok).
  apply storage_insert_receipt_ok in Ed as (Ed & Hr & Hs & He & Hk & Hg). apply exec_ok, upsert_object_some in Ee.
  apply exec_ok in Ef. unfold delete_pending in Ef. injection Ef as Ef.
  rewrite Ea, E1, Hv in *. split; [|done]. unfold finalized.
  rewrite E2, Eg, <-Ef, Ee, Ed. done.
Qed.

(** ** Streaming *)

(** The rows of a publication under way. *)
Definition streaming (p : StreamingPublication) (row : VersionRow) (cs : list EncryptedChunk) (db0 db : Db) : Prop :=
  let vid := as_bytes (sp_version_id p) in
  sp_transaction p = mkTx db0 ∧ sp_next_chunk_index p = lenZ cs ∧ db_versions db0 !! vid = None ∧
  vr_object_id row = as_bytes (sp_object_id p) ∧ 0 < vr_chunk_size row ∧
  chunks_fresh vid cs (with_version vid row db0) ∧ db = with_chunks vid cs (with_version vid row db0).

Lemma begin_streaming_cases path oid vid dek size w r w' :
  begin_streaming_publication path oid vid dek size w = (r, w') →
  match r with
  | Err _ => w_db w' = w_db w
  | Ok p => streaming p (placeholder_row oid dek size) [] (w_db w) (w_db w') ∧
            p = mkStreaming (mkTx (w_db w)) path oid vid 0 0
  end.
Proof.
  unfold begin_streaming_publication, sbind at 1.
  destruct (begin_transaction w) as [[tx|e] w1] eqn:Eb; [|intros [= <- <-]; by eapply begin_err].
  apply begin_ok in Eb as [-> E1]. unfold owning.
  destruct (sbind _ _ w1) as [[p|e] w2] eqn:Eo; intros [= <- <-]; [|done].
  apply sbind_ok in Eo as ([] & w3 & Ei & Eo). injection Eo as <- <-.
  apply exec_ok, insert_version_some in Ei as (Ei & Hf & _ & _ & Hs). rewrite E1 in Ei, Hf. split; [|done].
  unfold streaming. simpl. split_and!; try done. split_and!; [constructor..|by left].
Qed.

Lemma append_chunk_cases p c len row cs db0 w r w' :
  streaming p row cs db0 (w_db w) → append_chunk p c len w = (r, w') →
  match r with
  | Err _ => True
  | Ok p' => streaming p' row (cs ++ [c]) db0 (w_db w') ∧ chunk_index c = lenZ cs ∧
      p' = mkStreaming (sp_transaction p) (sp_state_path p) (sp_object_id p) (sp_version_id p)
             (sp_next_chunk_index p + 1) (sp_plaintext_len p + len)
  end.
Proof.
  intros (Htx & Hnext & Hf & Ho & Hs & (Hnd & Hfr & Hn & _) & Hdb) E. destruct r as [p'|]; [|done].
  unfold append_chunk in E. destruct (chunk_index c =? sp_next_chunk_index p) eqn:Ei; [|done].
  apply Z.eqb_eq in Ei. simpl in E. apply sbind_ok in E as ([] & w1 & E1 & E).
  apply exec_ok, insert_chunk_some in E1 as (E1 & Hnone & Hv & Hl). rewrite Hdb in Hnone, Hv.
  apply sbind_ok in E as (nx & w2 & E2 & E). injection E2 as E2 <-. apply ok_or_ok, u32_checked_add_some in E2 as [-> _].
  apply sbind_ok in E as (ln & w3 & E3 & E). injection E3 as E3 <-. apply ok_or_ok, u64_checked_add_some in E3 as [-> _].
  injection E as <- <-. split; [|split; [congruence|done]]. unfold streaming, chunks_fresh. simpl.
  assert (put_chunks (as_bytes (sp_version_id p)) (cs ++ [c]) (db_chunks db0) =
          <[(as_bytes (sp_version_id p), chunk_index c) := row_of_chunk c]>
            (put_chunks (as_bytes (sp_version_id p)) cs (db_chunks db0))) as Hput
    by (unfold put_chunks; by rewrite foldl_app).
  simpl in Hnone. apply put_chunks_none in Hnone as [Hnone Hout].
  split_and!; try done.
  - unfold lenZ in *. rewrite length_app. simpl. lia.
  - rewrite fmap_app. apply NoDup_app. split; [done|]. split; [|apply NoDup_singleton].
    intros x (d & -> & Hd)%list_elem_of_fmap Hx%list_elem_of_singleton. by apply (Hout d); [|f_equal].
  - by apply Forall_app_2; [|apply Forall_singleton].
  - by apply Forall_app_2; [|apply Forall_singleton].
  - by right.
  - rewrite E1, Hdb. unfold with_chunks. simpl. by rewrite Hput.
Qed.

Definition finished_version (p : StreamingPublication) (row : VersionRow) (manifest : SealedRecord) : StoredVersion :=
  mkStored (sp_object_id p) (sp_version_id p) (mkSealed (vr_dek_nonce row) (vr_dek_ciphertext row)) manifest
    (sp_plaintext_len p) (vr_chunk_size row) (sp_next_chunk_index p).

Lemma finish_cases p manifest count row cs db0 w r w' :
  streaming p row cs db0 (w_db w) → finish p manifest count w = (r, w') →
  (is_ok r = false ∧ w_db w' = db0) ∨
  (admitted (finished_version p row manifest) cs db0 ∧ count = lenZ cs ∧
   length (nonce manifest) = 12%nat ∧
   w_db w' = published (finished_version p row manifest) cs None db0).
Proof.
  intros (Htx & Hnext & Hf & Ho & Hs & (Hnd & Hfr & Hn & _) & Hdb). unfold finish, sbind at 1, owning.
  destruct (sbind _ _ w) as [[[]|e] w1] eqn:E.
  2: { intros [= <- <-]. left. by rewrite Htx. }
  intros [Edb _]%in_env_db. right. apply sbind_ok in E as ([] & wa & Ea & E).
  destruct (count =? sp_next_chunk_index p) eqn:Ec; [|done]. injection Ea as <-. apply Z.eqb_eq in Ec.
  apply sbind_ok in E as (k & wb & Eb & E). apply sbind_ok in E as ([] & wc & Ek & E).
  destruct (k =? 1)%nat eqn:Ek1; [|done]. injection Ek as <-. apply Nat.eqb_eq in Ek1 as ->.
  apply sbind_ok in E as ([] & wd & Ed & Ee%commit_ok). apply exec_ok, upsert_object_some in Ed.
  apply exec_count_ok, bind_Some in Eb as (len & [-> Hl]%u64_to_sql_some & Eb).
  apply update_version_some in Eb as [[? _]|(_ & Hn12 & row' & Hrow & Horow & Eb)]; [done|].
  rewrite Hdb in Hrow. simpl in Hrow. rewrite lookup_insert_eq in Hrow. injection Hrow as <-.
  split; [by constructor|]. split; [congruence|]. split; [done|]. rewrite Edb, Ee, Ed, Eb, Hdb.
  unfold published, with_active, with_version, with_chunks, version_row. simpl.
  rewrite insert_insert_eq, Ec. done.
Qed.

(** ** Preservation *)

Lemma with_version_wf vid row db : db_wf db → db_versions db !! vid = None → db_wf (with_version vid row db).
Proof.
  intros [Hc Hp Hr Ha] Hf.
  assert (∀ v, is_Some (db_versions db !! v) → is_Some (<[vid:=row]> (db_versions db) !! v)) as Hmono.
  { intros v Hv. rewrite lookup_insert_is_Some. destruct (decide (vid = v)); auto. }
  split; simpl; eauto. intros oid v (row' & Hrow & Hoid)%Ha. exists row'. split; [|done].
  rewrite lookup_insert_ne; congruence.
Qed.

Lemma with_chunks_wf vid cs db :
  db_wf db → NoDup (chunk_index <$> cs) → is_Some (db_versions db !! vid) → db_wf (with_chunks vid cs db).
Proof.
  intros [Hc Hp Hr Ha] Hnd Hv. split; simpl; eauto.
  intros v i r [[-> _]|[? _]]%put_chunks_lookup; eauto.
Qed.

Lemma with_active_wf oid vid row db :
  db_wf db → db_versions db !! vid = Some row → vr_object_id row = oid → db_wf (with_active oid vid db).
Proof.
  intros [Hc Hp Hr Ha] Hv Ho. split; simpl; eauto.
  intros o v [[-> ->]|[_ ?]]%lookup_insert_Some; eauto.
Qed.

Lemma with_receipt_wf vid r db : db_wf db → is_Some (db_versions db !! vid) → db_wf (with_receipt vid r db).
Proof.
  intros [Hc Hp Hr Ha] Hv. split; simpl; eauto.
  intros v x [[-> ->]|[_ ?]]%lookup_insert_Some; eauto.
Qed.

Lemma with_pending_wf vid e db : db_wf db → is_Some (db_versions db !! vid) → db_wf (with_pending vid e db).
Proof.
  intros [Hc Hp Hr Ha] Hv. split; simpl; eauto.
  intros v x [[-> ->]|[_ ?]]%lookup_insert_Some; eauto.
Qed.

Lemma without_pending_wf vid db : db_wf db → db_wf (without_pending vid db).
Proof.
  intros [Hc Hp Hr Ha]. split; simpl; eauto.
  intros v x [_ ?]%lookup_delete_Some; eauto.
Qed.

Lemma published_wf v cs db : admitted v cs db → db_wf db → db_wf (published v cs None db).
Proof.
  intros [Hf Hnd _ _ _ _ _] Hwf. unfold published.
  eapply with_active_wf; [|apply lookup_insert_eq|done].
  apply with_chunks_wf; [by apply with_version_wf|done|simpl; rewrite lookup_insert_eq; eauto].
Qed.

Lemma staged_wf v cs e db : admitted v cs db → db_wf db → db_wf (staged v cs e db).
Proof.
  intros [Hf Hnd _ _ _ _ _] Hwf. unfold staged.
  apply with_pending_wf; [|simpl; rewrite lookup_insert_eq; eauto].
  apply with_chunks_wf; [by apply with_version_wf|done|simpl; rewrite lookup_insert_eq; eauto].
Qed.

Lemma finalized_wf v c row db :
  db_versions db !! as_bytes (sv_version_id v) = Some row → vr_object_id row = as_bytes (sv_object_id v) →
  db_wf db → db_wf (finalized v c db).
Proof.
  intros Hv Ho Hwf. unfold finalized. apply without_pending_wf.
  eapply with_active_wf; [|exact Hv|done]. apply with_receipt_wf; eauto.
Qed.

Lemma published_extends v cs db : admitted v cs db → db_extends db (published v cs None db).
Proof.
  intros [Hf Hnd Hc _ _ _ _]. unfold published, db_extends. simpl.
  split_and!; [done|by apply insert_subseteq|done|]. intros vid i [row Hrow].
  apply put_chunks_ne. congruence.
Qed.

Lemma staged_extends v cs e db : admitted v cs db → db_extends db (staged v cs e db).
Proof.
  intros [Hf Hnd Hc _ _ _ _]. unfold staged, db_extends. simpl.
  split_and!; [done|by apply insert_subseteq|done|]. intros vid i [row Hrow].
  apply put_chunks_ne. congruence.
Qed.

Lemma finalized_extends v c db :
  db_receipts db !! as_bytes (sv_version_id v) = None → db_extends db (finalized v c db).
Proof. intros Hr. unfold finalized, db_extends. simpl. split_and!; [done|done|by apply insert_subseteq|done]. Qed.

(** ** Ordered reads *)

Lemma elem_of_select vid db i r :
  (i, r) ∈ omap (λ kv : (bytes * Z) * ChunkRow, if decide (kv.1.1 = vid) then Some (kv.1.2, kv.2) else None)
             (map_to_list (db_chunks db)) ↔ db_chunks db !! (vid, i) = Some r.
Proof.
  rewrite list_elem_of_omap. split.
  - intros ([[v j] x] & Hin%elem_of_map_to_list & Hd). simpl in *. case_decide; naive_solver.
  - intros Hl. exists ((vid, i), r). split; [by apply elem_of_map_to_list|]. simpl. by rewrite decide_True.
Qed.

Lemma NoDup_select vid db :
  NoDup (omap (λ kv : (bytes * Z) * ChunkRow, if decide (kv.1.1 = vid) then Some (kv.1.2, kv.2) else None)
           (map_to_list (db_chunks db))).
Proof.
  apply NoDup_omap_inj; [|apply NoDup_map_to_list].
  intros [[v j] x] [[v' j'] x'] [i r]. simpl. repeat case_decide; naive_solver.
Qed.

#[global] Instance index_le_trans {V} : Transitive (@index_le V).
Proof. unfold index_le. intros ???. lia. Qed.
#[global] Instance index_le_total {V} : Total (@index_le V).
Proof. unfold index_le. intros a b. lia. Qed.

(** The rows of a version are returned in index order, each exactly once. *)
Lemma select_chunks_spec vid db l :
  StronglySorted index_le l → NoDup l.*1 →
  (∀ i r, (i, r) ∈ l ↔ db_chunks db !! (vid, i) = Some r) → select_chunks vid db = l.
Proof.
  intros Hs Hnd Hl. unfold select_chunks. apply StronglySorted_unique_strong with index_le.
  - intros [i x] [j y] Hx Hy Hij Hji. unfold index_le in *. simpl in *. assert (i = j) as -> by lia.
    rewrite merge_sort_Permutation, elem_of_select in Hx. apply Hl in Hy. congruence.
  - apply StronglySorted_merge_sort; apply _.
  - done.
  - rewrite merge_sort_Permutation. apply NoDup_Permutation.
    + apply NoDup_select.
    + by apply NoDup_fmap_1 in Hnd.
    + intros [i r]. by rewrite elem_of_select, Hl.
Qed.

(** ** The start-up check *)

Lemma checks_pass db :
  foreign_key_violation db = false ∧ dangling_active_version db = false ∧ dangling_pending_version db = false
  ↔ db_wf db.
Proof.
  unfold foreign_key_violation, dangling_active_version, dangling_pending_version.
  rewrite !orb_false_iff, !map_any_false. setoid_rewrite negb_false_iff. setoid_rewrite bool_decide_eq_true.
  split.
  - intros (((Hc & Hp) & Hr) & Ha & _). split; eauto.
    + intros vid i r Hl. apply (Hc _ _ Hl).
    + intros oid vid Hl. specialize (Ha _ _ Hl). destruct (db_versions db !! vid) as [row|]; [|done].
      apply negb_false_iff, bool_decide_eq_true in Ha. eauto.
  - intros [Hc Hp Hr Ha]. split_and!; eauto.
    + intros [vid i] r. apply Hc.
    + intros oid vid (row & -> & Ho)%Ha. apply negb_false_iff. by apply bool_decide_eq_true.
Qed.

Lemma startup_check_reads w :
  w_integrity_ok w = true → db_wf (w_db w) → reads startup_integrity_check w tt.
Proof.
  intros Hi (Hfk & Ha & Hp)%checks_pass. unfold startup_integrity_check.
  apply reads_fallible. intros w1 Ht.
  apply (reads_bind _ _ _ true); [apply reads_gets; by destruct Ht as (_ & -> & _)|].
  intros w2 Ht2. simpl. assert (Edb : w_db w2 = w_db w) by (destruct Ht2 as (-> & _); apply Ht).
  apply (reads_bind _ _ _ false); [rewrite <-Hfk, <-Edb; apply reads_query|]. intros w3 (E3 & _).
  apply (reads_bind _ _ _ false); [rewrite <-Ha, <-Edb, <-E3; apply reads_query|]. intros w4 (E4 & _).
  apply (reads_bind _ _ _ false); [rewrite <-Hp, <-Edb, <-E3, <-E4; apply reads_query|]. intros. apply reads_ret.
Qed.

Lemma startup_check_ok w w' :
  startup_integrity_check w = (Ok tt, w') → w_integrity_ok w = true ∧ db_wf (w_db w) ∧ ticks w w'.
Proof.
  unfold startup_integrity_check, sbind at 1. destruct (io_fault_ticks w) as (w1 & -> & Ht).
  destruct (env_faults _ _); [done|]. intros (ok & w2 & Ei & E)%sbind_ok. injection Ei as <- <-.
  destruct (w_integrity_ok w1) eqn:Ei; [|done]. simpl in E.
  apply sbind_ok in E as (b1 & w3 & [-> H3]%query_ok & E).
  destruct (foreign_key_violation (w_db w1)) eqn:Efk; [done|].
  apply sbind_ok in E as (b2 & w4 & [-> H4]%query_ok & E). rewrite (proj1 H3) in E.
  destruct (dangling_active_version (w_db w1)) eqn:Ea; [done|].
  apply sbind_ok in E as (b3 & w5 & [-> H5]%query_ok & E). rewrite (proj1 H4), (proj1 H3) in E.
  destruct (dangling_pending_version (w_db w1)) eqn:Ep; [done|]. injection E as <-.
  split_and!.
  - by rewrite <-Ei; destruct Ht as (_ & <- & _).
  - destruct Ht as (<- & _). by apply checks_pass.
  - by etrans; [|etrans; [|etrans]].
Qed.

(** ** Guarantees *)

(** C12: publishing a version is atomic under every fault schedule.  A publication
    that reports success has stored the version row, all its chunks and the new
    active pointer; one that reports an error has changed nothing, or has
    stored all of it (the permission check runs after the commit).  In every
    case the tables satisfy their invariant again and no row stored earlier
    has changed. *)
Theorem publish_atomic path v cs w r w' :
  db_wf (w_db w) → publish path v cs w = (r, w') →
  db_wf (w_db w') ∧ db_extends (w_db w) (w_db w') ∧
  match r with
  | Ok _ => w_db w' = published v cs None (w_db w)
  | Err _ => w_db w' = w_db w ∨ w_db w' = published v cs None (w_db w)
  end.
Proof.
  intros Hwf [[Hr ->]|(Hadm & -> & _)]%publish_cases.
  - destruct r; [done|]. split_and!; [done|done|by left].
  - split; [by apply published_wf|]. split; [by apply published_extends|]. destruct r; auto.
Qed.

(** Staging a witnessed version is atomic under every fault schedule: the
    version, its chunks and the staging mark are stored together or not at
    all.  The objects' active pointers are the same afterwards in every case,
    so a staged version is not visible to readers. *)
Lemma stage_atomic path v cs epoch w r w' :
  db_wf (w_db w) → stage_witness_publication path v cs epoch w = (r, w') →
  db_wf (w_db w') ∧ db_extends (w_db w) (w_db w') ∧ db_objects (w_db w') = db_objects (w_db w) ∧
  match r with
  | Ok _ => w_db w' = staged v cs epoch (w_db w)
  | Err _ => w_db w' = w_db w ∨ w_db w' = staged v cs epoch (w_db w)
  end.
Proof.
  intros Hwf [[Hr ->]|(Hadm & -> & _)]%stage_cases.
  - destruct r; [done|]. split_and!; [done..|by left].
  - split; [by apply staged_wf|]. split; [by apply staged_extends|]. split; [done|]. destruct r; auto.
Qed.

(** Finalising a staged version is atomic under every fault schedule: the
    receipt, the active pointer and the removal of the staging mark take
    effect together or not at all, the receipt names the version and the
    object, and only a version that was staged can be finalised. *)
Lemma finalize_atomic path v row c w r w' :
  db_wf (w_db w) →
  db_versions (w_db w) !! as_bytes (sv_version_id v) = Some row →
  vr_object_id row = as_bytes (sv_object_id v) →
  finalize_witness_publication path v c w = (r, w') →
  db_wf (w_db w') ∧ db_extends (w_db w) (w_db w') ∧
  (w_db w' = w_db w ∧ is_ok r = false ∨
   w_db w' = finalized v c (w_db w) ∧ rc_version_id c = sv_version_id v ∧ rc_object_id c = sv_object_id v ∧
   is_Some (db_pending (w_db w) !! as_bytes (sv_version_id v)) ∧
   db_pending (w_db w') !! as_bytes (sv_version_id v) = None).
Proof.
  intros Hwf Hrow Ho [[Hr ->]|(-> & ? & ? & ? & ? & ? & _)]%finalize_cases.
  - split_and!; [done|done|by left].
  - split; [by eapply finalized_wf|]. split; [by apply finalized_extends|]. right.
    split_and!; try done. simpl. apply lookup_delete_eq.
Qed.

(** C33: the start-up check accepts a database exactly when SQLite reports it
    intact and its tables satisfy the invariant that every publication
    preserves: foreign keys resolve and every active pointer names a version
    of its own object. *)
Theorem startup_check_iff w :
  no_faults w → (startup_integrity_check w).1 = Ok tt ↔ w_integrity_ok w = true ∧ db_wf (w_db w).
Proof.
  intros Hn. split.
  - intros E. destruct (startup_integrity_check w) as [[[]|] w'] eqn:Ec; [|done].
    by apply startup_check_ok in Ec as (? & ? & _).
  - intros [Hi Hwf]. destruct (startup_check_reads w Hi Hwf) as (w' & _ & [->|[_ Hf]]); [done|by destruct Hf].
Qed.

End effects.

(** ** The guarantees on concrete databases *)

Import Toy.

Lemma empty_db_wf : db_wf empty_db.
Proof. split; simpl; intros *; rewrite lookup_empty; done. Qed.

Definition publish_run := publish vault_path stored [chunk] world.

Lemma publish_atomic_witness :
  fst publish_run = Ok tt ∧ w_db (snd publish_run) = published stored [chunk] None empty_db ∧
  db_wf (w_db (snd publish_run)).
Proof.
  destruct (publish_atomic vault_path stored [chunk] world _ _ empty_db_wf (surjective_pairing _)) as (Hwf & _ & Hr).
  split; [by vm_compute|]. split; [exact Hr|exact Hwf].
Defined.

Definition receipt_0 : WitnessReceipt :=
  mkReceipt (mkId (replicate 16 1)) oid vid 1 (replicate 32 2) (replicate 32 3) (replicate 64 4).
Definition staged_world : World := set_db (staged stored [chunk] 0 empty_db) world.

Lemma staged_world_wf : db_wf (w_db staged_world).
Proof.
  apply (checks_pass (w_db staged_world)). by vm_compute.
Qed.

Lemma startup_check_iff_witness :
  (startup_integrity_check staged_world).1 = Ok tt ∧
  (startup_integrity_check (set_db (with_active [1] [2] empty_db) world)).1 ≠ Ok tt.
Proof.
  split.
  - apply startup_check_iff; [done|]. split; [done|apply staged_world_wf].
  - by vm_compute.
Defined.

End StorageSpec.
