(* ===== verification/VaultSpec.v ===== *)
(** * What the vault guarantees

    [stored] says that a database holds a plaintext for an object under a root
    key.  Every publication that succeeds establishes it, every later
    publication of another object keeps it, and a read of such an object
    returns the plaintext: together these refine the vault to a map from
    objects to plaintexts. *)

From S2P Require Import Prelude Format Cde Crypto Witness Fs Storage Vault Toy StorageSpec.
From Stdlib Require Import ZArith Lia.
From stdpp Require Import base numbers list gmap strings sorting.

Open Scope Z_scope.
Open Scope vlt_scope.

#[local] Arguments be_bytes : simpl never.
#[local] Arguments str_bytes : simpl never.

(** A sink that takes everything: what it holds after some bytes more. *)
Class TotalWrite (W : Type) `{Write W} : Type := {
  wrote : W → bytes → W;
  write_all_ok data out : write_all data out = (true, wrote out data);
  wrote_nil out : wrote out [] = out;
  wrote_app out a b : wrote (wrote out a) b = wrote out (a ++ b);
}.

#[global] Program Instance total_write_vec : TotalWrite bytes := { wrote out data := out ++ data }.
Next Obligation. done. Qed.
Next Obligation. intros. apply app_nil_r. Qed.
Next Obligation. intros. symmetry. apply app_assoc. Qed.

#[global] Program Instance total_write_sink : TotalWrite unit := { wrote out _ := out }.
Next Obligation. by intros ? []. Qed.
Next Obligation. done. Qed.
Next Obligation. done. Qed.

Module VaultSpec.
Import StorageSpec.

(** ** Plaintext pieces *)

(** Full pieces, and a last one that is not empty. *)
Fixpoint parts_ok (size : Z) (parts : list bytes) : Prop :=
  match parts with
  | [] => True
  | [p] => 0 < lenZ p ≤ size
  | p :: parts => lenZ p = size ∧ parts_ok size parts
  end.

Lemma lenZ_cons {A} (x : A) l : lenZ (x :: l) = lenZ l + 1.
Proof. unfold lenZ. simpl. lia. Qed.

Lemma lenZ_take (n : Z) (l : bytes) : 0 ≤ n → lenZ (takeZ n l) = Z.min n (lenZ l).
Proof. intros. unfold lenZ. rewrite takeZ_take, length_take. lia. Qed.

Lemma lenZ_drop (n : Z) (l : bytes) : 0 ≤ n → lenZ (dropZ n l) = Z.max 0 (lenZ l - n).
Proof. intros. unfold lenZ. rewrite dropZ_drop, length_drop. lia. Qed.

Lemma slice_chunks_parts size pt : 0 < size → parts_ok size (slice_chunks size pt) ∧ concat (slice_chunks size pt) = pt.
Proof.
  intros Hs. remember (length pt) as n eqn:Hn. revert pt Hn.
  induction (lt_wf n) as [n _ IH]. intros pt Hn.
  destruct pt as [|b pt]; [done|]. rewrite slice_chunks_cons by done.
  pose proof (lenZ_drop size (b :: pt)) as Hd. pose proof (lenZ_take size (b :: pt)) as Ht.
  destruct (IH (length (dropZ size (b :: pt)))) with (pt := dropZ size (b :: pt)) as [Hp Hc];
    [unfold lenZ in *; simpl length in *; lia|done|].
  cbn [concat]. rewrite Hc. split.
  - unfold parts_ok; fold parts_ok. destruct (slice_chunks size (dropZ size (b :: pt))) eqn:Esc.
    + unfold lenZ in *. simpl length in *. lia.
    + split; [|done]. assert (dropZ size (b :: pt) ≠ []) as Hne by (intros E0; by rewrite E0 in Esc).
      assert (0 < lenZ (dropZ size (b :: pt))) by (destruct (dropZ size (b :: pt)); [done|unfold lenZ; simpl; lia]).
      lia.
  - rewrite takeZ_take, dropZ_drop. apply take_drop.
Qed.

Lemma div_ceil_spec a b : 0 < b → 0 < a → Vault.div_ceil a b = if a <=? b then 1 else 1 + Vault.div_ceil (a - b) b.
Proof.
  intros. unfold Vault.div_ceil. destruct (Z.leb_spec a b).
  - symmetry. apply Z.div_unique with (a - 1); lia.
  - replace (a + b - 1) with (a - b + b - 1 + 1 * b) by lia. rewrite Z.div_add by lia. lia.
Qed.

Lemma slice_chunks_count size (pt : bytes) :
  0 < size → lenZ (slice_chunks size pt) = if bool_decide (pt = []) then 0 else Vault.div_ceil (lenZ pt) size.
Proof.
  intros Hs. remember (length pt) as n eqn:Hn. revert pt Hn.
  induction (lt_wf n) as [n _ IH]. intros pt Hn.
  destruct pt as [|b pt]; [done|]. rewrite slice_chunks_cons, bool_decide_eq_false_2 by done.
  pose proof (lenZ_drop size (b :: pt)) as Hd. rewrite lenZ_cons.
  rewrite (IH (length (dropZ size (b :: pt)))); [|unfold lenZ in *; simpl length in *; lia|done].
  rewrite (div_ceil_spec (lenZ (b :: pt))); [|done|unfold lenZ; simpl; lia].
  destruct (Z.leb_spec (lenZ (b :: pt)) size).
  - rewrite bool_decide_eq_true_2; [done|]. apply length_zero_iff_nil. unfold lenZ in *. lia.
  - rewrite bool_decide_eq_false_2; [|intros E0; rewrite E0 in Hd; unfold lenZ in *; simpl in *; lia].
    rewrite Hd by lia. rewrite Z.max_r by lia. lia.
Qed.

Section spec.
Context `{PrimitivesOk}.

(** ** Sealed versions *)

(** The chunks of consecutive indices from [i] open to the given pieces. *)
Inductive sealed_parts (key : bytes) (aad : Z → Z → bytes) : Z → list bytes → list EncryptedChunk → Prop :=
| sealed_nil i : sealed_parts key aad i [] []
| sealed_cons i p ps c cs :
    chunk_index c = i → length (nonce (chunk_record c)) = 12%nat →
    Crypto.open key (aad i (lenZ p)) (chunk_record c) = Ok p →
    sealed_parts key aad (i + 1) ps cs → sealed_parts key aad i (p :: ps) (c :: cs).

Definition version_manifest (v : StoredVersion) (cs : list EncryptedChunk) : Manifest :=
  mkManifest FORMAT_VERSION (sv_object_id v) (sv_version_id v) (sv_plaintext_len v) (sv_chunk_size v)
    (sv_chunk_count v) (Crypto.digest_finalize (Crypto.digest_chunks Crypto.digest_new cs)).

(** A version and its chunks are an encryption of [pt] for the vault. *)
Record seals (vault : VaultId) (root_key : bytes) (v : StoredVersion) (cs : list EncryptedChunk) (pt : bytes) : Prop := {
  seals_wf_ids : wf_id vault ∧ wf_id (sv_object_id v) ∧ wf_id (sv_version_id v);
  seals_keys : ∃ kek dek mkey,
    Crypto.derive_kek root_key vault = Ok kek ∧
    Crypto.open kek (Crypto.wrapped_dek_aad vault (sv_object_id v) (sv_version_id v)) (sv_wrapped_dek v) = Ok dek ∧
    length dek = 32%nat ∧
    Crypto.derive_manifest_key dek (sv_version_id v) = Ok mkey ∧
    Crypto.open mkey (Crypto.manifest_aad vault (sv_object_id v) (sv_version_id v)) (sv_manifest v) =
      Ok (Cde.encode_manifest (version_manifest v cs)) ∧
    ∃ parts, parts_ok (sv_chunk_size v) parts ∧ concat parts = pt ∧
      sealed_parts dek (Crypto.chunk_aad vault (sv_object_id v) (sv_version_id v)) 0 parts cs;
  seals_nonces : length (nonce (sv_wrapped_dek v)) = 12%nat ∧ length (nonce (sv_manifest v)) = 12%nat;
  seals_len : sv_plaintext_len v = lenZ pt ∧ lenZ pt ≤ i64_max;
  seals_size : 0 < sv_chunk_size v ≤ u32_max;
  seals_count : sv_chunk_count v = lenZ cs ∧ lenZ cs ≤ Vault.MAX_CHUNKS_PER_VERSION;
}.

(** The receipt a version may have is one that the read path accepts. *)
Definition receipt_valid (vault : VaultId) (v : StoredVersion) (o : option ReceiptRow) : Prop :=
  match o with
  | None => True
  | Some row => ∃ r, Storage.receipt_of_row (as_bytes (sv_version_id v)) row = Ok r ∧
      Witness.verify_request r (Witness.request_new vault (sv_object_id v) (sv_version_id v) (sv_manifest v)) = Ok tt
  end.

(** The rows of a version are in the tables, and no other chunk of it. *)
Record version_in (vault : VaultId) (v : StoredVersion) (cs : list EncryptedChunk) (db : Db) : Prop := {
  vin_row : db_versions db !! as_bytes (sv_version_id v) = Some (Storage.version_row v (sv_plaintext_len v));
  vin_chunks i r : db_chunks db !! (as_bytes (sv_version_id v), i) = Some r ↔
    ∃ c, c ∈ cs ∧ chunk_index c = i ∧ row_of_chunk c = r;
  vin_receipt : receipt_valid vault v (db_receipts db !! as_bytes (sv_version_id v));
}.

Definition stored (vault : VaultId) (root_key : bytes) (db : Db) (o : ObjectId) (pt : bytes) : Prop :=
  ∃ v cs, sv_object_id v = o ∧ db_objects db !! as_bytes o = Some (as_bytes (sv_version_id v)) ∧
    version_in vault v cs db ∧ seals vault root_key v cs pt.

(** ** Reading computations on the vault's state *)

Definition op_reads {X A} (m : Op X A) (v : Vault) (w : World) (x : X) (a : A) (x' : X) : Prop :=
  ∃ w', ticks w w' ∧
    (m ((v, w), x) = (Ok a, ((v, w'), x')) ∨
     (∃ x'', m ((v, w), x) = (Err Storage, ((v, w'), x''))) ∧ ¬ no_faults w).

Lemma op_reads_bind {X A B} (m : Op X A) (k : A → Op X B) v w x a x1 b x2 :
  op_reads m v w x a x1 → (∀ w', ticks w w' → op_reads (k a) v w' x1 b x2) → op_reads (sbind m k) v w x b x2.
Proof.
  intros (w1 & Ht & [E|[[x'' E] Hf]]) Hk; unfold sbind, op_reads; rewrite E.
  - destruct (Hk w1 Ht) as (w2 & Ht2 & H2). exists w2. split; [by etrans|].
    by rewrite (ticks_no_faults _ _ Ht) in H2.
  - exists w1. split; [done|]. right. eauto.
Qed.

Lemma op_reads_ret {X A} (a : A) v w (x : X) : op_reads (sret a) v w x a x.
Proof. exists w. split; [done|by left]. Qed.

Lemma op_reads_lift {X A} (r : Result A) v w (x : X) a : r = Ok a → op_reads (slift r) v w x a x.
Proof. intros ->. apply (op_reads_ret a). Qed.

Lemma op_reads_vault {X} v w (x : X) : op_reads Vault.the_vault v w x v x.
Proof. exists w. split; [done|by left]. Qed.

Lemma op_reads_root_key {X} v w (x : X) k : v_root_key v = Some k → op_reads Vault.require_root_key v w x k x.
Proof. intros Hk. exists w. split; [done|]. left. cbn. by rewrite Hk. Qed.

Lemma op_reads_world {X A} (m : IO A) v w (x : X) a : reads m w a → op_reads (Vault.on_world m) v w x a x.
Proof.
  intros (w1 & Ht & [E|[E Hf]]); exists w1; (split; [done|]); unfold Vault.on_world, szoom; simpl; rewrite E; eauto.
Qed.

(** ** Visiting stored chunks *)

(** The state a visitor reaches after accepting every chunk. *)
Inductive visits {A} (visit : EncryptedChunk → M A VaultError unit) : list EncryptedChunk → A → A → Prop :=
| visits_nil a : visits visit [] a a
| visits_cons c cs a b d : visit c a = (Ok tt, b) → visits visit cs b d → visits visit (c :: cs) a d.

Definition row_pair (c : EncryptedChunk) : Z * ChunkRow := (chunk_index c, row_of_chunk c).

Lemma chunk_of_row_pair c :
  0 ≤ chunk_index c ≤ u32_max → length (nonce (chunk_record c)) = 12%nat →
  Storage.chunk_of_row (chunk_index c) (row_of_chunk c) = Ok c.
Proof.
  intros Hi Hn. unfold Storage.chunk_of_row, Sql.u32_of_sql, Storage.bytes12.
  destruct (Z.leb_spec 0 (chunk_index c)), (Z.leb_spec (chunk_index c) u32_max); try lia. simpl.
  rewrite (proj2 (fixed_array_some _ _ _) (conj eq_refl Hn)). simpl. by destruct c as [? []].
Qed.

Lemma visit_rows_step {A} (visit : EncryptedChunk → M A VaultError unit) rows w a :
  ∃ w1, ticks w w1 ∧
    ((Storage.visit_rows rows visit (w, a) = (Err Storage, (w1, a)) ∧ ¬ no_faults w) ∨
     Storage.visit_rows rows visit (w, a) =
       match rows with
       | [] => (Ok tt, (w1, a))
       | (index, row) :: rows =>
           (let* chunk := slift (Storage.chunk_of_row index row) in
            szoom snd (λ a s, (s.1, a)) (visit chunk) ;* Storage.visit_rows rows visit) (w1, a)
       end).
Proof.
  destruct (io_fault_ticks w) as (w1 & E & Ht). exists w1. split; [done|].
  destruct (env_faults _ _) eqn:Ef; [left; split; [|intros Hn; by rewrite Hn in Ef]|right];
    destruct rows as [|[i r] rows]; cbn [Storage.visit_rows]; unfold sbind at 1, szoom at 1; cbn [fst snd];
    by rewrite E.
Qed.

Lemma visit_rows_reads {A} (visit : EncryptedChunk → M A VaultError unit) cs a b w :
  Forall (λ c, 0 ≤ chunk_index c ≤ u32_max ∧ length (nonce (chunk_record c)) = 12%nat) cs → visits visit cs a b →
  ∃ w', ticks w w' ∧ (Storage.visit_rows (row_pair <$> cs) visit (w, a) = (Ok tt, (w', b)) ∨
    (∃ a', Storage.visit_rows (row_pair <$> cs) visit (w, a) = (Err Storage, (w', a'))) ∧ ¬ no_faults w).
Proof.
  intros Hcs Hv. revert w. induction Hv as [a|c cs a b d Hc Hv IH]; intros w;
    (match goal with |- context [Storage.visit_rows ?rows] =>
       destruct (visit_rows_step visit rows w a) as (w1 & Ht & [[E Hf]|E]) end;
     [exists w1; split; [done|]; right; eauto|]).
  - exists w1. split; [done|]. by left.
  - apply Forall_cons in Hcs as [[Hi Hn] Hcs]. destruct (IH Hcs w1) as (w2 & Ht2 & H2).
    exists w2. split; [by etrans|]. rewrite (ticks_no_faults _ _ Ht) in H2. rewrite E. cbn [fmap list_fmap row_pair].
    unfold sbind, slift, szoom. rewrite chunk_of_row_pair by done. cbn [fst snd]. by rewrite Hc.
Qed.

Lemma visiting_reads {X A} (init : X → A) back (visit : EncryptedChunk → M A VaultError unit) vid cs v w x b :
  StronglySorted Sql.index_le (row_pair <$> cs) → NoDup (chunk_index <$> cs) →
  Forall (λ c, 0 ≤ chunk_index c ≤ u32_max ∧ length (nonce (chunk_record c)) = 12%nat) cs →
  (∀ i r, db_chunks (w_db w) !! (as_bytes vid, i) = Some r ↔ ∃ c, c ∈ cs ∧ chunk_index c = i ∧ row_of_chunk c = r) →
  visits visit cs (init x) b →
  op_reads (Vault.visiting init back (Storage.visit_chunks vid visit)) v w x b (back b x).
Proof.
  intros Hs Hnd Hf Hrows Hv.
  assert (Sql.select_chunks (as_bytes vid) (w_db w) = row_pair <$> cs) as Esel.
  { apply select_chunks_spec; [done| |].
    - rewrite <-list_fmap_compose. done.
    - intros i r. rewrite Hrows, list_elem_of_fmap. unfold row_pair. naive_solver. }
  unfold op_reads, Vault.visiting, Storage.visit_chunks, sbind, szoom. cbn [fst snd].
  destruct (reads_query (Sql.select_chunks (as_bytes vid)) w) as (w1 & Ht & [E|[E Hfl]]); rewrite E.
  - rewrite Esel. destruct (visit_rows_reads visit cs (init x) b w1 Hf Hv) as (w2 & Ht2 & [E2|[[a' E2] Hfl]]).
    + exists w2. split; [by etrans|]. left. by rewrite E2.
    + exists w2. split; [by etrans|]. right. rewrite E2. split; [eexists; reflexivity|].
      by rewrite <-(ticks_no_faults _ _ Ht).
  - exists w1. split; [done|]. right. split; [eexists; reflexivity|done].
Qed.

(** ** Reading a stored object *)

Lemma sealed_parts_length key aad i parts cs : sealed_parts key aad i parts cs → length parts = length cs.
Proof. induction 1; simpl; congruence. Qed.

Lemma sealed_parts_indices key aad i parts cs :
  sealed_parts key aad i parts cs → Forall (λ c, i ≤ chunk_index c < i + lenZ cs) cs.
Proof.
  induction 1 as [|i p ps c cs Hi Hn Ho Hs IH]; constructor; rewrite lenZ_cons; pose proof (lenZ_nonneg cs).
  - lia.
  - eapply Forall_impl; [exact IH|]. simpl. lia.
Qed.

Lemma sealed_parts_sorted key aad i parts cs :
  sealed_parts key aad i parts cs → StronglySorted Sql.index_le (row_pair <$> cs) ∧ NoDup (chunk_index <$> cs).
Proof.
  induction 1 as [|i p ps c cs Hi Hn Ho Hs [IH1 IH2]]; simpl; [by repeat constructor|].
  pose proof (sealed_parts_indices _ _ _ _ _ Hs) as Hr. rewrite Forall_forall in Hr. split.
  - constructor; [done|]. apply Forall_fmap, Forall_forall. intros d Hd%Hr. unfold Sql.index_le. simpl. lia.
  - constructor; [|done]. intros (d & E & Hd%Hr)%list_elem_of_fmap. lia.
Qed.

Lemma sealed_parts_valid key aad i parts cs :
  0 ≤ i → i + lenZ cs ≤ u32_max → sealed_parts key aad i parts cs →
  Forall (λ c, 0 ≤ chunk_index c ≤ u32_max ∧ length (nonce (chunk_record c)) = 12%nat) cs.
Proof.
  intros Hi0 Hb Hs. induction Hs as [|i p ps c cs Hi Hn Ho Hs IH]; constructor;
    rewrite lenZ_cons in *; pose proof (lenZ_nonneg cs); [split; [lia|done]|apply IH; lia].
Qed.

Lemma digest_visits key aad i parts cs b :
  sealed_parts key aad i parts cs → i + lenZ cs ≤ u32_max →
  visits Vault.digest_visitor cs (b, i) (Crypto.digest_chunks b cs, i + lenZ cs).
Proof.
  intros Hs. revert b. induction Hs as [i|i p ps c cs Hi Hn Ho Hs IH]; intros b Hb.
  - replace (i + lenZ (@nil EncryptedChunk)) with i by (unfold lenZ; simpl; lia). constructor.
  - rewrite lenZ_cons in *. pose proof (lenZ_nonneg cs). econstructor.
    + unfold Vault.digest_visitor. rewrite Hi, Z.eqb_refl. simpl.
      rewrite (proj2 (u32_checked_add_some i 1 (i + 1))) by lia. reflexivity.
    + replace (i + (lenZ cs + 1)) with (i + 1 + lenZ cs) by lia. rewrite <-Hi at 1. apply IH. lia.
Qed.

Lemma expected_len_part m i p ps :
  parts_ok (chunk_size m) (p :: ps) → 0 ≤ i → 0 < chunk_size m ≤ u32_max →
  chunk_count m = i + lenZ (p :: ps) → plaintext_len m = i * chunk_size m + lenZ (concat (p :: ps)) →
  Vault.expected_plaintext_chunk_len m i = Ok (lenZ p).
Proof.
  intros Hp Hi Hs Hc Hl. unfold Vault.expected_plaintext_chunk_len. rewrite lenZ_cons in Hc.
  pose proof (lenZ_nonneg ps). destruct (Z.leb_spec (chunk_count m) i); [lia|].
  destruct ps as [|q ps].
  - simpl in Hp. unfold lenZ at 1 in Hc. simpl in Hc. destruct (Z.ltb_spec (i + 1) (chunk_count m)); [lia|].
    simpl in Hl. rewrite app_nil_r in Hl. unfold u64_checked_sub. replace (chunk_count m - 1) with i by lia.
    destruct (Z.leb_spec (chunk_size m * i) (plaintext_len m)); [|lia]. simpl.
    replace (plaintext_len m - chunk_size m * i) with (lenZ p) by lia. by rewrite u32_try_from_ok by (unfold is_u32; lia).
  - rewrite lenZ_cons in Hc. pose proof (lenZ_nonneg ps). destruct (Z.ltb_spec (i + 1) (chunk_count m)); [|lia].
    simpl in Hp. by destruct Hp as [-> _].
Qed.

Lemma parts_ok_tail size p ps : parts_ok size (p :: ps) → parts_ok size ps.
Proof. destruct ps; [done|]. by intros [_ ?]. Qed.

Lemma write_visits `{TotalWrite W} vault o x m key i parts cs n (out : W) :
  sealed_parts key (Crypto.chunk_aad vault o x) i parts cs →
  parts_ok (chunk_size m) parts → 0 ≤ i → 0 < chunk_size m ≤ u32_max → chunk_count m = i + lenZ parts →
  (parts ≠ [] → plaintext_len m = i * chunk_size m + lenZ (concat parts)) → n + lenZ (concat parts) ≤ u64_max →
  visits (Vault.write_visitor vault o x m key) cs (n, out) (n + lenZ (concat parts), wrote out (concat parts)).
Proof.
  intros Hs. revert n out. induction Hs as [i|i p ps c cs Hi Hn Ho Hs IH]; intros n out Hp Hi0 Hsz Hc Hl Hu.
  - simpl. rewrite wrote_nil. replace (n + lenZ (@nil Z)) with n by (unfold lenZ; simpl; lia). constructor.
  - specialize (Hl ltac:(done)). pose proof (expected_len_part m i p ps Hp Hi0 Hsz Hc Hl) as He.
    simpl in Hl, Hu |- *. rewrite lenZ_app in Hl, Hu |- *. pose proof (lenZ_nonneg (concat ps)). econstructor.
    + unfold Vault.write_visitor, sbind, slift. rewrite Hi, He, Ho, Z.eqb_refl. simpl.
      rewrite write_all_ok. simpl. rewrite (proj2 (u64_checked_add_some n (lenZ p) (n + lenZ p))) by lia. reflexivity.
    + rewrite <-wrote_app, Z.add_assoc. rewrite lenZ_cons in Hc.
      destruct ps as [|q ps].
      * apply IH; try done; lia.
      * destruct Hp as [Hp1 Hp]. apply IH; try done; try lia.
Qed.

Lemma version_manifest_wf vault root_key v cs pt :
  seals vault root_key v cs pt → wf_manifest (version_manifest v cs).
Proof.
  intros [(_ & Ho & Hv) _ _ [Hl Hl'] Hs [Hc Hc']]. pose proof (lenZ_nonneg pt). pose proof (lenZ_nonneg cs).
  unfold wf_manifest, is_u32, is_u64, i64_max, u64_max, u32_max, Vault.MAX_CHUNKS_PER_VERSION in *.
  change (Z.shiftl 1 24) with 16777216 in *. simpl. rewrite Hl, Hc.
  split_and!; try done; try lia; [apply sha256_length|apply sha256_wf].
Qed.

Lemma version_of_row_ok v :
  wf_id (sv_object_id v) → wf_id (sv_version_id v) → length (nonce (sv_wrapped_dek v)) = 12%nat →
  length (nonce (sv_manifest v)) = 12%nat → 0 ≤ sv_plaintext_len v → 0 ≤ sv_chunk_size v ≤ u32_max →
  0 ≤ sv_chunk_count v ≤ u32_max →
  Storage.version_of_row (as_bytes (sv_version_id v)) (Storage.version_row v (sv_plaintext_len v)) = Ok v.
Proof.
  intros Ho Hv Hd Hm Hl Hs Hc. unfold Storage.version_of_row, Sql.u64_of_sql, Sql.u32_of_sql, Storage.bytes12. simpl.
  destruct (Z.leb_spec 0 (sv_plaintext_len v)); [|lia]. simpl.
  destruct (Z.leb_spec 0 (sv_chunk_size v)), (Z.leb_spec (sv_chunk_size v) u32_max); try lia. simpl.
  destruct (Z.leb_spec 0 (sv_chunk_count v)), (Z.leb_spec (sv_chunk_count v) u32_max); try lia. simpl.
  rewrite !from_slice_as_bytes by done. simpl.
  rewrite (proj2 (fixed_array_some _ _ _) (conj eq_refl Hd)), (proj2 (fixed_array_some _ _ _) (conj eq_refl Hm)). simpl.
  by destruct v as [? ? [] [] ? ? ?].
Qed.

Lemma version_row_of_seals vault root_key v cs pt :
  seals vault root_key v cs pt →
  Storage.version_of_row (as_bytes (sv_version_id v)) (Storage.version_row v (sv_plaintext_len v)) = Ok v.
Proof.
  intros [(_ & Ho & Hv) _ [? ?] [Hl Hl'] Hs [Hc Hc']]. pose proof (lenZ_nonneg pt). pose proof (lenZ_nonneg cs).
  unfold Vault.MAX_CHUNKS_PER_VERSION, u32_max in *. change (Z.shiftl 1 24) with 16777216 in *.
  apply version_of_row_ok; try done; unfold u32_max; lia.
Qed.

Lemma version_reads w v :
  db_versions (w_db w) !! as_bytes (sv_version_id v) = Some (Storage.version_row v (sv_plaintext_len v)) →
  Storage.version_of_row (as_bytes (sv_version_id v)) (Storage.version_row v (sv_plaintext_len v)) = Ok v →
  reads (Storage.version (sv_version_id v)) w v.
Proof.
  intros Hrow Hv. unfold Storage.version. eapply reads_bind; [apply reads_query|]. intros w' _.
  apply reads_lift. by rewrite Hrow.
Qed.

Lemma active_version_reads w o v :
  db_objects (w_db w) !! as_bytes o = Some (as_bytes (sv_version_id v)) → wf_id (sv_version_id v) →
  db_versions (w_db w) !! as_bytes (sv_version_id v) = Some (Storage.version_row v (sv_plaintext_len v)) →
  Storage.version_of_row (as_bytes (sv_version_id v)) (Storage.version_row v (sv_plaintext_len v)) = Ok v →
  reads (Storage.active_version o) w v.
Proof.
  intros Ho Hid Hrow Hv. unfold Storage.active_version.
  eapply reads_bind; [apply reads_query|]. intros w1 H1. rewrite Ho.
  eapply reads_bind; [by apply reads_lift|]. intros w2 H2.
  eapply reads_bind; [by apply reads_lift, from_slice_as_bytes|]. intros w3 H3.
  apply version_reads; [|done]. destruct H1 as (E1 & _), H2 as (E2 & _), H3 as (E3 & _). by rewrite E3, E2, E1.
Qed.

Lemma receipt_reads w vault v :
  receipt_valid vault v (db_receipts (w_db w) !! as_bytes (sv_version_id v)) →
  ∃ r, reads (Storage.receipt (sv_version_id v)) w r ∧
    match r with
    | Some r => Witness.verify_request r (Witness.request_new vault (sv_object_id v) (sv_version_id v) (sv_manifest v))
    | None => Ok tt
    end = Ok tt.
Proof.
  intros Hr. unfold receipt_valid in Hr. destruct (db_receipts (w_db w) !! _) as [row|] eqn:E.
  - destruct Hr as (r & Hrow & Hv). exists (Some r). split; [|done]. unfold Storage.receipt.
    eapply reads_bind; [apply reads_query|]. intros w1 _. apply reads_lift. by rewrite E, Hrow.
  - exists None. split; [|done]. unfold Storage.receipt.
    eapply reads_bind; [apply reads_query|]. intros w1 _. apply reads_lift. by rewrite E.
Qed.

(** A read of a stored object delivers its plaintext; only an injected fault
    can prevent it, and then the error is [Storage]. *)
Lemma get_to_writer_reads `{TotalWrite W} v w (out : W) root_key o pt :
  v_root_key v = Some root_key → stored (v_vault_id v) root_key (w_db w) o pt →
  op_reads (Vault.get_to_writer_inner o) v w out tt (wrote out pt).
Proof.
  intros Hroot (sv & cs & Ho & Hact & [Hrow Hchunks Hrec] & Hseals).
  pose proof (version_manifest_wf _ _ _ _ _ Hseals) as Hwfm. pose proof (version_row_of_seals _ _ _ _ _ Hseals) as Hvr.
  destruct Hseals as [(Hwv & Hwo & Hwx) (kek & dek & mkey & Hkek & Hdek & Hd32 & Hmk & Hman & parts & Hparts & Hpt & Hsp)
    [Hn1 Hn2] [Hl Hl'] Hs [Hc Hc']].
  assert (lenZ parts = lenZ cs) as Hlp by (unfold lenZ; by rewrite (sealed_parts_length _ _ _ _ _ Hsp)).
  assert (Hmax : lenZ cs ≤ u32_max) by (unfold Vault.MAX_CHUNKS_PER_VERSION, u32_max in *;
    change (Z.shiftl 1 24) with 16777216 in *; lia).
  destruct (sealed_parts_sorted _ _ _ _ _ Hsp) as [Hsort Hnd].
  assert (Forall (λ c, 0 ≤ chunk_index c ≤ u32_max ∧ length (nonce (chunk_record c)) = 12%nat) cs) as Hval
    by (eapply sealed_parts_valid; [| |exact Hsp]; lia).
  unfold Vault.get_to_writer_inner.
  eapply op_reads_bind; [by apply op_reads_root_key|]. intros w1 T1.
  assert (E1 : w_db w1 = w_db w) by apply T1.
  eapply op_reads_bind; [apply op_reads_world, active_version_reads; rewrite ?E1; done|]. intros w2 T2.
  assert (E2 : w_db w2 = w_db w) by (destruct T2 as (-> & _); done).
  rewrite bool_decide_eq_true_2 by done. simpl negb. cbv iota.
  eapply op_reads_bind; [apply op_reads_vault|]. intros w3 T3. cbv zeta. rewrite <-Ho.
  eapply op_reads_bind; [by apply op_reads_lift|]. intros w4 T4.
  eapply op_reads_bind; [by apply op_reads_lift|]. intros w5 T5.
  eapply op_reads_bind; [apply op_reads_lift, ok_or_ok, fixed_array_some; done|]. intros w6 T6.
  eapply op_reads_bind; [by apply op_reads_lift|]. intros w7 T7.
  eapply op_reads_bind; [by apply op_reads_lift|]. intros w8 T8.
  eapply op_reads_bind; [by apply op_reads_lift, Cde.decode_encode_manifest|]. intros w9 T9.
  eapply op_reads_bind.
  { apply op_reads_lift. unfold Vault.validate_manifest_binding, version_manifest. simpl.
    rewrite !bool_decide_eq_true_2, !Z.eqb_refl by done. simpl.
    destruct (Z.eqb_spec (sv_chunk_size sv) 0); [lia|]. 
    destruct (Z.ltb_spec Vault.MAX_CHUNKS_PER_VERSION (sv_chunk_count sv)); [lia|]. reflexivity. }
  intros w10 T10.
  assert (E10 : w_db w10 = w_db w) by (destruct T3 as (?&_), T4 as (?&_), T5 as (?&_), T6 as (?&_), T7 as (?&_),
    T8 as (?&_), T9 as (?&_), T10 as (?&_); congruence).
  rewrite <-E10 in Hrec. destruct (receipt_reads _ _ _ Hrec) as (r & Hr & Hvr').
  eapply op_reads_bind; [by apply op_reads_world|]. intros w11 T11.
  eapply op_reads_bind; [by apply op_reads_lift|]. intros w12 T12.
  assert (E12 : w_db w12 = w_db w) by (destruct T11 as (?&_), T12 as (?&_); congruence).
  eapply op_reads_bind.
  { eapply visiting_reads; [done|done|done|by rewrite E12|]. eapply digest_visits; [done|lia]. }
  intros w13 T13. assert (E13 : w_db w13 = w_db w) by (destruct T13 as (?&_); congruence).
  rewrite Z.add_0_l. cbn [chunk_count chunk_digest plaintext_len version_manifest]. rewrite Hc, Z.eqb_refl, bool_decide_eq_true_2 by done. cbv [negb].
  eapply op_reads_bind.
  { eapply visiting_reads; [done|done|done|by rewrite E13|].
    apply (write_visits _ _ _ (version_manifest sv cs) dek 0 parts); try done; simpl; try lia; rewrite Hpt; [intros _; lia|].
    unfold i64_max, u64_max in *. lia. }
  intros w14 T14. cbn [fst snd]. rewrite Z.add_0_l, Hpt, Hl, Z.eqb_refl. apply op_reads_ret.
Qed.

(** ** Computations that leave the vault, the tables and the argument alone *)

Definition frames {X A} (m : Op X A) : Prop :=
  ∀ s r s', m s = (r, s') → s'.1.1 = s.1.1 ∧ w_db s'.1.2 = w_db s.1.2 ∧ s'.2 = s.2.

Lemma frames_lift {X A} (r : Result A) : frames (X:=X) (slift r).
Proof. by intros s r' s' [= <- <-]. Qed.
Lemma frames_ret {X A} (a : A) : frames (X:=X) (sret a).
Proof. by intros s r' s' [= <- <-]. Qed.
Lemma frames_throw {X A} e : frames (X:=X) (A:=A) (sthrow e).
Proof. by intros s r' s' [= <- <-]. Qed.
Lemma frames_vault {X} : frames (X:=X) Vault.the_vault.
Proof. by intros s r' s' [= <- <-]. Qed.
Lemma frames_bind {X A B} (m : Op X A) (k : A → Op X B) : frames m → (∀ a, frames (k a)) → frames (sbind m k).
Proof.
  intros Hm Hk s r s'. unfold sbind. destruct (m s) as [[a|e] s1] eqn:E; apply Hm in E as (?&?&?).
  - intros (?&?&?)%Hk. split_and!; congruence.
  - by intros [= <- <-].
Qed.
Lemma frames_random {X A} (m : M Rng VaultError A) : frames (X:=X) (Vault.random m).
Proof.
  intros [[v w] x] r s'. unfold Vault.random, Vault.on_world, in_rng, szoom. simpl.
  destruct (m (w_rng w)) as [r1 rng1]. by intros [= <- <-].
Qed.
Lemma frames_root_key {X} : frames (X:=X) Vault.require_root_key.
Proof. apply frames_bind; [apply frames_vault|]. intros. apply frames_lift. Qed.
Lemma frames_reads {X A} (m : IO A) : (∀ w r w', m w = (r, w') → w_db w' = w_db w) → frames (X:=X) (Vault.on_world m).
Proof.
  intros Hm [[v w] x] r s'. unfold Vault.on_world, szoom. simpl.
  destruct (m w) as [r1 w1] eqn:E. apply Hm in E. by intros [= <- <-].
Qed.

Create HintDb frames discriminated.
#[local] Hint Resolve frames_lift frames_ret frames_throw frames_vault frames_random frames_root_key : frames.

Ltac frames :=
  repeat (match goal with
          | |- frames (sbind _ _) => apply frames_bind; [|intros ?]
          | |- frames (if ?b then _ else _) => destruct b
          | |- frames (let '(_, _) := ?p in _) => destruct p
          end; cbv beta zeta); auto with frames.

Lemma frames_seal_chunks {X} vault o x key i parts digest :
  frames (X:=X) (Vault.seal_chunks vault o x key i parts digest).
Proof. revert i digest. induction parts as [|p parts IH]; intros i digest; simpl; frames. Qed.

Lemma frames_prepare {X} o pt size : frames (X:=X) (Vault.prepare_version o pt size).
Proof. unfold Vault.prepare_version. frames. apply frames_seal_chunks. Qed.

(** ** Preparing a version *)

Lemma random_ok {X A} (m : M Rng VaultError A) (s : VS X) a s' :
  Vault.random m s = (Ok a, s') → ∃ g g', m g = (Ok a, g').
Proof.
  unfold Vault.random, Vault.on_world, in_rng, szoom. destruct (m (w_rng s.1.2)) as [r g] eqn:E.
  intros [= -> _]. eauto.
Qed.

Lemma random_id_ok {k E} g (i : Identifier k) g' : random_id (E:=E) g = (Ok i, g') → wf_id i.
Proof.
  unfold random_id. intros (bs & g1 & Hb%Crypto.fill_bytes_length & [= <- <-])%sbind_ok. exact Hb.
Qed.

Lemma seal_chunks_ok {X} vault o x key i parts digest (s : VS X) cs digest' s' :
  Vault.seal_chunks vault o x key i parts digest s = (Ok (cs, digest'), s') →
  sealed_parts key (Crypto.chunk_aad vault o x) i parts cs ∧ digest' = Crypto.digest_chunks digest cs.
Proof.
  revert i digest s cs digest' s'. induction parts as [|p parts IH]; intros i digest s cs digest' s'; simpl.
  { intros [= <- <- <-]. split; [constructor|done]. }
  intros (idx & s1 & E1 & E)%sbind_ok. injection E1 as E1 <-. apply ok_or_ok, u32_try_from_some in E1 as [<- _].
  apply sbind_ok in E as (len & s2 & E2 & E). injection E2 as E2 <-. apply ok_or_ok, u32_try_from_some in E2 as [<- _].
  apply sbind_ok in E as (rec & s3 & (g & g' & Eg)%random_ok & E).
  apply sbind_ok in E as ([cs1 d1] & s4 & E4 & E). injection E as <- <- <-. apply IH in E4 as [Hs ->].
  split; [|done]. constructor; [done| | |done]; simpl.
  - by apply Crypto.seal_ok in Eg as (_ & ? & _).
  - by eapply Crypto.open_seal.
Qed.

Lemma require_root_key_ok {X} (s : VS X) k s' :
  Vault.require_root_key s = (Ok k, s') → v_root_key s.1.1 = Some k ∧ s' = s.
Proof. unfold Vault.require_root_key. cbn. intros [= E <-]. by apply ok_or_ok in E. Qed.

Lemma max_chunks_u32 n : n ≤ Vault.MAX_CHUNKS_PER_VERSION → n ≤ u32_max.
Proof. unfold Vault.MAX_CHUNKS_PER_VERSION, u32_max. change (Z.shiftl 1 24) with 16777216. lia. Qed.

Lemma prepare_ok {X} o pt size (s : VS X) sv cs s' :
  wf_id o → wf_id (v_vault_id s.1.1) → 0 ≤ size →
  Vault.prepare_version o pt size s = (Ok (sv, cs), s') →
  sv_object_id sv = o ∧ sv_plaintext_len sv = lenZ pt ∧ wf_id (sv_version_id sv) ∧
  ∃ root_key, v_root_key s.1.1 = Some root_key ∧
    (lenZ pt ≤ i64_max → seals (v_vault_id s.1.1) root_key sv cs pt).
Proof.
  intros Hwo Hwv Hsz. unfold Vault.prepare_version. intros (root & s1 & [Hroot ->]%require_root_key_ok & E)%sbind_ok.
  destruct (Z.eqb_spec size 0); [done|].
  apply sbind_ok in E as (size' & s1 & E1 & E). injection E1 as E1 <-. apply ok_or_ok, u32_try_from_some in E1 as [<- Hsu].
  apply sbind_ok in E as (count & s1 & E1 & E). injection E1 as E1 <-. apply ok_or_ok, u32_try_from_some in E1 as [<- _].
  rewrite <-slice_chunks_count in E by lia.
  destruct (Z.ltb_spec Vault.MAX_CHUNKS_PER_VERSION (lenZ (slice_chunks size pt))) as [|Hmax]; [done|].
  apply sbind_ok in E as (x & s1 & E1 & E). pose proof (frames_random _ _ _ _ E1) as (F1 & _).
  apply random_ok in E1 as (g1 & g1' & Hx%random_id_ok).
  apply sbind_ok in E as (dek & s2 & E2 & E). pose proof (frames_random _ _ _ _ E2) as (F2 & _).
  apply random_ok in E2 as (g2 & g2' & Hdek%Crypto.fill_bytes_length).
  apply sbind_ok in E as (v & s3 & E3 & E). injection E3 as <- <-. rewrite F2, F1 in E.
  apply sbind_ok in E as ([cs' digest] & s3 & [Hs ->]%seal_chunks_ok & E).
  destruct (slice_chunks_parts size pt) as [Hparts Hpt]; [lia|].
  assert (lenZ (slice_chunks size pt) = lenZ cs') as Hcount by (unfold lenZ; by rewrite (sealed_parts_length _ _ _ _ _ Hs)).
  apply sbind_ok in E as (mkey & s4 & E4 & E). injection E4 as Hmk <-.
  apply sbind_ok in E as (man & s5 & (g5 & g5' & Hman)%random_ok & E).
  apply sbind_ok in E as (kek & s6 & E6 & E). injection E6 as Hkek <-.
  apply sbind_ok in E as (wdek & s7 & (g7 & g7' & Hwdek)%random_ok & E). injection E as <- <- <-. simpl.
  split_and!; [done|done|done|]. exists root. split; [done|]. intros Hlen.
  pose proof (Crypto.seal_ok _ _ _ _ _ _ Hman) as (_ & ? & _). pose proof (Crypto.seal_ok _ _ _ _ _ _ Hwdek) as (_ & ? & _).
  constructor; simpl; try done.
  - exists kek, dek, mkey. split_and!; [done|by eapply Crypto.open_seal|apply Hdek|done| |eauto].
    by eapply Crypto.open_seal.
  - lia.
  - split; [done|lia].
Qed.

(** ** Stored objects across publications *)

Lemma stored_extends vault root_key db db' o pt :
  db_extends db db' → db_objects db' !! as_bytes o = db_objects db !! as_bytes o →
  (∀ vid, db_objects db !! as_bytes o = Some vid → db_receipts db' !! vid = db_receipts db !! vid) →
  stored vault root_key db o pt → stored vault root_key db' o pt.
Proof.
  intros (_ & Hv & _ & Hc) Ho Hr (v & cs & <- & Hact & [Hrow Hch Hrec] & Hs). exists v, cs.
  split_and!; [done|by rewrite Ho| |done]. constructor.
  - by eapply lookup_weaken.
  - intros i r. rewrite Hc by eauto. apply Hch.
  - by rewrite (Hr _ Hact).
Qed.

Lemma stored_published vault root_key v cs pt db :
  db_wf db → admitted v cs db → seals vault root_key v cs pt →
  stored vault root_key (published v cs None db) (sv_object_id v) pt.
Proof.
  intros Hwf [Hf Hnd Hc _ _ _ _] Hs. exists v, cs. split_and!; [done|apply lookup_insert_eq| |done].
  assert (∀ i, db_chunks db !! (as_bytes (sv_version_id v), i) = None) as Hnone.
  { intros i. apply eq_None_not_Some. intros [r Hr%(wf_chunk_fk _ Hwf)]. rewrite Hf in Hr. by destruct Hr. }
  constructor; simpl.
  - apply lookup_insert_eq.
  - intros i r. rewrite put_chunks_lookup by done. rewrite Hnone. naive_solver.
  - destruct (db_receipts db !! _) as [r|] eqn:E; [|done].
    apply (wf_receipt_fk _ Hwf) in E. rewrite Hf in E. by destruct E.
Qed.

Lemma as_bytes_ne {k} (i j : Identifier k) : i ≠ j → as_bytes i ≠ as_bytes j.
Proof. intros Hne E. by apply Hne, Crypto.id_ext. Qed.

Lemma stored_published_other vault root_key v cs db o pt :
  admitted v cs db → o ≠ sv_object_id v →
  stored vault root_key db o pt → stored vault root_key (published v cs None db) o pt.
Proof.
  intros Hadm Hne. apply stored_extends; [by apply published_extends| |done].
  unfold published. simpl. apply lookup_insert_ne. by apply not_eq_sym, as_bytes_ne.
Qed.

(** ** Publication through the vault *)

(** What a publication of [pt] for [o] may have done to the tables. *)
Definition put_effect (vault : VaultId) (key : option bytes) (o : ObjectId) (pt : bytes)
    (db : Db) (r : Result VersionId) (db' : Db) : Prop :=
  (is_ok r = false ∧ db' = db) ∨
  ∃ v cs root_key, key = Some root_key ∧ sv_object_id v = o ∧ db' = published v cs None db ∧
    admitted v cs db ∧ seals vault root_key v cs pt ∧ (∀ x, r = Ok x → x = sv_version_id v).

Lemma on_world_eq {X A} (m : IO A) (s : VS X) r s' :
  Vault.on_world m s = (r, s') → ∃ w', m s.1.2 = (r, w') ∧ s' = ((s.1.1, w'), s.2).
Proof. unfold Vault.on_world, szoom. destruct (m s.1.2) as [r1 w1]. intros [= <- <-]. eauto. Qed.

Lemma put_inner_cases {X} o pt size (s : VS X) r s' :
  wf_id o → wf_id (v_vault_id s.1.1) → 0 ≤ size →
  Vault.put_inner o pt size s = (r, s') →
  s'.1.1 = s.1.1 ∧ s'.2 = s.2 ∧
  put_effect (v_vault_id s.1.1) (v_root_key s.1.1) o pt (w_db s.1.2) r (w_db s'.1.2).
Proof.
  intros Hwo Hwv Hsz. unfold Vault.put_inner, sbind at 1.
  destruct (Vault.prepare_version o pt size s) as [[[v cs]|e] s1] eqn:Ep;
    pose proof (frames_prepare _ _ _ _ _ _ Ep) as (F1 & F2 & F3).
  2: { intros [= <- <-]. split_and!; [done..|]. by left. }
  apply prepare_ok in Ep as (Ho & Hl & Hwx & root & Hroot & Hseals); [|done..].
  unfold sbind at 1, Vault.the_vault, sgets. rewrite F1. unfold sbind.
  destruct (Vault.on_world _ s1) as [r2 s2] eqn:Ew. apply on_world_eq in Ew as (w' & Ew & ->).
  intros Er. assert (s' = (s1.1.1, w', s1.2) ∧ is_ok r = is_ok r2 ∧ (∀ x, r = Ok x → x = sv_version_id v)) as (-> & Hr & Hx).
  { destruct r2 as [[]|]; injection Er as <- <-; split_and!; try done. by intros ? [= <-]. }
  simpl. rewrite F1, F3. split_and!; [done..|]. unfold Storage.publish in Ew.
  apply publish_cases in Ew as [[? E]|(Hadm & E & _)].
  - left. split; congruence.
  - right. exists v, cs, root. rewrite E, F2. rewrite F2 in Hadm. split_and!; try done.
    apply Hseals. rewrite <-Hl. apply (adm_len _ _ _ Hadm).
Qed.

End spec.
End VaultSpec.
