(* ===== verification/Typed.v ===== *)
(** * Every row has its type

    The columns of every table keep the lengths, ranges and uniqueness the schema
    and the Rust types promise: a statement that would break them fails, and a
    rollback only goes back to a database that had them.  The lemmas follow the
    programs statement by statement, so they hold for every input, every fault
    and every answer of a witness; [TypedServer] carries them to all interleavings
    of the daemon's connections. *)

From S2P Require Import Prelude Format Cde Crypto Witness Fs Storage Vault Backup StorageSpec VaultSpec.
From Stdlib Require Import ZArith Lia.
From stdpp Require Import base numbers list gmap strings.

Open Scope Z_scope.
Open Scope vlt_scope.

(** ** Types of the tables *)

Record meta_typed (row : MetaRow) : Prop := {
  mt_vault_id : length (mr_vault_id row) = 16%nat;
  mt_salt : length (mr_root_salt row) = 16%nat;
  mt_nonce : length (mr_root_nonce row) = 12%nat;
}.

Record version_typed (vid : bytes) (row : VersionRow) : Prop := {
  vt_id : length vid = 16%nat;
  vt_object_id : length (vr_object_id row) = 16%nat;
  vt_dek_nonce : length (vr_dek_nonce row) = 12%nat;
  vt_manifest_nonce : length (vr_manifest_nonce row) = 12%nat;
  vt_plaintext_len : 0 ≤ vr_plaintext_len row ≤ i64_max;
  vt_chunk_size : 0 < vr_chunk_size row ≤ u32_max;
  vt_chunk_count : 0 ≤ vr_chunk_count row ≤ Vault.MAX_CHUNKS_PER_VERSION;
}.

Record receipt_typed (row : ReceiptRow) : Prop := {
  rt_vault_id : length (rr_vault_id row) = 16%nat;
  rt_object_id : length (rr_object_id row) = 16%nat;
  rt_epoch : 0 ≤ rr_epoch row ≤ i64_max;
  rt_commitment : length (rr_commitment row) = 32%nat;
  rt_public_key : length (rr_public_key row) = 32%nat;
  rt_signature : length (rr_signature row) = 64%nat;
}.

Record db_typed (db : Db) : Prop := {
  ty_meta row : db_meta db = Some row → meta_typed row;
  ty_object oid vid : db_objects db !! oid = Some vid → length oid = 16%nat ∧ length vid = 16%nat;
  ty_version vid row : db_versions db !! vid = Some row → version_typed vid row;
  ty_chunk vid i row : db_chunks db !! (vid, i) = Some row →
    is_Some (db_versions db !! vid) ∧ 0 ≤ i < Vault.MAX_CHUNKS_PER_VERSION ∧ length (cr_nonce row) = 12%nat;
  (** no two chunks sealed under one data key share a nonce *)
  ty_nonces vid i j row row' : db_chunks db !! (vid, i) = Some row → db_chunks db !! (vid, j) = Some row' →
    cr_nonce row = cr_nonce row' → i = j;
  ty_pending vid epoch : db_pending db !! vid = Some epoch → is_Some (db_versions db !! vid) ∧ 0 ≤ epoch ≤ i64_max;
  ty_receipt vid row : db_receipts db !! vid = Some row → is_Some (db_versions db !! vid) ∧ receipt_typed row;
  (** a witness key signs an epoch once *)
  ty_epochs vid vid' row row' : db_receipts db !! vid = Some row → db_receipts db !! vid' = Some row' →
    rr_public_key row = rr_public_key row' → rr_epoch row = rr_epoch row' → vid = vid';
}.

Lemma empty_typed : db_typed empty_db.
Proof. constructor; simpl; intros *; rewrite ?lookup_empty; done. Qed.

(** ** Statements *)

Lemma len_is_true n b : Sql.len_is n b = true → length b = n.
Proof. apply bool_decide_eq_true_1. Qed.

Ltac checks :=
  repeat match goal with
  | H : _ && _ = true |- _ => apply andb_true_iff in H as [? ?]
  | H : Sql.len_is _ _ = true |- _ => apply len_is_true in H
  | H : bool_decide _ = true |- _ => apply bool_decide_eq_true_1 in H
  | H : (_ <=? _) = true |- _ => apply Z.leb_le in H
  | H : (_ <? _) = true |- _ => apply Z.ltb_lt in H
  | H : negb _ = true |- _ => apply negb_true_iff in H
  end.

Lemma insert_meta_typed row db db' : db_typed db → Sql.insert_meta row db = Some db' → db_typed db'.
Proof.
  intros Hd. unfold Sql.insert_meta. destruct (_ && _) eqn:Ec; [|done]. destruct (db_meta db); [done|]. intros [= <-]. checks.
  destruct Hd. constructor; simpl; try done. intros row' [= <-]. done.
Qed.

Lemma update_meta_typed row db n db' : db_typed db → Sql.update_meta row db = Some (n, db') → db_typed db'.
Proof.
  intros Hd. unfold Sql.update_meta. destruct (db_meta db) as [old|] eqn:Em; [|by intros [= <- <-]].
  destruct (decide _); [|by intros [= <- <-]]. destruct (_ && _) eqn:Ec; [|done]. intros [= <- <-]. checks.
  pose proof (ty_meta _ Hd _ Em) as []. destruct Hd. constructor; simpl; try done. intros row' [= <-]. done.
Qed.

Lemma upsert_typed oid vid db db' : db_typed db → Sql.upsert_object oid vid db = Some db' → db_typed db'.
Proof.
  intros Hd. unfold Sql.upsert_object. destruct (_ && _) eqn:Ec; [|done]. intros [= <-]. checks.
  destruct Hd. constructor; simpl; try done. intros o v [[<- <-]|[_ Ho]]%lookup_insert_Some; eauto.
Qed.

(** A version that is added or replaced leaves the others known. *)
Lemma versions_insert_known (vs : gmap bytes VersionRow) vid row v : is_Some (vs !! v) → is_Some (<[vid := row]> vs !! v).
Proof. intros Hv. destruct (decide (vid = v)) as [<-|Hne]; [by rewrite lookup_insert_eq|by rewrite lookup_insert_ne]. Qed.

Lemma with_version_typed vid row db :
  db_typed db → version_typed vid row →
  db_typed (mkDb (db_meta db) (db_objects db) (<[vid := row]> (db_versions db)) (db_chunks db) (db_pending db) (db_receipts db)).
Proof.
  intros [] Hr. constructor; simpl; try done.
  - intros v r [[<- <-]|[_ Hv]]%lookup_insert_Some; eauto.
  - intros v i r Hc. destruct (ty_chunk0 _ _ _ Hc) as (? & ?). split; [by apply versions_insert_known|done].
  - intros v e Hp. destruct (ty_pending0 _ _ Hp) as (? & ?). split; [by apply versions_insert_known|done].
  - intros v r Hp. destruct (ty_receipt0 _ _ Hp) as (? & ?). split; [by apply versions_insert_known|done].
Qed.

Lemma insert_version_typed vid row db db' :
  db_typed db → vr_plaintext_len row ≤ i64_max → vr_chunk_size row ≤ u32_max → vr_chunk_count row ≤ Vault.MAX_CHUNKS_PER_VERSION →
  Sql.insert_version_row vid row db = Some db' → db_typed db'.
Proof.
  intros Hd H1 H2 H3. unfold Sql.insert_version_row. destruct (_ && _) eqn:Ec; [|done]. destruct (db_versions db !! vid); [done|].
  intros [= <-]. checks. apply with_version_typed; [done|]. constructor; auto.
Qed.

Lemma update_version_typed vid oid mn mc len count db n db' :
  db_typed db → len ≤ i64_max → count ≤ Vault.MAX_CHUNKS_PER_VERSION →
  Sql.update_version vid oid mn mc len count db = Some (n, db') → db_typed db'.
Proof.
  intros Hd H1 H2. unfold Sql.update_version. destruct (db_versions db !! vid) as [row|] eqn:Ev; [|by intros [= <- <-]].
  destruct (decide _); [|by intros [= <- <-]]. destruct (_ && _) eqn:Ec; [|done]. intros [= <- <-]. checks.
  pose proof (ty_version _ Hd _ _ Ev) as []. apply with_version_typed; [done|]. constructor; simpl; auto.
Qed.

Lemma insert_chunk_typed vid i row db db' :
  db_typed db → i < Vault.MAX_CHUNKS_PER_VERSION → Sql.insert_chunk_row vid i row db = Some db' → db_typed db'.
Proof.
  intros Hd Hi. unfold Sql.insert_chunk_row. destruct (_ && _) eqn:Ec; [|done]. destruct (db_chunks db !! _) eqn:El; [done|].
  intros [= <-]. checks. destruct Hd.
  assert (∀ j row', db_chunks db !! (vid, j) = Some row' → cr_nonce row' ≠ cr_nonce row) as Hfresh.
  { intros j row' Hj En. pose proof (proj1 (map_any_false _ _) ltac:(eassumption) _ _ Hj) as Hf. simpl in Hf.
    apply andb_false_iff in Hf as [Hf|Hf]; by apply bool_decide_eq_false_1 in Hf. }
  constructor; simpl; try done.
  - intros v j r [[[= <- <-] <-]|[_ Hc]]%lookup_insert_Some; [done|eauto].
  - intros v j k r r' [[Hj <-]|[Hne Hc]]%lookup_insert_Some [[Hk <-]|[Hne' Hc']]%lookup_insert_Some En; simplify_eq; try done.
    + by destruct (Hfresh k r').
    + by destruct (Hfresh j r).
    + by eapply (ty_nonces0 _ _ _ r r').
Qed.

Lemma insert_pending_typed vid e db db' :
  db_typed db → e ≤ i64_max → Sql.insert_pending vid e db = Some db' → db_typed db'.
Proof.
  intros Hd He. unfold Sql.insert_pending. destruct (_ && _) eqn:Ec; [|done]. destruct (db_pending db !! vid); [done|].
  intros [= <-]. checks. destruct Hd. constructor; simpl; try done. intros v e' [[<- <-]|[_ Hp]]%lookup_insert_Some; eauto.
Qed.

Lemma delete_pending_typed vid db db' : db_typed db → Sql.delete_pending vid db = Some db' → db_typed db'.
Proof.
  intros [] [= <-]. constructor; simpl; try done. intros v e [_ Hp]%lookup_delete_Some. eauto.
Qed.

Lemma insert_receipt_typed vid row db db' :
  db_typed db → rr_epoch row ≤ i64_max → Sql.insert_receipt_row vid row db = Some db' → db_typed db'.
Proof.
  intros Hd He. unfold Sql.insert_receipt_row. destruct (_ && _) eqn:Ec; [|done]. destruct (db_receipts db !! vid) eqn:El; [done|].
  intros [= <-]. checks. destruct Hd.
  assert (∀ v r, db_receipts db !! v = Some r → rr_public_key r = rr_public_key row → rr_epoch r ≠ rr_epoch row) as Hfresh.
  { intros v r Hr Ek Ee. pose proof (proj1 (map_any_false _ _) ltac:(eassumption) _ _ Hr) as Hf. simpl in Hf.
    apply andb_false_iff in Hf as [Hf|Hf]; [by apply bool_decide_eq_false_1 in Hf|by apply Z.eqb_neq in Hf]. }
  constructor; simpl; try done.
  - intros v r [[<- <-]|[_ Hr]]%lookup_insert_Some; [done|eauto].
  - intros v v' r r' [[<- <-]|[_ Hr]]%lookup_insert_Some [[<- <-]|[_ Hr']]%lookup_insert_Some Ek Ee; try done.
    + by destruct (Hfresh v' r').
    + by destruct (Hfresh v r).
    + by eapply (ty_epochs0 _ _ r r').
Qed.

(** ** Computations that keep the types *)

Module Typed.

Section typed.
Context {S : Type} (db_of : S → Db).

(** Whatever happens the tables stay typed, and a result satisfies [Q]. *)
Definition typed {E A} (m : M S E A) (Q : A → Prop) : Prop :=
  ∀ s r s', db_typed (db_of s) → m s = (r, s') → db_typed (db_of s') ∧ ∀ a, r = Ok a → Q a.

Lemma typed_bind {E A B} (m : M S E A) (k : A → M S E B) Q R :
  typed m Q → (∀ a, Q a → typed (k a) R) → typed (sbind m k) R.
Proof.
  intros Hm Hk s r s' Hs E1. unfold sbind in E1. destruct (m s) as [[a|e] s1] eqn:Em; destruct (Hm _ _ _ Hs Em) as [Hs1 Ha].
  - by apply (Hk a (Ha a eq_refl) s1).
  - by injection E1 as <- <-.
Qed.

Lemma typed_weaken {E A} (m : M S E A) (Q R : A → Prop) : typed m Q → (∀ a, Q a → R a) → typed m R.
Proof. intros Hm HQ s r s' Hs E1. destruct (Hm _ _ _ Hs E1) as [? Ha]. split; [done|]. intros a Ea. by apply HQ, Ha. Qed.

Lemma typed_ret {E A} (a : A) (Q : A → Prop) : Q a → typed (E:=E) (sret a) Q.
Proof. intros HQ s r s' Hs [= <- <-]. split; [done|]. by intros a' [= <-]. Qed.
Lemma typed_throw {E A} (e : E) (Q : A → Prop) : typed (sthrow e) Q.
Proof. intros s r s' Hs [= <- <-]. done. Qed.
Lemma typed_lift {E A} (r : result A E) (Q : A → Prop) : (∀ a, r = Ok a → Q a) → typed (slift r) Q.
Proof. intros HQ s r' s' Hs [= <- <-]. done. Qed.
Lemma typed_gets {E A} (f : S → A) (Q : A → Prop) : (∀ s, db_typed (db_of s) → Q (f s)) → typed (E:=E) (sgets f) Q.
Proof. intros HQ s r s' Hs [= <- <-]. split; [done|]. intros a [= <-]. auto. Qed.
Lemma typed_modify {E} (f : S → S) : (∀ s, db_typed (db_of s) → db_typed (db_of (f s))) → typed (E:=E) (smodify f) (λ _, True).
Proof. intros Hf s r s' Hs [= <- <-]. auto. Qed.
(** Computations that do not touch the tables. *)
Lemma typed_same {E A} (m : M S E A) : (∀ s r s', m s = (r, s') → db_of s' = db_of s) → typed m (λ _, True).
Proof. intros Hm s r s' Hs E1. by rewrite (Hm _ _ _ E1). Qed.

End typed.

Abbreviation any := (λ _, True).
Abbreviation typed_io := (typed w_db).
Abbreviation op_db X := (λ s : VS X, w_db s.1.2).
Abbreviation typed_op X := (typed (op_db X)).

(** *** Storage *)

Lemma typed_env {A} (m : M Env VaultError A) : typed_io (in_env m) any.
Proof. apply typed_same. intros s r s' E. apply StorageSpec.in_env_db in E. apply E. Qed.

Lemma typed_rng {A} (m : M Rng VaultError A) : typed_io (in_rng m) any.
Proof. apply typed_same. intros s r s' E. unfold in_rng, szoom in E. destruct (m (w_rng s)). by injection E as <- <-. Qed.

Lemma typed_exec stmt : (∀ db db', db_typed db → stmt db = Some db' → db_typed db') → typed_io (Sql.exec stmt) any.
Proof.
  intros Hst. apply (typed_bind _ _ _ any); [apply typed_env|]. intros [] _; [apply typed_throw|]. intros s r s' Hs E.
  destruct (stmt (w_db s)) as [db|] eqn:Ed; injection E as <- <-; [|done]. split; [simpl; eauto|done].
Qed.

Lemma typed_exec_count stmt : (∀ db n db', db_typed db → stmt db = Some (n, db') → db_typed db') → typed_io (Sql.exec_count stmt) any.
Proof.
  intros Hst. apply (typed_bind _ _ _ any); [apply typed_env|]. intros [] _; [apply typed_throw|]. intros s r s' Hs E.
  destruct (stmt (w_db s)) as [[n db]|] eqn:Ed; injection E as <- <-; [|done]. split; [simpl; eauto|done].
Qed.

Lemma typed_query {A} (q : Db → A) (Q : A → Prop) : (∀ db, db_typed db → Q (q db)) → typed_io (Sql.query q) Q.
Proof.
  intros HQ. apply (typed_bind _ _ _ any); [apply typed_env|]. intros [] _; [apply typed_throw|]. apply typed_gets. intros s. apply HQ.
Qed.

Definition typed_tx (tx : Sql.Transaction) : Prop := db_typed (Sql.tx_rollback tx).

Lemma typed_begin : typed_io Sql.begin_transaction typed_tx.
Proof. apply (typed_bind _ _ _ any); [apply typed_env|]. intros [] _; [apply typed_throw|]. apply typed_gets. by intros s. Qed.

Lemma typed_owning {A} tx (m : IO A) Q : typed_tx tx → typed_io m Q → typed_io (Sql.owning tx m) Q.
Proof.
  intros Htx Hm s r s' Hs E. unfold Sql.owning in E. destruct (m s) as [[a|e] s1] eqn:Em; destruct (Hm _ _ _ Hs Em) as [? Ha];
    injection E as <- <-; done.
Qed.

Lemma typed_commit tx : typed_tx tx → typed_io (Sql.commit tx) any.
Proof.
  intros Htx. apply (typed_bind _ _ _ any); [apply typed_env|]. intros [] _; [|by apply typed_ret].
  intros s r s' Hs [= <- <-]. done.
Qed.

Section storage.
Context `{Primitives}.

Lemma typed_private path : typed_io (Storage.enforce_owner_private_state_files path) any.
Proof. apply typed_env. Qed.

(** The rows a publication writes. *)
Definition version_in_range (v : StoredVersion) : Prop :=
  sv_chunk_size v ≤ u32_max ∧ sv_chunk_count v ≤ Vault.MAX_CHUNKS_PER_VERSION.
Definition chunk_in_range (c : EncryptedChunk) : Prop := chunk_index c < Vault.MAX_CHUNKS_PER_VERSION.
(** Chunks are counted, and a publication compares their number with the version's. *)
Definition counted (cs : list EncryptedChunk) : Prop := Forall (λ c, chunk_index c < lenZ cs) cs.

Lemma counted_in_range v cs :
  version_in_range v → counted cs → negb (lenZ cs =? sv_chunk_count v) = false → Forall chunk_in_range cs.
Proof.
  intros [_ Hv] Hc E. apply negb_false_iff, Z.eqb_eq in E. eapply Forall_impl; [done|]. intros c. unfold chunk_in_range. simpl. lia.
Qed.

Lemma u64_to_sql_range v x : Sql.u64_to_sql v = Some x → x ≤ i64_max.
Proof. intros [-> ?]%StorageSpec.u64_to_sql_some. done. Qed.

Lemma typed_insert_version v : version_in_range v → typed_io (Storage.insert_version v) any.
Proof.
  intros [H1 H2]. apply typed_exec. intros db db' Hd E. apply bind_Some in E as (len & Hl & E).
  apply u64_to_sql_range in Hl. by apply (insert_version_typed _ _ _ _ Hd) in E.
Qed.

Lemma typed_insert_chunks vid cs : Forall chunk_in_range cs → typed_io (Storage.insert_chunks vid cs) any.
Proof.
  induction 1 as [|c cs Hc _ IH]; [by apply typed_ret|]. apply (typed_bind _ _ _ any); [|done]. apply typed_exec.
  intros db db' Hd E. by apply (insert_chunk_typed _ _ _ _ _ Hd) in E.
Qed.

Lemma typed_insert_receipt r : typed_io (Storage.insert_receipt r) any.
Proof.
  apply typed_exec. intros db db' Hd E. apply bind_Some in E as (e & He & E). apply u64_to_sql_range in He.
  by apply (insert_receipt_typed _ _ _ _ Hd) in E.
Qed.

Lemma typed_advance o v : typed_io (Storage.advance_pointer o v) any.
Proof. apply typed_exec. intros db db' Hd E. by apply (upsert_typed _ _ _ _ Hd) in E. Qed.

Lemma typed_publish path v cs :
  version_in_range v → counted cs → typed_io (Storage.publish path v cs) any.
Proof.
  intros Hv Hc. unfold Storage.publish, Storage.publish_inner. destruct (negb _) eqn:En; [apply typed_throw|].
  apply (counted_in_range v) in Hc; [|done..].
  eapply typed_bind; [apply typed_begin|]. intros tx Htx. apply (typed_bind _ _ _ any); [|intros; apply typed_private].
  apply typed_owning; [done|]. apply (typed_bind _ _ _ any); [by apply typed_insert_version|intros _ _].
  apply (typed_bind _ _ _ any); [by apply typed_insert_chunks|intros _ _]. apply (typed_bind _ _ _ any); [by apply typed_ret|intros _ _].
  apply (typed_bind _ _ _ any); [apply typed_advance|intros _ _]. by apply typed_commit.
Qed.

Lemma typed_stage path v cs e :
  version_in_range v → counted cs → typed_io (Storage.stage_witness_publication path v cs e) any.
Proof.
  intros Hv Hc. unfold Storage.stage_witness_publication. destruct (negb _) eqn:En; [apply typed_throw|].
  apply (counted_in_range v) in Hc; [|done..].
  eapply typed_bind; [apply typed_begin|]. intros tx Htx. apply (typed_bind _ _ _ any); [|intros; apply typed_private].
  apply typed_owning; [done|]. apply (typed_bind _ _ _ any); [by apply typed_insert_version|intros _ _].
  apply (typed_bind _ _ _ any); [by apply typed_insert_chunks|intros _ _]. apply (typed_bind _ _ _ any); [|intros _ _; by apply typed_commit].
  apply typed_exec. intros db db' Hd E. apply bind_Some in E as (x & Hx & E). apply u64_to_sql_range in Hx. by apply (insert_pending_typed _ _ _ _ Hd) in E.
Qed.

Lemma typed_finalize path v r : typed_io (Storage.finalize_witness_publication path v r) any.
Proof.
  unfold Storage.finalize_witness_publication. destruct (_ || _); [apply typed_throw|].
  eapply typed_bind; [apply typed_begin|]. intros tx Htx. apply (typed_bind _ _ _ any); [|intros; apply typed_private].
  apply typed_owning; [done|]. apply (typed_bind _ _ _ any); [by apply typed_query|intros staged _].
  apply (typed_bind _ _ _ any); [by apply typed_lift|intros staged' _].
  apply (typed_bind _ _ _ any); [destruct (decide _); [apply typed_throw|by apply typed_ret]|intros _ _].
  apply (typed_bind _ _ _ any); [apply typed_insert_receipt|intros _ _].
  apply (typed_bind _ _ _ any); [apply typed_advance|intros _ _]. apply (typed_bind _ _ _ any); [|intros _ _; by apply typed_commit].
  apply typed_exec. intros db db' Hd E. by apply (delete_pending_typed _ _ _ Hd) in E.
Qed.

Lemma typed_replace_envelope path e : typed_io (Storage.replace_root_envelope path e) any.
Proof.
  apply (typed_bind _ _ _ any); [|intros n _; destruct (negb _); [apply typed_throw|apply typed_private]].
  apply typed_exec_count. intros db n db' Hd E. by apply (update_meta_typed _ _ _ _ Hd) in E.
Qed.

(** *** Streaming *)

Definition typed_publication (p : Storage.StreamingPublication) : Prop :=
  typed_tx (Storage.sp_transaction p).

Lemma typed_begin_streaming path o v dek size :
  size ≤ u32_max → typed_io (Storage.begin_streaming_publication path o v dek size) typed_publication.
Proof.
  intros Hs. eapply typed_bind; [apply typed_begin|]. intros tx Htx. apply typed_owning; [done|].
  apply (typed_bind _ _ _ any); [|intros _ _; by apply typed_ret]. apply typed_exec. intros db db' Hd E.
  eapply insert_version_typed; [done| | | |done]; simpl; [unfold i64_max; lia|done|by vm_compute].
Qed.

Lemma typed_append p c len :
  typed_publication p → chunk_in_range c → typed_io (Storage.append_chunk p c len) typed_publication.
Proof.
  intros Hp Hc. unfold Storage.append_chunk. destruct (negb _); [apply typed_throw|].
  apply (typed_bind _ _ _ any); [apply typed_exec; intros db db' Hd E; by apply (insert_chunk_typed _ _ _ _ _ Hd) in E|intros _ _].
  apply (typed_bind _ _ _ any); [by apply typed_lift|intros n _]. apply (typed_bind _ _ _ any); [by apply typed_lift|intros l _].
  by apply typed_ret.
Qed.

Lemma typed_finish p manifest count :
  typed_publication p → count ≤ Vault.MAX_CHUNKS_PER_VERSION → typed_io (Storage.finish p manifest count) any.
Proof.
  intros Hp Hc. apply (typed_bind _ _ _ any); [|intros; apply typed_private]. apply typed_owning; [done|].
  apply (typed_bind _ _ _ any); [destruct (negb _); [apply typed_throw|by apply typed_ret]|intros _ _].
  apply (typed_bind _ _ _ any).
  { apply typed_exec_count. intros db n db' Hd E. apply bind_Some in E as (len & Hl & E). apply u64_to_sql_range in Hl.
    by apply (update_version_typed _ _ _ _ _ _ _ _ _ Hd) in E. }
  intros n _. apply (typed_bind _ _ _ any); [destruct (negb _); [apply typed_throw|by apply typed_ret]|intros _ _].
  apply (typed_bind _ _ _ any); [apply typed_advance|intros _ _]. by apply typed_commit.
Qed.

(** *** Reads *)

Lemma typed_active_version o : typed_io (Storage.active_version o) any.
Proof.
  apply (typed_bind _ _ _ any); [by apply typed_query|intros vid _]. apply (typed_bind _ _ _ any); [by apply typed_lift|intros vid' _].
  apply (typed_bind _ _ _ any); [by apply typed_lift|intros x _]. apply (typed_bind _ _ _ any); [by apply typed_query|intros row _].
  by apply typed_lift.
Qed.

Lemma typed_receipt v : typed_io (Storage.receipt v) any.
Proof. apply (typed_bind _ _ _ any); [by apply typed_query|intros row _]. by apply typed_lift. Qed.

Lemma typed_active_receipt o : typed_io (Storage.active_receipt o) any.
Proof.
  intros s r s' Hs E. unfold Storage.active_receipt in E. destruct (Storage.active_version o s) as [[v|e] s1] eqn:Ev;
    destruct (typed_active_version o _ _ _ Hs Ev) as [Hs1 _]; [by eapply typed_receipt|]. destruct e; by injection E as <- <-.
Qed.

Lemma typed_object_ids : typed_io Storage.active_object_ids any.
Proof. apply (typed_bind _ _ _ any); [by apply typed_query|intros rows _]. by apply typed_lift. Qed.

Lemma typed_load_pending rows : typed_io (Storage.load_pending rows) any.
Proof.
  induction rows as [|[vid e] rows IH]; [by apply typed_ret|]. apply (typed_bind _ _ _ any); [by apply typed_lift|intros e' _].
  apply (typed_bind _ _ _ any); [by apply typed_lift|intros x _]. apply (typed_bind _ _ _ any).
  { apply (typed_bind _ _ _ any); [by apply typed_query|intros row _]. by apply typed_lift. }
  intros v _. apply (typed_bind _ _ _ any); [done|intros l _]. by apply typed_ret.
Qed.

Lemma typed_pending : typed_io Storage.pending_witness_publications any.
Proof. apply (typed_bind _ _ _ any); [by apply typed_query|intros rows _]. apply typed_load_pending. Qed.

Lemma visit_rows_db {A} rows (visit : EncryptedChunk → M A VaultError unit) s r s' :
  Storage.visit_rows rows visit s = (r, s') → w_db s'.1 = w_db s.1.
Proof.
  assert (∀ s r s', szoom fst (λ w (s : World * A), (w, s.2)) (in_env (io_fault (E:=VaultError))) s = (r, s') → w_db s'.1 = w_db s.1) as Hf.
  { intros s0 r0 s0'. unfold szoom. destruct (in_env io_fault s0.1) as [r1 w1] eqn:E. apply StorageSpec.in_env_db in E as [E _].
    by intros [= <- <-]. }
  revert s r. induction rows as [|[i row] rows IH]; intros s r E; cbn [Storage.visit_rows] in E; unfold sbind at 1 in E;
    destruct (szoom fst _ _ s) as [[[]|] s1] eqn:E1; apply Hf in E1; try (injection E as <- <-; done).
  unfold sbind at 1, slift in E. destruct (Storage.chunk_of_row i row) as [c|]; [|by injection E as <- <-].
  unfold sbind at 1, szoom in E. destruct (visit c s1.2) as [[u|] a]; [|by injection E as <- <-]. apply IH in E. simpl in E. congruence.
Qed.

Lemma query_db {A} (q : Db → A) s r s' : Sql.query q s = (r, s') → w_db s' = w_db s.
Proof.
  unfold Sql.query, sbind. destruct (in_env io_fault s) as [[[]|e] s1] eqn:E; apply StorageSpec.in_env_db in E as [E _]; by intros [= <- <-].
Qed.

Lemma visit_chunks_db {A} v (visit : EncryptedChunk → M A VaultError unit) s r s' :
  Storage.visit_chunks v visit s = (r, s') → w_db s'.1 = w_db s.1.
Proof.
  unfold Storage.visit_chunks, sbind at 1, szoom at 1.
  destruct (Sql.query _ s.1) as [[rows|e] w1] eqn:Eq; apply query_db in Eq; [|by intros [= <- <-]].
  intros E%visit_rows_db. simpl in E. congruence.
Qed.

End storage.

(** *** Vault operations *)

Section vault.
Context `{Primitives} {X : Type}.

Lemma typed_on_world {A} (m : IO A) Q : typed_io m Q → typed_op X (Vault.on_world m) Q.
Proof. intros Hm s r s' Hs E. unfold Vault.on_world, szoom in E. destruct (m s.1.2) as [r1 w1] eqn:Em. injection E as <- <-. by eapply Hm. Qed.

Lemma typed_on_arg {A} (m : M X VaultError A) : typed_op X (Vault.on_arg m) any.
Proof. apply typed_same. intros s r s' E. unfold Vault.on_arg, szoom in E. destruct (m s.2). by injection E as <- <-. Qed.

Lemma typed_random {A} (m : M Rng VaultError A) : typed_op X (Vault.random m) any.
Proof. apply typed_on_world, typed_rng. Qed.

Lemma typed_the_vault : typed_op X Vault.the_vault any.
Proof. by apply typed_gets. Qed.

Lemma typed_set_vault v : typed_op X (Vault.set_vault v) any.
Proof. by apply typed_modify. Qed.

Lemma typed_require_root_key : typed_op X Vault.require_root_key any.
Proof. apply (typed_bind _ _ _ any); [apply typed_the_vault|]. intros v _. by apply typed_lift. Qed.

Lemma typed_lock_after {A} (m : Op X A) Q : typed_op X m Q → typed_op X (Vault.lock_after_failure m) Q.
Proof.
  intros Hm s r s' Hs E. unfold Vault.lock_after_failure in E. destruct (m s) as [[a|e] s1] eqn:Em; destruct (Hm _ _ _ Hs Em) as [Hs1 Ha];
    [by injection E as <- <-|]. destruct s1 as [[v w] x]. by injection E as <- <-.
Qed.

Lemma typed_with_arg {Y A} (y : Y) (m : Op Y A) Q : typed_op Y m Q → typed_op X (Vault.with_arg y m) Q.
Proof.
  intros Hm s r s' Hs E. unfold Vault.with_arg in E. destruct (m (s.1, y)) as [r1 [vw y']] eqn:Em. injection E as <- <-.
  by eapply Hm in Em.
Qed.

Lemma typed_visiting {A} (init : X → A) back v (visit : EncryptedChunk → M A VaultError unit) :
  typed_op X (Vault.visiting init back (Storage.visit_chunks v visit)) any.
Proof.
  apply typed_same. intros [[v0 w] x] r s' E. unfold Vault.visiting in E.
  destruct (Storage.visit_chunks v visit (w, init x)) as [[u|e] [w1 a]] eqn:Ev; apply visit_chunks_db in Ev; by injection E as <- <-.
Qed.

End vault.

Create HintDb typed.
#[export] Hint Resolve typed_throw typed_on_arg typed_random typed_the_vault typed_set_vault typed_require_root_key
  typed_on_world typed_lock_after typed_with_arg typed_visiting typed_active_version typed_receipt typed_active_receipt
  typed_object_ids typed_pending typed_finalize typed_replace_envelope : typed.
#[export] Hint Extern 2 (typed _ (sret _) _) => by apply typed_ret : typed.
#[export] Hint Extern 2 (typed _ (slift _) _) => by apply typed_lift : typed.

(** Follow a program whose intermediate results do not matter. *)
Ltac typed_step :=
  match goal with
  | |- typed _ (sbind _ _) _ => apply (typed_bind _ _ _ any); [|intros ? _]
  | |- typed _ (if ?b then _ else _) _ => destruct b eqn:?
  | |- typed _ (match ?x with _ => _ end) _ => destruct x eqn:?
  | |- typed _ (let '(_, _) := ?x in _) _ => destruct x
  | |- typed _ _ _ => solve [eauto with typed]
  end.
Ltac typed_run := repeat typed_step.

Section operations.
Context `{Primitives}.

Lemma typed_checkpoint : typed_io Storage.full_checkpoint any.
Proof. unfold Storage.full_checkpoint. typed_run; apply typed_env. Qed.

Lemma typed_u32 {X} x (e : VaultError) : typed_op X (slift (ok_or (u32_try_from x) e)) (λ n, n = x ∧ n ≤ u32_max).
Proof.
  apply typed_lift. intros n. destruct (u32_try_from x) eqn:E; simpl; [|done]. apply u32_try_from_some in E as [-> ?]. by intros [= <-].
Qed.

Lemma typed_seal_chunks {X} vid o v key offset parts digest :
  typed_op X (Vault.seal_chunks vid o v key offset parts digest) (λ r, Forall (λ c, chunk_index c < offset + lenZ r.1) r.1).
Proof.
  revert offset digest. induction parts as [|part parts IH]; intros offset digest; [apply typed_ret; constructor|]. cbn [Vault.seal_chunks].
  eapply typed_bind; [apply typed_u32|]. intros i [-> _]. do 2 typed_step. typed_step. eapply typed_bind; [apply IH|].
  intros [cs digest'] Hcs. apply typed_ret. cbn [fst] in *. assert (∀ c, lenZ (c :: cs) = 1 + lenZ cs) as Hl by (intros c; unfold lenZ; simpl; lia).
  constructor; rewrite ?Hl; [simpl; pose proof (lenZ_nonneg cs); lia|].
  eapply Forall_impl; [exact Hcs|]. intros c. simpl. lia.
Qed.

Definition prepared (r : StoredVersion * list EncryptedChunk) : Prop := version_in_range r.1 ∧ counted r.2.

Lemma typed_prepare {X} o plaintext size : typed_op X (Vault.prepare_version o plaintext size) prepared.
Proof.
  unfold Vault.prepare_version. typed_step; [typed_run|]. typed_step; [typed_run|].
  eapply typed_bind; [apply typed_u32|]. intros n [_ Hn]. typed_step; [typed_run|]. rename a0 into count. destruct (_ <? count) eqn:Ec; [typed_run|]. do 3 (typed_step; [typed_run|]).
  eapply typed_bind; [apply typed_seal_chunks|]. intros [cs digest] Hcs. do 4 (typed_step; [typed_run|]).
  apply typed_ret. split; [split; simpl; [done|lia]|exact Hcs].
Qed.

Lemma typed_put {X} o plaintext size : typed_op X (Vault.put_with_chunk_size o plaintext size) any.
Proof.
  apply typed_lock_after. eapply typed_bind; [apply typed_prepare|]. intros [v cs] [Hv Hc]. typed_run. by apply typed_on_world, typed_publish.
Qed.

Lemma typed_unlock {X} passphrase : typed_op X (Vault.unlock passphrase) any.
Proof. unfold Vault.unlock. typed_run. Qed.

Lemma typed_lock {X} : typed_op X Vault.lock_op any.
Proof. unfold Vault.lock_op. typed_run. Qed.

Lemma typed_rotate {X} current replacement : typed_op X (Vault.rotate_passphrase current replacement) any.
Proof. unfold Vault.rotate_passphrase. typed_step; [typed_run|]. apply typed_lock_after. typed_run. Qed.

Lemma typed_full_checkpoint {X} : typed_op X Vault.full_checkpoint any.
Proof. apply typed_lock_after. typed_step; [typed_run|]. apply typed_on_world, typed_checkpoint. Qed.

(** *** The upload loop *)

Definition typed_upload (u : Vault.Upload) : Prop :=
  typed_publication (Vault.up_publication u) ∧ Vault.up_chunk_count u ≤ Vault.MAX_CHUNKS_PER_VERSION.

Lemma typed_upload_loop `{Read R} fuel vid o v key size u :
  typed_upload u → typed_op R (Vault.upload_loop fuel vid o v key size u) typed_upload.
Proof.
  revert u. induction fuel as [|fuel IH]; intros u [Hp Hc]; cbn [Vault.upload_loop]; (typed_step; [typed_run|]); typed_step;
    try (by apply typed_ret); [typed_run|].
  destruct (_ <=? Vault.up_chunk_count u) eqn:Em; [typed_run|]. apply Z.leb_gt in Em. do 2 (typed_step; [typed_run|]).
  eapply typed_bind; [by apply typed_on_world, typed_append|]. intros p Hp'. typed_step; [typed_run|].
  eapply (typed_bind _ _ _ (λ n, n = Vault.up_chunk_count u + 1)).
  { apply typed_lift. unfold u32_checked_add. intros n. destruct (_ <=? _); simpl; congruence. }
  intros n ->. apply IH. split; simpl; [done|lia].
Qed.

Lemma typed_dropping {R A} p (m : Op R A) Q :
  typed_publication p → typed_op R m Q → typed_op R (Vault.dropping_publication p m) Q.
Proof.
  intros Hp Hm s r s' Hs E. unfold Vault.dropping_publication in E. destruct (m s) as [[a|e] s1] eqn:Em; destruct (Hm _ _ _ Hs Em) as [Hs1 Ha];
    [by injection E as <- <-|]. destruct s1 as [[v w] x]. by injection E as <- <-.
Qed.

Lemma typed_put_from_reader `{Read R} o size : typed_op R (Vault.put_from_reader_with_chunk_size o size) any.
Proof.
  apply typed_lock_after. unfold Vault.put_from_reader_inner. typed_step; [typed_run|]. 
  eapply typed_bind; [apply typed_u32|]. intros n [_ Hn]. do 6 (typed_step; [typed_run|]).
  eapply typed_bind; [by apply typed_on_world, typed_begin_streaming|]. intros p Hp.
  eapply (typed_bind _ _ _ (λ r, typed_upload r.1)).
  { apply typed_dropping; [done|]. unfold Vault.upload. typed_step; [by apply typed_gets|].
    eapply typed_bind; [apply typed_upload_loop; split; [done|by vm_compute]|]. intros u Hu. do 2 (typed_step; [typed_run|]). by apply typed_ret. }
  intros [u manifest] [Hu Hc]. typed_step; [by apply typed_on_world, typed_finish|]. typed_run.
Qed.

(** *** Reads *)

Lemma typed_get_to_writer_inner `{Write W} o : typed_op W (Vault.get_to_writer_inner o) any.
Proof. unfold Vault.get_to_writer_inner. typed_run. Qed.

Lemma typed_get_to_writer `{Write W} o : typed_op W (Vault.get_to_writer o) any.
Proof. apply typed_lock_after, typed_get_to_writer_inner. Qed.

Lemma typed_get {X} o : typed_op X (Vault.get o) any.
Proof.
  apply typed_lock_after. intros [vw x] r s' Hs E. unfold Vault.get_inner in E.
  destruct (Vault.get_to_writer_inner o (vw, [] : bytes)) as [[u|e] [vw1 out]] eqn:Eg;
    apply (typed_get_to_writer_inner o (vw, [] : bytes)) in Eg as [Eg _]; try done; by injection E as <- <-.
Qed.

Lemma typed_verify_each {X} os : typed_op X (Vault.verify_each os) any.
Proof.
  induction os as [|o os IH]; [by apply typed_ret|]. cbn [Vault.verify_each]. typed_step; [|apply IH].
  apply typed_with_arg, typed_get_to_writer_inner.
Qed.

Lemma typed_verify {X} : typed_op X Vault.verify_active_objects any.
Proof.
  apply typed_lock_after. unfold Vault.verify_active_objects_inner. do 2 (typed_step; [typed_run|]). typed_step; [apply typed_verify_each|typed_run].
Qed.

(** *** Witnessed operations, whatever the witness answers *)

Lemma typed_put_with_witness `{WitnessProvider P} o plaintext : typed_op P (Vault.put_with_witness o plaintext) any.
Proof.
  apply typed_lock_after. eapply typed_bind; [apply typed_prepare|]. intros [v cs] [Hv Hc]. cbv beta iota zeta. do 2 (typed_step; [typed_run|]).
  typed_step; [by apply typed_on_world, typed_stage|]. typed_run.
Qed.

Lemma typed_recover `{WitnessProvider P} : typed_op P Vault.recover_pending_witness_publications any.
Proof.
  apply typed_lock_after. unfold Vault.recover_pending_witness_publications_inner. do 2 (typed_step; [typed_run|]). typed_step; [|typed_run].
  rename a0 into pending. induction pending as [|[v e] pending IH]; [by apply typed_ret|]. cbn [Vault.recover_each]. typed_step; [|done].
  unfold Vault.recover_one. typed_run.
Qed.

Lemma typed_verify_with_witness `{WitnessProvider P} : typed_op P Vault.verify_active_objects_with_witness any.
Proof.
  apply typed_lock_after. unfold Vault.verify_active_objects_with_witness_inner. do 2 (typed_step; [typed_run|]). typed_step; [|typed_run].
  rename a0 into os. induction os as [|o os IH]; [by apply typed_ret|]. cbn [Vault.verify_each_with_witness].
  do 5 (typed_step; [typed_run|]). typed_step; [typed_run|]. typed_step; [|done]. apply typed_with_arg, typed_get_to_writer_inner.
Qed.

End operations.

End Typed.
