(* ===== verification/StreamSpec.v ===== *)
(** * Streaming publication

    [Vault.put_from_reader] consumes a reader in bounded pieces inside one
    transaction.  For every reader whose end is final, whatever sizes and
    interruptions its [read] calls have, the upload stores exactly the reader's
    contents, or nothing. *)

From S2P Require Import Prelude Format Cde Crypto Witness Fs Storage Vault Toy StorageSpec VaultSpec.
From Stdlib Require Import ZArith Lia.
From stdpp Require Import base numbers list gmap strings sorting.

Open Scope Z_scope.
Open Scope vlt_scope.

(** A finite reader: what it still has to deliver, and a bound on the calls it
    can answer before its end.  An empty answer is final; nothing is assumed of
    a reader that has failed. *)
Class ReadOk (R : Type) `{Read R} : Type := {
  contents : R → bytes;
  read_data n r d r' : 0 < n → read n r = (ReadData d, r') →
    contents r = d ++ contents r' ∧ lenZ d ≤ n ∧ (d = [] → contents r = []);
  read_interrupted n r r' : 0 < n → read n r = (ReadInterrupted, r') → contents r' = contents r;
  read_rank_le n r o r' : 0 < n → read n r = (o, r') → o ≠ ReadFailed → (read_rank r' ≤ read_rank r)%nat;
  read_rank_lt n r o r' : 0 < n → read n r = (o, r') → o ≠ ReadFailed → o ≠ ReadData [] → (read_rank r' < read_rank r)%nat;
}.

Module StreamSpec.
Import StorageSpec VaultSpec.

Section read.
Context `{ReadOk R}.

Lemma read_next_chunk_fuel_ok fuel size filled r bs r' :
  lenZ filled ≤ size → Vault.read_next_chunk_fuel fuel size filled r = (Ok bs, r') →
  ∃ d, bs = filled ++ d ∧ contents r = d ++ contents r' ∧ lenZ bs ≤ size ∧ (lenZ bs < size → contents r' = []) ∧
    (d = [] ∨ (read_rank r' < read_rank r)%nat) ∧ (read_rank r' ≤ read_rank r)%nat.
Proof.
  revert filled r. induction fuel as [|fuel IH]; intros filled r Hl; simpl;
    destruct (Z.leb_spec size (lenZ filled)) as [Hs|Hs].
  1,3: intros [= <- <-]; exists []; rewrite app_nil_r; split_and!; [done|done|lia|intros; exfalso; lia|by left|lia].
  1: done.
  destruct (read (size - lenZ filled) r) as [[d| |] r1] eqn:E; [| |done].
  - assert (0 < size - lenZ filled) as Hpos by lia. destruct (read_data _ _ _ _ Hpos E) as (Hc & Hd & He). destruct d as [|b d].
    + intros [= <- <-]. exists []. rewrite app_nil_r. specialize (He eq_refl). simpl in Hc.
      split_and!; [done|done|lia|congruence|by left|by eapply (read_rank_le _ _ _ _ Hpos E)].
    + intros (d' & -> & Hc' & Hl' & Hf & Hr & Hle)%IH; [|rewrite lenZ_app; lia].
      exists ((b :: d) ++ d').
      assert (read_rank r1 < read_rank r)%nat by (by eapply (read_rank_lt _ _ _ _ Hpos E)).
      split_and!; [by rewrite (assoc_L (++))|by rewrite Hc, Hc', (assoc_L (++))|done|done|right; lia|lia].
  - intros (d' & -> & Hc' & Hl' & Hf & Hr & Hle)%IH; [|done]. apply read_interrupted in E as Ec; [|lia].
    assert (read_rank r1 ≤ read_rank r)%nat by (eapply (read_rank_le (size - lenZ filled)); [lia|done|done]).
    exists d'. split_and!; auto; [congruence| |lia]. destruct Hr; [by left|right; lia].
Qed.

(** What holds of a reader whose end was reached by successful calls: it holds
    where [read] answered the end, and before every call it holds after. *)
Definition at_end (P : R → Prop) : Prop :=
  (∀ n r r', 0 < n → read n r = (ReadData [], r') → P r) ∧
  (∀ n r d r', 0 < n → read n r = (ReadData d, r') → P r' → P r) ∧
  (∀ n r r', 0 < n → read n r = (ReadInterrupted, r') → P r' → P r).

Lemma read_next_chunk_fuel_end P fuel size filled r bs r' :
  at_end P → 0 < size → Vault.read_next_chunk_fuel fuel size filled r = (Ok bs, r') → (bs = [] ∨ P r') → P r.
Proof.
  intros (He & Hd & Hi) Hsz. revert filled r. induction fuel as [|fuel IH]; intros filled r; simpl;
    destruct (Z.leb_spec size (lenZ filled)) as [Hs|Hs].
  1, 3: intros [= <- <-] [-> |]; [unfold lenZ in Hs; simpl in Hs; lia|done].
  1: done.
  assert (0 < size - lenZ filled) as Hpos by lia.
  destruct (read (size - lenZ filled) r) as [[d| |] r1] eqn:E; [| |done].
  - destruct d as [|b d]; [intros _ _; by eapply He|]. intros E2 Hb. eapply Hd; [done..|]. by eapply IH.
  - intros E2 Hb. eapply Hi; [done..|]. by eapply IH.
Qed.

(** Any two amounts of fuel above the rank give the same result. *)
Lemma read_next_chunk_fuel_enough f1 f2 size filled r :
  (read_rank r < f1)%nat → (read_rank r < f2)%nat →
  Vault.read_next_chunk_fuel f1 size filled r = Vault.read_next_chunk_fuel f2 size filled r.
Proof.
  revert f2 filled r. induction f1 as [|f1 IH]; intros [|f2] filled r H1 H2; try lia. simpl.
  destruct (Z.leb_spec size (lenZ filled)); [done|].
  destruct (read (size - lenZ filled) r) as [[[|b d]| |] r1] eqn:E; try done;
    apply read_rank_lt in E; try done; try lia; apply IH; lia.
Qed.

End read.

(** ** The upload loop *)

Lemma parts_ok_snoc size ps p :
  Forall (λ q, lenZ q = size) ps → 0 < lenZ p ≤ size → parts_ok size (ps ++ [p]).
Proof.
  induction 1 as [|q ps Hq Hps IH]; intros Hp; [done|].
  specialize (IH Hp). simpl. destruct (ps ++ [p]) eqn:E; [by destruct ps|]. done.
Qed.

Lemma sealed_parts_snoc `{Primitives} key aad i ps cs p c :
  sealed_parts key aad i ps cs → chunk_index c = i + lenZ cs → length (nonce (chunk_record c)) = 12%nat →
  Crypto.open key (aad (i + lenZ cs) (lenZ p)) (chunk_record c) = Ok p →
  sealed_parts key aad i (ps ++ [p]) (cs ++ [c]).
Proof.
  intros Hs. induction Hs as [i|i q ps d cs Hi Hn Ho Hs IH]; intros Hc Hl Hop.
  - replace (i + lenZ (@nil EncryptedChunk)) with i in * by (unfold lenZ; simpl; lia).
    constructor; [done..|constructor].
  - rewrite lenZ_cons in *. simpl. constructor; [done..|].
    replace (i + (lenZ cs + 1)) with (i + 1 + lenZ cs) in * by lia. auto.
Qed.

Lemma digest_chunks_snoc b cs c :
  Crypto.digest_chunks b (cs ++ [c]) = Crypto.digest_update (Crypto.digest_chunks b cs) (chunk_index c) (chunk_record c).
Proof. unfold Crypto.digest_chunks. by rewrite foldl_app. Qed.

(** Operations that never touch the vault object. *)
Definition keeps_vault {X A} (m : Op X A) : Prop := ∀ s r s', m s = (r, s') → s'.1.1 = s.1.1.

Lemma keeps_lift {X A} (r : Result A) : keeps_vault (X:=X) (slift r).
Proof. by intros s r' s' [= <- <-]. Qed.
Lemma keeps_ret {X A} (a : A) : keeps_vault (X:=X) (sret a).
Proof. by intros s r' s' [= <- <-]. Qed.
Lemma keeps_throw {X A} e : keeps_vault (X:=X) (A:=A) (sthrow e).
Proof. by intros s r' s' [= <- <-]. Qed.
Lemma keeps_gets {X A} (f : VS X → A) : keeps_vault (X:=X) (sgets f).
Proof. by intros s r' s' [= <- <-]. Qed.
Lemma keeps_bind {X A B} (m : Op X A) (k : A → Op X B) :
  keeps_vault m → (∀ a, keeps_vault (k a)) → keeps_vault (sbind m k).
Proof.
  intros Hm Hk s r s'. unfold sbind. destruct (m s) as [[a|e] s1] eqn:E; apply Hm in E.
  - intros ?%Hk. congruence.
  - by intros [= <- <-].
Qed.
Lemma keeps_world {X A} (m : IO A) : keeps_vault (X:=X) (Vault.on_world m).
Proof. intros s r s' (w & _ & ->)%on_world_eq. done. Qed.
Lemma keeps_arg {X A} (m : M X VaultError A) : keeps_vault (Vault.on_arg m).
Proof. intros s r s'. unfold Vault.on_arg, szoom. destruct (m s.2). by intros [= <- <-]. Qed.
Lemma keeps_random {X A} (m : M Rng VaultError A) : keeps_vault (X:=X) (Vault.random m).
Proof. apply keeps_world. Qed.
Lemma keeps_root_key `{Primitives} {X} : keeps_vault (X:=X) Vault.require_root_key.
Proof. apply keeps_bind; [apply keeps_gets|]. intros. apply keeps_lift. Qed.

Create HintDb keeps discriminated.
#[export] Hint Resolve keeps_lift keeps_ret keeps_throw keeps_gets keeps_world keeps_arg keeps_random keeps_root_key : keeps.

Ltac keeps :=
  repeat (match goal with
          | |- keeps_vault (sbind _ _) => apply keeps_bind; [|intros ?]
          | |- keeps_vault (if ?b then _ else _) => destruct b
          | |- keeps_vault (let '(_, _) := ?p in _) => destruct p
          end; cbv beta zeta); auto with keeps.

Lemma keeps_loop `{Primitives} `{Read R} fuel vault o x dek size u :
  keeps_vault (Vault.upload_loop (R:=R) fuel vault o x dek size u).
Proof. revert u. induction fuel as [|fuel IH]; intros u; simpl; keeps. Qed.

Lemma keeps_dropping {R A} p (m : Op R A) : keeps_vault m → keeps_vault (Vault.dropping_publication p m).
Proof.
  intros Hm s r s'. unfold Vault.dropping_publication. destruct (m s) as [[a|e] [[v w] y]] eqn:E; apply Hm in E;
    by intros [= <- <-].
Qed.

Section upload.
Context `{PrimitivesOk} `{ReadOk R}.
Variables (vault : VaultId) (o : ObjectId) (x : VersionId) (dek : bytes) (size : Z) (row : VersionRow) (db0 : Db).

(** The loop invariant: [ps] has been read, sealed as [cs] and inserted. *)
Record upload_inv (u : Vault.Upload) (ps : list bytes) (cs : list EncryptedChunk) (r : R) (db : Db) : Prop := {
  ui_streaming : Storage.sp_object_id (Vault.up_publication u) = o ∧
    Storage.sp_version_id (Vault.up_publication u) = x ∧ streaming (Vault.up_publication u) row cs db0 db;
  ui_digest : Vault.up_digest u = Crypto.digest_chunks Crypto.digest_new cs;
  ui_count : Vault.up_chunk_count u = lenZ cs ∧ lenZ cs ≤ Vault.MAX_CHUNKS_PER_VERSION;
  ui_len : Vault.up_plaintext_len u = lenZ (concat ps) ∧
    Storage.sp_plaintext_len (Vault.up_publication u) = lenZ (concat ps);
  ui_sealed : sealed_parts dek (Crypto.chunk_aad vault o x) 0 ps cs;
  ui_parts : parts_ok size ps;
  ui_full : contents r = [] ∨ Forall (λ q, lenZ q = size) ps;
}.

Lemma on_arg_ok {A} (m : M R VaultError A) (s : VS R) a s' :
  Vault.on_arg m s = (Ok a, s') → m s.2 = (Ok a, s'.2) ∧ s'.1 = s.1.
Proof. unfold Vault.on_arg, szoom. destruct (m s.2). by intros [= <- <-]. Qed.

Lemma upload_loop_ok fuel u ps cs (s : VS R) u' s' :
  0 < size → upload_inv u ps cs s.2 (w_db s.1.2) →
  Vault.upload_loop fuel vault o x dek size u s = (Ok u', s') →
  ∃ ps' cs', upload_inv u' ps' cs' s'.2 (w_db s'.1.2) ∧ concat ps' = concat ps ++ contents s.2.
Proof.
  intros Hsz. revert u ps cs s. induction fuel as [|fuel IH]; intros u ps cs s Hinv; simpl;
    intros (buf & s1 & [Er E1]%on_arg_ok & E)%sbind_ok;
    unfold Vault.read_next_chunk in Er;
    apply read_next_chunk_fuel_ok in Er as (d & Hd & Hc & Hl & Hshort & Hrank & _); try (unfold lenZ; simpl; lia);
    simpl in Hd; subst d; case_bool_decide as Hb.
  1,3: injection E as <- <-; subst buf; exists ps, cs; rewrite E1, Hc;
    rewrite Hshort by (unfold lenZ; simpl; lia); rewrite !app_nil_r; split; [|done];
    destruct Hinv; constructor; try done; left; apply Hshort; unfold lenZ; simpl; lia.
  1: done.
  destruct Hinv as [(Ho & Hx & Hst) Hdg [Hcnt Hmax] [Hpl Hspl] Hsealed Hparts Hfull].
  destruct (Z.leb_spec Vault.MAX_CHUNKS_PER_VERSION (Vault.up_chunk_count u)) as [|Hlt]; [done|].
  apply sbind_ok in E as (len & s2 & E2 & E). injection E2 as E2 <-. apply ok_or_ok, u32_try_from_some in E2 as [<- _].
  apply sbind_ok in E as (rec & s3 & E3 & E). destruct (frames_random _ _ _ _ E3) as (_ & F3 & F3x).
  apply random_ok in E3 as (g & g' & Hseal).
  apply sbind_ok in E as (p' & s4 & E4 & E). apply on_world_eq in E4 as (w4 & E4 & ->).
  rewrite <-E1 in Hst. rewrite <-F3 in Hst.
  apply (append_chunk_cases _ _ _ _ _ _ _ _ _ Hst) in E4 as (Hst' & _ & Hp').
  apply sbind_ok in E as (pl & s5 & E5 & E). injection E5 as E5 <-. apply ok_or_ok, u64_checked_add_some in E5 as [-> _].
  apply sbind_ok in E as (ct & s6 & E6 & E). injection E6 as E6 <-. apply ok_or_ok, u32_checked_add_some in E6 as [-> _].
  apply (IH _ (ps ++ [buf]) (cs ++ [mkChunk (Vault.up_chunk_count u) rec])) in E.
  - destruct E as (ps' & cs' & Hi & Hcat). exists ps', cs'. split; [done|]. simpl in Hcat.
    rewrite Hcat, concat_app, F3x, Hc. simpl. by rewrite app_nil_r, (assoc_L (++)).
  - assert (Hne : contents s.2 ≠ []) by (rewrite Hc; by destruct buf). destruct Hfull as [|Hfull]; [done|].
    assert (0 < lenZ buf) by (destruct buf; [done|unfold lenZ; simpl; lia]).
    constructor; simpl; rewrite ?lenZ_app, ?concat_app; rewrite ?lenZ_app; simpl; rewrite ?app_nil_r, ?F3x;
      change (lenZ [mkChunk (Vault.up_chunk_count u) rec]) with 1.
    + split_and!; [by rewrite Hp'|by rewrite Hp'|done].
    + by rewrite Hdg, digest_chunks_snoc.
    + split; lia.
    + split; [lia|]. rewrite Hp'. simpl. lia.
    + apply sealed_parts_snoc; simpl; [done|lia| |].
      * by apply Crypto.seal_ok in Hseal as (_ & ? & _).
      * rewrite Z.add_0_l, <-Hcnt. by eapply Crypto.open_seal.
    + by apply parts_ok_snoc.
    + destruct (decide (lenZ buf = size)) as [Hf|Hf]; [right; by apply Forall_app_2; [|apply Forall_singleton]|].
      left. apply Hshort. lia.
Qed.

(** An upload that completes has seen the end of its reader. *)
Lemma upload_loop_end P fuel u (s : VS R) u' s' :
  at_end P → 0 < size → Vault.upload_loop fuel vault o x dek size u s = (Ok u', s') → P s.2.
Proof.
  intros HP Hsz. revert u s. induction fuel as [|fuel IH]; intros u s; simpl;
    intros (buf & s1 & [Er E1]%on_arg_ok & E)%sbind_ok; unfold Vault.read_next_chunk in Er;
    eapply read_next_chunk_fuel_end in Er; [exact Er| | | |exact Er| | |]; try done; case_bool_decide as Hb; auto; [done|right].
  destruct (_ <=? _); [done|].
  apply sbind_ok in E as (len & s2 & E2 & E). injection E2 as _ <-.
  apply sbind_ok in E as (rec & s3 & E3 & E). destruct (frames_random _ _ _ _ E3) as (_ & _ & F3x).
  apply sbind_ok in E as (p' & s4 & E4 & E). apply on_world_eq in E4 as (w4 & _ & ->).
  apply sbind_ok in E as (pl & s5 & E5 & E). injection E5 as _ <-.
  apply sbind_ok in E as (ct & s6 & E6 & E). injection E6 as _ <-.
  apply IH in E. simpl in E. congruence.
Qed.

(** Any fuel from the reader's rank on gives the same upload. *)
Lemma upload_loop_enough f1 f2 u (s : VS R) :
  0 < size → (read_rank s.2 ≤ f1)%nat → (read_rank s.2 ≤ f2)%nat →
  Vault.upload_loop f1 vault o x dek size u s = Vault.upload_loop f2 vault o x dek size u s.
Proof.
  intros Hsz. revert f2 u s. induction f1 as [|f1 IH]; intros f2 u s Hf1 Hf2; destruct f2 as [|f2]; simpl; [done| | |];
    apply sbind_ext; intros buf s1 [Er E1]%on_arg_ok; unfold Vault.read_next_chunk in Er;
    apply read_next_chunk_fuel_ok in Er as (d & Hd & _ & _ & _ & Hr & _); try (unfold lenZ; simpl; lia);
    simpl in Hd; subst d; (case_bool_decide as Hb; [done|]); (destruct Hr as [->|Hr]; [done|]); try lia.
  destruct (_ <=? _); [done|]. apply sbind_ext. intros len s2 [= _ <-].
  apply sbind_ext. intros rec s3 (_ & _ & F3)%frames_random.
  apply sbind_ext. intros p' s4 (w4 & _ & ->)%on_world_eq.
  apply sbind_ext. intros pl s5 [= _ <-]. apply sbind_ext. intros ct s6 [= _ <-].
  apply IH; simpl; rewrite F3; lia.
Qed.

(** ** The whole operation *)

Lemma keeps_upload size32 p : keeps_vault (Vault.upload (R:=R) vault o x dek size size32 p).
Proof. unfold Vault.upload. keeps. apply keeps_loop. Qed.

End upload.

Section put_from_reader.
Context `{PrimitivesOk} `{ReadOk R}.

Lemma keeps_put_from_reader o size : keeps_vault (Vault.put_from_reader_inner (R:=R) o size).
Proof. unfold Vault.put_from_reader_inner. keeps; apply keeps_gets || apply keeps_dropping, keeps_upload. Qed.

Lemma upload_ok vault o x dek size (s : VS R) p u man s' row db0 :
  0 < size → Storage.sp_object_id p = o → Storage.sp_version_id p = x → Storage.sp_plaintext_len p = 0 →
  streaming p row [] db0 (w_db s.1.2) →
  Vault.upload vault o x dek size size p s = (Ok (u, man), s') →
  ∃ ps cs mkey,
    upload_inv vault o x dek size row db0 u ps cs s'.2 (w_db s'.1.2) ∧ concat ps = contents s.2 ∧
    Crypto.derive_manifest_key dek x = Ok mkey ∧ length (nonce man) = 12%nat ∧
    Crypto.open mkey (Crypto.manifest_aad vault o x) man =
      Ok (Cde.encode_manifest (mkManifest FORMAT_VERSION o x (Vault.up_plaintext_len u) size
            (Vault.up_chunk_count u) (Crypto.digest_finalize (Vault.up_digest u)))).
Proof.
  intros Hsz Ho Hx Hpl Hst. unfold Vault.upload. intros (rank & s1 & [= _ <-] & E)%sbind_ok.
  apply sbind_ok in E as (u' & s2 & E2 & E).
  apply (upload_loop_ok _ _ _ _ _ row db0 _ _ [] []) in E2 as (ps & cs & Hinv & Hcat); [|done|].
  2: { constructor; simpl; try done; [constructor|by right]. }
  apply sbind_ok in E as (mkey & s3 & E3 & E). injection E3 as Hmk <-.
  apply sbind_ok in E as (man' & s4 & E4 & E). injection E as <- <- <-.
  destruct (frames_random _ _ _ _ E4) as (_ & F4 & F4x). apply random_ok in E4 as (g & g' & Hseal).
  exists ps, cs, mkey. rewrite F4, F4x. split_and!; [done|done|done| |].
  - by apply Crypto.seal_ok in Hseal as (_ & ? & _).
  - by eapply Crypto.open_seal.
Qed.

(** The finished rows are those of a version sealed for the vault. *)
Lemma finished_seals vault root_key kek o x dek size wdek u ps cs r db db0 man mkey :
  wf_id vault → wf_id o → wf_id x → 0 < size ≤ u32_max → length dek = 32%nat →
  Crypto.derive_kek root_key vault = Ok kek →
  Crypto.open kek (Crypto.wrapped_dek_aad vault o x) wdek = Ok dek → length (nonce wdek) = 12%nat →
  upload_inv vault o x dek size (Storage.placeholder_row o wdek size) db0 u ps cs r db →
  Crypto.derive_manifest_key dek x = Ok mkey → length (nonce man) = 12%nat →
  Crypto.open mkey (Crypto.manifest_aad vault o x) man =
    Ok (Cde.encode_manifest (mkManifest FORMAT_VERSION o x (Vault.up_plaintext_len u) size
          (Vault.up_chunk_count u) (Crypto.digest_finalize (Vault.up_digest u)))) →
  lenZ (concat ps) ≤ i64_max →
  seals vault root_key (finished_version (Vault.up_publication u) (Storage.placeholder_row o wdek size) man) cs
    (concat ps).
Proof.
  intros Hv Ho Hx Hs Hd Hkek Hopen Hn [(Eo & Ex & (_ & Hnext & _)) Hdg [Hc Hmax] [Hpl Hspl] Hse Hpa _] Hmk Hnm Hman Hl.
  constructor; simpl; rewrite ?Eo, ?Ex; try done.
  - exists kek, dek, mkey. split_and!; try done; [|by exists ps].
    rewrite Hman. unfold version_manifest. simpl. by rewrite Eo, Ex, Hpl, Hc, Hspl, Hnext, Hdg.
Qed.

(** The tables change only when the reader's end was reached. *)
Lemma put_from_reader_effect o size (s : VS R) r s' :
  wf_id o → wf_id (v_vault_id s.1.1) → 0 ≤ size →
  Vault.put_from_reader_inner o size s = (r, s') →
  (is_ok r = false ∧ w_db s'.1.2 = w_db s.1.2) ∨
  (∀ P, at_end P → P s.2) ∧
  ∃ v cs root_key, v_root_key s.1.1 = Some root_key ∧ sv_object_id v = o ∧ w_db s'.1.2 = published v cs None (w_db s.1.2) ∧
    admitted v cs (w_db s.1.2) ∧ seals (v_vault_id s.1.1) root_key v cs (contents s.2) ∧ (∀ x, r = Ok x → x = sv_version_id v).
Proof.
  intros Hwo Hwv Hsz E. unfold Vault.put_from_reader_inner in E.
  destruct (Z.eqb_spec size 0); [injection E as <- <-; by left|].
  unfold sbind at 1 in E. destruct (slift _ s) as [[sz|] s1] eqn:E1; injection E1 as E1 <-; [|injection E as <- <-; by left].
  apply ok_or_ok, u32_try_from_some in E1 as [<- Hsu].
  unfold sbind at 1 in E. destruct (Vault.require_root_key s) as [[root|] s1] eqn:E1;
    [|apply frames_root_key in E1 as (_ & F & _); injection E as <- <-; by left].
  apply require_root_key_ok in E1 as [Hroot ->].
  unfold sbind at 1 in E. destruct (Vault.random random_id s) as [[x|] s1] eqn:E1; 
    destruct (frames_random _ _ _ _ E1) as (F1 & F1db & F1x); [|injection E as <- <-; by left].
  apply random_ok in E1 as (g1 & g1' & Hx%random_id_ok).
  unfold sbind at 1 in E. destruct (Vault.random Crypto.generate_dek s1) as [[dek|] s2] eqn:E2;
    destruct (frames_random _ _ _ _ E2) as (F2 & F2db & F2x); [|injection E as <- <-; left; split; [done|congruence]].
  apply random_ok in E2 as (g2 & g2' & Hdek%Crypto.fill_bytes_length).
  unfold sbind at 1, Vault.the_vault at 1, sgets at 1 in E. rewrite F2, F1 in E.
  unfold sbind at 1 in E. destruct (slift _ s2) as [[kek|] s3] eqn:E3; injection E3 as E3 <-;
    [|injection E as <- <-; left; split; [done|congruence]].
  unfold sbind at 1 in E. destruct (Vault.random (Crypto.seal kek _ _) s2) as [[wdek|] s4] eqn:E4;
    destruct (frames_random _ _ _ _ E4) as (F4 & F4db & F4x); [|injection E as <- <-; left; split; [done|congruence]].
  apply random_ok in E4 as (g4 & g4' & Hwdek).
  unfold sbind at 1 in E. destruct (Vault.on_world _ s4) as [[p|] s5] eqn:E5;
    apply on_world_eq in E5 as (w5 & E5 & ->); apply begin_streaming_cases in E5;
    [|injection E as <- <-; left; split; [done|]; simpl; congruence].
  destruct E5 as [Hst Hp]. unfold sbind at 1, Vault.dropping_publication in E.
  destruct (Vault.upload _ _ _ _ _ _ _ _) as [[[u man]|] [[v6 w6] r6]] eqn:E6.
  2: { injection E as <- <-. left. split; [done|]. simpl. rewrite Hp. simpl. congruence. }
  assert (∀ P, at_end P → P s.2) as Hend.
  { intros P HP. unfold Vault.upload in E6. apply sbind_ok in E6 as (? & ? & [= _ <-] & E6).
    apply sbind_ok in E6 as (? & ? & E6 & _). apply (upload_loop_end _ _ _ _ _ P) in E6; [|done|lia]. simpl in E6. congruence. }
  apply (upload_ok _ _ _ _ _ _ _ _ _ _ (Storage.placeholder_row o wdek size) (w_db s4.1.2)) in E6
    as (ps & cs & mkey & Hinv & Hcat & Hmk & Hnm & Hman); [|lia|by rewrite Hp..|done].
  simpl in Hinv, Hcat. unfold sbind in E.
  destruct (Vault.on_world _ _) as [r7 s7] eqn:E7. apply on_world_eq in E7 as (w7 & E7 & ->). simpl in E, E7.
  assert (w_db s'.1.2 = w_db w7 ∧ is_ok r = is_ok r7 ∧ (∀ y, r = Ok y → y = x)) as (-> & Hr & Hy).
  { destruct r7; injection E as <- <-; simpl; split_and!; try done. by intros ? [= <-]. }
  destruct (ui_streaming _ _ _ _ _ _ _ _ _ _ _ _ Hinv) as (Eo & Ex & Hst7).
  assert (w_db s4.1.2 = w_db s.1.2) as Edb0 by congruence.
  apply (finish_cases _ _ _ _ _ _ _ _ _ Hst7) in E7 as [[? E7]|(Hadm & Hcc & Hn12 & E7)].
  { left. split; congruence. }
  right. split; [done|]. exists (finished_version (Vault.up_publication u) (Storage.placeholder_row o wdek size) man), cs, root.
  rewrite Edb0 in *. split_and!; try done. 2: { intros y Hy'%Hy. simpl. congruence. }
  assert (contents s.2 = concat ps) as -> by congruence.
  pose proof (Crypto.seal_ok _ _ _ _ _ _ Hwdek) as (_ & ? & _).
  eapply (finished_seals _ _ kek _ _ dek); try exact Hinv; try done; [lia|apply Hdek|by eapply Crypto.open_seal|].
  destruct (ui_len _ _ _ _ _ _ _ _ _ _ _ _ Hinv) as [_ <-]. apply (adm_len _ _ _ Hadm).
Qed.

Lemma put_from_reader_cases o size (s : VS R) r s' :
  wf_id o → wf_id (v_vault_id s.1.1) → 0 ≤ size →
  Vault.put_from_reader_inner o size s = (r, s') →
  s'.1.1 = s.1.1 ∧
  put_effect (v_vault_id s.1.1) (v_root_key s.1.1) o (contents s.2) (w_db s.1.2) r (w_db s'.1.2).
Proof.
  intros Hwo Hwv Hsz E. split; [by eapply keeps_put_from_reader|].
  apply put_from_reader_effect in E as [?|[_ ?]]; [by left|by right|done..].
Qed.

End put_from_reader.
End StreamSpec.

(** [impl Read for &[u8]]. *)
#[global] Instance read_slice : Read bytes := {
  read n r := (ReadData (takeZ n r), dropZ n r);
  read_rank r := length r;
}.

#[global] Program Instance read_slice_ok : ReadOk bytes := { contents r := r }.
Next Obligation.
  intros n r d r' Hn [= <- <-]. rewrite takeZ_take, dropZ_drop. split; [by rewrite take_drop|]. split.
  - unfold lenZ. rewrite length_take. lia.
  - destruct r; [done|]. destruct (Z.to_nat n) eqn:E; [lia|done].
Qed.
Next Obligation. done. Qed.
Next Obligation. intros n r o r' _ [= _ <-] _. simpl. rewrite dropZ_drop, length_drop. lia. Qed.
Next Obligation.
  intros n r o r' Hn [= <- <-] _ Hne. simpl. rewrite dropZ_drop, length_drop. destruct r as [|b r]; [done|]. simpl. lia.
Qed.
