(* ===== verification/Refinement.v ===== *)
(** * The vault as a map from objects to plaintexts

    The abstract specification of a vault session is a finite map: a
    publication inserts, a read looks up, a verification sweep counts.  The
    concrete vault simulates it step by step, for every fault schedule, every
    random stream and every chunk size. *)

From S2P Require Import Prelude Format Cde Crypto Witness Fs Storage Vault Toy StorageSpec VaultSpec StreamSpec.
From Stdlib Require Import ZArith Lia.
From stdpp Require Import base numbers list gmap strings sorting relations.

Open Scope Z_scope.
Open Scope vlt_scope.

Module Refinement.
Import StorageSpec VaultSpec StreamSpec.

#[global] Instance as_bytes_inj {k} : Inj (=) (=) (as_bytes (k:=k)).
Proof. intros i j. apply Crypto.id_ext. Qed.

Lemma size_kmap_as_bytes {k V} (m : gmap (Identifier k) V) : size (kmap as_bytes m : gmap bytes V) = size m.
Proof.
  induction m as [|i x m Hi IH] using map_ind; [by rewrite kmap_empty|].
  rewrite (kmap_insert as_bytes), !map_size_insert_None; [congruence|done|by rewrite (lookup_kmap as_bytes)].
Qed.

Section refinement.
Context `{PrimitivesOk} `{ReadOk R}.
Variables (vault : VaultId) (root_key : bytes).

(** ** Abstract sessions *)

Abbreviation Store := (gmap ObjectId bytes).

Inductive Command : Type :=
| CPut (o : ObjectId) (pt : bytes) (size : Z)
| CPutStream (o : ObjectId) (reader : R) (size : Z)
| CGet (o : ObjectId)
| CVerify
| CLock.

Inductive Response : Type :=
| RVersion (r : Result VersionId)
| RData (r : Result bytes)
| RCount (r : Result Z)
| RDone.

(** The types of the arguments. *)
Definition wf_command (c : Command) : Prop :=
  match c with
  | CPut o _ size | CPutStream o _ size => wf_id o ∧ 0 ≤ size
  | CGet o => wf_id o
  | CVerify | CLock => True
  end.

(** A publication that reports an error may have taken effect; a read or a
    sweep that fails on intact data does so only because the vault is locked
    or the storage failed. *)
Inductive spec_step (kv : Store) : Command → Response → Store → Prop :=
| spec_put_ok o pt size x : spec_step kv (CPut o pt size) (RVersion (Ok x)) (<[o := pt]> kv)
| spec_put_none o pt size e : spec_step kv (CPut o pt size) (RVersion (Err e)) kv
| spec_put_late o pt size e : spec_step kv (CPut o pt size) (RVersion (Err e)) (<[o := pt]> kv)
| spec_stream_ok o rd size x : spec_step kv (CPutStream o rd size) (RVersion (Ok x)) (<[o := contents rd]> kv)
| spec_stream_none o rd size e : spec_step kv (CPutStream o rd size) (RVersion (Err e)) kv
| spec_stream_late o rd size e : spec_step kv (CPutStream o rd size) (RVersion (Err e)) (<[o := contents rd]> kv)
| spec_get_ok o pt : kv !! o = Some pt → spec_step kv (CGet o) (RData (Ok pt)) kv
| spec_get_absent o : kv !! o = None → spec_step kv (CGet o) (RData (Err NotFound)) kv
| spec_get_err o e : e = Locked ∨ e = Storage → spec_step kv (CGet o) (RData (Err e)) kv
| spec_verify_ok : spec_step kv CVerify (RCount (Ok (Z.of_nat (size kv)))) kv
| spec_verify_err e : e = Locked ∨ e = Storage → spec_step kv CVerify (RCount (Err e)) kv
| spec_verify_overflow : u64_max < Z.of_nat (size kv) →
    spec_step kv CVerify (RCount (Err (Invariant "active object count exceeds u64"))) kv
| spec_lock : spec_step kv CLock RDone kv.

(** ** Concrete sessions *)

Definition run {X A} (m : Op X A) (x : X) (s : Vault * World) : Result A * (Vault * World) :=
  let '(r, s') := m (s, x) in (r, s'.1).

Definition step (c : Command) (s : Vault * World) : Response * (Vault * World) :=
  match c with
  | CPut o pt size => let '(r, s) := run (Vault.put_with_chunk_size o pt size) tt s in (RVersion r, s)
  | CPutStream o rd size => let '(r, s) := run (Vault.put_from_reader_with_chunk_size o size) rd s in (RVersion r, s)
  | CGet o => let '(r, s) := run (Vault.get o) tt s in (RData r, s)
  | CVerify => let '(r, s) := run Vault.verify_active_objects tt s in (RCount r, s)
  | CLock => let '(_, s) := run Vault.lock_op tt s in (RDone, s)
  end.

(** ** The simulation relation *)

Definition vault_ok (v : Vault) : Prop :=
  v_vault_id v = vault ∧ (v_root_key v = Some root_key ∨ v_root_key v = None).

Record refines (kv : Store) (db : Db) : Prop := {
  ref_wf : db_wf db;
  ref_stored o pt : kv !! o = Some pt → stored vault root_key db o pt;
  ref_dom : dom (db_objects db) = dom (kmap as_bytes kv : gmap bytes bytes);
}.

Lemma refines_absent kv db o : refines kv db → kv !! o = None → db_objects db !! as_bytes o = None.
Proof.
  intros [_ _ Hd] Ho. apply not_elem_of_dom. rewrite Hd. apply not_elem_of_dom.
  rewrite (lookup_kmap as_bytes). done.
Qed.

Lemma refines_size kv db : refines kv db → size (db_objects db) = size kv.
Proof. intros [_ _ Hd]. by rewrite <-size_dom, Hd, size_dom, size_kmap_as_bytes. Qed.

(** A publication moves the relation to the map with the new entry. *)
Lemma refines_put kv db v cs pt :
  refines kv db → admitted v cs db → seals vault root_key v cs pt →
  refines (<[sv_object_id v := pt]> kv) (published v cs None db).
Proof.
  intros [Hwf Hst Hd] Hadm Hs. constructor.
  - by apply published_wf.
  - intros o p [[<- <-]|[Hne Ho]]%lookup_insert_Some.
    + by apply stored_published.
    + apply stored_published_other; auto.
  - unfold published. simpl. rewrite (kmap_insert as_bytes). by rewrite !dom_insert_L, Hd.
Qed.

Lemma refines_effect kv v o pt db r db' :
  vault_ok v → refines kv db →
  put_effect (v_vault_id v) (v_root_key v) o pt db r db' →
  (is_ok r = false ∧ refines kv db') ∨ refines (<[o := pt]> kv) db'.
Proof.
  intros [Ev Hk] Href [[Hr ->]|(sv & cs & k & Ek & <- & -> & Hadm & Hs & _)]; [by left|right].
  destruct Hk as [Hk|Hk]; [|congruence]. rewrite Ev in Hs. assert (k = root_key) as -> by congruence.
  by apply refines_put.
Qed.

Lemma lock_ok v e : vault_ok v → vault_ok (if requires_lock e then Vault.lock v else v).
Proof. intros [? ?]. destruct (requires_lock e); [|done]. split; [done|by right]. Qed.

Lemma lock_after_failure_eq {X A} (m : Op X A) s r s' :
  Vault.lock_after_failure m s = (r, s') →
  ∃ s1, m s = (r, s1) ∧ s'.1.2 = s1.1.2 ∧ s'.2 = s1.2 ∧
    s'.1.1 = match r with Ok _ => s1.1.1 | Err e => if requires_lock e then Vault.lock s1.1.1 else s1.1.1 end.
Proof.
  unfold Vault.lock_after_failure. destruct (m s) as [[a|e] [[v w] x]]; intros [= <- <-]; eauto.
Qed.

Lemma vault_ok_after {A} (r : Result A) v :
  vault_ok v → vault_ok (match r with Ok _ => v | Err e => if requires_lock e then Vault.lock v else v end).
Proof. destruct r; [done|]. apply lock_ok. Qed.

(** A failing lookup of an absent object. *)
Lemma active_version_absent w o r w' :
  db_objects (w_db w) !! as_bytes o = None → Storage.active_version o w = (r, w') →
  ticks w w' ∧ (r = Err NotFound ∨ r = Err Storage).
Proof.
  intros Ho. unfold Storage.active_version, sbind at 1.
  destruct (Sql.query _ w) as [r1 w1] eqn:E. destruct (reads_ok _ _ _ _ _ (reads_query _ w) E) as (Ht & [->|[-> _]]).
  - rewrite Ho. intros [= <- <-]. auto.
  - intros [= <- <-]. auto.
Qed.

Lemma get_inner_cases {X} kv v w (x : X) o r s' :
  vault_ok v → refines kv (w_db w) → Vault.get_inner o ((v, w), x) = (r, s') →
  s'.1.1 = v ∧ w_db s'.1.2 = w_db w ∧ spec_step kv (CGet o) (RData r) kv.
Proof.
  intros [Ev Hk] Href. unfold Vault.get_inner.
  destruct (Vault.get_to_writer_inner o _) as [rg sg] eqn:E. destruct Hk as [Hk|Hk].
  2: { unfold Vault.get_to_writer_inner, sbind at 1 in E. unfold Vault.require_root_key in E. cbn in E. rewrite Hk in E.
       injection E as <- <-. intros [= <- <-]. split_and!; [done..|]. apply spec_get_err. auto. }
  destruct (kv !! o) as [pt|] eqn:Ho.
  - destruct (get_to_writer_reads v w ([] : bytes) root_key o pt Hk) as (w' & Ht & Hc).
    { rewrite Ev. by apply (ref_stored _ _ Href). }
    rewrite E in Hc. destruct Hc as [Hc|[[out Hc] _]]; injection Hc as -> ->; intros [= <- <-]; simpl; split_and!; try done;
      try apply Ht; [by apply spec_get_ok|apply spec_get_err; auto].
  - unfold Vault.get_to_writer_inner, sbind at 1 in E. unfold Vault.require_root_key in E. cbn in E. rewrite Hk in E.
    cbn in E. unfold sbind at 1 in E. destruct (Vault.on_world _ _) as [r1 s1] eqn:E1.
    apply on_world_eq in E1 as (w1 & E1 & ->). cbn in E1.
    destruct (active_version_absent _ _ _ _ (refines_absent _ _ _ Href Ho) E1) as (Ht & [-> | ->]); injection E as <- <-;
      intros [= <- <-]; simpl; split_and!; try done; try apply Ht; [by apply spec_get_absent|apply spec_get_err; auto].
Qed.

(** ** The verification sweep *)

Lemma from_slices_map {k} (ids : list (Identifier k)) :
  Forall wf_id ids → Storage.from_slices (map as_bytes ids) = Ok ids.
Proof.
  induction 1 as [|i ids Hi _ IH]; [done|]. cbn [map Storage.from_slices]. rewrite (from_slice_as_bytes _ Hi). simpl.
  by rewrite IH.
Qed.

(** The identifiers the sweep visits are the keys of the map. *)
Lemma select_object_ids_refines kv db :
  refines kv db → ∃ ids, Sql.select_object_ids db = map as_bytes ids ∧ length ids = size kv ∧
    Forall wf_id ids ∧ Forall (λ o, is_Some (kv !! o)) ids.
Proof.
  intros Href. exists (map mkId (Sql.select_object_ids db)).
  assert (Hin : ∀ b, b ∈ Sql.select_object_ids db → ∃ o, as_bytes o = b ∧ is_Some (kv !! o)).
  { intros b Hb. unfold Sql.select_object_ids in Hb. rewrite merge_sort_Permutation in Hb.
    apply list_elem_of_In, in_map_iff in Hb as ([b' x] & <- & Hb%list_elem_of_In%elem_of_map_to_list).
    apply elem_of_dom_2 in Hb. rewrite (ref_dom _ _ Href) in Hb. apply elem_of_dom in Hb as [y Hy].
    apply lookup_kmap_Some in Hy as (o & -> & Ho); [|apply _]. simpl. eauto. }
  assert (Hids : Forall (λ o, wf_id o ∧ is_Some (kv !! o)) (map (mkId (k:=KObject)) (Sql.select_object_ids db))).
  { apply Forall_forall. intros o (b & <- & (o' & <- & Ho)%list_elem_of_In%Hin)%list_elem_of_In%in_map_iff.
    assert (mkId (as_bytes o') = o') as -> by by destruct o'. split; [|done]. destruct Ho as [pt Hpt].
    apply (ref_stored _ _ Href) in Hpt as (sv & cs & <- & _ & _ & Hs). apply (seals_wf_ids _ _ _ _ _ Hs). }
  split_and!.
  - rewrite map_map. by rewrite map_id.
  - rewrite length_map. unfold Sql.select_object_ids. rewrite merge_sort_Permutation, length_map, length_map_to_list.
    by apply refines_size.
  - eapply Forall_impl; [exact Hids|]. by intros o [? _].
  - eapply Forall_impl; [exact Hids|]. by intros o [_ ?].
Qed.

Lemma get_to_sink_reads {X} v w (x : X) o pt :
  v_root_key v = Some root_key → stored (v_vault_id v) root_key (w_db w) o pt →
  op_reads (Vault.get_to_sink o) v w x tt x.
Proof.
  intros Hk Hs. destruct (get_to_writer_reads v w tt root_key o pt Hk Hs) as (w' & Ht & Hc). exists w'. split; [done|].
  unfold Vault.get_to_sink, Vault.with_arg. simpl. destruct Hc as [->|[[[] ->] ?]]; [by left|right; eauto].
Qed.

Lemma verify_each_reads {X} v w (x : X) ids :
  v_root_key v = Some root_key →
  Forall (λ o, ∃ pt, stored (v_vault_id v) root_key (w_db w) o pt) ids →
  op_reads (Vault.verify_each ids) v w x tt x.
Proof.
  intros Hk. revert w. induction ids as [|o ids IH]; intros w Hids; simpl; [apply op_reads_ret|].
  apply Forall_cons in Hids as [[pt Hpt] Hids]. eapply op_reads_bind; [by eapply get_to_sink_reads|].
  intros w' (E & _). apply IH. by rewrite E.
Qed.

Lemma verify_inner_cases {X} kv v w (x : X) r s' :
  vault_ok v → refines kv (w_db w) → Vault.verify_active_objects_inner ((v, w), x) = (r, s') →
  s'.1.1 = v ∧ w_db s'.1.2 = w_db w ∧ spec_step kv CVerify (RCount r) kv.
Proof.
  intros [Ev Hk] Href. destruct Hk as [Hk|Hk].
  2: { unfold Vault.verify_active_objects_inner, Vault.require_root_key, sbind at 1. cbn. rewrite Hk.
       intros [= <- <-]. split_and!; [done..|]. apply spec_verify_err. auto. }
  destruct (select_object_ids_refines kv _ Href) as (ids & Hsel & Hlen & Hwf & Hin).
  assert (op_reads (Vault.require_root_key ;* let* ids := Vault.on_world Storage.active_object_ids in
            Vault.verify_each ids ;* sret ids) v w x ids x) as Hr.
  { eapply op_reads_bind; [by apply op_reads_root_key|]. intros w1 (E1 & _).
    eapply op_reads_bind.
    { apply op_reads_world. unfold Storage.active_object_ids. eapply reads_bind; [apply reads_query|]. intros w2 _.
      apply reads_lift. rewrite E1, Hsel. by apply from_slices_map. }
    intros w2 (E2 & _). eapply op_reads_bind; [apply verify_each_reads; [done|]|intros; apply op_reads_ret].
    eapply Forall_impl; [exact Hin|]. intros o [pt Hpt]. exists pt. rewrite E2, E1, Ev. by apply (ref_stored _ _ Href). }
  destruct Hr as (w' & Ht & Hc). unfold Vault.verify_active_objects_inner. unfold sbind in Hc |- *.
  destruct (Vault.require_root_key _) as [[k|] s1]; [|].
  - destruct (Vault.on_world _ s1) as [[l|] s2].
    + destruct (Vault.verify_each l s2) as [[[]|] s3].
      * destruct Hc as [Hc|[[? Hc] _]]; [|done]. injection Hc as -> ->. unfold slift, Vault.u64_len.
        intros [= <- <-]. simpl. split_and!; [done|apply Ht|].
        unfold lenZ. rewrite Hlen. destruct (Z.leb_spec (Z.of_nat (size kv)) u64_max); [constructor|by constructor].
      * destruct Hc as [?|[[y Hc] _]]; [done|]. injection Hc as -> ->. intros [= <- <-]. simpl.
        split_and!; [done|apply Ht|constructor; auto].
    + destruct Hc as [?|[[y Hc] _]]; [done|]. injection Hc as -> ->. intros [= <- <-]. simpl.
      split_and!; [done|apply Ht|constructor; auto].
  - destruct Hc as [?|[[y Hc] _]]; [done|]. injection Hc as -> ->. intros [= <- <-]. simpl.
    split_and!; [done|apply Ht|constructor; auto].
Qed.

(** ** Simulation *)

Lemma step_refines kv c v w resp s' :
  wf_id vault → wf_command c → vault_ok v → refines kv (w_db w) → step c (v, w) = (resp, s') →
  ∃ kv', spec_step kv c resp kv' ∧ refines kv' (w_db s'.2) ∧ vault_ok s'.1.
Proof.
  intros Hwv Hwc Hv Href. unfold step, run. destruct c as [o pt size|o rd size|o| |].
  - destruct (Vault.put_with_chunk_size _ _ _ _) as [r s1] eqn:E. intros [= <- <-].
    apply lock_after_failure_eq in E as (s2 & E & Ew & _ & Evv).
    apply put_inner_cases in E as (F & _ & Heff); [|apply Hwc|simpl; by destruct Hv as [-> _]|apply Hwc]. simpl in F, Heff.
    assert (vault_ok s1.1.1) by (rewrite Evv, F; by apply vault_ok_after). rewrite Ew.
    destruct (refines_effect _ _ _ _ _ _ _ Hv Href Heff) as [[Hr Hk]|Hk]; destruct r; try done;
      eexists; (split; [constructor|done]).
  - destruct (Vault.put_from_reader_with_chunk_size _ _ _) as [r s1] eqn:E. intros [= <- <-].
    apply lock_after_failure_eq in E as (s2 & E & Ew & _ & Evv).
    apply put_from_reader_cases in E as (F & Heff); [|apply Hwc|simpl; by destruct Hv as [-> _]|apply Hwc]. simpl in F, Heff.
    assert (vault_ok s1.1.1) by (rewrite Evv, F; by apply vault_ok_after). rewrite Ew.
    destruct (refines_effect _ _ _ _ _ _ _ Hv Href Heff) as [[Hr Hk]|Hk]; destruct r; try done;
      eexists; (split; [constructor|done]).
  - destruct (Vault.get o _) as [r s1] eqn:E. intros [= <- <-].
    apply lock_after_failure_eq in E as (s2 & E & Ew & _ & Evv).
    apply (get_inner_cases kv) in E as (F & Edb & Hs); [|done..]. exists kv. rewrite Ew, Edb, Evv, F.
    split_and!; [done|done|by apply vault_ok_after].
  - destruct (Vault.verify_active_objects _) as [r s1] eqn:E. intros [= <- <-].
    apply lock_after_failure_eq in E as (s2 & E & Ew & _ & Evv).
    apply (verify_inner_cases kv) in E as (F & Edb & Hs); [|done..]. exists kv. rewrite Ew, Edb, Evv, F.
    split_and!; [done|done|by apply vault_ok_after].
  - intros [= <- <-]. exists kv. split_and!; [constructor|done|]. split; [apply Hv|by right].
Qed.

(** ** Sessions *)

Fixpoint session (cs : list Command) (s : Vault * World) : list Response * (Vault * World) :=
  match cs with
  | [] => ([], s)
  | c :: cs => let '(resp, s) := step c s in let '(resps, s) := session cs s in (resp :: resps, s)
  end.

Inductive spec_session : Store → list Command → list Response → Store → Prop :=
| spec_done kv : spec_session kv [] [] kv
| spec_more kv c resp kv1 cs resps kv2 :
    spec_step kv c resp kv1 → spec_session kv1 cs resps kv2 → spec_session kv (c :: cs) (resp :: resps) kv2.

Lemma session_simulation kv cs v w resps s' :
  wf_id vault → Forall wf_command cs → vault_ok v → refines kv (w_db w) → session cs (v, w) = (resps, s') →
  ∃ kv', spec_session kv cs resps kv' ∧ refines kv' (w_db s'.2) ∧ vault_ok s'.1.
Proof.
  intros Hwv Hcs. revert kv v w resps. induction Hcs as [|c cs Hc _ IH]; intros kv v w resps Hv Href; simpl.
  { intros [= <- <-]. exists kv. split_and!; [constructor|done|done]. }
  destruct (step c (v, w)) as [resp [v1 w1]] eqn:E1. destruct (session cs (v1, w1)) as [resps1 s2] eqn:E2.
  intros [= <- <-]. apply (step_refines kv) in E1 as (kv1 & Hs & Href1 & Hv1); [|done..].
  apply (IH kv1) in E2 as (kv2 & Hss & Href2 & Hv2); [|done..]. exists kv2. split_and!; [by econstructor|done|done].
Qed.

End refinement.

(** ** From the creation of a vault *)

Section create.
Context `{PrimitivesOk}.

Lemma in_rng_ok {A} (m : M Rng VaultError A) w a w' :
  in_rng m w = (Ok a, w') → w_db w' = w_db w ∧ ∃ g, m (w_rng w) = (Ok a, g).
Proof. unfold in_rng, szoom. destruct (m (w_rng w)) as [r g]. intros [= -> <-]. eauto. Qed.

(** A created vault is unlocked, its envelope opens under its passphrase and is
    the one stored, and it holds no object. *)
Lemma create_ok path pw w v w' :
  Vault.create path pw w = (Ok v, w') →
  ∃ root_key, v_root_key v = Some root_key ∧ v_path v = path ∧ wf_id (v_vault_id v) ∧
    Crypto.open_root_key pw (v_envelope v) = Ok root_key ∧
    w_db w' = mkDb (Some (Storage.meta_of_envelope (v_envelope v))) ∅ ∅ ∅ ∅ ∅ ∧
    refines (v_vault_id v) root_key ∅ (w_db w').
Proof.
  unfold Vault.create. intros ([] & w1 & E1 & E)%sbind_ok. injection E1 as _ <-.
  apply sbind_ok in E as (vid & w2 & (_ & g2 & Hvid%random_id_ok)%in_rng_ok & E).
  apply sbind_ok in E as (rk & w3 & (_ & g3 & Hrk%Crypto.fill_bytes_length)%in_rng_ok & E).
  apply sbind_ok in E as (env & w4 & (_ & g4 & Henv)%in_rng_ok & E).
  apply Crypto.open_seal_root_key in Henv as (Hopen & Hvault & _); [|apply Hrk].
  apply sbind_ok in E as ([] & w5 & E5 & E). injection E as <- <-. simpl. exists rk.
  unfold Storage.create in E5. apply sbind_ok in E5 as ([] & wa & _ & E5). apply sbind_ok in E5 as ([] & wb & _ & E5).
  apply sbind_ok in E5 as ([] & wc & Ec & E5). injection Ec as <-.
  apply sbind_ok in E5 as ([] & wd & Ed & E5). apply exec_ok in Ed. injection Ed as Ed.
  apply sbind_ok in E5 as ([] & we & Ee & [E5 _]%in_env_db). apply exec_ok in Ee.
  unfold Sql.insert_meta in Ee. destruct (_ && _) in Ee; [|done]. rewrite <-Ed in Ee. simpl in Ee. injection Ee as Ee.
  rewrite E5, <-Ee. unfold v_vault_id. simpl. rewrite Hvault. by split_and!.
Qed.

End create.
End Refinement.
