(* ===== verification/Integrity.v ===== *)
(** * What a successful read has verified

    No assumption is made on the database here: it may have been written by
    anybody.  A read that reports success has authenticated every key, the
    manifest, the receipt and every chunk it returned; the sealed manifest
    determines the plaintext up to a collision of the hash function; and
    nothing reaches the caller's sink before the whole chunk layout matches
    the manifest's digest. *)

From S2P Require Import Prelude Format Cde Crypto Witness Fs Storage Vault Toy StorageSpec VaultSpec.
From Stdlib Require Import ZArith Lia.
From stdpp Require Import base numbers list gmap strings sorting.

Open Scope Z_scope.
Open Scope vlt_scope.

Module Integrity.
Import StorageSpec VaultSpec.

Section integrity.
Context `{PrimitivesOk}.

(** ** Successful visits *)

Definition decodes (row : Z * ChunkRow) (c : EncryptedChunk) : Prop := Storage.chunk_of_row row.1 row.2 = Ok c.

Lemma decodes_row row c : decodes row c → row = row_pair c ∧ 0 ≤ chunk_index c ≤ u32_max ∧ length (nonce (chunk_record c)) = 12%nat.
Proof.
  destruct row as [i [n ct]]. unfold decodes, Storage.chunk_of_row, Sql.u32_of_sql, Storage.bytes12. simpl.
  destruct (Z.leb_spec 0 i), (Z.leb_spec i u32_max); try done. simpl.
  destruct (fixed_array 12 n) as [n'|] eqn:En; [|done]. apply fixed_array_some in En as [-> ?]. simpl.
  by intros [= <-].
Qed.

Lemma visit_rows_inv {A} (visit : EncryptedChunk → M A VaultError unit) rows w a r w' b :
  Storage.visit_rows rows visit (w, a) = (r, (w', b)) →
  ticks w w' ∧ (r = Ok tt → ∃ cs, Forall2 decodes rows cs ∧ visits visit cs a b).
Proof.
  revert w a. induction rows as [|[i row] rows IH]; intros w a;
    (match goal with |- Storage.visit_rows ?rows _ _ = _ → _ => destruct (visit_rows_step visit rows w a) as (w1 & Ht & [[-> _]| ->]) end).
  - by intros [= <- <- <-].
  - intros [= <- <- <-]. split; [done|]. intros _. exists []. split; constructor.
  - by intros [= <- <- <-].
  - unfold sbind at 1, slift. destruct (Storage.chunk_of_row i row) as [c|e] eqn:Ec; [|by intros [= <- <- <-]].
    unfold sbind, szoom. simpl. destruct (visit c a) as [[[]|e] a1] eqn:Ev; [|by intros [= <- <- <-]].
    intros [Ht2 Hok]%IH. split; [by etrans|]. intros (cs & Hcs & Hv)%Hok.
    exists (c :: cs). split; [by constructor|by econstructor].
Qed.

Lemma visiting_inv {X A} (init : X → A) back (visit : EncryptedChunk → M A VaultError unit) vid (s : VS X) r s' :
  Vault.visiting init back (Storage.visit_chunks vid visit) s = (r, s') →
  s'.1.1 = s.1.1 ∧ ticks s.1.2 s'.1.2 ∧
  (∃ a, s'.2 = back a s.2) ∧
  (∀ b, r = Ok b → s'.2 = back b s.2 ∧
    ∃ cs, Forall2 decodes (Sql.select_chunks (as_bytes vid) (w_db s.1.2)) cs ∧ visits visit cs (init s.2) b).
Proof.
  destruct s as [[v w] x]. unfold Vault.visiting, Storage.visit_chunks, sbind, szoom. simpl.
  destruct (Sql.query _ w) as [r1 w1] eqn:E1. destruct (reads_ok _ _ _ _ _ (reads_query _ w) E1) as (Ht & [-> | [-> _]]).
  - destruct (Storage.visit_rows _ visit _) as [r2 [w2 a]] eqn:E2. apply visit_rows_inv in E2 as [Ht2 Hok].
    assert (ticks w w2) by by etrans. destruct r2 as [[]|e]; intros [= <- <-]; simpl; split_and!; eauto; [|done].
    intros b [= <-]. auto.
  - intros [= <- <-]. simpl. split_and!; eauto. done.
Qed.

(** ** The two visitors *)

Lemma digest_visits_inv cs b i b' i' :
  visits Vault.digest_visitor cs (b, i) (b', i') → b' = Crypto.digest_chunks b cs ∧ i' = i + lenZ cs ∧
    chunk_index <$> cs = seqZ i (lenZ cs).
Proof.
  remember (b, i) as a eqn:Ea. remember (b', i') as a' eqn:Ea'. intros Hv. revert b i Ea.
  induction Hv as [a|c cs a1 a2 a3 Hc Hv IH]; intros b i ->.
  - injection Ea' as <- <-. split_and!; [done|unfold lenZ; simpl; lia|done].
  - unfold Vault.digest_visitor in Hc. destruct (Z.eqb_spec (chunk_index c) i) as [Hi|]; [|done]. simpl in Hc.
    destruct (u32_checked_add i 1) as [n|] eqn:En; [|done]. apply u32_checked_add_some in En as [-> _]. injection Hc as <-.
    destruct (IH Ea' _ _ eq_refl) as (-> & -> & Hidx). rewrite lenZ_cons. pose proof (lenZ_nonneg cs).
    split_and!; [done|lia|]. rewrite fmap_cons, Hidx, Hi. rewrite (seqZ_cons i) by lia. f_equal; f_equal; lia.
Qed.

(** Every chunk opened to a piece of the length the manifest prescribes. *)
Definition opens_to (vault : VaultId) (o : ObjectId) (x : VersionId) (m : Manifest) (key : bytes)
    (c : EncryptedChunk) (p : bytes) : Prop :=
  Vault.expected_plaintext_chunk_len m (chunk_index c) = Ok (lenZ p) ∧
  Crypto.open key (Crypto.chunk_aad vault o x (chunk_index c) (lenZ p)) (chunk_record c) = Ok p.

Lemma write_visits_inv `{TotalWrite W} vault o x m key cs n (out : W) n' out' :
  visits (Vault.write_visitor vault o x m key) cs (n, out) (n', out') →
  ∃ parts, Forall2 (opens_to vault o x m key) cs parts ∧ out' = wrote out (concat parts) ∧ n' = n + lenZ (concat parts).
Proof.
  remember (n, out) as a eqn:Ea. remember (n', out') as a' eqn:Ea'. intros Hv. revert n out Ea.
  induction Hv as [a|c cs a1 a2 a3 Hc Hv IH]; intros n out ->.
  - injection Ea' as -> ->. exists []. rewrite wrote_nil. split_and!; [constructor|done|unfold lenZ; simpl; lia].
  - unfold Vault.write_visitor, sbind, slift in Hc.
    destruct (Vault.expected_plaintext_chunk_len m (chunk_index c)) as [len|] eqn:El; [|done].
    destruct (Crypto.open key _ _) as [p|] eqn:Ep; [|done].
    destruct (Z.eqb_spec (lenZ p) len) as [<-|]; [|done]. simpl in Hc. rewrite write_all_ok in Hc. simpl in Hc.
    destruct (u64_checked_add n (lenZ p)) as [k|] eqn:Ek; [|done]. apply u64_checked_add_some in Ek as [-> _].
    injection Hc as <-. destruct (IH Ea' _ _ eq_refl) as (parts & Hp & -> & ->).
    exists (p :: parts). split_and!; [by constructor|by rewrite wrote_app|]. simpl. rewrite lenZ_app. lia.
Qed.

(** ** Everything a successful read has checked *)

Record verified_read (vault : VaultId) (root_key : bytes) (db : Db) (o : ObjectId) (sv : StoredVersion)
    (m : Manifest) (dek : bytes) (cs : list EncryptedChunk) (parts : list bytes) : Prop := {
  vr_object : sv_object_id sv = o;
  vr_active : db_objects db !! as_bytes o = Some (as_bytes (sv_version_id sv));
  vr_row : ∃ row, db_versions db !! as_bytes (sv_version_id sv) = Some row ∧
    Storage.version_of_row (as_bytes (sv_version_id sv)) row = Ok sv;
  vr_dek : ∃ kek, Crypto.derive_kek root_key vault = Ok kek ∧ length dek = 32%nat ∧
    Crypto.open kek (Crypto.wrapped_dek_aad vault o (sv_version_id sv)) (sv_wrapped_dek sv) = Ok dek;
  vr_manifest : ∃ mkey mb, Crypto.derive_manifest_key dek (sv_version_id sv) = Ok mkey ∧
    Crypto.open mkey (Crypto.manifest_aad vault o (sv_version_id sv)) (sv_manifest sv) = Ok mb ∧
    Cde.decode_manifest mb = Ok m ∧ Vault.validate_manifest_binding m sv = Ok tt;
  vr_receipt row : db_receipts db !! as_bytes (sv_version_id sv) = Some row →
    ∃ r, Storage.receipt_of_row (as_bytes (sv_version_id sv)) row = Ok r ∧
      Witness.verify_request r (Witness.request_new vault o (sv_version_id sv) (sv_manifest sv)) = Ok tt;
  vr_chunks : Forall2 decodes (Sql.select_chunks (as_bytes (sv_version_id sv)) db) cs ∧
    chunk_index <$> cs = seqZ 0 (chunk_count m);
  vr_digest : Crypto.digest_finalize (Crypto.digest_chunks Crypto.digest_new cs) = chunk_digest m;
  vr_parts : Forall2 (opens_to vault o (sv_version_id sv) m dek) cs parts;
  vr_len : lenZ (concat parts) = plaintext_len m;
}.

(** The manifest describes the stored version and obeys the chunk policy. *)
Record agrees (m : Manifest) (sv : StoredVersion) : Prop := {
  ag_format : Format.format_version m = FORMAT_VERSION;
  ag_object : Format.object_id m = sv_object_id sv;
  ag_version : Format.version_id m = sv_version_id sv;
  ag_len : Format.plaintext_len m = sv_plaintext_len sv;
  ag_size : Format.chunk_size m = sv_chunk_size sv ∧ Format.chunk_size m ≠ 0;
  ag_count : Format.chunk_count m = sv_chunk_count sv ∧ Format.chunk_count m ≤ Vault.MAX_CHUNKS_PER_VERSION;
}.

Lemma binding_agrees m sv : Vault.validate_manifest_binding m sv = Ok tt → agrees m sv.
Proof.
  unfold Vault.validate_manifest_binding. destruct (_ || _) eqn:E1; [done|].
  destruct ((_ =? 0) || _) eqn:E2; [done|]. intros _.
  rewrite !orb_false_iff, !negb_false_iff, !Z.eqb_eq, !bool_decide_eq_true in E1.
  apply orb_false_iff in E2 as [E2%Z.eqb_neq E3%Z.ltb_ge]. destruct_and?. by constructor.
Qed.

Lemma version_of_row_id vid row sv : Storage.version_of_row vid row = Ok sv → as_bytes (sv_version_id sv) = vid.
Proof.
  unfold Storage.version_of_row. intros E. do 4 step_ok E. destruct (from_slice vid) as [i|] eqn:Ei; [|done].
  apply from_slice_ok in Ei as [-> _]. simpl in E. steps_ok E. by injection E as <-.
Qed.

Lemma version_ok x w sv w' :
  Storage.version x w = (Ok sv, w') → w_db w' = w_db w ∧ sv_version_id sv = x ∧
  ∃ row, db_versions (w_db w) !! as_bytes x = Some row ∧ Storage.version_of_row (as_bytes x) row = Ok sv.
Proof.
  unfold Storage.version. intros (row & w1 & [-> (E1 & _)]%query_ok & E)%sbind_ok. injection E as E <-.
  destruct (db_versions (w_db w) !! as_bytes x) as [row|]; [|done]. simpl in E. split; [done|].
  split; [by apply Crypto.id_ext; eapply version_of_row_id|eauto].
Qed.

Lemma active_version_ok o w sv w' :
  Storage.active_version o w = (Ok sv, w') → w_db w' = w_db w ∧
  db_objects (w_db w) !! as_bytes o = Some (as_bytes (sv_version_id sv)) ∧
  ∃ row, db_versions (w_db w) !! as_bytes (sv_version_id sv) = Some row ∧
    Storage.version_of_row (as_bytes (sv_version_id sv)) row = Ok sv.
Proof.
  unfold Storage.active_version. intros (vid & w1 & [-> (E1 & _)]%query_ok & E)%sbind_ok.
  apply sbind_ok in E as (vid & w2 & E2 & E). injection E2 as E2 <-. apply ok_or_ok in E2.
  apply sbind_ok in E as (x & w3 & E3 & E). injection E3 as E3 <-. apply from_slice_ok in E3 as [-> _].
  apply version_ok in E as (E4 & Hx & row & Hrow & Hv). rewrite E1 in *. rewrite Hx. simpl in *. split_and!; eauto.
Qed.

Lemma receipt_ok x w r w' :
  Storage.receipt x w = (Ok r, w') → w_db w' = w_db w ∧
  match db_receipts (w_db w) !! as_bytes x with
  | None => r = None
  | Some row => ∃ c, r = Some c ∧ Storage.receipt_of_row (as_bytes x) row = Ok c
  end.
Proof.
  unfold Storage.receipt. intros (row & w1 & [-> (E1 & _)]%query_ok & E)%sbind_ok. injection E as E <-. split; [done|].
  destruct (db_receipts (w_db w) !! as_bytes x) as [row|]; [|congruence].
  destruct (Storage.receipt_of_row (as_bytes x) row) as [c|]; [|done]. injection E as <-. eauto.
Qed.

Ltac lift_ok H x E := 
  let s := fresh "s" in let E1 := fresh "E" in
  apply sbind_ok in H as (x & s & E1 & H); injection E1 as E <-.

Lemma get_to_writer_inv `{TotalWrite W} v w (out : W) o s' :
  Vault.get_to_writer_inner o ((v, w), out) = (Ok tt, s') →
  ∃ root_key sv m dek cs parts, v_root_key v = Some root_key ∧
    verified_read (v_vault_id v) root_key (w_db w) o sv m dek cs parts ∧
    s'.1.1 = v ∧ w_db s'.1.2 = w_db w ∧ s'.2 = wrote out (concat parts).
Proof.
  unfold Vault.get_to_writer_inner. intros (root & s1 & [Hroot ->]%require_root_key_ok & E)%sbind_ok. simpl in Hroot.
  apply sbind_ok in E as (sv & s2 & E2 & E). apply on_world_eq in E2 as (w2 & E2 & ->). simpl in E2.
  apply active_version_ok in E2 as (F2 & Hact & Hrow). case_bool_decide as Ho; [|done]. simpl negb in E. cbv iota in E.
  lift_ok E v' Ev. rewrite <-Ev in E. cbv zeta in E. simpl in E.
  lift_ok E kek Hkek. lift_ok E dkb Hdkb. lift_ok E dek Hdek. apply ok_or_ok, fixed_array_some in Hdek as [-> Hd32].
  lift_ok E mkey Hmk. lift_ok E mb Hmb. lift_ok E m Hm. lift_ok E u Hbind. destruct u.
  apply sbind_ok in E as (rc & s3 & E3 & E). apply on_world_eq in E3 as (w3 & E3 & ->). simpl in E3.
  apply receipt_ok in E3 as [F3 Hrc]. lift_ok E u Hver. destruct u.
  apply sbind_ok in E as ([digest idx] & s4 & E4 & E). apply visiting_inv in E4 as (Fv & (F4 & _) & _ & Hv).
  destruct (Hv _ eq_refl) as (Fx & cs & Hdec & Hdv). simpl in *. apply digest_visits_inv in Hdv as (-> & -> & Hidx).
  destruct (Z.eqb_spec (0 + lenZ cs) (chunk_count m)) as [Hc|]; [|done]. simpl in E.
  case_bool_decide as Hdig; [|done]. simpl in E.
  apply sbind_ok in E as ([n out'] & s5 & E5 & E). apply visiting_inv in E5 as (Fv5 & (F5 & _) & _ & Hv5).
  destruct (Hv5 _ eq_refl) as (Fx5 & cs' & Hdec' & Hwv). simpl in *.
  assert (cs' = cs) as ->.
  { rewrite F4, F3, F2 in Hdec'. rewrite F3, F2 in Hdec. clear -Hdec Hdec'. revert cs' Hdec'.
    induction Hdec as [|row c rows cs Hc _ IH]; intros cs' Hd; inversion Hd; subst; [done|].
    unfold decodes in *. f_equal; [congruence|by apply IH]. }
  rewrite Fx in Hwv. apply write_visits_inv in Hwv as (parts & Hparts & -> & ->).
  destruct (Z.eqb_spec (0 + lenZ (concat parts)) (plaintext_len m)) as [Hl|]; [|done]. simpl in E. injection E as <-.
  exists root, sv, m, dkb, cs, parts. split; [done|]. split.
  - constructor; try done.
    + eauto.
    + eauto 10.
    + intros row Hr. rewrite F2, Hr in Hrc. destruct Hrc as (c & -> & Hc'). eauto.
    + split; [by rewrite F3, F2 in Hdec|]. by rewrite Hidx, <-Hc.
  - split_and!; [congruence|congruence|done].
Qed.

(** ** The manifest determines the plaintext *)

(** The chunks of a version as the read path decodes them. *)
Fixpoint decode_rows (rows : list (Z * ChunkRow)) : list EncryptedChunk :=
  match rows with
  | [] => []
  | (i, row) :: rows =>
      match Storage.chunk_of_row i row with Ok c => c :: decode_rows rows | Err _ => [] end
  end.

(** What the hash function absorbs when a version is read. *)
Definition transcript (x : VersionId) (db : Db) : bytes :=
  Crypto.hasher (Crypto.digest_chunks Crypto.digest_new (decode_rows (Sql.select_chunks (as_bytes x) db))).

(** SQLite blobs hold bytes. *)
Definition blobs_ok (db : Db) : Prop :=
  ∀ k r, db_chunks db !! k = Some r → wf_bytes (cr_nonce r) ∧ wf_bytes (cr_ciphertext r) ∧ lenZ (cr_ciphertext r) ≤ u64_max.

Lemma decode_rows_spec rows cs : Forall2 decodes rows cs → decode_rows rows = cs.
Proof. induction 1 as [|[i r] c rows cs Hc _ IH]; simpl; [done|]. unfold decodes in Hc. simpl in Hc. by rewrite Hc, IH. Qed.

Lemma decoded_chunks_wf x db cs :
  blobs_ok db → Forall2 decodes (Sql.select_chunks x db) cs → Forall Crypto.wf_chunk cs.
Proof.
  intros Hb Hd. apply Forall_forall. intros c Hc. apply list_elem_of_lookup in Hc as [k Hk].
  destruct (Forall2_lookup_r _ _ _ _ _ Hd Hk) as (row & Hrow & (-> & Hi & Hn)%decodes_row).
  apply list_elem_of_lookup_2 in Hrow. unfold Sql.select_chunks in Hrow.
  unfold row_pair in Hrow. rewrite merge_sort_Permutation, elem_of_select in Hrow.
  destruct (Hb _ _ Hrow) as (?&?&?). split; [done|]. by split_and!.
Qed.

Lemma opens_to_functional vault o x m key cs ps qs :
  Forall2 (opens_to vault o x m key) cs ps → Forall2 (opens_to vault o x m key) cs qs → ps = qs.
Proof.
  intros Hp. revert qs. induction Hp as [|c p cs ps [Hl Ho] _ IH]; intros qs Hq; inversion Hq as [|? q ? qs' [Hl' Ho'] Hqs]; subst; [done|].
  f_equal; [|by apply IH]. assert (lenZ p = lenZ q) as E by congruence. rewrite E in Ho. congruence.
Qed.

Lemma verified_read_unique vault root_key db1 db2 o sv1 sv2 m1 m2 d1 d2 cs1 cs2 ps1 ps2 :
  verified_read vault root_key db1 o sv1 m1 d1 cs1 ps1 → verified_read vault root_key db2 o sv2 m2 d2 cs2 ps2 →
  blobs_ok db1 → blobs_ok db2 → db_objects db2 !! as_bytes o = db_objects db1 !! as_bytes o →
  (∀ vid, db_objects db1 !! as_bytes o = Some vid → db_versions db2 !! vid = db_versions db1 !! vid) →
  sv1 = sv2 ∧
  (ps1 = ps2 ∨ transcript (sv_version_id sv1) db1 ≠ transcript (sv_version_id sv1) db2 ∧
     sha256 (transcript (sv_version_id sv1) db1) = sha256 (transcript (sv_version_id sv1) db2)).
Proof.
  intros [Ho1 Ha1 (row1 & Hr1 & Hv1) (k1 & Hk1 & _ & Hd1) (mk1 & mb1 & Hmk1 & Hmb1 & Hm1 & _) _ [Hc1 _] Hg1 Hp1 _]
         [Ho2 Ha2 (row2 & Hr2 & Hv2) (k2 & Hk2 & _ & Hd2) (mk2 & mb2 & Hmk2 & Hmb2 & Hm2 & _) _ [Hc2 _] Hg2 Hp2 _]
         Hb1 Hb2 Hobj Hver.
  rewrite Hobj, Ha1 in Ha2. injection Ha2 as Ex.
  apply Crypto.id_ext in Ex. rewrite <-Ex in *. rewrite (Hver _ Ha1) in Hr2.
  assert (sv1 = sv2) as <- by congruence. split; [done|].
  assert (d1 = d2) as <- by congruence. assert (m1 = m2) as <- by congruence.
  unfold transcript. rewrite (decode_rows_spec _ _ Hc1), (decode_rows_spec _ _ Hc2).
  destruct (decide (Crypto.hasher (Crypto.digest_chunks Crypto.digest_new cs1) =
                    Crypto.hasher (Crypto.digest_chunks Crypto.digest_new cs2))) as [E|Hne].
  - left. apply Crypto.digest_chunks_inj in E as <-; [|by eapply (decoded_chunks_wf _ db1)|by eapply (decoded_chunks_wf _ db2)]. by eapply opens_to_functional.
  - right. split; [done|]. unfold Crypto.digest_finalize in Hg1, Hg2. congruence.
Qed.

Lemma get_inv {X} v w (x : X) o pt s' :
  Vault.get o ((v, w), x) = (Ok pt, s') →
  ∃ root_key sv m dek cs parts, v_root_key v = Some root_key ∧
    verified_read (v_vault_id v) root_key (w_db w) o sv m dek cs parts ∧ pt = concat parts ∧
    s'.1.1 = v ∧ w_db s'.1.2 = w_db w.
Proof.
  unfold Vault.get, Vault.lock_after_failure, Vault.get_inner.
  destruct (Vault.get_to_writer_inner o _) as [[[]|] [vw out]] eqn:E; [|destruct vw; done]. intros [= <- <-].
  apply get_to_writer_inv in E as (rk & sv & m & dek & cs & parts & ? & ? & ? & ? & Hout). simpl in *.
  exists rk, sv, m, dek, cs, parts. by split_and!.
Qed.

(** ** What reaches the sink *)

Lemma sbind_arg {X A B} (m : Op X A) (k : A → Op X B) s r s' :
  (∀ r1 s1, m s = (r1, s1) → s1.2 = s.2) → sbind m k s = (r, s') → s'.2 ≠ s.2 →
  ∃ a s1, m s = (Ok a, s1) ∧ s1.2 = s.2 ∧ k a s1 = (r, s').
Proof.
  intros Hm. unfold sbind. destruct (m s) as [[a|e] s1] eqn:E; specialize (Hm _ _ eq_refl).
  - eauto.
  - by intros [= <- <-] [].
Qed.

Lemma on_world_arg {X A} (m : IO A) (s : VS X) r s' : Vault.on_world m s = (r, s') → s'.2 = s.2.
Proof. by intros (? & _ & ->)%on_world_eq. Qed.

Ltac arg_step E Hne x :=
  let s := fresh "s" in let E1 := fresh "E" in let F := fresh "F" in
  apply sbind_arg in E as (x & s & E1 & F & E);
  [|first [by intros ? ? [= _ <-]|by intros ? ? ?%on_world_arg|by intros ? ? (_ & _ & ?)%frames_root_key]|congruence].

(** The chunks are complete and hash to the digest of an authentic manifest. *)
Definition layout_verified (vault : VaultId) (root_key : bytes) (db : Db) (o : ObjectId) : Prop :=
  ∃ x kek dek mkey mb m sv cs row,
    db_objects db !! as_bytes o = Some (as_bytes x) ∧ db_versions db !! as_bytes x = Some row ∧
    Storage.version_of_row (as_bytes x) row = Ok sv ∧
    Crypto.derive_kek root_key vault = Ok kek ∧
    Crypto.open kek (Crypto.wrapped_dek_aad vault o x) (sv_wrapped_dek sv) = Ok dek ∧
    Crypto.derive_manifest_key dek x = Ok mkey ∧
    Crypto.open mkey (Crypto.manifest_aad vault o x) (sv_manifest sv) = Ok mb ∧
    Cde.decode_manifest mb = Ok m ∧ Vault.validate_manifest_binding m sv = Ok tt ∧
    Forall2 decodes (Sql.select_chunks (as_bytes x) db) cs ∧ chunk_index <$> cs = seqZ 0 (chunk_count m) ∧
    sha256 (transcript x db) = chunk_digest m.

Lemma written_verified `{Write W} v w (out : W) o r s' :
  Vault.get_to_writer_inner o ((v, w), out) = (r, s') → s'.2 ≠ out →
  ∃ root_key, v_root_key v = Some root_key ∧ layout_verified (v_vault_id v) root_key (w_db w) o.
Proof.
  unfold Vault.get_to_writer_inner. intros E Hne. change out with ((v, w), out).2 in Hne.
  arg_step E Hne root. apply require_root_key_ok in E0 as [Hroot ->]. arg_step E Hne sv.
  apply on_world_eq in E0 as (w2 & E2 & ->). simpl in E2. apply active_version_ok in E2 as (G2 & Hact & row & Hrow & Hsv).
  case_bool_decide as Ho; [|by injection E as <- <-]. simpl negb in E. cbv iota in E.
  arg_step E Hne v'. injection E0 as <- <-. cbv zeta in E. simpl in E.
  arg_step E Hne kek. injection E0 as Hkek <-. arg_step E Hne dkb. injection E0 as Hdkb <-.
  arg_step E Hne dek. injection E0 as Hdek <-. apply ok_or_ok, fixed_array_some in Hdek as [-> _].
  arg_step E Hne mkey. injection E0 as Hmk <-. arg_step E Hne mb. injection E0 as Hmb <-.
  arg_step E Hne m. injection E0 as Hm <-. arg_step E Hne u. injection E0 as Hbind <-. destruct u.
  arg_step E Hne rc. apply on_world_eq in E0 as (w3 & E3 & ->). simpl in E3. apply receipt_ok in E3 as [G3 _].
  arg_step E Hne u. injection E0 as _ <-.
  apply sbind_arg in E as ([digest idx] & s4 & E4 & G4 & E); [|by intros ? ? (_ & _ & [? ?] & _)%visiting_inv|congruence].
  apply visiting_inv in E4 as (_ & _ & _ & Hv). destruct (Hv _ eq_refl) as (_ & cs & Hdec & Hdv). simpl in *.
  apply digest_visits_inv in Hdv as (-> & -> & Hidx).
  destruct (Z.eqb_spec (0 + lenZ cs) (chunk_count m)) as [Hc|]; [|injection E as <- <-; congruence]. simpl in E.
  case_bool_decide as Hdig; [|injection E as <- <-; congruence].
  exists root. split; [done|]. rewrite G3, G2 in Hdec.
  exists (sv_version_id sv), kek, dkb, mkey, mb, m, sv, cs, row. split_and!; try done; [by rewrite Hidx, <-Hc|].
  unfold transcript. by rewrite (decode_rows_spec _ _ Hdec).
Qed.

End integrity.
End Integrity.
