(* ===== verification/Lifecycle.v ===== *)
(** * Lifecycle: creation, opening, unlocking, locking, passphrase rotation

    The root envelope survives a round trip through the database; rotation
    changes the passphrase and nothing else; a locked vault refuses every
    operation on secrets; and an operation that fails with an integrity,
    storage or witness error leaves the vault locked. *)

From S2P Require Import Prelude Format Cde Crypto Witness Fs Storage Vault Toy StorageSpec VaultSpec StreamSpec.
From S2P Require Import Refinement.
From Stdlib Require Import ZArith Lia.
From stdpp Require Import base numbers list gmap strings sorting.

Open Scope Z_scope.
Open Scope vlt_scope.

Module Lifecycle.
Import StorageSpec VaultSpec StreamSpec Refinement.

Section lifecycle.
Context `{PrimitivesOk}.

(** ** The stored envelope *)

Record wf_envelope (e : Crypto.RootEnvelope) : Prop := {
  we_id : wf_id (Crypto.env_vault_id e);
  we_salt : length (Crypto.env_salt e) = 16%nat;
  we_params : Crypto.validate_persisted (Crypto.env_params e) = Ok tt ∧
    0 ≤ Crypto.memory_kib (Crypto.env_params e) ∧ 0 ≤ Crypto.iterations (Crypto.env_params e) ∧
    0 ≤ Crypto.lanes (Crypto.env_params e);
  we_nonce : length (nonce (Crypto.env_record e)) = 12%nat;
}.

Lemma policy_u32 p :
  Crypto.validate_persisted p = Ok tt →
  Crypto.memory_kib p ≤ u32_max ∧ Crypto.iterations p ≤ u32_max ∧ Crypto.lanes p ≤ u32_max.
Proof.
  unfold Crypto.validate_persisted, Crypto.within_resource_policy, Crypto.MAX_ARGON2_MEMORY_KIB,
    Crypto.MAX_ARGON2_ITERATIONS, Crypto.MAX_ARGON2_LANES, u32_max.
  destruct (_ && _ && _) eqn:E; [|done]. rewrite !andb_true_iff, !Z.leb_le in E. lia.
Qed.

Lemma envelope_of_meta_of_envelope e :
  wf_envelope e → Storage.envelope_of_meta (Storage.meta_of_envelope e) = Ok e.
Proof.
  intros [Hid Hs [Hp Hnn] Hn]. pose proof (policy_u32 _ Hp) as Hu.
  unfold Storage.envelope_of_meta, Storage.meta_of_envelope.
  cbn [mr_format_version mr_vault_id mr_root_salt mr_memory_kib mr_iterations mr_lanes mr_root_nonce mr_root_ciphertext].
  rewrite (u32_of_sql_ok FORMAT_VERSION) by (unfold FORMAT_VERSION, u32_max; lia).
  rewrite !u32_of_sql_ok by lia. simpl.
  assert (Crypto.mkKdf (Crypto.memory_kib (Crypto.env_params e)) (Crypto.iterations (Crypto.env_params e))
    (Crypto.lanes (Crypto.env_params e)) = Crypto.env_params e) as -> by by destruct (Crypto.env_params e).
  rewrite Hp. simpl. rewrite (from_slice_as_bytes _ Hid). simpl. unfold Storage.bytes16, Storage.bytes12.
  rewrite (proj2 (fixed_array_some _ _ _) (conj eq_refl Hs)), (proj2 (fixed_array_some _ _ _) (conj eq_refl Hn)). simpl.
  by destruct e as [? ? ? []].
Qed.

Lemma validate_creation_persisted p : Crypto.validate_for_creation p = Ok tt → Crypto.validate_persisted p = Ok tt.
Proof.
  unfold Crypto.validate_for_creation, Crypto.validate_persisted, Crypto.params_new.
  destruct (negb _); [done|]. by destruct (argon2_params_ok _ _ _).
Qed.

Lemma seal_root_key_wf pw vault rk g env g' :
  wf_id vault → Crypto.seal_root_key pw vault rk Crypto.interactive g = (Ok env, g') →
  wf_envelope env ∧ Crypto.env_vault_id env = vault.
Proof.
  intros Hv. unfold Crypto.seal_root_key. intros ([] & g1 & E1 & E)%sbind_ok. injection E1 as Hp _.
  apply sbind_ok in E as (salt & g2 & Hs%Crypto.fill_bytes_length & E).
  apply sbind_ok in E as (key & g3 & _ & E). apply sbind_ok in E as (rec & g4 & Hrec%Crypto.seal_ok & E).
  injection E as <- _. split; [|done]. constructor; simpl; try done.
  - apply Hs.
  - split; [by apply validate_creation_persisted|].
    unfold Crypto.DEFAULT_ARGON2_MEMORY_KIB, Crypto.DEFAULT_ARGON2_ITERATIONS, Crypto.DEFAULT_ARGON2_LANES. lia.
  - apply Hrec.
Qed.

Lemma create_envelope path pw w v w' :
  Vault.create path pw w = (Ok v, w') → wf_envelope (v_envelope v) ∧ db_meta (w_db w') = Some (Storage.meta_of_envelope (v_envelope v)).
Proof.
  intros E. split; [|apply create_ok in E as (? & _ & _ & _ & _ & -> & _); done].
  unfold Vault.create in E. apply sbind_ok in E as ([] & w1 & _ & E).
  apply sbind_ok in E as (vid & w2 & (_ & g2 & Hvid%random_id_ok)%in_rng_ok & E).
  apply sbind_ok in E as (rk & w3 & _ & E).
  apply sbind_ok in E as (env & w4 & (_ & g4 & Henv)%in_rng_ok & E).
  apply sbind_ok in E as ([] & w5 & _ & E). injection E as <- _. by apply seal_root_key_wf in Henv as [? _].
Qed.

(** ** Opening *)

Lemma open_connection_db path w r w' : Storage.open_connection path w = (r, w') → w_db w' = w_db w ∧ w_integrity_ok w' = w_integrity_ok w.
Proof.
  unfold Storage.open_connection, sbind at 1. destruct (io_fault_ticks w) as (w1 & -> & H1 & H1' & _).
  destruct (env_faults _ _); [by intros [= <- <-]|]. unfold sbind at 1.
  destruct (in_env _ w1) as [[[]|] w2] eqn:E2.
  2: { unfold in_env, szoom in E2. destruct (env_fs (w_env w1) !! path); done. }
  assert (w_db w2 = w_db w1 ∧ w_integrity_ok w2 = w_integrity_ok w1) as [Hd Hi].
  { unfold in_env, szoom in E2. destruct (env_fs (w_env w1) !! path); by injection E2 as <-. }
  unfold sbind at 1. destruct (io_fault_ticks w2) as (w3 & -> & H3 & H3' & _).
  destruct (env_faults _ _); [intros [= <- <-]; split; congruence|].
  unfold sbind at 1. destruct (io_fault_ticks w3) as (w4 & -> & H4 & H4' & _).
  destruct (env_faults _ _); intros [= <- <-]; split; congruence.
Qed.

(** Opening reads back the envelope, leaves the vault locked, and has checked
    the tables. *)
Lemma open_ok path w v w' :
  Vault.open path w = (Ok v, w') →
  v_path v = path ∧ v_root_key v = None ∧ w_db w' = w_db w ∧ db_wf (w_db w) ∧
  ∃ row, db_meta (w_db w) = Some row ∧ Storage.envelope_of_meta row = Ok (v_envelope v).
Proof.
  unfold Vault.open. intros ([] & w1 & E1 & E)%sbind_ok. unfold Storage.open in E1.
  apply sbind_ok in E1 as ([] & wa & [Ea _]%in_env_db & E1).
  apply sbind_ok in E1 as ([] & wb & [Eb _]%open_connection_db & E1).
  apply sbind_ok in E1 as ([] & wc & Ec%exec_ok & [Ed _]%in_env_db). injection Ec as Ec.
  apply sbind_ok in E as ([] & w2 & (_ & Hwf & (F2 & _))%startup_check_ok & E).
  apply sbind_ok in E as (env & w3 & E3 & E). injection E as <- <-.
  unfold Storage.root_envelope in E3. apply sbind_ok in E3 as (row & w4 & [-> (F4 & _)]%query_ok & E3).
  injection E3 as E3 <-. assert (w_db w1 = w_db w) as Edb by congruence. rewrite F2, Edb in *.
  destruct (db_meta (w_db w)) as [row|]; [|done]. simpl in E3. split_and!; try done; eauto.
Qed.

(** ** Rotation *)

Definition with_meta (row : MetaRow) (db : Db) : Db :=
  mkDb (Some row) (db_objects db) (db_versions db) (db_chunks db) (db_pending db) (db_receipts db).

Lemma replace_envelope_cases path env old w r w' :
  db_meta (w_db w) = Some (Storage.meta_of_envelope old) → Crypto.env_vault_id env = Crypto.env_vault_id old →
  Storage.replace_root_envelope path env w = (r, w') →
  (is_ok r = false ∧ w_db w' = w_db w) ∨ w_db w' = with_meta (Storage.meta_of_envelope env) (w_db w).
Proof.
  intros Hm Hid. unfold Storage.replace_root_envelope, sbind at 1.
  destruct (Sql.exec_count _ w) as [[n|e] w1] eqn:E1.
  - apply exec_count_ok in E1. unfold Sql.update_meta in E1. rewrite Hm in E1. simpl in E1.
    rewrite decide_True in E1 by (by rewrite Hid). destruct (_ && _) in E1; [|done]. injection E1 as <- E1. simpl.
    intros [Edb _]%in_env_db. right. rewrite Edb, <-E1. unfold with_meta, Storage.meta_of_envelope. by rewrite Hid.
  - intros [= <- <-]. left. split; [done|]. unfold Sql.exec_count, sbind in E1.
    destruct (io_fault_ticks w) as (w2 & Ew & Ht & _). rewrite Ew in E1. destruct (env_faults _ _); [by injection E1 as _ <-|].
    destruct (Sql.update_meta _ _) as [[? ?]|]; [done|]. by injection E1 as _ <-.
Qed.

Lemma with_meta_refines vault rk kv row db : refines vault rk kv db → refines vault rk kv (with_meta row db).
Proof.
  intros [Hwf Hst Hd]. constructor; [by destruct Hwf; constructor| |done].
  intros o pt (sv & cs & Ho & Ha & [Hrow Hc Hr] & Hs)%Hst. exists sv, cs. split_and!; try done; by constructor.
Qed.

Lemma open_root_key_length p env rk : Crypto.open_root_key p env = Ok rk → length rk = 32%nat.
Proof.
  unfold Crypto.open_root_key. destruct (Crypto.derive_passphrase_key _ _ _); [|done]. simpl.
  destruct (Crypto.open _ _ _); [|done]. intros E. by apply ok_or_ok, fixed_array_some in E as [-> ?].
Qed.

(** The vault object after an operation that locks it on failure. *)
Definition fail_closed {A} (r : Result A) (v : Vault) : Vault :=
  match r with Ok _ => v | Err e => if requires_lock e then Vault.lock v else v end.

(** A rotation, whatever it returns: nothing was written, or the root key of the
    envelope in memory is sealed under the replacement in the stored one. *)
Lemma rotate_cases {X} cur new v w (x : X) r s' :
  db_meta (w_db w) = Some (Storage.meta_of_envelope (v_envelope v)) → wf_id (v_vault_id v) →
  Vault.rotate_passphrase cur new ((v, w), x) = (r, s') →
  (is_ok r = false ∧ w_db s'.1.2 = w_db w ∧ s'.1.1 = fail_closed r v) ∨
  ∃ rk env, Crypto.open_root_key cur (v_envelope v) = Ok rk ∧ Crypto.open_root_key new env = Ok rk ∧ new ≠ [] ∧
    wf_envelope env ∧ Crypto.env_vault_id env = v_vault_id v ∧ w_db s'.1.2 = with_meta (Storage.meta_of_envelope env) (w_db w) ∧
    s'.1.1 = match r with Ok _ => mkVault (v_path v) env None | Err _ => fail_closed r v end.
Proof.
  intros Hm Hid. unfold Vault.rotate_passphrase, sbind at 1, slift, Vault.validate_passphrase.
  case_bool_decide as Hnew; [intros [= <- <-]; by left|].
  intros (s2 & E & Ew & _ & Ev)%lock_after_failure_eq. rewrite Ew, Ev. clear s' Ew Ev. unfold sbind at 1 in E. cbn in E.
  unfold sbind at 1, slift in E. destruct (Crypto.open_root_key cur (v_envelope v)) as [rk|e] eqn:Hrk; [|injection E as <- <-; by left].
  unfold sbind at 1 in E. destruct (Vault.random _ _) as [r5 s5] eqn:E5. destruct (frames_random _ _ _ _ E5) as (F5 & F5db & _).
  cbn [fst snd] in F5, F5db. destruct r5 as [env|e]; [|injection E as <- <-; left; unfold fail_closed; by rewrite F5, F5db].
  apply random_ok in E5 as (g & g' & Hseal). pose proof (seal_root_key_wf _ _ _ _ _ _ Hid Hseal) as [Hwe Hvid].
  apply Crypto.open_seal_root_key in Hseal as (Hopen & _); [|by eapply open_root_key_length].
  unfold sbind in E. destruct (Vault.on_world _ s5) as [r6 s6] eqn:E6. apply on_world_eq in E6 as (w6 & E6 & ->). rewrite <-F5db in Hm.
  apply (replace_envelope_cases _ _ _ _ _ _ Hm Hvid) in E6 as [[Hf E6]|E6]; rewrite F5db in E6.
  - destruct r6; [done|]. injection E as <- <-. left. cbn [fst snd]. by rewrite F5, E6.
  - right. exists rk, env. destruct r6; injection E as <- <-; cbn [fst snd]; rewrite ?F5; by split_and!.
Qed.

Lemma rotate_ok {X} cur new v w (x : X) s' :
  db_meta (w_db w) = Some (Storage.meta_of_envelope (v_envelope v)) → wf_id (v_vault_id v) →
  Vault.rotate_passphrase cur new ((v, w), x) = (Ok tt, s') →
  ∃ rk env, Crypto.open_root_key cur (v_envelope v) = Ok rk ∧ Crypto.open_root_key new env = Ok rk ∧
    wf_envelope env ∧ Crypto.env_vault_id env = v_vault_id v ∧
    s'.1.1 = mkVault (v_path v) env None ∧ w_db s'.1.2 = with_meta (Storage.meta_of_envelope env) (w_db w).
Proof. intros Hm Hid [[? _]|(rk & env & ? & ? & _ & ? & ? & ? & ?)]%rotate_cases; [done|by exists rk, env|done|done]. Qed.

(** The vault object a rotation leaves, over any tables. *)
Lemma rotate_object {X} cur new (s : VS X) r s' :
  Vault.rotate_passphrase cur new s = (r, s') →
  match r with Ok _ => ∃ env, s'.1.1 = mkVault (v_path s.1.1) env None | Err _ => s'.1.1 = fail_closed r s.1.1 end.
Proof.
  unfold Vault.rotate_passphrase, sbind at 1, slift. destruct (Vault.validate_passphrase new) as [u|e] eqn:Ev.
  2: { intros [= <- <-]. unfold Vault.validate_passphrase in Ev. case_bool_decide; [by injection Ev as <-|done]. }
  intros (s2 & E & _ & _ & ->)%lock_after_failure_eq. unfold sbind at 1 in E. cbn in E. unfold sbind at 1, slift in E.
  destruct (Crypto.open_root_key cur _) as [rk|e]; [|by injection E as <- <-].
  unfold sbind at 1 in E. destruct (Vault.random _ _) as [[env|e] s5] eqn:E5; destruct (frames_random _ _ _ _ E5) as (F5 & _);
    [|injection E as <- <-; unfold fail_closed; by rewrite F5].
  unfold sbind in E. destruct (Vault.on_world _ s5) as [[u6|e] s6] eqn:E6; apply on_world_eq in E6 as (w6 & _ & ->); injection E as <- <-;
    [by exists env|]. unfold fail_closed. cbn [fst snd]. by rewrite F5.
Qed.

(** Unlocking: the object changes only when the passphrase opens its envelope. *)
Lemma unlock_object {X} p (s : VS X) r s' :
  Vault.unlock p s = (r, s') →
  match r with
  | Ok _ => p ≠ [] ∧ ∃ k, Crypto.open_root_key p (v_envelope s.1.1) = Ok k ∧ s' = ((mkVault (v_path s.1.1) (v_envelope s.1.1) (Some k), s.1.2), s.2)
  | Err _ => s' = s
  end.
Proof.
  unfold Vault.unlock, sbind, slift, Vault.validate_passphrase. case_bool_decide as Hp; [by intros [= <- <-]|]. cbn.
  destruct (Crypto.open_root_key p _) as [k|e]; intros [= <- <-]; eauto.
Qed.

Lemma unlock_opens {X} p k v w (x : X) :
  p ≠ [] → Crypto.open_root_key p (v_envelope v) = Ok k →
  Vault.unlock p ((v, w), x) = (Ok tt, ((mkVault (v_path v) (v_envelope v) (Some k), w), x)).
Proof.
  intros Hp E. unfold Vault.unlock, Vault.validate_passphrase. rewrite bool_decide_eq_false_2 by done.
  unfold sbind, slift, Vault.the_vault, sgets. simpl. by rewrite E.
Qed.

(** ** Operations on secrets *)

(** Every method of the vault that needs the root key. *)
Inductive secret_op `{Read R} `{Write W} `{WitnessProvider P} : ∀ {X A}, Op X A → Prop :=
| secret_put X o pt size : secret_op (Vault.put_with_chunk_size (X:=X) o pt size)
| secret_put_stream o size : 0 < size ≤ u32_max → secret_op (Vault.put_from_reader_with_chunk_size (R:=R) o size)
| secret_get X o : secret_op (Vault.get (X:=X) o)
| secret_get_to_writer o : secret_op (Vault.get_to_writer (W:=W) o)
| secret_verify X : secret_op (Vault.verify_active_objects (X:=X))
| secret_checkpoint X : secret_op (Vault.full_checkpoint (X:=X))
| secret_put_witness o pt : secret_op (Vault.put_with_witness (P:=P) o pt)
| secret_recover : secret_op (Vault.recover_pending_witness_publications (P:=P))
| secret_verify_witness : secret_op (Vault.verify_active_objects_with_witness (P:=P)).

Lemma keeps_vault_read {X} : keeps_vault (X:=X) Vault.the_vault.
Proof. apply keeps_gets. Qed.
#[local] Hint Resolve keeps_vault_read : keeps.

Lemma keeps_visiting {X A} (init : X → A) back m : keeps_vault (Vault.visiting init back m).
Proof. intros [[v w] x] r s'. simpl. destruct (m (w, init x)) as [[u|e] [w' a]]; by intros [= <- <-]. Qed.
#[local] Hint Resolve keeps_visiting : keeps.

Lemma keeps_get_to_writer `{Write W} o : keeps_vault (Vault.get_to_writer_inner (W:=W) o).
Proof. unfold Vault.get_to_writer_inner. keeps. Qed.
#[local] Hint Resolve keeps_get_to_writer : keeps.

Lemma keeps_with_arg {X Y A} (y : Y) (m : Op Y A) : keeps_vault m → keeps_vault (X:=X) (Vault.with_arg y m).
Proof.
  intros Hm s r s'. unfold Vault.with_arg. destruct (m (s.1, y)) as [r1 [vw y']] eqn:E. apply Hm in E.
  by intros [= <- <-].
Qed.

Lemma keeps_get_inner {X} o : keeps_vault (X:=X) (Vault.get_inner o).
Proof.
  intros [vw x] r s'. simpl. destruct (Vault.get_to_writer_inner o (vw, [] : bytes)) as [[u|e] [vw' out]] eqn:E;
    apply keeps_get_to_writer in E; by intros [= <- <-].
Qed.
#[local] Hint Resolve keeps_get_inner : keeps.

Lemma keeps_get_to_sink {X} o : keeps_vault (X:=X) (Vault.get_to_sink o).
Proof. apply keeps_with_arg. auto with keeps. Qed.
#[local] Hint Resolve keeps_get_to_sink : keeps.

Lemma keeps_verify_each {X} ids : keeps_vault (X:=X) (Vault.verify_each ids).
Proof. induction ids; simpl; keeps. Qed.

Lemma keeps_verify_each_with_witness `{WitnessProvider P} ids :
  keeps_vault (Vault.verify_each_with_witness (P:=P) ids).
Proof. induction ids; simpl; keeps. Qed.

Lemma keeps_recover_each `{WitnessProvider P} l : keeps_vault (Vault.recover_each (P:=P) l).
Proof. induction l as [|[] l IH]; simpl; [keeps|]. apply keeps_bind; [|done]. unfold Vault.recover_one. keeps. Qed.

Lemma keeps_prepare {X} o pt size : keeps_vault (X:=X) (Vault.prepare_version o pt size).
Proof. intros s r s' (? & _)%frames_prepare. done. Qed.
#[local] Hint Resolve keeps_verify_each keeps_verify_each_with_witness keeps_recover_each keeps_prepare : keeps.

(** The body of a secret operation, inside [lock_after_failure]. *)
Lemma secret_op_body `{Read R} `{Write W} `{WitnessProvider P} {X A} (m : Op X A) :
  secret_op (R:=R) (W:=W) (P:=P) m → ∃ body, m = Vault.lock_after_failure body ∧ keeps_vault body ∧
    ∀ v w x, v_root_key v = None → body ((v, w), x) = (Err Locked, ((v, w), x)).
Proof.
  assert (∀ Y B (k : bytes → Op Y B) v w y, v_root_key v = None →
            sbind Vault.require_root_key k ((v, w), y) = (Err Locked, ((v, w), y))) as Hrk.
  { intros Y B k v w y Hv. unfold sbind, Vault.require_root_key. cbn. by rewrite Hv. }
  intros Hm. destruct Hm.
  - eexists; split; [reflexivity|split].
    + unfold Vault.put_inner. keeps.
    + intros v w x Hv. unfold Vault.put_inner, Vault.prepare_version, sbind at 1. by rewrite Hrk.
  - eexists; split; [reflexivity|split].
    + unfold Vault.put_from_reader_inner. keeps. apply keeps_dropping. unfold Vault.upload. keeps.
      apply keeps_loop.
    + intros v w x Hv. unfold Vault.put_from_reader_inner. destruct (Z.eqb_spec size 0); [lia|].
      unfold sbind at 1, slift. rewrite u32_try_from_ok by (unfold is_u32; lia). simpl. by rewrite Hrk.
  - eexists; split; [reflexivity|split; [keeps|]]. intros v w x Hv. unfold Vault.get_inner, Vault.get_to_writer_inner. by rewrite Hrk.
  - eexists; split; [reflexivity|split; [keeps|]]. intros v w x Hv. by apply Hrk.
  - eexists; split; [reflexivity|split; [unfold Vault.verify_active_objects_inner; keeps|]]. intros v w x Hv. by apply Hrk.
  - eexists; split; [reflexivity|split; [keeps|]]. intros v w x Hv. by apply Hrk.
  - eexists; split; [reflexivity|split].
    + unfold Vault.put_with_witness_inner. keeps.
    + intros v w x Hv. unfold Vault.put_with_witness_inner, Vault.prepare_version, sbind at 1. by rewrite Hrk.
  - eexists; split; [reflexivity|split; [unfold Vault.recover_pending_witness_publications_inner; keeps|]]. intros v w x Hv. by apply Hrk.
  - eexists; split; [reflexivity|split; [unfold Vault.verify_active_objects_with_witness_inner; keeps|]]. intros v w x Hv. by apply Hrk.
Qed.

End lifecycle.
End Lifecycle.
