(* ===== verification/WitnessSpec.v ===== *)
(** * The vault and its witness

    Proved against [ProviderContract], so for every provider that satisfies it:
    witnessed publication, idempotent recovery after a crash, and the
    detection of a database that was rolled back. *)

From S2P Require Import Prelude Format Cde Crypto Witness Fs Storage Vault Toy StorageSpec VaultSpec StreamSpec.
From S2P Require Import Refinement Integrity Lifecycle.
From Stdlib Require Import ZArith Lia.
From stdpp Require Import base numbers list gmap strings sorting relations.

Open Scope Z_scope.
Open Scope vlt_scope.

Module WitnessSpec.
Import StorageSpec VaultSpec StreamSpec Refinement Integrity Lifecycle.

Section provider.
Context `{PrimitivesOk} {P : Type} `{!WitnessProvider P} `{!ProviderContract P}.

(** ** Heads only move forward *)

Definition head_epoch (p : P) (v : VaultId) (o : ObjectId) : Z :=
  match pv_head p v o with Some r => rc_epoch r | None => 0 end.

(** Any client may send any request at any time. *)
Definition provider_step (p p' : P) : Prop :=
  ∃ req e res, wf_request req ∧ is_u64 e ∧ issue_receipt req e p = (res, p').

Lemma provider_step_inv p p' : pv_inv p → provider_step p p' → pv_inv p'.
Proof. intros Hp (req & e & res & Hw & He & E). by apply pv_issue in E as (? & _). Qed.

Lemma provider_step_monotone p p' v o :
  pv_inv p → provider_step p p' → head_epoch p v o ≤ head_epoch p' v o.
Proof.
  intros Hp (req & e & res & Hw & He & E).
  destruct (pv_issue _ _ _ _ _ Hp Hw He E) as (_ & Hother & Hsame & _).
  destruct (decide ((v, o) = (req_vault_id req, req_object_id req))) as [[= -> ->]|Hne].
  - unfold head_epoch. destruct Hsame as [-> | (-> & r & -> & Hlt & _)]; [done|]. lia.
  - unfold head_epoch. by rewrite (Hother _ _ Hne).
Qed.

Lemma provider_steps_monotone p p' v o :
  pv_inv p → rtc provider_step p p' → pv_inv p' ∧ head_epoch p v o ≤ head_epoch p' v o.
Proof.
  intros Hp Hs. induction Hs as [|p p1 p' Hst _ IH]; [done|].
  pose proof (provider_step_monotone _ _ v o Hp Hst). destruct (IH (provider_step_inv _ _ Hp Hst)). split; [done|lia].
Qed.

(** ** The freshness sweep *)

(** The local receipt of the active version and the witness's head agree. *)
Definition fresh (vault : VaultId) (db : Db) (p : P) (o : ObjectId) : Prop :=
  ∃ x row h, db_objects db !! as_bytes o = Some (as_bytes x) ∧ db_receipts db !! as_bytes x = Some row ∧
    pv_head p vault o = Some h ∧ rc_version_id h = x ∧ rc_epoch h = rr_epoch row ∧
    rc_commitment h = rr_commitment row ∧ rc_public_key h = rr_public_key row.

Lemma fresh_same_heads vault db p p' o :
  (∀ v o, pv_head p' v o = pv_head p v o) → fresh vault db p' o → fresh vault db p o.
Proof. intros Hh (x & row & h & ? & ? & E & ?). exists x, row, h. rewrite Hh in E. destruct_and?. by split_and!. Qed.

(** Values have the types SQLite gives them: blobs hold bytes, integers are
    64-bit. *)
Record db_typed (db : Db) : Prop := {
  ty_objects oid vid : db_objects db !! oid = Some vid → wf_bytes oid;
  ty_versions vid row : db_versions db !! vid = Some row → wf_bytes vid ∧ wf_bytes (vr_object_id row);
  ty_pending vid e : db_pending db !! vid = Some e → e ≤ i64_max;
}.

Lemma i64_u64 e : 0 ≤ e ≤ i64_max → is_u64 e.
Proof. unfold is_u64, i64_max, u64_max. lia. Qed.

Lemma request_new_wf v o x m : wf_id v → wf_id o → wf_id x → wf_request (Witness.request_new v o x m).
Proof. intros. split_and!; try done; [apply sha256_length|apply sha256_wf]. Qed.

Lemma receipt_of_row_fields vid row r :
  Storage.receipt_of_row vid row = Ok r →
  as_bytes (rc_version_id r) = vid ∧ rc_epoch r = rr_epoch row ∧ rc_commitment r = rr_commitment row ∧
  rc_public_key r = rr_public_key row.
Proof.
  unfold Storage.receipt_of_row, Storage.bytes32, Storage.bytes64. intros E.
  destruct (Sql.u64_of_sql (rr_epoch row)) as [ep|] eqn:Ee; [|done]. unfold Sql.u64_of_sql in Ee.
  destruct (Z.leb_spec 0 (rr_epoch row)); [|done]. injection Ee as <-. simpl in E.
  destruct (from_slice (k:=KVault) _) as [v|]; [|done]. simpl in E.
  destruct (from_slice (k:=KObject) _) as [o|]; [|done]. simpl in E.
  destruct (from_slice (k:=KVersion) _) as [x|] eqn:Ex; [|done]. simpl in E. apply from_slice_ok in Ex as [-> _].
  destruct (fixed_array 32 (rr_commitment row)) as [c|] eqn:Ec; [|done]. simpl in E. apply fixed_array_some in Ec as [-> _].
  destruct (fixed_array 32 (rr_public_key row)) as [k|] eqn:Ek; [|done]. simpl in E. apply fixed_array_some in Ek as [-> _].
  destruct (fixed_array 64 _) as [sg|]; [|done]. simpl in E. by apply Witness.receipt_new_ok in E as [-> _].
Qed.

Lemma active_receipt_some o w r w' :
  Storage.active_receipt o w = (Ok (Some r), w') → w_db w' = w_db w ∧
  ∃ (x : VersionId) row, db_objects (w_db w) !! as_bytes o = Some (as_bytes x) ∧
    db_receipts (w_db w) !! as_bytes x = Some row ∧ Storage.receipt_of_row (as_bytes x) row = Ok r.
Proof.
  unfold Storage.active_receipt. destruct (Storage.active_version o w) as [[sv|[]] w1] eqn:E; try done.
  apply active_version_ok in E as (F1 & Ha & _). intros [F2 Hr]%receipt_ok. split; [congruence|].
  rewrite F1 in Hr. destruct (db_receipts (w_db w) !! as_bytes (sv_version_id sv)) as [row|] eqn:Er; [|done].
  destruct Hr as (c & [= <-] & Hc). eauto 10.
Qed.

Lemma head_agrees vault p o ch h p' r :
  pv_inv p → wf_id vault → wf_id o → length ch = 32%nat → wf_bytes ch →
  object_head vault o ch p = (Ok h, p') → Vault.head_matches_receipt h r = true →
  pv_inv p' ∧ (∀ v o, pv_head p' v o = pv_head p v o) ∧
  ∃ c, pv_head p vault o = Some c ∧ rc_version_id c = rc_version_id r ∧ rc_epoch c = rc_epoch r ∧
    rc_commitment c = rc_commitment r ∧ rc_public_key c = rc_public_key r.
Proof.
  intros Hp Hv Ho Hl Hw E Hm. destruct (pv_object_head _ _ _ _ _ _ Hp Hv Ho Hl Hw E) as (Hp' & Hsame & Hh).
  destruct (Hh _ eq_refl) as (_ & _ & _ & _ & Hc). split; [done|]. split; [done|].
  unfold Vault.head_matches_receipt in Hm.
  rewrite !andb_true_iff, !bool_decide_eq_true, Z.eqb_eq in Hm. destruct Hm as ((((Hpr & Hv') & He) & Hcm) & Hk).
  destruct (pv_head p vault o) as [c|]; [|congruence]. destruct Hc as (_ & Hv2 & He2 & Hc2 & Hk2).
  exists c. split_and!; congruence.
Qed.

Lemma get_to_sink_db {X} o (s : VS X) s' :
  Vault.get_to_sink o s = (Ok tt, s') → s'.1.1 = s.1.1 ∧ w_db s'.1.2 = w_db s.1.2 ∧ s'.2 = s.2.
Proof.
  unfold Vault.get_to_sink, Vault.with_arg. destruct s as [[v w] x]. simpl.
  destruct (Vault.get_to_writer_inner o _) as [r [vw u]] eqn:E. intros [= -> <-]. simpl.
  by apply get_to_writer_inv in E as (? & ? & ? & ? & ? & ? & _ & _ & ? & ? & _).
Qed.

Lemma verify_each_with_witness_ok ids (s : VS P) s' :
  pv_inv s.2 → wf_id (v_vault_id s.1.1) → Forall wf_id ids → Vault.verify_each_with_witness ids s = (Ok tt, s') →
  Forall (fresh (v_vault_id s.1.1) (w_db s.1.2) s.2) ids.
Proof.
  intros Hp Hwv Hids. revert s Hp Hwv. induction Hids as [|o ids Ho _ IH]; intros s Hp Hwv; simpl; [constructor|].
  intros (ro & s1 & E1 & E)%sbind_ok. apply on_world_eq in E1 as (w1 & E1 & ->). simpl in E1.
  apply sbind_ok in E as (r & s2 & E2 & E). injection E2 as E2 <-. apply ok_or_ok in E2 as ->.
  apply active_receipt_some in E1 as (F1 & x & row & Hact & Hrow & Hr).
  apply sbind_ok in E as (ch & s3 & E3 & E). destruct (frames_random _ _ _ _ E3) as (F3 & F3db & F3x). simpl in F3, F3db, F3x.
  apply random_ok in E3 as (g & g' & [Hcl Hcw]%Crypto.fill_bytes_length).
  apply sbind_ok in E as (v & s4 & E4 & E). injection E4 as <- <-.
  apply sbind_ok in E as (h & s4 & E4 & E). unfold Vault.on_arg, szoom in E4. rewrite F3, F3x in E4.
  destruct (object_head _ _ _ _) as [rh p4] eqn:Eh. injection E4 as -> <-.
  destruct (Vault.head_matches_receipt h r) eqn:Em; [|done]. simpl in E.
  destruct (head_agrees _ _ _ _ _ _ _ Hp Hwv Ho Hcl Hcw Eh Em) as (Hp4 & Hsame & c & Hc & Ev & Ee & Ecm & Ek).
  apply sbind_ok in E as ([] & s5 & (F5 & F5db & F5x)%get_to_sink_db & E). simpl in F5, F5db, F5x.
  apply receipt_of_row_fields in Hr as (Hx & He & Hcm & Hk). constructor.
  - exists x, row, c. split_and!; try done; try congruence. apply Crypto.id_ext. congruence.
  - apply IH in E; [|by rewrite F5x|by rewrite F5, F3]. rewrite F5, F5db, F5x, F3, F3db, F1 in E.
    eapply Forall_impl; [exact E|]. intros o'. by apply fresh_same_heads.
Qed.

Lemma active_object_ids_ok w ids w' :
  db_typed (w_db w) → Storage.active_object_ids w = (Ok ids, w') → w_db w' = w_db w ∧ Forall wf_id ids ∧
  ∀ o vid, db_objects (w_db w) !! as_bytes o = Some vid → o ∈ ids.
Proof.
  intros Hty.
  unfold Storage.active_object_ids. intros (rows & w1 & [-> (E1 & _)]%query_ok & E)%sbind_ok. injection E as E <-.
  split; [done|].
  assert (Hkeys : ∀ b, b ∈ Sql.select_object_ids (w_db w) ↔ ∃ vid, db_objects (w_db w) !! b = Some vid).
  { intros b. unfold Sql.select_object_ids. rewrite merge_sort_Permutation, list_elem_of_In, in_map_iff. split.
    - intros ([b' vid] & <- & Hin%list_elem_of_In%elem_of_map_to_list). eauto.
    - intros [vid Hvid]. exists (b, vid). split; [done|]. by apply list_elem_of_In, elem_of_map_to_list. }
  assert (Hids : map as_bytes ids = Sql.select_object_ids (w_db w) ∧ Forall (λ i, length (as_bytes i) = 16%nat) ids).
  { revert E. generalize (Sql.select_object_ids (w_db w)). intros l. revert ids.
    induction l as [|b l IH]; intros ids; simpl; [by intros [= <-]|].
    destruct (from_slice b) as [i|] eqn:Ei; [|done]. simpl. apply from_slice_ok in Ei as [-> Hb].
    destruct (Storage.from_slices l) as [ids'|]; [|done]. simpl. intros [= <-].
    destruct (IH ids' eq_refl) as [<- ?]. split; [done|by constructor]. }
  destruct Hids as [Hmap Hlen]. split.
  - apply Forall_forall. intros i Hi. rewrite Forall_forall in Hlen. split; [by apply Hlen|].
    assert (as_bytes i ∈ Sql.select_object_ids (w_db w)) as [vid Hvid]%Hkeys
      by (rewrite <-Hmap; apply list_elem_of_In, in_map, list_elem_of_In; done).
    by eapply ty_objects.
  - intros o vid Ho. assert (as_bytes o ∈ map as_bytes ids) as Hin by (rewrite Hmap; apply Hkeys; eauto).
    apply list_elem_of_In, in_map_iff in Hin as (i & Ei%Crypto.id_ext & Hi). subst. by apply list_elem_of_In.
Qed.

Lemma verify_with_witness_fresh (s : VS P) n s' :
  pv_inv s.2 → wf_id (v_vault_id s.1.1) → db_typed (w_db s.1.2) →
  Vault.verify_active_objects_with_witness s = (Ok n, s') →
  ∀ o vid, db_objects (w_db s.1.2) !! as_bytes o = Some vid → fresh (v_vault_id s.1.1) (w_db s.1.2) s.2 o.
Proof.
  intros Hp Hwv Hty (s1 & E & _ & _ & _)%lock_after_failure_eq o vid Ho.
  unfold Vault.verify_active_objects_with_witness_inner in E.
  apply sbind_ok in E as (k & s2 & [_ ->]%require_root_key_ok & E).
  apply sbind_ok in E as (ids & s3 & E3 & E). apply on_world_eq in E3 as (w3 & E3 & ->).
  apply active_object_ids_ok in E3 as (F3 & Hwf & Hids); [|done]. apply sbind_ok in E as ([] & s4 & E4 & _).
  apply verify_each_with_witness_ok in E4; [|done..]. simpl in E4. rewrite Forall_forall in E4.
  rewrite <-F3. by apply E4, (Hids o vid).
Qed.

(** ** Witnessed publication *)

Lemma version_in_staged vault sv cs e db :
  db_wf db → admitted sv cs db → version_in vault sv cs (staged sv cs e db).
Proof.
  intros Hwf [Hf Hnd Hc _ _ _ _]. constructor; simpl.
  - apply lookup_insert_eq.
  - intros i r. rewrite put_chunks_lookup by done.
    assert (db_chunks db !! (as_bytes (sv_version_id sv), i) = None) as ->; [|naive_solver].
    apply eq_None_not_Some. intros [r' Hr'%(wf_chunk_fk _ Hwf)]. rewrite Hf in Hr'. by destruct Hr'.
  - destruct (db_receipts db !! _) as [r|] eqn:E; [|done].
    apply (wf_receipt_fk _ Hwf) in E. rewrite Hf in E. by destruct E.
Qed.

Lemma receipt_row_decodes r :
  wf_id (rc_vault_id r) → wf_id (rc_object_id r) → wf_id (rc_version_id r) → 0 ≤ rc_epoch r →
  length (rc_commitment r) = 32%nat → length (rc_public_key r) = 32%nat → length (rc_signature r) = 64%nat →
  Witness.receipt_verify_signature r = Ok tt →
  Storage.receipt_of_row (as_bytes (rc_version_id r)) (Storage.receipt_row r (rc_epoch r)) = Ok r.
Proof.
  intros Hv Ho Hx He Hc Hk Hs Hsig. unfold Storage.receipt_of_row, Storage.bytes32, Storage.bytes64, Sql.u64_of_sql. simpl.
  destruct (Z.leb_spec 0 (rc_epoch r)); [|lia]. simpl. rewrite !from_slice_as_bytes by done. simpl.
  rewrite (proj2 (fixed_array_some _ _ _) (conj eq_refl Hc)), (proj2 (fixed_array_some _ _ _) (conj eq_refl Hk)),
    (proj2 (fixed_array_some _ _ _) (conj eq_refl Hs)). simpl.
  apply Witness.receipt_new_ok. split; [by destruct r|done].
Qed.

(** Finalising with a verified receipt makes the staged version readable. *)
Lemma stored_finalized vault root_key sv cs pt r db :
  seals vault root_key sv cs pt → version_in vault sv cs db →
  Witness.verify_request r (Witness.request_new vault (sv_object_id sv) (sv_version_id sv) (sv_manifest sv)) = Ok tt →
  0 ≤ rc_epoch r → length (rc_public_key r) = 32%nat → length (rc_signature r) = 64%nat →
  stored vault root_key (finalized sv r db) (sv_object_id sv) pt.
Proof.
  intros Hs [Hrow Hc _] Hver He Hk Hg. exists sv, cs. split_and!; [done|apply lookup_insert_eq| |done].
  constructor; simpl; [done|done|]. rewrite lookup_insert_eq. exists r. split; [|done].
  apply Witness.verify_request_ok in Hver as (Hv & Ho & Hx & Hcm & Hsig). simpl in *.
  destruct (seals_wf_ids _ _ _ _ _ Hs) as (? & ? & ?). rewrite <-Hx.
  apply receipt_row_decodes; rewrite ?Hv, ?Ho, ?Hx, ?Hcm; try done. apply sha256_length.
Qed.

Lemma stored_finalized_other vault root_key sv row r db o pt :
  db_wf db → db_versions db !! as_bytes (sv_version_id sv) = Some row → vr_object_id row = as_bytes (sv_object_id sv) →
  db_receipts db !! as_bytes (sv_version_id sv) = None → o ≠ sv_object_id sv →
  stored vault root_key db o pt → stored vault root_key (finalized sv r db) o pt.
Proof.
  intros Hwf Hrow Hobj Hr Hne. apply stored_extends; [by apply finalized_extends| |].
  - simpl. apply lookup_insert_ne. by apply not_eq_sym, as_bytes_ne.
  - intros vid Hvid. simpl. apply lookup_insert_ne. intros <-.
    destruct (wf_active _ Hwf _ _ Hvid) as (row' & Hrow' & Ho').
    apply Hne. symmetry. apply Crypto.id_ext. congruence.
Qed.

Lemma stored_staged vault root_key sv cs e db o pt :
  admitted sv cs db → stored vault root_key db o pt → stored vault root_key (staged sv cs e db) o pt.
Proof. intros Hadm. apply stored_extends; [by apply staged_extends|done|done]. Qed.

Lemma active_receipt_db o w r w' : Storage.active_receipt o w = (r, w') → w_db w' = w_db w.
Proof.
  unfold Storage.active_receipt. destruct (Storage.active_version o w) as [r1 w1] eqn:E.
  assert (w_db w1 = w_db w) as F1.
  { unfold Storage.active_version, sbind at 1 in E. destruct (Sql.query _ w) as [q1 wa] eqn:Eq.
    destruct (reads_ok _ _ _ _ _ (reads_query _ w) Eq) as [(Ea & _) _]. destruct q1 as [ov|]; [|by injection E as <- <-].
    unfold sbind at 1, slift at 1 in E. destruct (ok_or ov _); [|by injection E as <- <-].
    unfold sbind at 1, slift at 1 in E. destruct (from_slice _); [|by injection E as <- <-].
    unfold Storage.version, sbind in E. destruct (Sql.query _ wa) as [q2 wb] eqn:Eq2.
    destruct (reads_ok _ _ _ _ _ (reads_query _ wa) Eq2) as [(Eb & _) _].
    destruct q2; [unfold slift in E|]; injection E as <- <-; congruence. }
  assert (∀ x w2 r2, Storage.receipt x w1 = (r2, w2) → w_db w2 = w_db w1) as Hrc.
  { intros x w2 r2. unfold Storage.receipt, sbind. destruct (Sql.query _ w1) as [q2 wb] eqn:Eq2.
    destruct (reads_ok _ _ _ _ _ (reads_query _ w1) Eq2) as [(Eb & _) _].
    destruct q2; [unfold slift|]; intros [= <- <-]; done. }
  destruct r1 as [sv|[]]; [intros ?%Hrc; congruence|by intros [= <- <-]..].
Qed.

(** What a witnessed publication may have done: nothing, staged the version
    without making it visible, or made it visible with the witness's receipt. *)
Definition witness_effect (vault : VaultId) (key : option bytes) (o : ObjectId) (pt : bytes) (db : Db) (p' : P)
    (r : Result VersionId) (db' : Db) : Prop :=
  (is_ok r = false ∧ db' = db) ∨
  ∃ sv cs root_key e, key = Some root_key ∧ sv_object_id sv = o ∧ admitted sv cs db ∧ seals vault root_key sv cs pt ∧
    ((is_ok r = false ∧ db' = staged sv cs e db) ∨
     ∃ c, db' = finalized sv c (staged sv cs e db) ∧ pv_head p' vault o = Some c ∧ e < rc_epoch c ∧
       Witness.verify_request c (Witness.request_new vault o (sv_version_id sv) (sv_manifest sv)) = Ok tt ∧
       0 ≤ rc_epoch c ∧ length (rc_public_key c) = 32%nat ∧ length (rc_signature c) = 64%nat ∧
       (∀ x, r = Ok x → x = sv_version_id sv)).

Lemma put_with_witness_cases o pt (s : VS P) r s' :
  wf_id o → wf_id (v_vault_id s.1.1) → pv_inv s.2 →
  Vault.put_with_witness_inner o pt s = (r, s') →
  s'.1.1 = s.1.1 ∧ pv_inv s'.2 ∧
  witness_effect (v_vault_id s.1.1) (v_root_key s.1.1) o pt (w_db s.1.2) s'.2 r (w_db s'.1.2).
Proof.
  intros Hwo Hwv Hp. unfold Vault.put_with_witness_inner, sbind at 1.
  destruct (Vault.prepare_version o pt _ s) as [[[v cs]|e] s1] eqn:Ep;
    pose proof (frames_prepare _ _ _ _ _ _ Ep) as (F1 & F2 & F3).
  2: { intros [= <- <-]. split_and!; [done|by rewrite F3|]. by left. }
  apply prepare_ok in Ep as (Ho & Hl & Hwx & root & Hroot & Hseals); [|done..].
  unfold sbind at 1, Vault.the_vault, sgets. rewrite F1. cbv zeta. unfold sbind at 1.
  destruct (Vault.on_world (Storage.active_receipt o) s1) as [ra s2] eqn:E2.
  apply on_world_eq in E2 as (w2 & E2%active_receipt_db & ->).
  destruct ra as [act|e2]; [|intros [= <- <-]; simpl; split_and!; [done|by rewrite F3|left; split; [done|congruence]]].
  set (e := match act with Some _ => _ | None => 0 end). unfold sbind at 1.
  destruct (Vault.on_world (Storage.stage_witness_publication _ _ _ _) _) as [rs s3] eqn:E3.
  apply on_world_eq in E3 as (w3 & E3 & ->). simpl in E3. apply stage_cases in E3.
  destruct E3 as [[Hrs F4]|(Hadm & F4 & Hpn & Hep)].
  { destruct rs; [done|]. intros [= <- <-]. simpl. split_and!; [done|by rewrite F3|left; split; [done|congruence]]. }
  rewrite E2, F2 in F4, Hadm, Hpn. assert (Hseal := Hseals ltac:(rewrite <-Hl; apply (adm_len _ _ _ Hadm))).
  assert (∀ r' p', is_ok r' = false → witness_effect (v_vault_id s.1.1) (v_root_key s.1.1) o pt (w_db s.1.2) p' r' (w_db w3)) as Hstaged.
  { intros r' p' Hr'. right. exists v, cs, root, e. split_and!; try done. by left. }
  destruct rs as [[]|e3]; [|intros [= <- <-]; simpl; split_and!; [done|by rewrite F3|by apply Hstaged]].
  unfold sbind at 1, Vault.on_arg, szoom. simpl. rewrite F3.
  destruct (issue_receipt _ e s.2) as [[c|e4] p'] eqn:E4.
  all: apply pv_issue in E4 as (Hp' & _ & _ & Hok); [|done|by apply request_new_wf|by apply i64_u64].
  2: { intros [= <- <-]. simpl. split_and!; [done|done|by apply Hstaged]. }
  destruct (Hok _ eq_refl) as (Hhead & Hlt & Hver). unfold sbind at 1, slift. rewrite Hver.
  unfold sbind. destruct (Vault.on_world (Storage.finalize_witness_publication _ _ _) _) as [rf s5] eqn:E5.
  apply on_world_eq in E5 as (w5 & E5 & ->). simpl in E5. intros Er.
  assert (s' = (s1.1.1, w5, p') ∧ is_ok r = is_ok rf ∧ (∀ x, r = Ok x → x = sv_version_id v)) as (-> & Hr & Hx).
  { destruct rf as [[]|]; injection Er as <- <-; split_and!; try done. by intros ? [= <-]. }
  simpl. rewrite F1. split_and!; [done|done|].
  apply finalize_cases in E5 as [[Hrf ->]|(F5 & _ & _ & _ & _ & _ & [? _] & ? & ?)]; [apply Hstaged; congruence|].
  right. exists v, cs, root, e. split_and!; try done. right. exists c. rewrite F5, F4. by split_and!.
Qed.

(** ** Recovery after a crash *)

Definition recovery_request (v : Vault) (sv : StoredVersion) : WitnessRequest :=
  Witness.request_new (v_vault_id v) (sv_object_id sv) (sv_version_id sv) (sv_manifest sv).

Definition wf_staged (v : Vault) (sv : StoredVersion) (e : Z) : Prop :=
  wf_id (v_vault_id v) ∧ wf_id (sv_object_id sv) ∧ wf_id (sv_version_id sv) ∧ is_u64 e.

Lemma recover_one_cases sv e (s : VS P) r s' :
  pv_inv s.2 → wf_staged s.1.1 sv e → Vault.recover_one sv e s = (r, s') →
  s'.1.1 = s.1.1 ∧ pv_inv s'.2 ∧
  ((is_ok r = false ∧ w_db s'.1.2 = w_db s.1.2) ∨
   ∃ c, w_db s'.1.2 = finalized sv c (w_db s.1.2) ∧ issue_receipt (recovery_request s.1.1 sv) e s.2 = (Ok c, s'.2) ∧
     pv_head s'.2 (v_vault_id s.1.1) (sv_object_id sv) = Some c ∧
     Witness.verify_request c (recovery_request s.1.1 sv) = Ok tt ∧
     is_Some (db_pending (w_db s.1.2) !! as_bytes (sv_version_id sv)) ∧
     db_receipts (w_db s.1.2) !! as_bytes (sv_version_id sv) = None ∧
     0 ≤ rc_epoch c ∧ length (rc_public_key c) = 32%nat ∧ length (rc_signature c) = 64%nat).
Proof.
  intros Hp (Hv & Ho & Hx & He). unfold Vault.recover_one, sbind at 1, Vault.the_vault, sgets. cbv zeta.
  change (Witness.request_new _ _ _ _) with (recovery_request s.1.1 sv).
  unfold sbind at 1, Vault.on_arg, szoom. simpl.
  destruct (issue_receipt (recovery_request s.1.1 sv) e s.2) as [res p'] eqn:Ei.
  destruct (pv_issue _ _ _ _ _ Hp (request_new_wf _ _ _ _ Hv Ho Hx) He Ei) as (Hp' & _ & _ & Hok).
  destruct res as [c|err]; [|intros [= <- <-]; simpl; split_and!; [done|done|by left]].
  destruct (Hok _ eq_refl) as (Hhead & _ & Hver). unfold sbind, slift.
  change (Witness.request_new _ _ _ _) with (recovery_request s.1.1 sv) in Hver. rewrite Hver.
  destruct (Vault.on_world _ _) as [rf s5] eqn:E5. apply on_world_eq in E5 as (w5 & E5 & ->). simpl in E5.
  intros [= <- <-]. simpl. split_and!; [done|done|].
  apply finalize_cases in E5 as [?|(F5 & _ & _ & Hpend & Hrc & _ & [? _] & ? & ?)]; [by left|right].
  exists c. by split_and!.
Qed.

(** Retrying a request that the witness had granted before the crash neither
    advances the witness nor yields another receipt. *)
Lemma recover_one_again sv e (s : VS P) c0 r s' :
  pv_inv s.2 → wf_staged s.1.1 sv e →
  pv_head s.2 (v_vault_id s.1.1) (sv_object_id sv) = Some c0 → e < rc_epoch c0 →
  Witness.verify_request c0 (recovery_request s.1.1 sv) = Ok tt →
  Vault.recover_one sv e s = (r, s') →
  (∀ v o, pv_head s'.2 v o = pv_head s.2 v o) ∧
  ((is_ok r = false ∧ w_db s'.1.2 = w_db s.1.2) ∨ w_db s'.1.2 = finalized sv c0 (w_db s.1.2)).
Proof.
  intros Hp Hw Hhead Hlt Hver E. pose proof Hw as (Hv & Ho & Hx & He).
  destruct (issue_receipt (recovery_request s.1.1 sv) e s.2) as [res p'] eqn:Ei.
  destruct (pv_issue_again s.2 (recovery_request s.1.1 sv) e c0 res p' Hp
              (request_new_wf _ _ _ _ Hv Ho Hx) He Hhead Hlt Hver Ei) as [Hsame Hres].
  assert (s'.2 = p') as Ep.
  { unfold Vault.recover_one, sbind at 1, Vault.the_vault, sgets in E. cbv zeta in E.
    change (Witness.request_new _ _ _ _) with (recovery_request s.1.1 sv) in E.
    unfold sbind at 1, Vault.on_arg, szoom in E. simpl in E. rewrite Ei in E.
    destruct res as [c|err]; simpl in E; [|by injection E as _ <-]. unfold sbind, slift in E.
    destruct (Witness.verify_request c (recovery_request s.1.1 sv)) as [[]|err]; [|by injection E as _ <-].
    apply on_world_eq in E as (w5 & _ & ->). done. }
  rewrite Ep. split; [done|].
  destruct (recover_one_cases _ _ _ _ _ Hp Hw E) as (_ & _ & [Hc|(c & Hdb & Hc & _)]); [by left|right].
  rewrite Ei in Hc. injection Hc as -> _. by rewrite Hdb, (Hres _ eq_refl).
Qed.

Lemma recover_each_pending l (s : VS P) s' :
  pv_inv s.2 → Forall (λ x, wf_staged s.1.1 x.1 x.2) l → Vault.recover_each l s = (Ok tt, s') →
  db_pending (w_db s'.1.2) = foldl (λ m x, delete (as_bytes (sv_version_id x.1)) m) (db_pending (w_db s.1.2)) l.
Proof.
  revert s. induction l as [|[sv e] l IH]; intros s Hp Hl; simpl; [by intros [= <-]|].
  apply Forall_cons in Hl as [Hw Hl].
  intros ([] & s1 & E1 & E)%sbind_ok. apply recover_one_cases in E1 as (F1 & Hp1 & Hc); [|done..].
  apply IH in E; [|done|by rewrite F1]. rewrite E. destruct Hc as [[? _]|(c & -> & _)]; [done|]. done.
Qed.

Lemma version_of_row_wf vid row sv :
  wf_bytes vid → wf_bytes (vr_object_id row) → Storage.version_of_row vid row = Ok sv →
  wf_id (sv_object_id sv) ∧ wf_id (sv_version_id sv).
Proof.
  intros Hv Ho. unfold Storage.version_of_row. intros E. do 3 step_ok E.
  destruct (from_slice (k:=KObject) _) as [o|] eqn:Eo; [|done]. simpl in E. apply from_slice_ok in Eo as [-> ?].
  destruct (from_slice (k:=KVersion) _) as [x|] eqn:Ex; [|done]. simpl in E. apply from_slice_ok in Ex as [-> ?].
  steps_ok E. injection E as <-. by split.
Qed.

Lemma load_pending_keys rows w l w' v :
  db_typed (w_db w) → wf_id (v_vault_id v) → Forall (λ x : bytes * Z, x.2 ≤ i64_max) rows →
  Storage.load_pending rows w = (Ok l, w') →
  w_db w' = w_db w ∧ map (λ x, as_bytes (sv_version_id x.1)) l = map fst rows ∧ Forall (λ x, wf_staged v x.1 x.2) l.
Proof.
  intros Hty Hwv Hrows. revert w l w' Hty.
  induction Hrows as [|[vid e] rows He _ IH]; intros w l w' Hty; simpl; [by intros [= <- <-]|].
  intros (e' & w1 & E1 & E)%sbind_ok. injection E1 as E1 <-. apply ok_or_ok in E1. unfold Sql.u64_of_sql in E1.
  destruct (Z.leb_spec 0 e); [|done]. injection E1 as <-.
  apply sbind_ok in E as (x & w2 & E2 & E). injection E2 as E2 <-. apply from_slice_ok in E2 as [-> _].
  apply sbind_ok in E as (sv & w3 & (F3 & Hx & row & Hrow & Hsv)%version_ok & E).
  apply sbind_ok in E as (l' & w4 & E4 & E). apply IH in E4 as (F4 & Hl & Hwl); [|by rewrite F3].
  injection E as <- <-. simpl. rewrite Hx, Hl. split; [congruence|]. split; [done|]. constructor; [|done].
  destruct (ty_versions _ Hty _ _ Hrow) as [Hb1 Hb2].
  destruct (version_of_row_wf _ _ _ Hb1 Hb2 Hsv). split_and!; try done. by apply i64_u64.
Qed.

Lemma delete_all_keys {V} (m : gmap bytes V) (ks : list bytes) :
  (∀ k v, m !! k = Some v → k ∈ ks) → foldl (λ m k, delete k m) m ks = ∅.
Proof.
  revert m. induction ks as [|k ks IH]; intros m Hk; simpl.
  - apply map_empty. intros i. apply eq_None_not_Some. intros [v Hv%Hk]. by apply elem_of_nil in Hv.
  - apply IH. intros j v [Hne Hj]%lookup_delete_Some. apply Hk in Hj. apply elem_of_cons in Hj as [->|?]; done.
Qed.

Lemma recover_all_ok (s : VS P) n s' :
  pv_inv s.2 → wf_id (v_vault_id s.1.1) → db_typed (w_db s.1.2) →
  Vault.recover_pending_witness_publications s = (Ok n, s') → db_pending (w_db s'.1.2) = ∅.
Proof.
  intros Hp Hwv Hty (s1 & E & Ew & _)%lock_after_failure_eq.
  unfold Vault.recover_pending_witness_publications_inner in E.
  apply sbind_ok in E as (k & s2 & [_ ->]%require_root_key_ok & E).
  apply sbind_ok in E as (l & s3 & E3 & E). apply on_world_eq in E3 as (w3 & E3 & ->).
  unfold Storage.pending_witness_publications in E3.
  apply sbind_ok in E3 as (rows & w4 & [-> (F4 & _)]%query_ok & E3).
  apply (load_pending_keys _ _ _ _ s.1.1) in E3 as (F5 & Hkeys & Hwl); [|by rewrite F4|done|].
  2: { apply Forall_forall. intros [vid e] Hin. unfold Sql.select_pending in Hin.
       rewrite merge_sort_Permutation, elem_of_map_to_list in Hin. by eapply ty_pending. }
  apply sbind_ok in E as ([] & s5 & E5 & E). injection E as _ <-. rewrite Ew.
  apply recover_each_pending in E5; [|done..]. rewrite E5. simpl. rewrite F5, F4.
  rewrite <-(foldl_fmap (λ m k, delete k m) _ l (λ x, as_bytes (sv_version_id x.1))).
  change (foldl (λ m k, delete k m) (db_pending (w_db s.1.2)) (map (λ x, as_bytes (sv_version_id x.1)) l) = ∅).
  rewrite Hkeys.
  apply delete_all_keys. intros i v Hi. unfold Sql.select_pending.
  apply list_elem_of_In, in_map_iff. exists (i, v). split; [done|].
  apply list_elem_of_In. rewrite merge_sort_Permutation. by apply elem_of_map_to_list.
Qed.

End provider.
End WitnessSpec.
