(* ===== verification/BackupSpec.v ===== *)
(** * Snapshot and restore

    Without faults a backup and a restore succeed and reproduce the database;
    under any faults a restore that succeeds installed exactly the database
    its manifest authenticates, and neither operation changes a file that
    existed before. *)

From S2P Require Import Prelude Format Crypto Fs Storage Vault Backup Toy ToyWire ToyFiles StorageSpec.
From Stdlib Require Import ZArith Lia.
From stdpp Require Import base numbers list gmap strings.

Open Scope Z_scope.
Open Scope vlt_scope.

Module BackupSpec.
Import Backup PrivateFile.

(** ** Hexadecimal text *)

Lemma hex_index_digit n : 0 ≤ n < 16 → hex_index n = hex_digit n.
Proof.
  intros Hn. unfold hex_index, HEX, hex_digit.
  assert (n = 0 ∨ n = 1 ∨ n = 2 ∨ n = 3 ∨ n = 4 ∨ n = 5 ∨ n = 6 ∨ n = 7 ∨ n = 8 ∨ n = 9 ∨
    n = 10 ∨ n = 11 ∨ n = 12 ∨ n = 13 ∨ n = 14 ∨ n = 15) as C by lia.
  repeat (destruct C as [-> |C]; [done|]). by subst.
Qed.

(** The module's table lookup is the formatter of [to_hex]. *)
Lemma hex_encode_eq bs : wf_bytes bs → hex_encode bs = Format.hex_encode bs.
Proof.
  induction 1 as [|b bs Hb _ IH]; [done|]. cbn [hex_encode Format.hex_encode]. rewrite IH.
  destruct (byte_nibbles b Hb) as (? & ? & _). by rewrite !hex_index_digit.
Qed.

Lemma is_lower_hex_encode bs n : wf_bytes bs → length bs = n → is_lower_hex (Format.hex_encode bs) n = true.
Proof.
  intros Hw Hn. unfold is_lower_hex. rewrite bool_decide_eq_true_2 by (rewrite length_hex_encode; lia).
  by apply hex_encode_lower.
Qed.

(** ** Paths *)

(** The ancestors of the path's parent are directories, so a file can be made. *)
Definition creatable (fs : Fs) (p : Path) : Prop :=
  ∃ dir, parent p = Some dir ∧ path_is_empty dir = false ∧
    Forall (λ d, path_is_empty d = false ∧ file_type <$> fs !! d = Some FDirectory) (ancestors dir).

(** Not a name [NamedTempFile] gives. *)
Definition not_temporary (p : Path) : Prop := ∀ s, last (comps p) ≠ Some (String.append ".tmp" s).

Lemma creatable_parent fs p : creatable fs p → path_is_empty p = false.
Proof.
  intros (dir & Hd & _). unfold parent in Hd. unfold path_is_empty. destruct (comps p); [done|]. by rewrite andb_false_r.
Qed.

Lemma ancestors_self p : p ∈ ancestors p.
Proof.
  unfold ancestors. apply list_elem_of_In, in_map_iff. exists (length (comps p)). split.
  - rewrite firstn_all. by destruct p.
  - apply in_rev. rewrite rev_involutive. apply in_seq. lia.
Qed.

Lemma creatable_dir fs p : creatable fs p → ∃ dir, parent p = Some dir ∧ is_Some (fs !! dir).
Proof.
  intros (dir & Hd & _ & Ha). exists dir. split; [done|]. rewrite Forall_forall in Ha.
  destruct (Ha dir (ancestors_self dir)) as [_ Ht]. by destruct (fs !! dir).
Qed.

(** Changes that keep the directories keep what can be created. *)
Lemma creatable_mono fs fs' p :
  (∀ d, file_type <$> fs !! d = Some FDirectory → file_type <$> fs' !! d = Some FDirectory) →
  creatable fs p → creatable fs' p.
Proof.
  intros Hd (dir & ? & ? & Ha). exists dir. split_and!; [done..|]. eapply Forall_impl; [done|].
  intros d [??]. auto.
Qed.

Lemma parent_snoc abs cs c : parent (mkPath abs (cs ++ [c])) = Some (mkPath abs cs).
Proof. unfold parent. cbn [comps]. destruct (cs ++ [c]) eqn:E; [by apply app_nil in E as [_ ?]|]. by rewrite <-E, removelast_last. Qed.

Lemma manifest_path_parent p : is_Some (parent p) → parent (manifest_path p) = parent p.
Proof.
  destruct p as [abs cs]. destruct cs as [|c cs _] using rev_ind; [by intros []|].
  intros _. unfold manifest_path, path_push_suffix. cbn [comps absolute]. by rewrite last_snoc, removelast_last, !parent_snoc.
Qed.

Lemma manifest_path_ne p : manifest_path p ≠ p.
Proof.
  unfold manifest_path, path_push_suffix. destruct (last (comps p)) as [l|] eqn:El.
  - intros Hp. apply (f_equal comps) in Hp. simpl in Hp. apply (f_equal last) in Hp.
    rewrite last_snoc, El in Hp. injection Hp as Hp. apply (f_equal String.length) in Hp.
    rewrite append_length in Hp. simpl in Hp. lia.
  - intros Hp. apply (f_equal comps) in Hp. simpl in Hp. rewrite <-Hp in El. done.
Qed.

(** ** Runs without faults *)

(** What the operations leave alone, and where they stand. *)
Definition at_files (w0 : World) (st : Fs * Files) (s : World * Files) : Prop :=
  w_db s.1 = w_db w0 ∧ w_integrity_ok s.1 = w_integrity_ok w0 ∧ quiet (w_env s.1) ∧
  env_create_mode (w_env s.1) = env_create_mode (w_env w0) ∧ env_fs (w_env s.1) = st.1 ∧ s.2 = st.2.

(** From the files [st], [m] returns [a] and leaves the files [st']. *)
Definition runs {A} (w0 : World) (m : BIO A) (st : Fs * Files) (a : A) (st' : Fs * Files) : Prop :=
  ∀ s, at_files w0 st s → ∃ s', m s = (Ok a, s') ∧ at_files w0 st' s'.

Section runs.
Context (w0 : World).

Lemma runs_bind {A B} (m : BIO A) (k : A → BIO B) st a st1 b st2 :
  runs w0 m st a st1 → runs w0 (k a) st1 b st2 → runs w0 (sbind m k) st b st2.
Proof. intros Hm Hk s Hs. destruct (Hm s Hs) as (s1 & E & H1). rewrite (sbind_eq _ _ _ _ _ E). by apply Hk. Qed.

Lemma runs_ret {A} (a : A) st : runs w0 (sret a) st a st.
Proof. intros s Hs. by exists s. Qed.

Lemma runs_lift {A} (r : Result A) a st : r = Ok a → runs w0 (slift r) st a st.
Proof. intros -> s Hs. by exists s. Qed.

Lemma runs_syscall {A} (f : Fs * Files → option (A * (Fs * Files))) st a st' :
  f st = Some (a, st') → runs w0 (syscall f) st a st'.
Proof.
  intros Hf [w files] (Hd & Hi & Hq & Hm & Hfs & Hfl). simpl in *. unfold syscall, sbind, in_fs, in_world, in_env, szoom, io_fault.
  simpl. rewrite Hq. cbn [w_env env_fs set_env set_fs]. destruct st as [fs fl], st' as [fs' fl']. simpl in *. subst.
  rewrite Hf. eexists. split; [done|]. done.
Qed.

Lemma runs_env {A} (m : M Env VaultError A) a st fs' :
  (∀ e, quiet e → env_fs e = st.1 → ∃ e', m e = (Ok a, e') ∧ quiet e' ∧ env_fs e' = fs' ∧
     env_create_mode e' = env_create_mode e) →
  runs w0 (in_fs m) st a (fs', st.2).
Proof.
  intros Hm [w files] (Hd & Hi & Hq & Hc & Hfs & Hfl). simpl in *. unfold in_fs, in_world, in_env, szoom. simpl.
  destruct (Hm (w_env w) Hq Hfs) as (e' & -> & ? & ? & Hc'). eexists. split; [done|].
  split_and!; try done. simpl. congruence.
Qed.

End runs.

Lemma io_fault_quiet {E} e :
  quiet e → ∃ e', io_fault (E:=E) e = (Ok false, e') ∧ quiet e' ∧ env_fs e' = env_fs e ∧ env_create_mode e' = env_create_mode e.
Proof. intros Hq. eexists. unfold io_fault. rewrite Hq. by split. Qed.

Lemma metadata_quiet p e :
  quiet e → path_is_empty p = false →
  ∃ e', symlink_metadata p e = (ok_or (env_fs e !! p) IoNotFound, e') ∧ quiet e' ∧ env_fs e' = env_fs e ∧
    env_create_mode e' = env_create_mode e.
Proof.
  intros Hq Hp. destruct (io_fault_quiet (E:=IoError) e Hq) as (e' & E & Hq' & Hf & Hc). exists e'.
  unfold symlink_metadata. rewrite (sbind_eq _ _ _ _ _ E). unfold sbind, sgets, slift. rewrite Hp, Hf. by split.
Qed.

Lemma validate_directories_quiet dirs input e :
  quiet e → Forall (λ d, path_is_empty d = false ∧ file_type <$> env_fs e !! d = Some FDirectory) dirs →
  ∃ e', PathSafety.validate_directories dirs input e = (Ok tt, e') ∧ quiet e' ∧ env_fs e' = env_fs e ∧
    env_create_mode e' = env_create_mode e.
Proof.
  intros Hq Hd. revert e Hq Hd. induction dirs as [|d dirs IH]; intros e Hq Hd; [by exists e|]. simpl.
  apply Forall_cons in Hd as [[Hp Ht] Hd]. destruct (metadata_quiet d e Hq Hp) as (e1 & E & Hq1 & Hf1 & Hc1).
  unfold sbind, smap_err. rewrite E. destruct (env_fs e !! d) as [md|]; [|done]. simpl in *.
  apply (inj Some) in Ht. unfold is_symlink, is_dir. rewrite Ht. rewrite bool_decide_eq_false_2, bool_decide_eq_true_2 by done.
  simpl. destruct (IH e1 Hq1) as (e2 & -> & ? & ? & ?); [by rewrite Hf1|]. exists e2. split_and!; congruence.
Qed.

Lemma validate_parent_quiet p input e :
  quiet e → creatable (env_fs e) p →
  ∃ e', PathSafety.validate_parent_directory p input e = (Ok tt, e') ∧ quiet e' ∧ env_fs e' = env_fs e ∧
    env_create_mode e' = env_create_mode e.
Proof.
  intros Hq (dir & Hd & Hne & Ha). unfold PathSafety.validate_parent_directory, sbind, slift. rewrite Hd. simpl. rewrite Hne.
  by apply validate_directories_quiet.
Qed.

Section paths.
Context (w0 : World) (st : Fs * Files).

Lemma runs_new p input :
  creatable st.1 p → st.1 !! p = None →
  runs w0 (in_fs (PathSafety.validate_new_regular_file p input)) st tt st.
Proof.
  intros Hc Hn. destruct st as [fs files]. apply (runs_env w0 _ _ (fs, files)). intros e Hq Hf. simpl in *. subst fs.
  destruct (validate_parent_quiet p input e Hq Hc) as (e1 & E1 & Hq1 & Hf1 & Hc1).
  unfold PathSafety.validate_new_regular_file, sbind. rewrite E1.
  destruct (metadata_quiet p e1 Hq1) as (e2 & -> & ? & ? & ?); [by eapply creatable_parent|].
  rewrite Hf1, Hn. simpl. exists e2. split_and!; congruence.
Qed.

Lemma runs_existing p input md :
  creatable st.1 p → st.1 !! p = Some md → file_type md = FRegular →
  runs w0 (in_fs (PathSafety.validate_existing_regular_file p input)) st tt st.
Proof.
  intros Hc Hn Ht. destruct st as [fs files]. apply (runs_env w0 _ _ (fs, files)). intros e Hq Hf. simpl in *. subst fs.
  destruct (validate_parent_quiet p input e Hq Hc) as (e1 & E1 & Hq1 & Hf1 & Hc1).
  unfold PathSafety.validate_existing_regular_file, sbind. rewrite E1. unfold smap_err.
  destruct (metadata_quiet p e1 Hq1) as (e2 & -> & ? & ? & ?); [by eapply creatable_parent|].
  rewrite Hf1, Hn. simpl. unfold is_symlink, is_file. rewrite bool_decide_eq_false_2, bool_decide_eq_true_2 by congruence.
  simpl. exists e2. split_and!; (done || congruence).
Qed.

Lemma runs_chmod p m md :
  st.1 !! p = Some md →
  runs w0 (in_fs (smap_err (λ _, Storage) (set_permissions p m))) st tt (<[p := mkMeta (file_type md) m]> st.1, st.2).
Proof.
  intros Hl. apply runs_env. intros e Hq Hf. unfold smap_err, set_permissions.
  destruct (io_fault_quiet (E:=IoError) e Hq) as (e1 & E1 & Hq1 & Hf1 & Hc1). rewrite (sbind_eq _ _ _ _ _ E1).
  unfold sbind, sgets. rewrite Hf1, Hf, Hl. unfold smodify. eexists. split; [done|]. by simpl.
Qed.

End paths.

(** ** Each operation without faults *)

Section operations.
Context `{PrimitivesOk} `{!SqliteFile} `{!SqliteFileOk} `{!Tempfile} `{!TempfileOk} `{!Json BackupManifest} `{!JsonOk BackupManifest}.
Context (w0 : World).

Lemma runs_tick st : runs w0 (syscall (λ s, Some (tt, s))) st tt st.
Proof. by apply runs_syscall. Qed.

Lemma runs_read st p c : st.2 !! p = Some c → runs w0 (read_file p) st c st.
Proof. intros Hc. apply runs_syscall. by rewrite Hc. Qed.

Lemma runs_sync st p : is_Some (st.1 !! p) → runs w0 (open_and_sync p) st tt st.
Proof. intros [md Hm]. apply runs_syscall. by rewrite Hm. Qed.

Lemma runs_sync_parent st p : creatable st.1 p → runs w0 (sync_parent p) st tt st.
Proof.
  intros (dir & Hd & Hs)%creatable_dir. eapply runs_bind; [apply runs_lift; by rewrite Hd|]. by apply runs_sync.
Qed.

Lemma runs_write st p old new :
  st.2 !! p = Some old → runs w0 (write_file p new) st tt (st.1, <[p := new]> st.2).
Proof. destruct st as [fs files]. intros Ho. simpl in *. apply runs_syscall. by rewrite Ho. Qed.

Lemma runs_checksum_loop st fuel rest digest n :
  (length rest ≤ fuel)%nat → 0 ≤ n → n + lenZ rest ≤ u64_max →
  runs w0 (checksum_loop fuel rest digest n) st (digest ++ rest, n + lenZ rest) st.
Proof.
  revert rest digest n. induction fuel as [|fuel IH]; intros rest digest n Hl Hn Hb; cbn [checksum_loop];
    (eapply runs_bind; [apply runs_tick|]); rewrite takeZ_take.
  - destruct rest; [|simpl in Hl; lia]. rewrite take_nil. rewrite bool_decide_eq_true_2, app_nil_r by done.
    unfold lenZ. simpl. rewrite Z.add_0_r. apply runs_ret.
  - case_bool_decide as Hb'.
    + destruct rest; [|by apply take_nil_inv in Hb' as [?|?]]. rewrite app_nil_r. unfold lenZ. simpl.
      rewrite Z.add_0_r. apply runs_ret.
    + rewrite dropZ_drop. set (k := Z.to_nat (64 * 1024)) in *. assert (0 < k)%nat by lia. clearbody k. destruct rest as [|b rest]; [by rewrite take_nil in Hb'|].
      assert (lenZ (b :: rest) = lenZ (take k (b :: rest)) + lenZ (drop k (b :: rest))) as Hlen
        by (rewrite <-lenZ_app, take_drop; done).
      pose proof (lenZ_nonneg (drop k (b :: rest))).
      eapply runs_bind.
      { apply runs_lift, ok_or_ok, u64_checked_add_some. split; [done|lia]. }
      rewrite Hlen, Z.add_assoc.
      replace (digest ++ b :: rest) with ((digest ++ take k (b :: rest)) ++ drop k (b :: rest))
        by (by rewrite <-(assoc_L (++)), take_drop).
      apply IH.
      * rewrite length_drop. cbn [length] in *. lia.
      * pose proof (lenZ_nonneg (take k (b :: rest))). lia.
      * lia.
Qed.

(** The checksum of a file's contents, in lowercase hexadecimal. *)
Lemma runs_checksum st p c :
  st.2 !! p = Some c → lenZ c ≤ u64_max →
  runs w0 (checksum_file p) st (hex_encode (sha256 c), lenZ c) st.
Proof.
  intros Hc Hl. eapply runs_bind; [by apply runs_read|].
  eapply runs_bind; [by apply (runs_checksum_loop _ _ c [] 0)|]. apply runs_ret.
Qed.

(** A database that passes the structural checks, and its identifier. *)
Definition sound_db (db : Db) (vid : VaultId) : Prop :=
  Storage.foreign_key_violation db = false ∧ ∃ row, db_meta db = Some row ∧ from_slice (mr_vault_id row) = Ok vid.

Lemma runs_verify_snapshot st p c db vid :
  st.2 !! p = Some c → load c = Some (db, true) → sound_db db vid →
  runs w0 (verify_snapshot_database p) st vid st.
Proof.
  intros Hc Hl (Hf & row & Hm & Hv). eapply runs_bind; [by apply runs_read|]. eapply runs_bind; [apply runs_tick|].
  eapply runs_bind; [apply runs_lift; by rewrite Hl|]. simpl. eapply runs_bind; [apply runs_tick|]. rewrite Hf.
  eapply runs_bind; [apply runs_ret|]. eapply runs_bind; [apply runs_tick|].
  eapply runs_bind; [apply runs_lift; by rewrite Hm|]. by apply runs_lift.
Qed.

Lemma runs_publish st tmp d md c :
  st.1 !! tmp = Some md → st.2 !! tmp = Some c → st.1 !! d = None → creatable st.1 d → file_type md = FRegular →
  runs w0 (publish_new_file tmp d) st tt (<[d := md]> st.1, <[d := c]> st.2).
Proof.
  destruct st as [fs files]. simpl. intros Hm Hc Hd Hcr Ht. eapply runs_bind.
  - apply runs_syscall. simpl. by rewrite Hm, Hc, Hd.
  - apply runs_sync_parent. simpl. eapply creatable_mono; [|done]. intros d' Hd'.
    rewrite lookup_insert_ne; [done|]. intros <-. by rewrite Hd in Hd'.
Qed.

(** *** Temporary files *)

Lemma runs_gets {A B} (f : World * Files → A) (k : A → BIO B) st b st' :
  (∀ s, at_files w0 st s → runs w0 (k (f s)) st b st') → runs w0 (sbind (sgets f) k) st b st'.
Proof. intros Hk s Hs. by apply Hk. Qed.

Lemma runs_with_temporary {A} tmp (m : BIO A) st a st' :
  runs w0 m st a st' → is_Some (st'.1 !! tmp) →
  runs w0 (with_temporary tmp m) st a (delete tmp st'.1, delete tmp st'.2).
Proof.
  intros Hm [md Hl] s Hs. destruct (Hm s Hs) as (s1 & E & Hs1). unfold with_temporary. rewrite E.
  assert (runs w0 (remove_file tmp) st' tt (delete tmp st'.1, delete tmp st'.2)) as Hr.
  { destruct st' as [fs files]. apply runs_syscall. simpl in *. by rewrite Hl. }
  destruct (Hr s1 Hs1) as (s2 & -> & Hs2). by exists s2.
Qed.

(** Contents belong to existing files. *)
Definition files_wf (st : Fs * Files) : Prop := ∀ p, st.1 !! p = None → st.2 !! p = None.

Lemma files_wf_insert st p md c : files_wf st → files_wf (<[p := md]> st.1, <[p := c]> st.2).
Proof. intros Hw q Hq. simpl in *. apply lookup_insert_None in Hq as [Hq Hn]. rewrite lookup_insert_ne by done. auto. Qed.

Lemma temp_ne dir fs p : not_temporary p → temp_path dir fs ≠ p.
Proof. intros Hp <-. destruct (temp_name dir fs) as [s Hs]. apply (Hp s). rewrite Hs. apply last_snoc. Qed.

Definition private_meta : Metadata := mkMeta FRegular 0x180.

Lemma runs_create_temporary st d dir :
  creatable st.1 d → parent d = Some dir → st.1 !! d = None →
  runs w0 (create_temporary_file d) st (temp_path dir st.1)
    (<[temp_path dir st.1 := private_meta]> st.1, <[temp_path dir st.1 := []]> st.2).
Proof.
  intros Hc Hd Hn. eapply runs_bind; [by apply runs_new|].
  eapply runs_bind; [apply runs_lift; by rewrite Hd|]. destruct st. by apply runs_syscall.
Qed.

Lemma creatable_insert fs p q md : fs !! q = None → creatable fs p → creatable (<[q := md]> fs) p.
Proof.
  intros Hq. apply creatable_mono. intros d Hd. rewrite lookup_insert_ne; [done|]. intros <-. by rewrite Hq in Hd.
Qed.

Lemma creatable_update fs p q md :
  file_type <$> fs !! q = Some (file_type md) → creatable fs p → creatable (<[q := md]> fs) p.
Proof.
  intros Hq. apply creatable_mono. intros d Hd. rewrite lookup_insert. case_decide; [|done]. subst.
  simpl. by rewrite <-Hq, Hd.
Qed.

Definition manifest_meta : Metadata := mkMeta FRegular (Z.land 0x180 (env_create_mode (w_env w0))).

Lemma runs_write_new_file st p c :
  creatable st.1 p → st.1 !! p = None →
  runs w0 (write_new_file p c) st tt (<[p := manifest_meta]> st.1, <[p := c]> st.2).
Proof.
  intros Hc Hn. apply runs_gets. intros s (_ & _ & _ & Hm & _ & _). rewrite Hm. destruct st as [fs files]. simpl in *.
  eapply runs_bind; [apply runs_syscall; simpl; by rewrite Hn|].
  eapply runs_bind; [eapply runs_write; simpl; apply lookup_insert_eq|]. simpl. rewrite insert_insert_eq.
  eapply runs_bind; [apply runs_tick|]. apply runs_sync_parent. by apply creatable_insert.
Qed.

(** *** Snapshot and restore *)

(** The manifest of a snapshot with contents [c]. *)
Definition manifest_of (vid : VaultId) (c : bytes) : BackupManifest :=
  mkBackup BACKUP_FORMAT (to_hex vid) (hex_encode (sha256 c)) (lenZ c).

Lemma manifest_of_valid vid c : wf_id vid → validate (manifest_of vid c) = Ok tt.
Proof.
  intros [Hl Hw]. unfold validate, manifest_of, to_hex. cbn [bm_format bm_vault_id bm_database_sha256].
  rewrite bool_decide_eq_true_2 by done.
  rewrite (is_lower_hex_encode (as_bytes vid)) by done.
  rewrite hex_encode_eq by apply sha256_wf. by rewrite (is_lower_hex_encode (sha256 c)) by (apply sha256_wf || apply sha256_length).
Qed.

Lemma runs_create_snapshot st vid d json :
  files_wf st → creatable st.1 d → st.1 !! d = None → st.1 !! manifest_path d = None →
  not_temporary d → not_temporary (manifest_path d) →
  w_integrity_ok w0 = true → sound_db (w_db w0) vid → lenZ (image (w_db w0) true) ≤ u64_max →
  json_to_vec (manifest_of vid (image (w_db w0) true)) = Some json →
  runs w0 (create_snapshot vid d) st (manifest_of vid (image (w_db w0) true))
    (<[manifest_path d := manifest_meta]> (<[d := private_meta]> st.1),
     <[manifest_path d := json]> (<[d := image (w_db w0) true]> st.2)).
Proof.
  intros Hwf Hc Hd Hm Htd Htm Hi Hs Hsz Hj. set (img := image (w_db w0) true) in *. set (m := manifest_of vid img) in *.
  pose proof Hc as (dir & Hp & _). pose proof (manifest_path_ne d) as Hne.
  assert (creatable st.1 (manifest_path d)) as Hcm.
  { destruct Hc as (dir' & Hp' & Hrest). exists dir'. split; [|done]. rewrite manifest_path_parent; eauto. }
  pose proof (temp_new dir st.1) as Ht. pose proof (temp_ne dir st.1 _ Htd) as Hn1. pose proof (temp_ne dir st.1 _ Htm) as Hn2.
  eapply runs_bind; [by apply runs_new|]. eapply runs_bind; [by apply runs_create_temporary|]. cbn beta.
  set (tmp := temp_path dir st.1) in *. pose proof (Hwf tmp Ht) as Htf. destruct st as [fs files]. cbn [fst snd] in *.
  set (st' := (<[manifest_path d := manifest_meta]> (<[d := private_meta]> (<[tmp := private_meta]> fs)),
               <[manifest_path d := json]> (<[d := img]> (<[tmp := img]> files)))).
  assert ((<[manifest_path d := manifest_meta]> (<[d := private_meta]> fs), <[manifest_path d := json]> (<[d := img]> files)) =
    (delete tmp st'.1, delete tmp st'.2)) as ->.
  { unfold st'. apply f_equal2; cbn [fst snd]; rewrite !delete_insert_ne by done; by rewrite delete_insert_id. }
  apply runs_with_temporary.
  2: { unfold st'. cbn [fst]. rewrite !lookup_insert_ne by done. by rewrite lookup_insert_eq. }
  apply runs_gets. intros s (Ew & Ei & _). rewrite Ew, Ei, Hi. fold img.
  eapply runs_bind; [eapply runs_write; apply lookup_insert_eq|]. cbn [fst snd]. rewrite insert_insert_eq.
  eapply runs_bind; [apply runs_sync; simpl; by rewrite lookup_insert_eq|].
  eapply runs_bind; [eapply runs_verify_snapshot; [apply lookup_insert_eq|apply load_image|done]|].
  rewrite bool_decide_eq_true_2 by done. cbn [negb].
  eapply runs_bind; [eapply runs_chmod; apply lookup_insert_eq|]. cbn [fst snd]. rewrite insert_insert_eq.
  eapply runs_bind.
  { eapply runs_publish; [apply lookup_insert_eq|apply lookup_insert_eq|simpl; by rewrite lookup_insert_ne|by apply creatable_insert|done]. }
  cbn [fst snd]. fold private_meta.
  eapply runs_bind; [eapply runs_bind; [eapply runs_checksum; [apply lookup_insert_eq|done]|apply runs_ret]|].
  change (mkBackup _ _ _ _) with m.
  assert (creatable (<[d := private_meta]> (<[tmp := private_meta]> fs)) (manifest_path d)) as Hcm'.
  { apply creatable_insert; [by rewrite lookup_insert_ne|]. by apply creatable_insert. }
  assert ((<[d := private_meta]> (<[tmp := private_meta]> fs)) !! manifest_path d = None) as Hm' by (by rewrite !lookup_insert_ne).
  eapply runs_bind; [by apply runs_new|].
  eapply runs_bind; [|apply runs_ret]. eapply runs_bind; [apply runs_lift; by rewrite Hj|]. by apply runs_write_new_file.
Qed.

Lemma runs_restore_snapshot st vid b d md c db :
  files_wf st → creatable st.1 b → st.1 !! b = Some md → file_type md = FRegular → st.2 !! b = Some c → lenZ c ≤ u64_max →
  load c = Some (db, true) → sound_db db vid → wf_id vid →
  creatable st.1 d → st.1 !! d = None → not_temporary d →
  runs w0 (restore_snapshot b (manifest_of vid c) d) st tt (<[d := private_meta]> st.1, <[d := image db true]> st.2).
Proof.
  intros Hwf Hcb Hb Hr Hbc Hlen Hl Hs Hid Hc Hd Htd. set (img := image db true) in *.
  pose proof Hc as (dir & Hp & _). pose proof (temp_new dir st.1) as Ht. pose proof (temp_ne dir st.1 _ Htd) as Hn.
  eapply runs_bind.
  { eapply runs_bind; [by apply runs_lift, manifest_of_valid|]. eapply runs_bind; [by eapply runs_existing|].
    eapply runs_bind; [by eapply runs_checksum|]. cbn [bm_database_bytes bm_database_sha256 manifest_of].
    rewrite Z.eqb_refl, bool_decide_eq_true_2 by done. cbn [negb orb].
    eapply runs_bind; [by eapply runs_verify_snapshot|]. cbn [bm_vault_id manifest_of].
    rewrite bool_decide_eq_true_2 by done. apply runs_ret. }
  eapply runs_bind; [by apply runs_new|]. eapply runs_bind; [by apply runs_create_temporary|]. cbn beta.
  set (tmp := temp_path dir st.1) in *. pose proof (Hwf tmp Ht) as Htf.
  assert (tmp ≠ b) as Hnb by (intros <-; congruence). destruct st as [fs files]. cbn [fst snd] in *.
  set (st' := (<[d := private_meta]> (<[tmp := private_meta]> fs), <[d := img]> (<[tmp := img]> files))).
  assert ((<[d := private_meta]> fs, <[d := img]> files) = (delete tmp st'.1, delete tmp st'.2)) as ->.
  { unfold st'. apply f_equal2; cbn [fst snd]; rewrite !delete_insert_ne by done; by rewrite delete_insert_id. }
  apply runs_with_temporary.
  2: { unfold st'. cbn [fst]. rewrite !lookup_insert_ne by done. by rewrite lookup_insert_eq. }
  eapply runs_bind; [apply runs_read; cbn [snd]; by rewrite lookup_insert_ne|].
  eapply runs_bind; [apply runs_lift; by rewrite Hl|]. cbn beta iota.
  eapply runs_bind; [eapply runs_write; apply lookup_insert_eq|]. cbn [fst snd]. rewrite insert_insert_eq. fold img.
  eapply runs_bind; [apply runs_sync; simpl; by rewrite lookup_insert_eq|].
  eapply runs_bind; [eapply runs_verify_snapshot; [apply lookup_insert_eq|apply load_image|done]|].
  eapply runs_bind; [eapply runs_chmod; apply lookup_insert_eq|]. cbn [fst snd]. rewrite insert_insert_eq.
  apply (runs_publish (_, _)); [apply lookup_insert_eq|apply lookup_insert_eq|simpl; by rewrite lookup_insert_ne|by apply creatable_insert|done].
Qed.

Lemma runs_read_from st p m json md :
  creatable st.1 p → st.1 !! p = Some md → file_type md = FRegular → st.2 !! p = Some json →
  json_to_vec m = Some json → validate m = Ok tt → runs w0 (read_from p) st m st.
Proof.
  intros Hc Hm Ht Hj Hv Hok. eapply runs_bind; [by eapply runs_existing|]. eapply runs_bind; [by apply runs_read|].
  eapply runs_bind; [apply runs_lift; by rewrite (json_roundtrip _ _ Hv)|].
  eapply runs_bind; [by apply runs_lift|]. apply runs_ret.
Qed.

End operations.

(** ** Frames under any faults *)

Definition fs_of (s : World * Files) : Fs := env_fs (w_env s.1).

(** Only the tables' surroundings and the files in [P] may differ. *)
Definition frame (P : Path → Prop) (s s' : World * Files) : Prop :=
  w_db s'.1 = w_db s.1 ∧ w_integrity_ok s'.1 = w_integrity_ok s.1 ∧ w_rng s'.1 = w_rng s.1 ∧
  ∀ p, ¬ P p → fs_of s' !! p = fs_of s !! p ∧ s'.2 !! p = s.2 !! p.

Definition preserves {A} (P : Path → Prop) (m : BIO A) : Prop := ∀ s r s', m s = (r, s') → frame P s s'.

Definition nothing (_ : Path) : Prop := False.

#[global] Instance frame_preorder P : PreOrder (frame P).
Proof.
  split; [by intros s|]. intros s1 s2 s3 (?&?&?&F1) (?&?&?&F2). split_and!; [congruence..|].
  intros p Hp. destruct (F2 p Hp) as [-> ->], (F1 p Hp) as [-> ->]. done.
Qed.

Lemma frame_mono (P Q : Path → Prop) s s' : (∀ p, P p → Q p) → frame P s s' → frame Q s s'.
Proof. intros HPQ (?&?&?&F). split_and!; try done. intros p Hp. apply F. auto. Qed.

Lemma frame_nothing_eq s s' : frame nothing s s' → fs_of s' = fs_of s ∧ s'.2 = s.2.
Proof. intros (_&_&_&F). split; apply map_eq; intros p; by destruct (F p (λ f, f)) as [? ?]. Qed.

Section preserves.
Context (P : Path → Prop).

Lemma preserves_bind {A B} (m : BIO A) (k : A → BIO B) : preserves P m → (∀ a, preserves P (k a)) → preserves P (sbind m k).
Proof.
  intros Hm Hk s r s' E. unfold sbind in E. destruct (m s) as [[a|e] s1] eqn:E1.
  - etrans; [by eapply Hm|by eapply Hk].
  - injection E as <- <-. by eapply Hm.
Qed.

Lemma preserves_ret {A} (a : A) : preserves P (sret a).
Proof. by intros s r s' [= <- <-]. Qed.
Lemma preserves_throw {A} e : preserves P (sthrow (A:=A) e).
Proof. by intros s r s' [= <- <-]. Qed.
Lemma preserves_lift {A} (r : Result A) : preserves P (slift r).
Proof. by intros s r' s' [= <- <-]. Qed.
Lemma preserves_gets {A} (f : World * Files → A) : preserves P (sgets f).
Proof. by intros s r' s' [= <- <-]. Qed.

Lemma syscall_cases {A} (f : Fs * Files → option (A * (Fs * Files))) s r s' :
  syscall f s = (r, s') →
  w_db s'.1 = w_db s.1 ∧ w_integrity_ok s'.1 = w_integrity_ok s.1 ∧ w_rng s'.1 = w_rng s.1 ∧
  ((r = Err Storage ∧ fs_of s' = fs_of s ∧ s'.2 = s.2) ∨ ∃ a, r = Ok a ∧ f (fs_of s, s.2) = Some (a, (fs_of s', s'.2))).
Proof.
  destruct s as [w files]. unfold syscall, sbind, in_fs, in_world, in_env, szoom, io_fault, fs_of. simpl.
  destruct (env_faults _ _); [by intros [= <- <-]; split_and!; try done; left|].
  cbn [w_env env_fs set_env]. destruct (f (env_fs (w_env w), files)) as [[a [fs' files']]|] eqn:E.
  - intros [= <- <-]. split_and!; try done. right. by exists a.
  - intros [= <- <-]. split_and!; try done. by left.
Qed.

Lemma preserves_syscall {A} (f : Fs * Files → option (A * (Fs * Files))) :
  (∀ st a st', f st = Some (a, st') → ∀ p, ¬ P p → st'.1 !! p = st.1 !! p ∧ st'.2 !! p = st.2 !! p) →
  preserves P (syscall f).
Proof.
  intros Hf s r s' (?&?&?&[(_ & Ef & Ex)|(a & _ & E)])%syscall_cases; split_and!; try done; intros p Hp.
  - by rewrite Ef, Ex.
  - by apply (Hf _ _ _ E).
Qed.

Lemma preserves_env {A} (m : M Env VaultError A) :
  (∀ e r e', m e = (r, e') → ∀ p, ¬ P p → env_fs e' !! p = env_fs e !! p) → preserves P (in_fs m).
Proof.
  intros Hm [w files] r s' E. unfold in_fs, in_world, in_env, szoom in E. simpl in E.
  destruct (m (w_env w)) as [r1 e'] eqn:E1. injection E as <- <-. split_and!; try done.
  intros p Hp. split; [|done]. by apply (Hm _ _ _ E1).
Qed.

End preserves.

#[local] Hint Resolve preserves_ret preserves_throw preserves_lift preserves_gets : vlt.

Lemma validate_directories_fs dirs input e r e' :
  PathSafety.validate_directories dirs input e = (r, e') → env_fs e' = env_fs e.
Proof.
  revert e. induction dirs as [|d dirs IH]; intros e; simpl; [by intros [= _ <-]|]. unfold sbind, smap_err.
  destruct (symlink_metadata d e) as [[md|k] e1] eqn:E; apply symlink_metadata_fs in E; [|by intros [= _ <-]].
  destruct (_ || _); [by intros [= _ <-]|]. intros E2%IH. congruence.
Qed.

Lemma validate_parent_fs p input e r e' :
  PathSafety.validate_parent_directory p input e = (r, e') → env_fs e' = env_fs e.
Proof.
  unfold PathSafety.validate_parent_directory, sbind, slift. destruct (parent p); simpl; [|by intros [= _ <-]].
  apply validate_directories_fs.
Qed.

Lemma validate_new_fs p input e r e' :
  PathSafety.validate_new_regular_file p input e = (r, e') →
  env_fs e' = env_fs e ∧ (r = Ok tt → env_fs e !! p = None).
Proof.
  unfold PathSafety.validate_new_regular_file, sbind.
  destruct (PathSafety.validate_parent_directory p input e) as [[[]|] e1] eqn:E; pose proof (validate_parent_fs _ _ _ _ _ E) as E1.
  2: { intros [= <- <-]. done. }
  intros Hm. destruct (symlink_metadata p e1) as [[md|k] e2] eqn:E2; pose proof (symlink_metadata_fs _ _ _ _ E2) as Ef.
  - injection Hm as <- <-. split; [congruence|done].
  - assert (e' = e2 ∧ (r = Ok tt → k = IoNotFound)) as [-> Hk] by (destruct k; by injection Hm as <- <-).
    split; [congruence|]. intros ->%Hk. revert E2. unfold symlink_metadata, sbind. simpl.
    destruct (env_faults _ _); [done|]. destruct (path_is_empty p) eqn:Hp.
    + intros _. revert E. unfold PathSafety.validate_parent_directory, sbind, slift, parent.
      unfold path_is_empty in Hp. apply andb_true_iff in Hp as [_ Hc]. by rewrite (bool_decide_eq_true_1 _ Hc).
    + unfold slift, sgets. simpl. destruct (env_fs e1 !! p) eqn:El; [done|]. intros _. congruence.
Qed.

Lemma validate_existing_fs p input e r e' :
  PathSafety.validate_existing_regular_file p input e = (r, e') →
  env_fs e' = env_fs e ∧ (r = Ok tt → is_Some (env_fs e !! p)).
Proof.
  unfold PathSafety.validate_existing_regular_file, sbind, smap_err.
  destruct (PathSafety.validate_parent_directory p input e) as [[[]|] e1] eqn:E; apply validate_parent_fs in E; [|by intros [= <- <-]].
  destruct (symlink_metadata p e1) as [[md|k] e2] eqn:E2.
  - apply symlink_metadata_ok in E2 as [Ef El]. rewrite E in El. destruct (_ || _); intros [= <- <-]; (split; [congruence|]); eauto.
  - apply symlink_metadata_fs in E2. intros [= <- <-]. split; [congruence|done].
Qed.

Section effects.
Context `{PrimitivesOk} `{!SqliteFile} `{!SqliteFileOk} `{!Tempfile} `{!TempfileOk} `{!Json BackupManifest} `{!JsonOk BackupManifest}.

Lemma preserves_mono {A} (P Q : Path → Prop) (m : BIO A) : (∀ p, P p → Q p) → preserves P m → preserves Q m.
Proof. intros HPQ Hm s r s' E. eapply frame_mono; [done|]. by eapply Hm. Qed.

Lemma preserves_read P p : preserves P (read_file p).
Proof. apply preserves_syscall. intros st a st' E q _. destruct (st.2 !! p); [|done]. by injection E as <- <-. Qed.

Lemma preserves_tick P : preserves P (syscall (λ s, Some (tt, s))).
Proof. apply preserves_syscall. by intros st a st' [= <- <-]. Qed.

Lemma preserves_open_and_sync P p : preserves P (open_and_sync p).
Proof. apply preserves_syscall. intros st a st' E q _. destruct (st.1 !! p); [|done]. by injection E as <- <-. Qed.

Lemma preserves_write (P : Path → Prop) p c : P p → preserves P (write_file p c).
Proof.
  intros Hp. apply preserves_syscall. intros [fs files] a st' E q Hq. destruct (files !! p); [|done]. injection E as <- <-. simpl.
  rewrite lookup_insert_ne; [done|]. by intros ->.
Qed.

Lemma preserves_create_new (P : Path → Prop) p m : P p → preserves P (create_new p m).
Proof.
  intros Hp. apply preserves_syscall. intros [fs files] a st' E q Hq. destruct (fs !! p); [done|]. injection E as <- <-. simpl.
  rewrite !lookup_insert_ne; [done|by intros ->..].
Qed.

Lemma preserves_hard_link (P : Path → Prop) p d : P d → preserves P (hard_link p d).
Proof.
  intros Hp. apply preserves_syscall. intros [fs files] a st' E q Hq. destruct (fs !! p); [|done]. simpl in E.
  destruct (files !! p); [|done]. simpl in E. destruct (fs !! d); [done|]. injection E as <- <-. simpl.
  rewrite !lookup_insert_ne; [done|by intros ->..].
Qed.

Lemma preserves_remove (P : Path → Prop) p : P p → preserves P (remove_file p).
Proof.
  intros Hp. apply preserves_syscall. intros [fs files] a st' E q Hq. destruct (fs !! p); [|done]. injection E as <- <-. simpl.
  rewrite !lookup_delete_ne; [done|by intros ->..].
Qed.

Lemma preserves_chmod (P : Path → Prop) p m : P p → preserves P (in_fs (smap_err (λ _, Storage) (set_permissions p m))).
Proof.
  intros Hp. apply preserves_env. intros e r e' E q Hq. unfold smap_err, set_permissions, sbind in E. simpl in E.
  destruct (env_faults _ _); [by injection E as _ <-|]. unfold sgets in E. simpl in E.
  destruct (env_fs e !! p) as [md|]; injection E as _ <-; [|done]. simpl. rewrite lookup_insert_ne; [done|by intros ->].
Qed.

Lemma preserves_new P p input : preserves P (in_fs (PathSafety.validate_new_regular_file p input)).
Proof. apply preserves_env. intros e r e' [-> _]%validate_new_fs. done. Qed.

Lemma preserves_existing P p input : preserves P (in_fs (PathSafety.validate_existing_regular_file p input)).
Proof. apply preserves_env. intros e r e' [-> _]%validate_existing_fs. done. Qed.

#[local] Hint Resolve preserves_read preserves_tick preserves_open_and_sync preserves_write preserves_create_new preserves_hard_link preserves_remove
  preserves_chmod preserves_new preserves_existing : vlt.

Ltac preserves_tac := repeat first [solve [eauto with vlt] | apply preserves_bind; [|intros ?] | case_match].

Lemma preserves_checksum P p : preserves P (checksum_file p).
Proof.
  apply preserves_bind; [auto with vlt|]. intros c. apply preserves_bind; [|intros []; auto with vlt].
  assert (∀ fuel rest digest n, preserves P (checksum_loop fuel rest digest n)) as Hloop; [|auto].
  induction fuel as [|fuel IH]; intros; cbn [checksum_loop]; preserves_tac.
Qed.

Lemma preserves_verify_snapshot P p : preserves P (verify_snapshot_database p).
Proof. unfold verify_snapshot_database. preserves_tac. Qed.

#[local] Hint Resolve preserves_checksum preserves_verify_snapshot : vlt.

Lemma preserves_verify_backup P m p : preserves P (verify_backup m p).
Proof. unfold verify_backup. preserves_tac. Qed.

Lemma preserves_sync_parent P p : preserves P (sync_parent p).
Proof. unfold sync_parent. preserves_tac. Qed.

Lemma preserves_write_to (P : Path → Prop) m p : P p → preserves P (write_to m p).
Proof. intros Hp. unfold write_to, write_new_file, sync_parent. preserves_tac. Qed.

#[local] Hint Resolve preserves_verify_backup preserves_sync_parent preserves_write_to : vlt.

Lemma preserves_with_temporary (P : Path → Prop) {A} tmp (m : BIO A) : P tmp → preserves P m → preserves P (with_temporary tmp m).
Proof.
  intros Hp Hm s r s' E. unfold with_temporary in E. destruct (m s) as [r1 s1] eqn:E1. injection E as <- <-.
  etrans; [by eapply Hm|]. destruct (remove_file tmp s1) as [r2 s2] eqn:E2. by eapply (preserves_remove P tmp Hp).
Qed.

(** A backup touches no table. *)
Lemma preserves_create_backup vid d : preserves (λ _, True) (create_backup vid d).
Proof.
  unfold create_backup, create_snapshot, ensure_new_destination, create_temporary_file, new_in, connection_backup, sync_file,
    publish_new_file, from_snapshot.
  apply preserves_bind; [auto with vlt|intros []]. apply preserves_bind.
  { apply preserves_bind; [auto with vlt|intros []]. apply preserves_bind; [auto with vlt|intros q]. apply preserves_syscall. naive_solver. }
  intros tmp. apply preserves_with_temporary; [done|]. preserves_tac.
Qed.

(** *** What a success says *)

Lemma read_file_ok p s c s' : read_file p s = (Ok c, s') → s.2 !! p = Some c.
Proof.
  intros (_&_&_&[(? & _)|(a & [= <-] & E)])%syscall_cases; [done|]. simpl in E. destruct (s.2 !! p); [|done].
  by injection E as <- _ _.
Qed.

(** The contents are the same after a computation that preserves everything. *)
Lemma preserves_nothing_files {A} (m : BIO A) s r s' : preserves nothing m → m s = (r, s') → fs_of s' = fs_of s ∧ s'.2 = s.2.
Proof. intros Hm E. apply frame_nothing_eq. by eapply Hm. Qed.

Lemma checksum_loop_ok fuel rest digest n s d n' s' :
  (length rest ≤ fuel)%nat → checksum_loop fuel rest digest n s = (Ok (d, n'), s') → d = digest ++ rest ∧ n' = n + lenZ rest.
Proof.
  revert rest digest n s. induction fuel as [|fuel IH]; intros rest digest n s Hl E; cbn [checksum_loop] in E;
    sbind_step E; rewrite takeZ_take in E; case_bool_decide as Hb.
  1, 3: injection E as <- <- _; apply take_nil_inv in Hb as [? | ->]; [lia|]; rewrite app_nil_r; unfold lenZ; simpl; split; [done|lia].
  - done.
  - sbind_step E. rewrite dropZ_drop in E. set (k := Z.to_nat (64 * 1024)) in *. assert (0 < k)%nat by lia. clearbody k.
    destruct rest as [|b rest]; [by rewrite take_nil in Hb|]. injection E1 as E1 _.
    apply ok_or_ok, u64_checked_add_some in E1 as [-> _]. apply IH in E as [-> ->]; [|rewrite length_drop; cbn [length] in *; lia].
    rewrite <-(assoc_L (++)), take_drop. split; [done|]. rewrite <-Z.add_assoc, <-lenZ_app, take_drop. done.
Qed.

Lemma checksum_ok p s sha n s' :
  checksum_file p s = (Ok (sha, n), s') → ∃ c, s.2 !! p = Some c ∧ sha = hex_encode (sha256 c) ∧ n = lenZ c.
Proof.
  intros E. unfold checksum_file in E. do 2 sbind_step E. destruct a0 as [d n']. injection E as <- <- _.
  apply read_file_ok in E0. apply checksum_loop_ok in E1 as [-> ->]; [|done]. by exists a.
Qed.

Lemma verify_snapshot_ok p s vid s' :
  verify_snapshot_database p s = (Ok vid, s') →
  ∃ c db, s.2 !! p = Some c ∧ load c = Some (db, true) ∧ sound_db db vid.
Proof.
  intros E. unfold verify_snapshot_database in E. do 3 sbind_step E. apply read_file_ok in E0. exists a.
  destruct a1 as [db ok]. injection E2 as E2 _. apply ok_or_ok in E2. destruct ok; [|done]. cbn [negb] in E.
  do 4 sbind_step E. destruct (Storage.foreign_key_violation db) eqn:Ef; [done|]. injection E6 as E6 _.
  apply ok_or_ok in E6. injection E as E _. exists db. split_and!; [done|done|]. split; [done|]. by exists a4.
Qed.

Lemma existing_ok p input s a s' :
  in_fs (PathSafety.validate_existing_regular_file p input) s = (Ok a, s') → is_Some (fs_of s !! p).
Proof.
  destruct s as [w files], a. unfold in_fs, in_world, in_env, szoom. simpl.
  destruct (PathSafety.validate_existing_regular_file p input (w_env w)) as [r e'] eqn:E. intros [= -> _].
  apply validate_existing_fs in E as [_ ?]. auto.
Qed.

(** A manifest that verifies is the manifest of the file's contents. *)
Lemma verify_backup_ok m b s s' :
  verify_backup m b s = (Ok tt, s') →
  is_Some (fs_of s !! b) ∧
  ∃ c db vid, s.2 !! b = Some c ∧ m = manifest_of vid c ∧ load c = Some (db, true) ∧ sound_db db vid.
Proof.
  intros E. unfold verify_backup in E. do 3 sbind_step E. destruct a1 as [sha n]. apply pair_equal_spec in E0 as [E0 <-].
  split; [by eapply existing_ok|].
  destruct (negb (n =? _) || _) eqn:Ec; [done|]. apply orb_false_iff in Ec as [Ec1 Ec2].
  apply negb_false_iff in Ec1, Ec2. apply Z.eqb_eq in Ec1. apply bool_decide_eq_true in Ec2.
  sbind_step E. destruct (negb _) eqn:Ev in E; [done|]. apply negb_false_iff, bool_decide_eq_true in Ev.
  apply (preserves_nothing_files _ _ _ _ (preserves_existing _ _ _)) in E1 as [_ Ex1].
  pose proof E2 as Ek. apply (preserves_nothing_files _ _ _ _ (preserves_checksum _ _)) in Ek as [_ Ex2].
  apply checksum_ok in E2 as (c & Hc & -> & ->). apply verify_snapshot_ok in E3 as (c' & db & Hc' & Hl & Hs).
  rewrite Ex2, Ex1 in Hc'. rewrite Ex1 in Hc. assert (c' = c) as -> by congruence.
  exists c, db, a1. split_and!; try done. destruct m as [f v h k]. unfold manifest_of. simpl in *. subst.
  unfold validate in E0. simpl in E0. case_bool_decide; [congruence|done].
Qed.

Lemma publish_file_cases tmp d s r s' :
  publish_new_file tmp d s = (r, s') →
  (r ≠ Ok tt ∧ frame nothing s s') ∨
  ∃ md c, fs_of s !! tmp = Some md ∧ s.2 !! tmp = Some c ∧ fs_of s !! d = None ∧ frame (eq d) s s' ∧
    fs_of s' !! d = Some md ∧ s'.2 !! d = Some c.
Proof.
  unfold publish_new_file, sbind. destruct (hard_link tmp d s) as [[[]|] s1] eqn:E1.
  2: { intros [= <- <-]. left. split; [done|]. apply syscall_cases in E1 as (?&?&?&[(_ & Ef & Ex)|(a & ? & _)]); [|done].
       split_and!; try done. by rewrite Ef, Ex. }
  intros E2. right. pose proof (preserves_sync_parent (eq d) d _ _ _ E2) as F2.
  apply (preserves_nothing_files _ _ _ _ (preserves_sync_parent _ _)) in E2 as [Ef Ex].
  pose proof (preserves_hard_link (eq d) tmp d eq_refl _ _ _ E1) as F1.
  apply syscall_cases in E1 as (?&?&?&[(? & _)|(a & _ & E)]); [done|]. simpl in E.
  destruct (fs_of s !! tmp) as [md|]; [|done]. simpl in E. destruct (s.2 !! tmp) as [c|]; [|done]. simpl in E.
  destruct (fs_of s !! d) eqn:Hd; [done|]. injection E as _ Ef1 Ex1. exists md, c. split_and!; try done.
  - by etrans.
  - rewrite Ef, <-Ef1. apply lookup_insert_eq.
  - rewrite Ex, <-Ex1. apply lookup_insert_eq.
Qed.

(** One step of a computation: it failed, or the rest ran. *)
Lemma bind_cases {A B} P (m : BIO A) (k : A → BIO B) s r s' :
  preserves P m → sbind m k s = (r, s') →
  ((∀ b, r ≠ Ok b) ∧ frame P s s') ∨ ∃ a s1, m s = (Ok a, s1) ∧ frame P s s1 ∧ k a s1 = (r, s').
Proof.
  intros Hm E. unfold sbind in E. destruct (m s) as [[a|e] s1] eqn:E1; pose proof (Hm _ _ _ E1).
  - right. eauto.
  - left. injection E as <- <-. done.
Qed.

Lemma create_temporary_cases d s r s' :
  create_temporary_file d s = (r, s') →
  ((∀ p, r ≠ Ok p) ∧ frame nothing s s') ∨
  ∃ tmp, r = Ok tmp ∧ fs_of s !! tmp = None ∧ (∀ p, not_temporary p → tmp ≠ p) ∧ frame (eq tmp) s s' ∧
    fs_of s' !! tmp = Some private_meta.
Proof.
  intros E0. destruct (bind_cases nothing _ _ _ _ _ (preserves_new _ _ _) E0) as [?|(a & s1 & E1 & F1 & E3)]; [by left|].
  destruct (bind_cases nothing _ _ _ _ _ (preserves_lift _ _) E3) as [[? F2]|(dir & s2 & E2 & F2 & E)]; [left; split; [done|by etrans]|].
  injection E2 as E2 <-. pose proof (frame_nothing_eq _ _ F1) as [Ef Ex].
  pose proof E as Es. apply syscall_cases in Es as (Hd & Hi & Hr & [(-> & Ef' & Ex')|(p & -> & Es)]).
  - left. split; [done|]. etrans; [done|]. split_and!; try done. by rewrite Ef', Ex'.
  - right. simpl in Es. injection Es as <- Efs Exs. exists (temp_path dir (fs_of s1)).
    assert (fs_of s !! temp_path dir (fs_of s1) = None) as Hn by (rewrite <-Ef; apply temp_new).
    split_and!; [done|done|intros q; apply temp_ne| |by rewrite <-Efs, lookup_insert_eq].
    split_and!; [destruct F1 as (?&?&?&_); congruence..|]. intros q Hq.
    rewrite <-Efs, <-Exs, !lookup_insert_ne by done. by rewrite Ef, Ex.
Qed.

(** The file under a temporary name once its mode was set. *)
Lemma chmod_ok p m s s' :
  in_fs (smap_err (λ _, Storage) (set_permissions p m)) s = (Ok tt, s') →
  ∃ md, fs_of s !! p = Some md ∧ fs_of s' !! p = Some (mkMeta (file_type md) m) ∧ s'.2 = s.2.
Proof.
  destruct s as [w files]. unfold in_fs, in_world, in_env, szoom, smap_err, set_permissions, sbind, io_fault, fs_of. simpl.
  destruct (env_faults _ _); [done|]. unfold sgets. simpl. destruct (env_fs (w_env w) !! p) as [md|]; [|done].
  intros [= <-]. exists md. simpl. by rewrite lookup_insert_eq.
Qed.

Lemma write_file_ok p c s s' :
  write_file p c s = (Ok tt, s') → s'.2 !! p = Some c ∧ fs_of s' = fs_of s.
Proof.
  intros (_&_&_&[(? & _)|([] & _ & E)])%syscall_cases; [done|]. simpl in E. destruct (s.2 !! p); [|done].
  injection E as <- <-. by rewrite lookup_insert_eq.
Qed.

(** Removing the temporary file at the end changes nothing else. *)
Lemma with_temporary_frame {A} tmp (m : BIO A) s r s' :
  with_temporary tmp m s = (r, s') → ∃ s1, m s = (r, s1) ∧ frame (eq tmp) s1 s'.
Proof.
  unfold with_temporary. destruct (m s) as [r1 s1]. intros [= <- <-]. exists s1. split; [done|].
  eapply (preserves_remove (eq tmp) tmp eq_refl). apply surjective_pairing.
Qed.

(** Copying a database into the temporary file and checking the copy. *)
Lemma fill_cases {B} tmp db ok (rest : VaultId → BIO B) s r s' :
  (connection_backup db ok tmp ;* sync_file tmp ;* let* sid := verify_snapshot_database tmp in rest sid) s = (r, s') →
  ((∀ b, r ≠ Ok b) ∧ frame (eq tmp) s s') ∨
  ∃ sid s1, frame (eq tmp) s s1 ∧ fs_of s1 !! tmp = fs_of s !! tmp ∧ s1.2 !! tmp = Some (image db ok) ∧
    ok = true ∧ sound_db db sid ∧ rest sid s1 = (r, s').
Proof.
  intros E0. destruct (bind_cases (eq tmp) _ _ _ _ _ (preserves_write _ _ _ eq_refl) E0) as [?|([] & s1 & E1 & F1 & E2)]; [by left|].
  destruct (bind_cases nothing _ _ _ _ _ (preserves_open_and_sync _ _) E2) as [[? F2]|(a2 & s2 & E3 & F2 & E4)].
  { left. split; [done|]. etrans; [done|]. by eapply frame_mono; [|exact F2]. }
  destruct (bind_cases nothing _ _ _ _ _ (preserves_verify_snapshot _ _) E4) as [[? F3]|(sid & s3 & E5 & F3 & E6)].
  { left. split; [done|]. etrans; [done|]. etrans; by eapply frame_mono; [|eassumption]. }
  apply write_file_ok in E1 as [Hc Hf]. apply verify_snapshot_ok in E5 as (c & db' & Hc' & Hl & Hs).
  pose proof (frame_nothing_eq _ _ F2) as [Ef2 Ex2]. pose proof (frame_nothing_eq _ _ F3) as [Ef3 Ex3].
  rewrite Ex2, Hc in Hc'. injection Hc' as <-. rewrite load_image in Hl. injection Hl as <- ->.
  right. exists sid, s3. split_and!; [|congruence|congruence|done..].
  etrans; [done|]. etrans; by eapply frame_mono; [|eassumption].
Qed.

(** Where [d] may differ after the operation. *)
Definition two (p q x : Path) : Prop := x = p ∨ x = q.

Lemma frame_two_l p q s s' : frame (eq p) s s' → frame (two p q) s s'.
Proof. apply frame_mono. intros x <-. by left. Qed.
Lemma frame_two_r p q s s' : frame (eq q) s s' → frame (two p q) s s'.
Proof. apply frame_mono. intros x <-. by right. Qed.

(** Making the temporary file private and giving it its final name. *)
Lemma release_cases {B} tmp d md c (rest : BIO B) s r s' :
  (in_fs (smap_err (λ _, Storage) (set_permissions tmp 0x180)) ;* publish_new_file tmp d ;* rest) s = (r, s') →
  fs_of s !! tmp = Some md → s.2 !! tmp = Some c →
  ((∀ b, r ≠ Ok b) ∧ frame (eq tmp) s s') ∨
  (fs_of s !! d = None ∧ tmp ≠ d ∧
   ∃ s1, frame (two tmp d) s s1 ∧ fs_of s1 !! d = Some (mkMeta (file_type md) 0x180) ∧ s1.2 !! d = Some c ∧
     (((∀ b, r ≠ Ok b) ∧ s' = s1) ∨ rest s1 = (r, s'))).
Proof.
  intros E0 Hm Hc. destruct (bind_cases (eq tmp) _ _ _ _ _ (preserves_chmod _ _ _ eq_refl) E0) as [?|([] & s1 & E1 & F1 & E2)]; [by left|].
  apply chmod_ok in E1 as (md' & Hm' & Hm1 & Ex1). rewrite Hm in Hm'. injection Hm' as <-.
  unfold sbind in E2. destruct (publish_new_file tmp d s1) as [r2 s2] eqn:E3.
  apply publish_file_cases in E3 as [[Hr F2]|(md2 & c2 & Hm2 & Hc2 & Hd & F2 & Hd2 & Hx2)].
  - left. destruct r2 as [[]|e]; [done|]. injection E2 as <- <-. split; [done|]. etrans; [done|].
    by eapply frame_mono; [|exact F2].
  - right. assert (tmp ≠ d) as Hne by (intros <-; congruence). rewrite Hm1 in Hm2. injection Hm2 as <-.
    rewrite Ex1, Hc in Hc2. injection Hc2 as <-.
    assert (fs_of s !! d = None) as Hd0 by (destruct F1 as (_&_&_&F1); destruct (F1 d Hne); congruence).
    split_and!; [done..|]. exists s2. split_and!; [etrans; [by apply frame_two_l|by apply frame_two_r]|done|done|].
    destruct r2 as [[]|e]; [by right|]. injection E2 as <- <-. by left.
Qed.

(** *** The outcomes *)

(** Files that existed are as they were. *)
Definition existing_kept (s s' : World * Files) : Prop := frame (λ p, fs_of s !! p = None) s s'.

Lemma existing_kept_two tmp d s s' : fs_of s !! tmp = None → fs_of s !! d = None → frame (two tmp d) s s' → existing_kept s s'.
Proof. intros Ht Hd. apply frame_mono. by intros p [-> | ->]. Qed.

Lemma existing_kept_tmp tmp s s' : fs_of s !! tmp = None → frame (eq tmp) s s' → existing_kept s s'.
Proof. intros Ht. apply frame_mono. by intros p <-. Qed.

(** Both operations on their new destination: refused, given up on the way, or
    with a temporary file to fill. *)
Lemma destination_cases {B} d (body : Path → BIO B) s r s' :
  (ensure_new_destination d ;* let* tmp := create_temporary_file d in with_temporary tmp (body tmp)) s = (r, s') →
  ((∀ b, r ≠ Ok b) ∧ frame nothing s s') ∨
  ∃ tmp s1 s2, fs_of s !! tmp = None ∧ (∀ p, not_temporary p → tmp ≠ p) ∧ frame (eq tmp) s s1 ∧
    fs_of s1 !! tmp = Some private_meta ∧ body tmp s1 = (r, s2) ∧ frame (eq tmp) s2 s'.
Proof.
  intros E0. destruct (bind_cases nothing _ _ _ _ _ (preserves_new _ _ _) E0) as [?|(a & s0 & E1 & F1 & E2)]; [by left|].
  pose proof (frame_nothing_eq _ _ F1) as [Ef _].
  unfold sbind in E2. destruct (create_temporary_file d s0) as [r1 s1] eqn:E3.
  apply create_temporary_cases in E3 as [[Hr F2]|(tmp & -> & Hn & Hne & F2 & Hp)].
  { destruct r1 as [p|e]; [by destruct (Hr p)|]. injection E2 as <- <-. left. split; [done|]. by etrans. }
  apply with_temporary_frame in E2 as (s2 & E2 & F3). right. exists tmp, s1, s2. split_and!; try done; [congruence|].
  etrans; [|exact F2]. by eapply frame_mono; [|exact F1].
Qed.

Lemma restore_cases b m d s r s' :
  not_temporary d → restore_snapshot b m d s = (r, s') →
  existing_kept s s' ∧
  ((r ≠ Ok tt ∧ fs_of s' !! d = fs_of s !! d ∧ s'.2 !! d = s.2 !! d) ∨
   ∃ c db vid, s.2 !! b = Some c ∧ m = manifest_of vid c ∧ load c = Some (db, true) ∧ sound_db db vid ∧
     fs_of s !! d = None ∧ fs_of s' !! d = Some private_meta ∧ s'.2 !! d = Some (image db true)).
Proof.
  intros Hnt E0. unfold restore_snapshot in E0.
  destruct (bind_cases nothing _ _ _ _ _ (preserves_verify_backup _ _ _) E0) as [[Hr F]|([] & s0 & E1 & F & E2)].
  { split; [by eapply frame_mono; [|exact F]|]. left. pose proof (frame_nothing_eq _ _ F) as [-> ->]. done. }
  pose proof (frame_nothing_eq _ _ F) as [Ef Ex]. apply verify_backup_ok in E1 as (Hb & c & db & vid & Hc & -> & Hl & Hs).
  apply destination_cases in E2 as [[Hr F2]|(tmp & s1 & s2 & Hn & Hne & F1 & Hp & E2 & F3)].
  { assert (frame nothing s s') as Fn by (by etrans). split; [by eapply frame_mono; [|exact Fn]|]. left.
    pose proof (frame_nothing_eq _ _ Fn) as [-> ->]. done. }
  rewrite Ef in Hn. specialize (Hne d Hnt). assert (frame (eq tmp) s s1) as F01 by (etrans; [|exact F1]; by eapply frame_mono; [|exact F]).
  assert (∀ s3, frame (eq tmp) s1 s3 → (∀ b, r ≠ Ok b) → frame (eq tmp) s3 s' →
    existing_kept s s' ∧ (r ≠ Ok tt ∧ fs_of s' !! d = fs_of s !! d ∧ s'.2 !! d = s.2 !! d)) as Hgiveup.
  { intros s3 F13 Hr F3'. assert (frame (eq tmp) s s') as Fe by (etrans; [done|]; by etrans).
    split; [by apply (existing_kept_tmp tmp)|]. split; [done|]. destruct Fe as (_&_&_&Fe). by apply Fe. }
  destruct (bind_cases nothing _ _ _ _ _ (preserves_read _ _) E2) as [[Hr F4]|(src & s4 & E4 & F4 & E5)].
  { edestruct (Hgiveup s2); [by eapply frame_mono; [|exact F4]|done|done|]. auto. }
  pose proof (frame_nothing_eq _ _ F4) as [Ef4 Ex4]. apply read_file_ok in E4.
  assert (src = c) as ->.
  { assert (tmp ≠ b) as Hbt by (intros <-; destruct Hb; congruence).
    destruct F1 as (_&_&_&F1). destruct (F1 b Hbt). congruence. }
  destruct (bind_cases nothing _ _ _ _ _ (preserves_lift _ _) E5) as [[Hr F5]|([db' ok] & s5 & E6 & F5 & E7)].
  { edestruct (Hgiveup s2); [etrans; by eapply frame_mono; [|eassumption]|done|done|]. auto. }
  unfold slift in E6. rewrite Hl in E6. injection E6 as <- <- <-.
  apply fill_cases in E7 as [[Hr F7]|(sid & s6 & F7 & Hf7 & Hc7 & _ & _ & E8)].
  { edestruct (Hgiveup s2); [etrans; [by eapply frame_mono; [|exact F4]|done]|done|done|]. auto. }
  assert ((in_fs (smap_err (λ _, Storage) (set_permissions tmp 0x180)) ;* publish_new_file tmp d ;* sret tt) s6 = (r, s2)) as E9.
  { unfold sbind at 1. unfold sbind in E8. destruct (in_fs _ s6) as [[]]; [|done]. unfold sbind. rewrite E8. by destruct r as [[]|]. }
  assert (frame (eq tmp) s1 s6) as F16 by (etrans; [by eapply frame_mono; [|exact F4]|done]).
  eapply release_cases in E9 as [[Hr F9]|(Hd & _ & s7 & F9 & Hd9 & Hx9 & Hend)]; [| |rewrite Hf7, Ef4; exact Hp|exact Hc7].
  { edestruct (Hgiveup s2); [by etrans|done|done|]. auto. }
  assert (s2 = s7) as -> by (destruct Hend as [[_ ?]|Hend]; [done|by injection Hend]).
  assert (frame (two tmp d) s s') as Fall.
  { etrans; [by apply frame_two_l|]. etrans; [by apply frame_two_l|]. etrans; [done|]. by apply frame_two_l. }
  assert (fs_of s !! d = None) as Hd0.
  { destruct F01 as (_&_&_&F01), F16 as (_&_&_&F16). destruct (F01 d Hne), (F16 d Hne). congruence. }
  split; [by apply (existing_kept_two tmp d)|]. right. exists c, db, vid. destruct F3 as (_&_&_&F3). destruct (F3 d Hne) as [Hfd Hxd].
  rewrite Hfd, Hxd. by split_and!.
Qed.

Lemma write_to_ok m p s s' :
  write_to m p s = (Ok tt, s') → ∃ json, json_to_vec m = Some json ∧ s'.2 !! p = Some json.
Proof.
  intros E. unfold write_to in E. sbind_step E. injection E0 as E0 <-. apply ok_or_ok in E0. exists a. split; [done|].
  unfold write_new_file in E. do 4 sbind_step E. destruct a2. apply write_file_ok in E3 as [Hc _].
  apply (preserves_nothing_files _ _ _ _ (preserves_tick _)) in E4 as [_ Ex4].
  apply (preserves_nothing_files _ _ _ _ (preserves_sync_parent _ _)) in E as [_ Ex5]. congruence.
Qed.

Lemma ensure_new_ok p s a s' : ensure_new_destination p s = (Ok a, s') → fs_of s !! p = None.
Proof.
  destruct s as [w files], a. unfold ensure_new_destination, in_fs, in_world, in_env, szoom. simpl.
  destruct (PathSafety.validate_new_regular_file p _ (w_env w)) as [r e'] eqn:E. intros [= -> _].
  apply validate_new_fs in E as [_ ?]. auto.
Qed.

(** Describing the published snapshot. *)
Lemma describe_cases vid d c s r s' :
  (let* manifest := from_snapshot vid d in ensure_new_destination (manifest_path d) ;*
   write_to manifest (manifest_path d) ;* sret manifest) s = (r, s') →
  s.2 !! d = Some c →
  frame (λ p, p = manifest_path d ∧ fs_of s !! p = None) s s' ∧
  ∀ m, r = Ok m → m = manifest_of vid c ∧ fs_of s !! manifest_path d = None ∧
    ∃ json, json_to_vec m = Some json ∧ s'.2 !! manifest_path d = Some json.
Proof.
  intros E0 Hc. set (P := λ p, p = manifest_path d ∧ fs_of s !! p = None).
  assert (∀ s1 s2, frame nothing s1 s2 → frame P s1 s2) as Hno by (intros s1 s2; by apply frame_mono).
  assert (preserves nothing (from_snapshot vid d)) as Hk by (unfold from_snapshot; preserves_tac).
  destruct (bind_cases nothing _ _ _ _ _ Hk E0) as [[Hr F1]|(m & s1 & E1 & F1 & E2)]; [split; [auto|intros m ->; by destruct (Hr m)]|].
  destruct (bind_cases nothing _ _ _ _ _ (preserves_new _ _ _) E2) as [[Hr F2]|(a & s2 & E3 & F2 & E4)].
  { split; [etrans; [apply Hno, F1|apply Hno, F2]|]. intros m' ->. by destruct (Hr m'). }
  apply ensure_new_ok in E3. pose proof (frame_nothing_eq _ _ F1) as [Ef1 _]. rewrite Ef1 in E3.
  destruct (bind_cases P _ _ _ _ _ (preserves_write_to P m _ (conj eq_refl E3)) E4) as [[Hr F3]|([] & s3 & E5 & F3 & E6)].
  { split; [etrans; [apply Hno, F1|]; etrans; [apply Hno, F2|done]|]. intros m' ->. by destruct (Hr m'). }
  injection E6 as <- <-. split; [etrans; [apply Hno, F1|]; etrans; [apply Hno, F2|done]|]. intros m' [= <-].
  apply write_to_ok in E5. split; [|done]. clear E3. unfold from_snapshot in E1. sbind_step E1. destruct a0 as [sha n].
  apply checksum_ok in E as (c' & Hc' & -> & ->). injection E1 as <- <-. rewrite Hc in Hc'. injection Hc' as <-. done.
Qed.

Lemma snapshot_cases vid d s r s' :
  not_temporary d → not_temporary (manifest_path d) → create_snapshot vid d s = (r, s') →
  existing_kept s s' ∧
  ∀ m, r = Ok m →
    w_integrity_ok s.1 = true ∧ sound_db (w_db s.1) vid ∧ m = manifest_of vid (image (w_db s.1) true) ∧
    fs_of s !! d = None ∧ fs_of s' !! d = Some private_meta ∧ s'.2 !! d = Some (image (w_db s.1) true) ∧
    fs_of s !! manifest_path d = None ∧ ∃ json, json_to_vec m = Some json ∧ s'.2 !! manifest_path d = Some json.
Proof.
  intros Hnt Hntm E0. apply destination_cases in E0 as [[Hr F]|(tmp & s1 & s2 & Hn & Hne & F1 & Hp & E1 & F3)].
  { split; [by eapply frame_mono; [|exact F]|]. intros m ->. by destruct (Hr m). }
  pose proof (Hne _ Hntm) as Hmt. specialize (Hne d Hnt). unfold sbind at 1, sgets in E1. pose proof F1 as (Hdb & Hi & _ & F1p). rewrite Hdb, Hi in E1.
  assert (∀ s3, frame (eq tmp) s1 s3 → frame (eq tmp) s3 s' → (∀ m, r ≠ Ok m) → existing_kept s s' ∧ ∀ m, r ≠ Ok m) as Hgiveup.
  { intros s3 F13 F3' Hr. split; [|done]. apply (existing_kept_tmp tmp); [done|]. etrans; [done|]. by etrans. }
  apply fill_cases in E1 as [[Hr F4]|(sid & s4 & F4 & Hf4 & Hc4 & Hok & Hs & E5)].
  { destruct (Hgiveup s2) as [? Hr']; [done..|]. split; [done|]. intros m ->. by destruct (Hr' m). }
  case_bool_decide as Hv; cbn [negb] in E5.
  2: { injection E5 as <- <-. destruct (Hgiveup s4) as [? Hr']; [done..|]. split; [done|]. intros m ?. by destruct (Hr' m). }
  subst sid. eapply release_cases in E5 as [[Hr F5]|(Hd & _ & s5 & F5 & Hd5 & Hx5 & E6)]; [| |by rewrite Hf4, Hp|exact Hc4].
  { destruct (Hgiveup s2) as [? Hr']; [by etrans|done..|]. split; [done|]. intros m ->. by destruct (Hr' m). }
  assert (frame (two tmp d) s s5) as F05 by (etrans; [by apply frame_two_l|]; etrans; [by apply frame_two_l|done]).
  assert (fs_of s !! d = None) as Hd0 by (destruct F4 as (_&_&_&F4); destruct (F1p d Hne), (F4 d Hne); congruence).
  assert (frame (λ p, fs_of s !! p = None) s s5) as Fs5 by (by apply (existing_kept_two tmp d)).
  destruct E6 as [[Hr ->]|E6].
  { split; [|intros m ->; by destruct (Hr m)]. unfold existing_kept. etrans; [done|]. by apply (frame_mono (eq tmp)); [intros p <-|]. }
  eapply describe_cases in E6 as [F6 Hm]; [|done]. pose proof (manifest_path_ne d) as Hmd.
  assert (frame (λ p, fs_of s !! p = None) s5 s2) as F52.
  { eapply frame_mono; [|exact F6]. intros p [-> Hp5]. destruct F05 as (_&_&_&F05). destruct (F05 (manifest_path d)); [|congruence].
    by intros [?|?]. }
  split; [unfold existing_kept; etrans; [done|]; etrans; [done|]; by apply (frame_mono (eq tmp)); [intros p <-|]|].
  intros m ->. destruct (Hm m eq_refl) as (-> & Hmp & json & Hj & Hx). rewrite Hok in *.
  destruct F3 as (_&_&_&F3), F6 as (_&_&_&F6). destruct (F3 d Hne) as [-> ->], (F3 _ Hmt) as [_ ->].
  destruct (F6 d) as [-> ->]; [by intros [? _]|]. destruct F05 as (_&_&_&F05). destruct (F05 (manifest_path d)) as [Hf5 _]; [by intros [?|?]|].
  split_and!; [congruence|done|done|done|done|done|congruence|by exists json].
Qed.

(** A name free for a new file in existing directories. *)
Definition free_name (fs : Fs) (p : Path) : Prop := creatable fs p ∧ fs !! p = None ∧ not_temporary p.

Lemma db_wf_sound db row vid :
  db_wf db → db_meta db = Some row → mr_vault_id row = as_bytes vid → wf_id vid → sound_db db vid.
Proof.
  intros Hwf Hm Hv Hid. split; [by apply StorageSpec.checks_pass in Hwf as (? & _)|]. exists row. split; [done|].
  rewrite Hv. by apply from_slice_as_bytes.
Qed.

(** C9: backup and restore.  Without faults, on a vault whose tables satisfy the
    invariant, a backup to a free name succeeds, its sidecar reads back as the
    manifest that was returned, and a restore with that manifest to another
    free name succeeds and produces a private file that opens as exactly the
    database that was backed up; the live database and every other file are
    unchanged. *)
Theorem backup_restore_roundtrip v w files row d d2 :
  quiet (w_env w) → files_wf (env_fs (w_env w), files) →
  w_integrity_ok w = true → db_wf (w_db w) → db_meta (w_db w) = Some row →
  mr_vault_id row = as_bytes (v_vault_id v) → wf_id (v_vault_id v) →
  lenZ (image (w_db w) true) ≤ u64_max → (∀ m : BackupManifest, is_Some (json_to_vec m)) →
  free_name (env_fs (w_env w)) d → free_name (env_fs (w_env w)) d2 →
  env_fs (w_env w) !! manifest_path d = None → not_temporary (manifest_path d) → d2 ≠ d → d2 ≠ manifest_path d →
  ∃ m s1 s2 s3,
    backup_to d ((v, w), files) = (Ok m, ((v, s1.1), s1.2)) ∧
    read_from (manifest_path d) s1 = (Ok m, s2) ∧
    restore_from_backup d m d2 s2 = (Ok tt, s3) ∧
    load <$> s3.2 !! d2 = Some (Some (w_db w, true)) ∧ private_at (fs_of s3) d2 ∧ w_db s3.1 = w_db w ∧
    ∀ p, p ≠ d → p ≠ manifest_path d → p ≠ d2 → fs_of s3 !! p = env_fs (w_env w) !! p ∧ s3.2 !! p = files !! p.
Proof.
  intros Hq Hwf Hi Hdb Hrow Hv Hid Hsz Hj (Hc & Hd & Hnt) (Hc2 & Hd2 & Hnt2) Hm Hntm Hne Hne2.
  pose proof (db_wf_sound _ _ _ Hdb Hrow Hv Hid) as Hs. set (img := image (w_db w) true) in *. set (fs := env_fs (w_env w)) in *.
  destruct (Hj (manifest_of (v_vault_id v) img)) as [json Hjson]. pose proof (manifest_path_ne d) as Hmd.
  assert (at_files w (fs, files) (w, files)) as H0' by done.
  pose proof (runs_create_snapshot w (fs, files) _ _ _ Hwf Hc Hd Hm Hnt Hntm Hi Hs Hsz Hjson) as R1.
  destruct (R1 _ H0') as (s1 & E1 & A1). cbn [fst snd] in *.
  set (st1 := (<[manifest_path d := manifest_meta w]> (<[d := private_meta]> fs), <[manifest_path d := json]> (<[d := img]> files))) in *.
  assert (∀ p, creatable fs p → creatable st1.1 p) as Hcr.
  { intros p Hp. apply creatable_insert; [by rewrite lookup_insert_ne|]. by apply creatable_insert. }
  assert (creatable fs (manifest_path d)) as Hcm.
  { destruct Hc as (dir & Hp & Hrest). exists dir. split; [|done]. rewrite manifest_path_parent; eauto. }
  pose proof (runs_read_from w st1 (manifest_path d) _ json (manifest_meta w) (Hcr _ Hcm) (lookup_insert_eq _ _ _) eq_refl
    (lookup_insert_eq _ _ _) Hjson (manifest_of_valid _ _ Hid)) as R2.
  destruct (R2 _ A1) as (s2 & E2 & A2).
  assert (st1.1 !! d2 = None) as Hd2' by (unfold st1; simpl; by rewrite !lookup_insert_ne).
  assert (files_wf st1) as Hwf1.
  { apply (files_wf_insert (_, _)). by apply (files_wf_insert (_, _)). }
  assert (st1.1 !! d = Some private_meta ∧ st1.2 !! d = Some img) as [Hd1 Hx1].
  { unfold st1. split; simpl; by rewrite lookup_insert_ne, lookup_insert_eq. }
  pose proof (runs_restore_snapshot w st1 _ d d2 private_meta img (w_db w) Hwf1 (Hcr _ Hc) Hd1 eq_refl Hx1 Hsz
    (load_image _ _) Hs Hid (Hcr _ Hc2) Hd2' Hnt2) as R3.
  destruct (R3 _ A2) as (s3 & E3 & (Hdb3 & _ & _ & _ & Hf3 & Hx3)). cbn [fst snd] in *.
  exists (manifest_of (v_vault_id v) img), s1, s2, s3. unfold fs_of. rewrite Hf3, Hx3. split_and!; try done.
  - unfold backup_to, create_backup. rewrite E1. by destruct s1.
  - rewrite lookup_insert_eq. simpl. by rewrite load_image.
  - intros md. rewrite lookup_insert_eq. by intros [= <-].
  - intros p Hp1 Hp2 Hp3. unfold st1. cbn [fst snd]. split; by rewrite !lookup_insert_ne.
Qed.

(** C14: a restore installs only what its manifest authenticates.  Whatever the
    files hold and whenever a fault strikes, no file that existed is changed,
    and the destination either is as it was (and the restore failed) or was
    new and is now a private copy of the database in the backup file, which
    has the manifest's length, SHA-256 and vault identifier, is intact and has
    no dangling reference.  (The destination is not one of the restore's own
    temporary names.) *)
Theorem restore_verified b m d s r s' :
  not_temporary d → restore_from_backup b m d s = (r, s') →
  existing_kept s s' ∧
  ((r ≠ Ok tt ∧ fs_of s' !! d = fs_of s !! d ∧ s'.2 !! d = s.2 !! d) ∨
   ∃ c db vid, s.2 !! b = Some c ∧ m = manifest_of vid c ∧ load c = Some (db, true) ∧ sound_db db vid ∧
     fs_of s !! d = None ∧ fs_of s' !! d = Some private_meta ∧ s'.2 !! d = Some (image db true)).
Proof. apply restore_cases. Qed.

(** A backup never overwrites.  Under any faults every file that existed
    and the live database are unchanged; a backup that succeeds wrote a private
    snapshot of the live database to a name that was free, beside a sidecar
    that holds the returned manifest, whose checksum, length and vault
    identifier are those of the snapshot. *)
Lemma backup_outcomes v w files d r v' w' files' :
  not_temporary d → not_temporary (manifest_path d) → backup_to d ((v, w), files) = (r, ((v', w'), files')) →
  v' = v ∧ existing_kept (w, files) (w', files') ∧
  ∀ m, r = Ok m →
    sound_db (w_db w) (v_vault_id v) ∧ m = manifest_of (v_vault_id v) (image (w_db w) true) ∧
    env_fs (w_env w) !! d = None ∧ env_fs (w_env w') !! d = Some private_meta ∧
    files' !! d = Some (image (w_db w) true) ∧
    env_fs (w_env w) !! manifest_path d = None ∧ json_from_slice <$> files' !! manifest_path d = Some (Some m).
Proof.
  intros Hn Hm. unfold backup_to, create_backup.
  destruct (create_snapshot (v_vault_id v) d (w, files)) as [r1 [w1 files1]] eqn:E. intros [= <- <- <- <-]. split; [done|].
  apply snapshot_cases in E as [Hk Hok]; [|done..]. split; [done|]. intros m ->.
  destruct (Hok m eq_refl) as (_ & ? & Hm' & ? & ? & ? & ? & json & Hj & Hx). split_and!; try done.
  simpl in Hx. rewrite Hx. simpl. f_equal. by apply json_roundtrip.
Qed.

End effects.

(** ** A small vault, its snapshot and a copy *)

Import Toy ToyWire ToyFiles.

Lemma root_free c fs :
  fs !! mkPath true [] = Some (mkMeta FDirectory 493) → fs !! mkPath true [c] = None → (∀ s, c ≠ String.append ".tmp" s) →
  free_name fs (mkPath true [c]).
Proof.
  intros Hr Hn Hc. split_and!; [|done|intros s [= ->]; by apply (Hc s)].
  exists (mkPath true []). split_and!; [done..|]. repeat constructor. simpl. by rewrite Hr.
Qed.

Lemma backup_restore_roundtrip_witness :
  ∃ m s1 s2 s3,
    backup_to snapshot_path ((small_vault, small_world), ∅) = (Ok m, ((small_vault, s1.1), s1.2)) ∧
    read_from (manifest_path snapshot_path) s1 = (Ok m, s2) ∧
    restore_from_backup snapshot_path m restored_path s2 = (Ok tt, s3) ∧
    load <$> s3.2 !! restored_path = Some (Some (small_db, true)).
Proof.
  destruct (backup_restore_roundtrip small_vault small_world ∅ meta_row snapshot_path restored_path)
    as (m & s1 & s2 & s3 & E1 & E2 & E3 & E4 & _).
  - by intros n.
  - by intros p _.
  - done.
  - split; simpl; intros *; rewrite lookup_empty; done.
  - done.
  - done.
  - split; [done|]. by apply Forall_replicate.
  - vm_compute. by intros [=].
  - by eexists.
  - by apply root_free.
  - by apply root_free.
  - done.
  - by intros s.
  - done.
  - done.
  - exact (ex_intro _ m (ex_intro _ s1 (ex_intro _ s2 (ex_intro _ s3 (conj E1 (conj E2 (conj E3 E4))))))) .
Defined.

(** A backup file that changed after its manifest was written is refused, and
    the destination stays free. *)
Lemma restore_verified_witness :
  let m := manifest_of vault_id (image small_db true) in
  let s := (set_env (set_fs (<[snapshot_path := private_meta]> (env_fs env)) env) small_world,
            {[ snapshot_path := 0 :: image small_db true ]} : Files) in
  let run := restore_from_backup snapshot_path m restored_path s in
  run.1 = Err Authentication ∧ existing_kept s run.2 ∧
  ((run.1 ≠ Ok tt ∧ fs_of run.2 !! restored_path = fs_of s !! restored_path ∧
    run.2.2 !! restored_path = s.2 !! restored_path) ∨
   ∃ c db vid, s.2 !! snapshot_path = Some c ∧ m = manifest_of vid c ∧ load c = Some (db, true) ∧ sound_db db vid ∧
     fs_of s !! restored_path = None ∧ fs_of run.2 !! restored_path = Some private_meta ∧
     run.2.2 !! restored_path = Some (image db true)).
Proof.
  intros m s run. split; [vm_compute; exact eq_refl|].
  apply (restore_verified snapshot_path m restored_path s run.1 run.2); [by intros x|apply surjective_pairing].
Defined.

End BackupSpec.
