(* ===== verification/ProtocolSpec.v ===== *)
(** * Framing round trips

    Whatever sizes and interruptions the [read] calls of a connection have,
    the reading half of the protocol returns what the writing half wrote and
    consumes exactly its bytes; a length outside the limits is refused after
    its four bytes. *)

From S2P Require Import Prelude Format Crypto Fs Storage Vault Protocol ToyWire StorageSpec VaultSpec StreamSpec.
From Stdlib Require Import ZArith Lia.
From stdpp Require Import base numbers list gmap strings.

Open Scope Z_scope.
Open Scope vlt_scope.

#[local] Arguments be_bytes : simpl never.

Module ProtocolSpec.
Import VaultSpec Protocol ToyWire.

#[local] Arguments write_bytes : simpl never.
#[local] Arguments flush_writer : simpl never.
#[local] Arguments read_exact : simpl never.

(** ** [read_exact] *)

Section reader.
Context `{ReadOk R}.

(** No call to [read] returns an error other than an interruption. *)
Definition never_fails : Prop := ∀ n (r : R), (read n r).1 ≠ ReadFailed.

Lemma read_exact_fuel_cases fuel n filled r res r' :
  lenZ filled ≤ n → (read_rank r < fuel)%nat → read_exact_fuel fuel n filled r = (res, r') →
  match res with
  | Ok bs => ∃ d, bs = filled ++ d ∧ contents r = d ++ contents r' ∧ lenZ bs = n ∧ (read_rank r' ≤ read_rank r)%nat
  | Err Truncated => lenZ filled + lenZ (contents r) < n
  | Err e => e = PIo ∧ ¬ never_fails
  end.
Proof.
  revert filled r. induction fuel as [|fuel IH]; intros filled r Hl Hf; [lia|]. simpl.
  destruct (Z.leb_spec n (lenZ filled)) as [Hs|Hs].
  { intros [= <- <-]. exists []. rewrite app_nil_r. split_and!; [done|done|lia|lia]. }
  destruct (read (n - lenZ filled) r) as [o r1] eqn:E.
  assert (0 < n - lenZ filled) as Hpos by lia. pose proof (read_rank_lt _ _ _ _ Hpos E) as Hlt.
  destruct o as [d| |].
  - destruct (read_data _ _ _ _ Hpos E) as (Hc & Hd & He). destruct d as [|b d].
    + intros [= <- <-]. rewrite (He eq_refl). unfold lenZ in *. simpl. lia.
    + specialize (Hlt ltac:(done) ltac:(done)). intros Hr. apply IH in Hr; [|rewrite lenZ_app; lia|lia].
      destruct res as [bs|[]]; [|rewrite Hc; rewrite !lenZ_app in *; lia|done..].
      destruct Hr as (d' & -> & Hc' & Hn & Hle). exists ((b :: d) ++ d').
      split_and!; [by rewrite (assoc_L (++))|by rewrite Hc, Hc', (assoc_L (++))|done|lia].
  - specialize (Hlt ltac:(done) ltac:(done)). intros Hr. apply IH in Hr; [|done|lia]. apply read_interrupted in E; [|done].
    destruct res as [bs|[]]; [|congruence|done..]. destruct Hr as (d' & -> & Hc' & Hn & Hle).
    exists d'. split_and!; [done|congruence|done|lia].
  - intros [= <- <-]. split; [done|]. intros Hnf. apply (Hnf (n - lenZ filled) r). by rewrite E.
Qed.

Lemma read_exact_cases n r res r' :
  0 ≤ n → read_exact n r = (res, r') →
  match res with
  | Ok bs => contents r = bs ++ contents r' ∧ lenZ bs = n ∧ (read_rank r' ≤ read_rank r)%nat
  | Err Truncated => lenZ (contents r) < n
  | Err e => e = PIo ∧ ¬ never_fails
  end.
Proof.
  intros Hn E. apply read_exact_fuel_cases in E; [|done|lia].
  destruct res as [bs|[]]; [|unfold lenZ in *; simpl in E; lia|done..]. by destruct E as (d & -> & Hc & Hl & Hd).
Qed.

(** A reader that has the bytes and does not fail delivers them. *)
Lemma read_exact_complete bs rest r :
  never_fails → contents r = bs ++ rest →
  ∃ r', read_exact (lenZ bs) r = (Ok bs, r') ∧ contents r' = rest.
Proof.
  intros Hnf Hc. destruct (read_exact (lenZ bs) r) as [res r'] eqn:E.
  pose proof (lenZ_nonneg bs). apply read_exact_cases in E as Hr; [|done].
  destruct res as [bs'|[]]; [|exfalso; rewrite Hc, lenZ_app in Hr; pose proof (lenZ_nonneg rest); lia|by destruct Hr..].
  destruct Hr as (Hc' & Hl & _). rewrite Hc in Hc'. apply app_inj_1 in Hc' as [-> ->]; [eauto|].
  unfold lenZ in Hl. lia.
Qed.

End reader.

(** ** What is written *)

(** The bytes of a frame, when the value has one. *)
Definition frame {A} `{Json A} (a : A) : option bytes :=
  body ← json_to_vec a;
  if bool_decide (body = []) || (MAX_FRAME_BYTES <? lenZ body) then None else Some (be_bytes 4 (lenZ body) ++ body).

Definition item_bytes `{Json Response} (i : StreamItem) : option bytes :=
  match i with
  | ItemData d => if bool_decide (d = []) || (MAX_STREAM_CHUNK_BYTES <? lenZ d) then None else Some (be_bytes 4 (lenZ d) ++ d)
  | ItemEnd => Some (be_bytes 4 STREAM_END)
  | ItemError r => app (be_bytes 4 STREAM_ERROR) <$> frame r
  end.

Definition write_item `{Write W} `{Flush W} `{Json Response} (i : StreamItem) : M W ProtocolError unit :=
  match i with
  | ItemData d => write_stream_chunk d
  | ItemEnd => write_stream_end
  | ItemError r => write_stream_error r
  end.

Lemma u32_len n : 0 ≤ n ≤ MAX_FRAME_BYTES → u32_try_from n = Some n.
Proof. unfold MAX_FRAME_BYTES. intros. apply u32_try_from_ok. unfold is_u32, u32_max. lia. Qed.

Lemma write_bytes_vec data out : write_bytes data out = (Ok tt, out ++ data).
Proof. done. Qed.

Lemma flush_vec_ok out : flush_writer out = (Ok tt, out).
Proof. done. Qed.

(** Into a [Vec] the writers append the bytes of the message. *)
Lemma write_frame_vec {A} `{Json A} (a : A) out out' :
  write_frame a out = (Ok tt, out') ↔ ∃ f, frame a = Some f ∧ out' = out ++ f.
Proof.
  unfold write_frame, frame, sbind, slift. destruct (json_to_vec a) as [body|]; cbn [ok_or mbind option_bind];
    [|split; [done|by intros (? & ? & _)]].
  destruct (_ || _) eqn:E; [split; [done|by intros (? & ? & _)]|].
  rewrite u32_len by (apply orb_false_iff in E as [_ E]; pose proof (lenZ_nonneg body); lia). cbn [ok_or].
  rewrite write_bytes_vec, write_bytes_vec, flush_vec_ok, <-(assoc_L (++)). split.
  - intros [= <-]. eauto.
  - by intros (f & [= <-] & ->).
Qed.

Lemma write_item_vec `{Json Response} i out out' :
  write_item i out = (Ok tt, out') ↔ ∃ f, item_bytes i = Some f ∧ out' = out ++ f.
Proof.
  destruct i as [d| |r]; cbn [write_item item_bytes].
  - unfold write_stream_chunk, sbind, slift. destruct (_ || _) eqn:E; [split; [done|by intros (? & ? & _)]|].
    rewrite u32_len by (apply orb_false_iff in E as [_ E]; pose proof (lenZ_nonneg d);
      unfold MAX_STREAM_CHUNK_BYTES, MAX_FRAME_BYTES in *; lia). cbn [ok_or].
    rewrite write_bytes_vec, write_bytes_vec, flush_vec_ok, <-(assoc_L (++)). split.
    + intros [= <-]. eauto.
    + by intros (f & [= <-] & ->).
  - unfold write_stream_end, sbind. rewrite write_bytes_vec, flush_vec_ok. split; [intros [= <-]; eauto|by intros (f & [= <-] & ->)].
  - unfold write_stream_error, sbind. rewrite write_bytes_vec, write_frame_vec. split.
    + intros (f & -> & ->). exists (be_bytes 4 STREAM_ERROR ++ f). split; [done|]. by rewrite <-(assoc_L (++)).
    + intros (f' & Hf & ->). destruct (frame r) as [f|]; [|done]. exists f. split; [done|].
      apply (inj Some) in Hf as <-. by rewrite <-(assoc_L (++)).
Qed.

(** ** What is read *)

Section roundtrip.
Context `{ReadOk R} `{!Json Response} `{!JsonOk Response}.

Lemma from_be_len n : 0 ≤ n ≤ u32_max → from_be_bytes (be_bytes 4 n) = n.
Proof. intros Hn. apply from_be_be_bytes_small. unfold u32_max in Hn. simpl. lia. Qed.

Lemma read_frame_complete {A} `{!Json A} `{!JsonOk A} (a : A) f rest (r : R) :
  never_fails (R:=R) → frame a = Some f → contents r = f ++ rest →
  ∃ r', read_frame r = (Ok a, r') ∧ contents r' = rest.
Proof.
  intros Hnf Hf Hc. unfold frame in Hf. destruct (json_to_vec a) as [body|] eqn:Ej; [|done]. cbn [mbind option_bind] in Hf.
  destruct (_ || _) eqn:El in Hf; [done|]. apply (inj Some) in Hf as <-. rewrite <-(assoc_L (++)) in Hc.
  apply orb_false_iff in El as [E1 E2]. apply bool_decide_eq_false in E1. apply Z.ltb_ge in E2.
  assert (0 < lenZ body) by (destruct body; [done|unfold lenZ; simpl; lia]).
  destruct (read_exact_complete _ _ r Hnf Hc) as (r1 & R1 & C1).
  destruct (read_exact_complete _ _ r1 Hnf C1) as (r2 & R2 & C2).
  unfold lenZ at 1 in R1. rewrite length_be_bytes in R1. change (Z.of_nat 4) with 4 in R1.
  unfold read_frame, sbind. rewrite R1, from_be_len by (unfold MAX_FRAME_BYTES, u32_max in *; lia).
  rewrite (proj2 (Z.eqb_neq _ _)), (proj2 (Z.ltb_ge _ _)) by lia. simpl. rewrite R2.
  unfold slift. rewrite (json_roundtrip _ _ Ej). eauto.
Qed.

Lemma read_item_complete i f rest (r : R) :
  never_fails (R:=R) → item_bytes i = Some f → contents r = f ++ rest →
  ∃ r', read_stream_item r = (Ok i, r') ∧ contents r' = rest.
Proof.
  intros Hnf Hf Hc. unfold read_stream_item, sbind.
  assert (∀ n g, contents r = be_bytes 4 n ++ g → ∃ r1, read_exact 4 r = (Ok (be_bytes 4 n), r1) ∧ contents r1 = g) as Hlen.
  { intros n g Hg. destruct (read_exact_complete _ _ r Hnf Hg) as (r1 & R1 & C1).
    unfold lenZ in R1. rewrite length_be_bytes in R1. eauto. }
  destruct i as [d| |resp]; cbn [item_bytes] in Hf.
  - destruct (_ || _) eqn:El in Hf; [done|]. apply (inj Some) in Hf as <-. rewrite <-(assoc_L (++)) in Hc.
    apply orb_false_iff in El as [E1 E2]. apply bool_decide_eq_false in E1. apply Z.ltb_ge in E2.
    assert (0 < lenZ d) by (destruct d; [done|unfold lenZ; simpl; lia]).
    destruct (Hlen _ _ Hc) as (r1 & -> & C1). unfold MAX_STREAM_CHUNK_BYTES in E2.
    rewrite from_be_len by (unfold u32_max; lia). unfold STREAM_END, STREAM_ERROR, MAX_STREAM_CHUNK_BYTES, u32_max.
    rewrite !(proj2 (Z.eqb_neq _ _)), (proj2 (Z.ltb_ge _ _)) by lia.
    destruct (read_exact_complete _ _ r1 Hnf C1) as (r2 & -> & C2). eauto.
  - apply (inj Some) in Hf as <-. destruct (Hlen _ _ Hc) as (r1 & -> & C1). rewrite from_be_len by (unfold STREAM_END, u32_max; lia). eauto.
  - destruct (frame resp) as [g|] eqn:Eg; [|done]. apply (inj Some) in Hf as <-. rewrite <-(assoc_L (++)) in Hc.
    destruct (Hlen _ _ Hc) as (r1 & -> & C1). rewrite from_be_len by (unfold STREAM_ERROR, u32_max; lia).
    change (STREAM_ERROR =? STREAM_END) with false. rewrite Z.eqb_refl. cbv iota.
    destruct (read_frame_complete resp g rest r1 Hnf Eg C1) as (r2 & -> & C2). eauto.
Qed.

(** ** What a successful read says

    [frame_at bs a rest]: [bs] starts with a frame of [a] and goes on with
    [rest]. *)
Definition frame_at {A} `{!Json A} (bs : bytes) (a : A) (rest : bytes) : Prop :=
  ∃ lb body, bs = lb ++ body ++ rest ∧ length lb = 4%nat ∧ lenZ body = from_be_bytes lb ∧
    0 < lenZ body ≤ MAX_FRAME_BYTES ∧ json_from_slice body = Some a.

Lemma read_frame_ok {A} `{!Json A} (r : R) (a : A) r' :
  wf_bytes (contents r) → read_frame r = (Ok a, r') → frame_at (contents r) a (contents r').
Proof.
  intros Hw E. unfold read_frame in E. sbind_step E. apply read_exact_cases in E0 as (C1 & L1 & _); [|lia].
  rewrite C1 in Hw. apply wf_bytes_app in Hw as [Hw _]. pose proof (from_be_bytes_bound _ Hw) as Hb.
  destruct (_ || _) eqn:El; [done|]. apply orb_false_iff in El as [El1%Z.eqb_neq El2%Z.ltb_ge].
  sbind_step E. apply read_exact_cases in E0 as (C2 & L2 & _); [|lia]. injection E as E <-.
  destruct (json_from_slice a1) as [x|] eqn:Ej; [|done]. injection E as <-.
  exists a0, a1. rewrite C1, C2. split_and!; [done|unfold lenZ in L1; lia|done|lia|lia|done].
Qed.

(** A frame can be read in one way only. *)
Lemma frame_at_frame {A} `{!Json A} `{!JsonOk A} (a b : A) f rest rest' :
  frame a = Some f → frame_at (f ++ rest) b rest' → b = a ∧ rest' = rest.
Proof.
  unfold frame. destruct (json_to_vec a) as [body|] eqn:Ej; [|done]. cbn [mbind option_bind].
  destruct (_ || _) eqn:El; [done|]. intros <-%(inj Some) (lb & body' & Hc & Hl & Hn & _ & Hj).
  apply orb_false_iff in El as [_ El%Z.ltb_ge]. pose proof (lenZ_nonneg body).
  rewrite <-(assoc_L (++)) in Hc. apply app_inj_1 in Hc as [<- Hc]; [|by rewrite length_be_bytes].
  rewrite from_be_len in Hn by (unfold MAX_FRAME_BYTES, u32_max in *; lia).
  apply app_inj_1 in Hc as [<- <-]; [|unfold lenZ in Hn; lia]. split; [|done].
  apply (json_roundtrip _ _) in Ej. congruence.
Qed.

(** No frame starts with the marker of an error item. *)
Lemma frame_at_error {A} `{!Json A} resp f rest (b : A) rest' :
  item_bytes (ItemError resp) = Some f → ¬ frame_at (f ++ rest) b rest'.
Proof.
  cbn [item_bytes]. destruct (frame resp) as [g|]; [|done]. intros <-%(inj Some) (lb & body & Hc & Hl & Hn & Hb & _).
  rewrite <-(assoc_L (++)) in Hc. apply app_inj_1 in Hc as [<- _]; [|by rewrite length_be_bytes].
  rewrite from_be_len in Hn by (unfold STREAM_ERROR, u32_max; lia). unfold STREAM_ERROR, u32_max, MAX_FRAME_BYTES in *. lia.
Qed.

(** C19: what is written is what is read.  A response frame or stream item
    (data, end or error) that the writing half accepts is returned by the
    reading half as the same value, consuming exactly the bytes written, over
    every connection that delivers them, however it splits them and however
    often it is interrupted. *)
Theorem framing_roundtrip (i : StreamItem) (v : Response) out out' out'' rest (r : R) :
  never_fails (R:=R) → write_item i out = (Ok tt, out') → write_frame v out' = (Ok tt, out'') →
  contents r = drop (length out) out'' ++ rest →
  ∃ r1 r2, read_stream_item r = (Ok i, r1) ∧ read_frame r1 = (Ok v, r2) ∧ contents r2 = rest.
Proof.
  intros Hnf (f & Hf & ->)%write_item_vec (g & Hg & ->)%write_frame_vec Hc.
  rewrite <-(assoc_L (++)), drop_app_length, <-(assoc_L (++)) in Hc.
  destruct (read_item_complete _ _ _ r Hnf Hf Hc) as (r1 & E1 & C1).
  destruct (read_frame_complete _ _ _ r1 Hnf Hg C1) as (r2 & E2 & C2). eauto 10.
Qed.

(** A frame is read within its limits.  On any input, the reader either
    returns the value of a non-empty body of at most 16 MiB that the length
    prefix announced, or refuses: after the four length bytes alone when the
    announced length is zero or too large, after the whole body when it is not
    valid JSON, and as truncated only when the input ends before the announced
    bytes; any other failure comes from the connection. *)
Lemma read_frame_outcomes {A} `{!Json A} (r : R) (res : result A ProtocolError) r' :
  wf_bytes (contents r) → read_frame r = (res, r') →
  match res with
  | Ok a => ∃ lb body, contents r = lb ++ body ++ contents r' ∧ length lb = 4%nat ∧ lenZ body = from_be_bytes lb ∧
      0 < lenZ body ≤ MAX_FRAME_BYTES ∧ json_from_slice body = Some a
  | Err InvalidLength => ∃ lb, contents r = lb ++ contents r' ∧ length lb = 4%nat ∧
      (from_be_bytes lb = 0 ∨ MAX_FRAME_BYTES < from_be_bytes lb)
  | Err InvalidJson => ∃ lb body, contents r = lb ++ body ++ contents r' ∧ length lb = 4%nat ∧
      lenZ body = from_be_bytes lb ∧ json_from_slice (A:=A) body = None
  | Err Truncated => lenZ (contents r) < 4 ∨
      ∃ lb body, contents r = lb ++ body ∧ length lb = 4%nat ∧ lenZ body < from_be_bytes lb
  | Err PIo => ¬ never_fails (R:=R)
  end.
Proof.
  intros Hw. unfold read_frame, sbind. destruct (read_exact 4 r) as [res1 r1] eqn:E1.
  apply read_exact_cases in E1 as H1; [|lia]. destruct res1 as [lb|er].
  2: { intros [= <- <-]. destruct er; [by left|by destruct H1..]. }
  destruct H1 as (C1 & L1 & _). assert (length lb = 4%nat) as L by (unfold lenZ in L1; lia).
  rewrite C1 in Hw. apply wf_bytes_app in Hw as [Hwl _]. pose proof (from_be_bytes_bound lb Hwl) as Hb.
  destruct (_ || _) eqn:El.
  { intros [= <- <-]. exists lb. split_and!; [done|done|]. apply orb_true_iff in El. lia. }
  apply orb_false_iff in El as [El1%Z.eqb_neq El2%Z.ltb_ge].
  destruct (read_exact (from_be_bytes lb) r1) as [res2 r2] eqn:E2.
  apply read_exact_cases in E2 as H2; [|lia]. destruct res2 as [body|er].
  2: { intros [= <- <-]. destruct er; [right; eauto|by destruct H2..]. }
  destruct H2 as (C2 & L2 & _). unfold slift. intros [= <- <-]. rewrite C1, C2.
  destruct (json_from_slice body) as [a|] eqn:Ej; simpl.
  - exists lb, body. split_and!; try done; lia.
  - by exists lb, body.
Qed.

End roundtrip.

(** A data item and a response, sent to a vector and read back from a slice. *)
Lemma framing_roundtrip_witness :
  ∃ out' out'', write_item (ItemData [7; 8; 9]) [] = (Ok tt, out') ∧
    write_frame (ROk (SPublished [1; 2])) out' = (Ok tt, out'') ∧
    ∃ r1 r2, read_stream_item (out'' ++ [5]) = (Ok (ItemData [7; 8; 9]), r1) ∧
      read_frame r1 = (Ok (ROk (SPublished [1; 2])), r2) ∧ contents r2 = [5].
Proof.
  eexists _, _. split; [vm_compute; exact eq_refl|]. split; [vm_compute; exact eq_refl|].
  eapply (framing_roundtrip (R:=bytes) (ItemData [7; 8; 9]) (ROk (SPublished [1; 2])) []);
    [by intros n r|vm_compute; exact eq_refl|vm_compute; exact eq_refl|done].
Defined.

(** A prefix announcing three bytes of which two arrive. *)
Lemma read_frame_outcomes_witness :
  (read_frame (A:=Response) ([0; 0; 0; 3; 1; 2] : bytes)).1 = Err Truncated ∧
  (lenZ [0; 0; 0; 3; 1; 2] < 4 ∨
    ∃ lb body, [0; 0; 0; 3; 1; 2] = lb ++ body ∧ length lb = 4%nat ∧ lenZ body < from_be_bytes lb).
Proof.
  split; [done|].
  change [0; 0; 0; 3; 1; 2] with (contents (R:=bytes) [0; 0; 0; 3; 1; 2]).
  apply (read_frame_outcomes (R:=bytes) (A:=Response) [0; 0; 0; 3; 1; 2] (Err Truncated) []).
  - change (wf_bytes [0; 0; 0; 3; 1; 2]). repeat (apply Forall_cons; split; [unfold is_u8, u8_max; lia|]). by apply Forall_nil.
  - vm_compute. exact eq_refl.
Defined.

End ProtocolSpec.
