(* ===== verification/DaemonSpec.v ===== *)
(** * The daemon's guarantees

    Permits, the long-operation flag, and the two streaming exchanges end to
    end: what a client sends as stream items is what the vault stores, and an
    exchange that does not complete stores nothing. *)

From S2P Require Import Prelude Format Crypto Witness Fs Storage Vault WitnessService Https Backup Protocol Daemon.
From S2P Require Import StorageSpec VaultSpec StreamSpec Refinement Integrity ProtocolSpec.
From Stdlib Require Import ZArith Lia.
From stdpp Require Import base numbers list gmap strings relations.

Open Scope Z_scope.
Open Scope vlt_scope.

#[local] Arguments be_bytes : simpl never.

(** ** Permits *)

Module AdmissionSpec.
Import Admission.

(** The counter counts the admitted connections, never above the limit, and
    the flag is set exactly while one connection is in a long operation. *)
Record permits_ok (max_connections : Z) (s : Permits) : Prop := {
  po_count : active_connections s = Z.of_nat (size (threads s));
  po_limit : active_connections s ≤ max_connections;
  po_long : long_operation_active s = true ↔ ∃ id, threads s !! id = Some InLongOperation;
  po_one id id' : threads s !! id = Some InLongOperation → threads s !! id' = Some InLongOperation → id = id';
}.

Lemma permits_ok_step max s s' : 0 < max ≤ usize_max → permits_ok max s → step max s s' → permits_ok max s'.
Proof.
  intros Hmax [Hc Hl Hi Ho] Hs. destruct Hs as [n l ts|n l ts|n l obs ts ?|n l obs ts ?|n l ts id Hn Hid|n a ts id Hid|
    n a ts id Hid|n l a ts id Hid|n l a ts id Hid]; simpl in *; try (by constructor).
  - constructor; simpl.
    + rewrite map_size_insert_None by done. lia.
    + lia.
    + rewrite Hi. split; intros [id' Hid']; exists id'.
      * rewrite lookup_insert_ne; [done|]. intros ->. congruence.
      * apply lookup_insert_Some in Hid' as [[_ ?]|[_ ?]]; done.
    + intros id1 id2 H1%lookup_insert_Some H2%lookup_insert_Some. destruct H1 as [[_ ?]|[_ ?]], H2 as [[_ ?]|[_ ?]]; try done. eauto.
  - constructor; simpl.
    + rewrite map_size_insert_Some by eauto. done.
    + done.
    + split; [|done]. exists id. apply lookup_insert_eq.
    + assert (∀ id', ts !! id' ≠ Some InLongOperation) as Hno by (intros id' Hid'; destruct Hi as [_ Hi]; discriminate Hi; eauto).
      intros id1 id2 H1%lookup_insert_Some H2%lookup_insert_Some.
      destruct H1 as [[<- _]|[_ H1]], H2 as [[<- _]|[_ H2]]; try done; [by destruct (Hno id2)|by destruct (Hno id1)..].
  - assert (∀ id', <[id := Serving]> ts !! id' ≠ Some InLongOperation) as Hno.
    { intros id' Hid'%lookup_insert_Some. destruct Hid' as [[_ ?]|[Hne Hid']]; [done|]. by rewrite (Ho id id') in Hne. }
    constructor; simpl.
    + rewrite map_size_insert_Some by eauto. done.
    + done.
    + split; [done|]. intros [id' Hid']. by destruct (Hno id').
    + intros id1 id2 H1. by destruct (Hno id1).
  - assert (size ts ≠ 0%nat) as Hsz by (rewrite map_size_non_empty_iff; intros ->; done).
    assert (fetch_sub n = n - 1) as E by (apply Z.mod_small; unfold usize_max in *; lia).
    constructor; simpl; rewrite ?E.
    + rewrite map_size_delete_Some by eauto. lia.
    + lia.
    + rewrite Hi. split; intros [id' Hid']; exists id'.
      * rewrite lookup_delete_ne; [done|]. intros ->. congruence.
      * by apply lookup_delete_Some in Hid' as [_ ?].
    + intros id1 id2 [_ H1]%lookup_delete_Some [_ H2]%lookup_delete_Some. eauto.
Qed.

(** Every reachable state of the permits. *)
Lemma permits_reachable max s :
  0 < max ≤ usize_max → rtc (step max) initial s →
  permits_ok max s.
Proof.
  intros Hmax Hs. assert (permits_ok max initial) as Hi.
  { constructor; simpl; [done|lia| |].
    - split; [done|]. intros [id Hid]. by rewrite lookup_empty in Hid.
    - intros id id'. by rewrite lookup_empty. }
  revert Hi. induction Hs as [|s1 s2 s3 H12 _ IH]; [done|]. intros H1. apply IH. by eapply permits_ok_step.
Qed.

End AdmissionSpec.

(** ** The binary stream of an upload *)

(** A socket delivers bytes, and [unread] counts them; what has been sent is
    what was written, the two directions are independent, and timeouts change
    neither. *)
Class UnixStreamOk (T : Type) `{UnixStream T} : Type := {
  us_read_ok :: ReadOk T;
  sent : T → bytes;
  unread_length (t : T) : unread t = length (contents t);
  contents_wf (t : T) : wf_bytes (contents t);
  write_sent data (t t' : T) : write_all data t = (true, t') → sent t' = sent t ++ data;
  write_contents data (t : T) : contents (write_all data t).2 = contents t;
  flush_sent (t : T) : sent (flush t).2 = sent t;
  flush_contents (t : T) : contents (flush t).2 = contents t;
  read_sent n (t : T) : sent (read n t).2 = sent t;
  read_timeout_frame (t : T) : peer_uid (set_read_timeout t).2 = peer_uid t ∧ sent (set_read_timeout t).2 = sent t ∧
    contents (set_read_timeout t).2 = contents t;
  write_timeout_frame (t : T) : peer_uid (set_write_timeout t).2 = peer_uid t ∧ sent (set_write_timeout t).2 = sent t ∧
    contents (set_write_timeout t).2 = contents t;
}.

Module StreamItems.
Import Protocol ProtocolSpec Stream StreamSpec.

(** What a client uploads with the bytes [bs]: the data of its items, and
    whether an end item is reached before the bytes run out or an error item
    or an invalid length comes. *)
Fixpoint scan_fuel (fuel : nat) (bs : bytes) : bytes * bool :=
  match fuel with
  | O => ([], false)
  | S fuel =>
      if (length bs <? 4)%nat then ([], false) else
      let n := from_be_bytes (take 4 bs) in
      let rest := drop 4 bs in
      if n =? STREAM_END then ([], true) else
      if (n =? STREAM_ERROR) || (MAX_STREAM_CHUNK_BYTES <? n) || (lenZ rest <? n) then ([], false) else
      let '(data, complete) := scan_fuel fuel (dropZ n rest) in (takeZ n rest ++ data, complete)
  end.
Definition scan (bs : bytes) : bytes * bool := scan_fuel (S (length bs)) bs.

(** The complete upload, if there is one. *)
Definition upload_of (bs : bytes) : option bytes := if (scan bs).2 then Some (scan bs).1 else None.

Lemma scan_fuel_enough f1 f2 bs : (length bs < f1)%nat → (length bs < f2)%nat → scan_fuel f1 bs = scan_fuel f2 bs.
Proof.
  revert f2 bs. induction f1 as [|f1 IH]; intros [|f2] bs H1 H2; try lia. cbn [scan_fuel].
  destruct (Nat.ltb_spec (length bs) 4); [done|]. destruct (_ =? _); [done|]. destruct (_ || _); [done|].
  rewrite (IH f2); [done|..]; rewrite dropZ_drop, !length_drop; lia.
Qed.

Lemma scan_item h d rest :
  length h = 4%nat → from_be_bytes h = lenZ d → 0 < lenZ d ≤ MAX_STREAM_CHUNK_BYTES →
  scan (h ++ d ++ rest) = (d ++ (scan rest).1, (scan rest).2).
Proof.
  intros Hh Hn Hd. unfold scan at 1. cbn [scan_fuel].
  destruct (Nat.ltb_spec (length (h ++ d ++ rest)) 4) as [Hl|_]; [rewrite length_app in Hl; lia|].
  rewrite take_app_length', drop_app_length', Hn by done.
  unfold MAX_STREAM_CHUNK_BYTES, STREAM_END, STREAM_ERROR, u32_max in *. rewrite !(proj2 (Z.eqb_neq _ _)) by lia.
  rewrite lenZ_app. pose proof (lenZ_nonneg rest). rewrite !(proj2 (Z.ltb_ge _ _)) by lia. cbn [orb].
  rewrite takeZ_take, dropZ_drop. replace (Z.to_nat (lenZ d)) with (length d) by (unfold lenZ; lia).
  rewrite take_app_length, drop_app_length. unfold scan.
  rewrite (scan_fuel_enough _ (S (length rest))) by (rewrite ?length_app; lia). by destruct (scan_fuel _ _).
Qed.

Lemma scan_end h rest : length h = 4%nat → from_be_bytes h = STREAM_END → scan (h ++ rest) = ([], true).
Proof.
  intros Hh Hn. unfold scan. cbn [scan_fuel].
  destruct (Nat.ltb_spec (length (h ++ rest)) 4) as [Hl|_]; [rewrite length_app in Hl; lia|].
  by rewrite take_app_length', Hn.
Qed.

(** What a client writes to upload the pieces [ds]. *)
Definition client_items (ds : list bytes) : bytes :=
  concat (map (λ d, be_bytes 4 (lenZ d) ++ d) ds) ++ be_bytes 4 STREAM_END.

Definition piece_ok (d : bytes) : Prop := 0 < lenZ d ≤ MAX_STREAM_CHUNK_BYTES.

Lemma scan_client_items ds rest : Forall piece_ok ds → scan (client_items ds ++ rest) = (concat ds, true).
Proof.
  induction 1 as [|d ds Hd _ IH].
  - apply scan_end; [apply length_be_bytes|]. apply from_be_len. unfold STREAM_END, u32_max. lia.
  - unfold client_items in *. cbn [map concat]. rewrite <-!(assoc_L (++)). rewrite scan_item; [|apply length_be_bytes| |done].
    + rewrite <-!(assoc_L (++)) in IH. by rewrite IH.
    + apply from_be_len. destruct Hd. unfold MAX_STREAM_CHUNK_BYTES, u32_max in *. lia.
Qed.

Section reader.
Context `{UnixStreamOk T} `{!Json Response}.

Lemma read_exact_four (t : T) h t' : read_exact 4 t = (Ok h, t') →
  contents t = h ++ contents t' ∧ length h = 4%nat ∧ 0 ≤ from_be_bytes h ≤ u32_max ∧ (read_rank t' ≤ read_rank t)%nat.
Proof.
  intros (Hc & Hl & Hr)%read_exact_cases; [|lia]. pose proof (contents_wf t) as Hw. rewrite Hc in Hw.
  apply wf_bytes_app in Hw as [Hw _]. apply from_be_bytes_bound in Hw. rewrite Hl in Hw.
  unfold u32_max. split_and!; [done|unfold lenZ in Hl; lia|lia|lia|done].
Qed.

(** What a successfully read item says about the socket. *)
Lemma read_item_ok (t : T) i t' :
  read_stream_item t = (Ok i, t') →
  match i with
  | ItemData d => (read_rank t' ≤ read_rank t)%nat ∧ ∃ h, contents t = h ++ d ++ contents t' ∧ length h = 4%nat ∧ from_be_bytes h = lenZ d ∧ piece_ok d
  | ItemEnd => (read_rank t' ≤ read_rank t)%nat ∧ ∃ h, contents t = h ++ contents t' ∧ length h = 4%nat ∧ from_be_bytes h = STREAM_END
  | ItemError _ => True
  end.
Proof.
  intros E. unfold read_stream_item in E. sbind_step E. apply read_exact_four in E0 as (Hc & Hl & Hb & Hr).
  destruct (Z.eqb_spec (from_be_bytes a) STREAM_END) as [He|He]; [injection E as <- <-; eauto|].
  destruct (Z.eqb_spec (from_be_bytes a) STREAM_ERROR) as [_|_].
  { sbind_step E. injection E as <- <-. done. }
  destruct (Z.ltb_spec MAX_STREAM_CHUNK_BYTES (from_be_bytes a)); [done|]. sbind_step E. injection E as <- <-.
  apply read_exact_cases in E0 as (Hc1 & Hl1 & Hr1); [|lia]. split; [lia|]. exists a. rewrite Hc, Hc1.
  unfold piece_ok, STREAM_END in *. split_and!; [done|done|done|lia|lia].
Qed.

(** What an upload still delivers to the vault. *)
Definition pending (r : StreamReader T) : bytes * bool :=
  let '(data, complete) := if sr_finished r then ([], true) else scan (contents (sr_stream r)) in
  (drop (sr_offset r) (sr_current r) ++ data, complete).

(** Handing out the available bytes. *)
Lemma copy_cases n (r : StreamReader T) :
  0 < n → (sr_offset r < length (sr_current r))%nat →
  let d := takeZ n (drop (sr_offset r) (sr_current r)) in
  let r' := mkReader (sr_stream r) (sr_current r) (sr_offset r + length d) (sr_finished r) in
  d ≠ [] ∧ lenZ d ≤ n ∧ pending r = (d ++ (pending r').1, (pending r').2) ∧ (read_rank r' < read_rank r)%nat.
Proof.
  intros Hn Ho d r'. set (avail := drop (sr_offset r) (sr_current r)) in *.
  assert (length avail = (length (sr_current r) - sr_offset r)%nat) as Hav by apply length_drop.
  assert (d = take (Z.to_nat n) avail) as Hd by apply takeZ_take.
  assert (length d ≤ length avail ∧ 0 < length d)%nat as [Hdl Hd0] by (rewrite Hd, length_take; lia).
  split_and!.
  - by destruct d; [simpl in Hd0; lia|].
  - rewrite Hd. unfold lenZ. rewrite length_take. lia.
  - unfold pending, r'. cbn [sr_stream sr_current sr_offset sr_finished].
    destruct (if sr_finished r then _ else _) as [data complete]. cbn [fst snd].
    rewrite (assoc_L (++)). f_equal. f_equal. rewrite <-drop_drop. fold avail.
    assert (∃ e, avail = d ++ e) as [e He] by (exists (drop (Z.to_nat n) avail); by rewrite Hd, take_drop).
    rewrite He at 2. by rewrite drop_app_length.
  - unfold r'. simpl. lia.
Qed.

Lemma read_ok_cases n (r : StreamReader T) o r' :
  0 < n → read n r = (o, r') → o ≠ ReadFailed →
  ∃ d, o = ReadData d ∧ lenZ d ≤ n ∧ pending r = (d ++ (pending r').1, (pending r').2) ∧
    (read_rank r' ≤ read_rank r)%nat ∧ (d = [] → pending r = ([], true)) ∧ (d ≠ [] → (read_rank r' < read_rank r)%nat).
Proof.
  intros Hn E Ho. simpl in E. unfold reader_read in E. rewrite (proj2 (Z.eqb_neq n 0)) in E by lia.
  cbn [fill] in E. destruct (Nat.eqb_spec (sr_offset r) (length (sr_current r))) as [He|He]; cbn [negb] in E.
  2: { destruct (Nat.ltb_spec (length (sr_current r)) (sr_offset r)); [by injection E as <- <-|].
       injection E as <- <-. destruct (copy_cases n r Hn) as (? & ? & ? & ?); [lia|].
       eexists. split_and!; [done|done|done|by apply Nat.lt_le_incl|done|done]. }
  assert (drop (sr_offset r) (sr_current r) = []) as Hav by (apply drop_ge; lia).
  destruct (sr_finished r) eqn:Hf; cbn [sr_finished sr_stream] in E.
  { injection E as <- <-. exists []. unfold pending. cbn [sr_finished sr_offset sr_current sr_stream]. rewrite Hf, Hav.
    split_and!; [done|unfold lenZ; simpl; lia|done|simpl; lia|done|done]. }
  destruct (read_stream_item (sr_stream r)) as [[[d| |]|] t] eqn:Ei; try (by injection E as <- <-); apply read_item_ok in Ei.
  - destruct Ei as (Hr & h & Hc & Hh & Hb & Hp). set (r1 := mkReader t d 0 false) in *.
    assert (0 < length d)%nat as Hd by (destruct Hp; unfold lenZ in *; lia).
    assert (fill (read_rank (sr_stream r)) r1 = (None, r1)) as Ef.
    { destruct (read_rank (sr_stream r)); cbn [fill]; unfold r1; cbn [sr_offset sr_current];
        by rewrite (proj2 (Nat.eqb_neq 0 (length d))) by lia. }
    rewrite Ef in E. destruct (Nat.ltb_spec (length (sr_current r1)) (sr_offset r1)); [by injection E as <- <-|].
    injection E as <- <-. destruct (copy_cases n r1 Hn) as (Hne & Hle & Hp1 & Hk); [done|].
    assert (read_rank r1 ≤ read_rank r)%nat as Hr1 by (unfold r1; simpl; rewrite !unread_length, Hc, !length_app; lia).
    eexists. split; [done|]. split; [exact Hle|]. split.
    { etrans; [|exact Hp1]. unfold pending, r1. cbn [sr_finished sr_offset sr_current sr_stream]. rewrite Hf, Hav, Hc, scan_item by done.
      rewrite drop_0. by destruct (scan (contents t)). }
    split; [etrans; [apply Nat.lt_le_incl, Hk|done]|]. split; [done|]. intros _. eapply Nat.lt_le_trans; [exact Hk|done].
  - destruct Ei as (Hr & h & Hc & Hh & Hb). injection E as <- <-. exists []. unfold pending. cbn [sr_finished sr_offset sr_current sr_stream].
    rewrite Hf, Hav, Hc, scan_end by done. split_and!; [done|unfold lenZ; simpl; lia|done| |done|done].
    simpl. rewrite !unread_length, Hc, length_app. lia.
Qed.

#[global] Program Instance stream_reader_ok : ReadOk (StreamReader T) := { contents r := (pending r).1 }.
Next Obligation.
  intros n r d r' Hn E. destruct (read_ok_cases n r _ r' Hn E) as (d' & [= <-] & Hl & Hp & _ & He & _); [done|].
  split_and!; [by rewrite Hp|done|]. intros Hd. by rewrite (He Hd).
Qed.
Next Obligation.
  intros n r r' Hn E. by destruct (read_ok_cases n r _ r' Hn E) as (d' & ? & _).
Qed.
Next Obligation. intros n r o r' Hn E Ho. destruct (read_ok_cases n r _ r' Hn E Ho) as (d' & _ & _ & _ & ? & _). done. Qed.
Next Obligation.
  intros n r o r' Hn E Ho Hne. destruct (read_ok_cases n r _ r' Hn E Ho) as (d' & -> & _ & _ & _ & _ & Hlt).
  apply Hlt. by intros ->.
Qed.

(** A reader whose end was reached had the whole upload before it. *)
Lemma complete_at_end : at_end (λ r : StreamReader T, (pending r).2 = true).
Proof.
  split_and!.
  - intros n r r' Hn E. destruct (read_ok_cases n r _ r' Hn E) as (d' & [= <-] & _ & _ & _ & He & _); [done|]. by rewrite He.
  - intros n r d r' Hn E. by destruct (read_ok_cases n r _ r' Hn E) as (d' & [= <-] & _ & -> & _); [done|].
  - intros n r r' Hn E. by destruct (read_ok_cases n r _ r' Hn E) as (d' & ? & _).
Qed.

End reader.

(** ** Writing to a socket *)

Section writer.
Context `{UnixStreamOk T} `{!Json Response}.

(** [m] sends exactly [out] when it succeeds, and never affects what arrives. *)
Definition sends {A} (m : M T ProtocolError A) (out : bytes → Prop) : Prop :=
  ∀ t r t', m t = (r, t') → contents t' = contents t ∧ ∀ a, r = Ok a → ∃ o, out o ∧ sent t' = sent t ++ o.

Lemma sends_bytes data : sends (write_bytes data) (eq data).
Proof.
  intros t r t' E. unfold write_bytes in E. destruct (write_all data t) as [ok t1] eqn:E1. injection E as <- <-.
  split; [by pose proof (write_contents data t) as Hc; rewrite E1 in Hc|]. intros a Ha. exists data. split; [done|].
  destruct ok; [by apply write_sent|done].
Qed.

Lemma sends_flush : sends flush_writer (eq []).
Proof.
  intros t r t' E. unfold flush_writer in E. pose proof (flush_sent t) as Hs. pose proof (flush_contents t) as Hc.
  destruct (flush t) as [ok t1]. injection E as <- <-. split; [done|]. intros a Ha. exists []. split; [done|]. by rewrite app_nil_r.
Qed.

Lemma sends_bind {A B} (m : M T ProtocolError A) (k : A → M T ProtocolError B) P Q :
  sends m P → (∀ a, sends (k a) Q) → sends (sbind m k) (λ o, ∃ o1 o2, o = o1 ++ o2 ∧ P o1 ∧ Q o2).
Proof.
  intros Hm Hk t r t' E. unfold sbind in E. destruct (m t) as [[a|e] t1] eqn:E1; destruct (Hm _ _ _ E1) as [Hc1 Hs1].
  - destruct (Hk a _ _ _ E) as [Hc2 Hs2]. split; [congruence|]. intros b Hb.
    destruct (Hs1 a eq_refl) as (o1 & ? & Ho1), (Hs2 b Hb) as (o2 & ? & Ho2).
    exists (o1 ++ o2). split; [eauto 10|]. by rewrite Ho2, Ho1, (assoc_L (++)).
  - injection E as <- <-. done.
Qed.

Lemma sends_lift {A} (r : result A ProtocolError) : sends (slift r) (eq []).
Proof. intros t r' t' [= <- <-]. split; [done|]. intros a _. exists []. by rewrite app_nil_r. Qed.

Lemma sends_throw {A} e P : sends (sthrow (A:=A) e) P.
Proof. by intros t r' t' [= <- <-]. Qed.

Lemma sends_impl {A} (m : M T ProtocolError A) (P Q : bytes → Prop) : (∀ o, P o → Q o) → sends m P → sends m Q.
Proof. intros HPQ Hm t r t' E. destruct (Hm _ _ _ E) as [? Hs]. split; [done|]. intros a Ha. destruct (Hs a Ha) as (o & ? & ?). eauto. Qed.

(** A length prefix and its bytes. *)
Lemma sends_prefixed n body :
  sends (write_bytes (be_bytes 4 n) ;* write_bytes body ;* flush_writer) (eq (be_bytes 4 n ++ body)).
Proof.
  eapply sends_impl; [|eapply sends_bind; [apply sends_bytes|intros _; eapply sends_bind; [apply sends_bytes|intros _; apply sends_flush]]].
  intros o (o1 & o2 & -> & <- & o3 & o4 & -> & <- & <-). by rewrite app_nil_r.
Qed.

Lemma sends_frame {A} `{!Json A} (a : A) : sends (write_frame a) (λ o, frame a = Some o).
Proof.
  intros t r t' E. unfold write_frame, frame in *. unfold sbind at 1, slift in E.
  destruct (json_to_vec a) as [body|]; cbn [ok_or mbind option_bind] in *; [|by injection E as <- <-].
  destruct (_ || _) eqn:Eb; [by injection E as <- <-|]. unfold sbind at 1, slift in E. rewrite u32_len in E.
  2: { apply orb_false_iff in Eb as [_ Eb]. pose proof (lenZ_nonneg body). lia. }
  cbn [ok_or] in E. apply sends_prefixed in E as [? Hs]. split; [done|]. intros b Hb. destruct (Hs b Hb) as (o & <- & ?). eauto.
Qed.

Lemma sends_item d : sends (write_stream_chunk d) (λ o, piece_ok d ∧ o = be_bytes 4 (lenZ d) ++ d).
Proof.
  intros t r t' E. unfold write_stream_chunk in *. destruct (_ || _) eqn:Eb; [by injection E as <- <-|].
  apply orb_false_iff in Eb as [Eb1%bool_decide_eq_false Eb2%Z.ltb_ge].
  assert (0 < lenZ d) by (destruct d; [done|unfold lenZ; simpl; lia]).
  unfold sbind at 1, slift in E. rewrite u32_len in E by (unfold MAX_STREAM_CHUNK_BYTES, MAX_FRAME_BYTES in *; lia).
  cbn [ok_or] in E. apply sends_prefixed in E as [? Hs]. split; [done|]. intros b Hb. destruct (Hs b Hb) as (o & <- & ?).
  eexists. by split; [split|].
Qed.

Lemma sends_stream_error resp : sends (write_stream_error resp) (λ o, item_bytes (ItemError resp) = Some o).
Proof.
  eapply sends_impl; [|eapply sends_bind; [apply sends_bytes|intros _; apply sends_frame]].
  intros o (o1 & o2 & -> & <- & Hf). unfold item_bytes. by rewrite Hf.
Qed.

Lemma sends_stream_end : sends write_stream_end (eq (be_bytes 4 STREAM_END)).
Proof.
  eapply sends_impl; [|eapply sends_bind; [apply sends_bytes|intros _; apply sends_flush]].
  intros o (o1 & o2 & -> & <- & <-). by rewrite app_nil_r.
Qed.

(** A connection on which no write fails. *)
Definition reliable : Prop := (∀ data (t : T), (write_all data t).1 = true) ∧ ∀ t : T, (flush t).1 = true.

Lemma reliable_bytes data (t : T) : reliable → ∃ t', write_bytes data t = (Ok tt, t').
Proof. intros [Hw _]. specialize (Hw data t). unfold write_bytes. destruct (write_all data t) as [ok t1]. simpl in Hw. subst. eauto. Qed.

Lemma reliable_flush (t : T) : reliable → ∃ t', flush_writer t = (Ok tt, t').
Proof. intros [_ Hf]. specialize (Hf t). unfold flush_writer. destruct (flush t) as [ok t1]. simpl in Hf. subst. eauto. Qed.

Lemma reliable_prefixed n body (t : T) :
  reliable → ∃ t', (write_bytes (be_bytes 4 n) ;* write_bytes body ;* flush_writer) t = (Ok tt, t').
Proof.
  intros Hr. unfold sbind. destruct (reliable_bytes (be_bytes 4 n) t Hr) as [t1 ->].
  destruct (reliable_bytes body t1 Hr) as [t2 ->]. by apply reliable_flush.
Qed.

Lemma reliable_frame {A} `{!Json A} (a : A) f (t : T) : reliable → frame a = Some f → ∃ t', write_frame a t = (Ok tt, t').
Proof.
  intros Hr. unfold frame, write_frame. unfold sbind at 1, slift. destruct (json_to_vec a) as [body|]; [|done]. cbn [mbind option_bind ok_or].
  destruct (_ || _) eqn:El; [done|]. intros _. apply orb_false_iff in El as [_ El%Z.ltb_ge]. pose proof (lenZ_nonneg body).
  unfold sbind at 1. rewrite u32_len by lia. cbn [ok_or]. by apply reliable_prefixed.
Qed.

Lemma reliable_item d (t : T) : reliable → piece_ok d → ∃ t', write_stream_chunk d t = (Ok tt, t').
Proof.
  intros Hr [H1 H2]. unfold write_stream_chunk. rewrite bool_decide_eq_false_2 by (intros ->; unfold lenZ in H1; simpl in H1; lia).
  rewrite (proj2 (Z.ltb_ge _ _)) by done. cbn [orb]. unfold sbind at 1, slift.
  rewrite u32_len by (unfold MAX_STREAM_CHUNK_BYTES, MAX_FRAME_BYTES in *; lia). cbn [ok_or]. by apply reliable_prefixed.
Qed.

Lemma reliable_end (t : T) : reliable → ∃ t', write_stream_end t = (Ok tt, t').
Proof.
  intros Hr. unfold write_stream_end, sbind. destruct (reliable_bytes (be_bytes 4 STREAM_END) t Hr) as [t1 ->]. by apply reliable_flush.
Qed.

End writer.

End StreamItems.

(** ** What a vault operation may do to the argument it borrows *)

Module Borrowed.
Import VaultSpec StreamSpec.

(** [Q] holds of the argument after [m] when it held before. *)
Definition arg_inv {X A} (Q : X → Prop) (m : Op X A) : Prop := ∀ s r s', m s = (r, s') → Q s.2 → Q s'.2.

Section arg_inv.
Context {X : Type} (Q : X → Prop).

Lemma arg_inv_bind {A B} (m : Op X A) (k : A → Op X B) : arg_inv Q m → (∀ a, arg_inv Q (k a)) → arg_inv Q (sbind m k).
Proof.
  intros Hm Hk s r s' E HQ. unfold sbind in E. destruct (m s) as [[a|e] s1] eqn:E1.
  - eapply Hk; [done|]. by eapply Hm.
  - injection E as <- <-. by eapply Hm.
Qed.

Lemma arg_inv_const {A} (f : VS X → Result A) : arg_inv Q (λ s, (f s, s)).
Proof. by intros s r s' [= <- <-]. Qed.
Lemma arg_inv_ret {A} (a : A) : arg_inv Q (sret a).
Proof. by intros s r s' [= <- <-]. Qed.
Lemma arg_inv_throw {A} e : arg_inv Q (sthrow (A:=A) e).
Proof. by intros s r s' [= <- <-]. Qed.
Lemma arg_inv_lift {A} (r : Result A) : arg_inv Q (slift r).
Proof. by intros s r' s' [= <- <-]. Qed.
Lemma arg_inv_gets {A} (f : VS X → A) : arg_inv Q (sgets f).
Proof. by intros s r' s' [= <- <-]. Qed.
Lemma arg_inv_world {A} (m : IO A) : arg_inv Q (Vault.on_world m).
Proof. by intros s r s' (w' & _ & ->)%on_world_eq. Qed.
Lemma arg_inv_arg {A} (m : M X VaultError A) : (∀ x r x', m x = (r, x') → Q x → Q x') → arg_inv Q (Vault.on_arg m).
Proof.
  intros Hm s r s' E. unfold Vault.on_arg, szoom in E. destruct (m s.2) as [r1 x1] eqn:E1. injection E as <- <-. by eapply Hm.
Qed.

End arg_inv.

Create HintDb arg discriminated.
#[local] Hint Resolve arg_inv_ret arg_inv_throw arg_inv_lift arg_inv_gets arg_inv_world : arg.
Ltac arg_step := repeat first [solve [auto with arg] | apply arg_inv_bind; [|intros ?] | case_match].

Section reads.
Context `{Primitives} `{Read R} (Q : R → Prop) (HQ : ∀ n r, Q r → Q (read n r).2).

Lemma read_next_chunk_inv size r res r' : Vault.read_next_chunk size r = (res, r') → Q r → Q r'.
Proof.
  unfold Vault.read_next_chunk. generalize (S (read_rank r)) as fuel. generalize ([] : bytes) as filled. intros filled fuel.
  revert filled r. induction fuel as [|fuel IH]; intros filled r; simpl; destruct (_ <=? _); try (by intros [= _ <-]).
  specialize (HQ (size - lenZ filled) r). destruct (read (size - lenZ filled) r) as [[[|b d]| |] r1]; simpl in HQ;
    try (by intros [= _ <-]); eauto.
Qed.

Lemma upload_loop_inv fuel vault o x dek size u : arg_inv Q (Vault.upload_loop (R:=R) fuel vault o x dek size u).
Proof.
  revert u. induction fuel as [|fuel IH]; intros u; cbn [Vault.upload_loop];
    (apply arg_inv_bind; [apply arg_inv_arg; apply read_next_chunk_inv|intros buf]); unfold Vault.random; arg_step.
Qed.

Lemma arg_inv_dropping {A} p (m : Op R A) : arg_inv Q m → arg_inv Q (Vault.dropping_publication p m).
Proof.
  intros Hm s r s' E HQs. unfold Vault.dropping_publication in E. destruct (m s) as [[a|e] [[v w] x]] eqn:E1;
    injection E as <- <-; exact (Hm _ _ _ E1 HQs).
Qed.

Lemma put_from_reader_inv o size : arg_inv Q (Vault.put_from_reader_inner (R:=R) o size).
Proof.
  unfold Vault.put_from_reader_inner, Vault.require_root_key, Vault.the_vault, Vault.random. arg_step.
  apply arg_inv_dropping. unfold Vault.upload, Vault.random. arg_step. apply upload_loop_inv.
Qed.

End reads.
End Borrowed.

(** ** A writer that records what it is given

    When every write of a verified read succeeds, the read does exactly what
    it does into a vector, and the writer has been given the vector's bytes. *)

Module Recorded.
Import VaultSpec.

Section recorded.
Context `{Primitives} `{Write W} (Rel : W → bytes → Prop).
Context (Hrel : ∀ out b d out', Rel out b → write_all d out = (true, out') → Rel out' (b ++ d)).

Definition recorded {A} (m1 : Op W A) (m2 : Op bytes A) : Prop :=
  ∀ vw out b a s', Rel out b → m1 (vw, out) = (Ok a, s') → ∃ b', m2 (vw, b) = (Ok a, (s'.1, b')) ∧ Rel s'.2 b'.

Lemma recorded_bind {A B} (m1 : Op W A) m2 (k1 : A → Op W B) k2 :
  recorded m1 m2 → (∀ a, recorded (k1 a) (k2 a)) → recorded (sbind m1 k1) (sbind m2 k2).
Proof.
  intros Hm Hk vw out b c s' HR (a & [vw1 out1] & E1 & E2)%sbind_ok.
  destruct (Hm _ _ _ _ _ HR E1) as (b1 & F1 & HR1). rewrite (sbind_eq _ _ _ _ _ F1). by eapply Hk.
Qed.

Lemma recorded_ret {A} (a : A) : recorded (sret a) (sret a).
Proof. intros vw out b a' s' HR [= <- <-]. by exists b. Qed.
Lemma recorded_throw {A} e : recorded (sthrow (A:=A) e) (sthrow e).
Proof. by intros vw out b a' s' HR. Qed.
Lemma recorded_lift {A} (r : Result A) : recorded (slift r) (slift r).
Proof. intros vw out b a' s' HR [= -> <-]. by exists b. Qed.
Lemma recorded_vault : recorded Vault.the_vault Vault.the_vault.
Proof. intros vw out b a' s' HR [= <- <-]. by exists b. Qed.
Lemma recorded_world {A} (m : IO A) : recorded (Vault.on_world m) (Vault.on_world m).
Proof.
  intros vw out b a s' HR (w' & E & ->)%on_world_eq. exists b. split; [|done]. unfold Vault.on_world, szoom. simpl in *. by rewrite E.
Qed.

(** A visit that does not touch the writer. *)
Lemma recorded_visiting {A} (a0 : A) m :
  recorded (Vault.visiting (λ _, a0) (λ _ out, out) m) (Vault.visiting (λ _, a0) (λ _ out, out) m).
Proof.
  intros [v w] out b a s' HR E. unfold Vault.visiting in *. destruct (m (w, a0)) as [[[]|] [w1 a1]]; [|done].
  injection E as <- <-. by exists b.
Qed.

Lemma write_visitor_recorded vault o x m key c n out n' out' b :
  Rel out b → Vault.write_visitor vault o x m key c (n, out) = (Ok tt, (n', out')) →
  ∃ b', Vault.write_visitor vault o x m key c (n, b) = (Ok tt, (n', b')) ∧ Rel out' b'.
Proof.
  intros HR E. unfold Vault.write_visitor in *. sbind_step E. injection E0 as E0 <-. rewrite (sbind_eq _ _ _ a (n, b)) by (unfold slift; by rewrite E0).
  sbind_step E. injection E1 as E1 <-. rewrite (sbind_eq _ _ _ a0 (n, b)) by (unfold slift; by rewrite E1).
  destruct (negb (lenZ a0 =? a)); [done|]. sbind_step E. simpl in E2.
  destruct (write_all a0 out) as [ok out1] eqn:Ew. injection E2 as <- <-. unfold sbind. simpl. destruct ok; [|done]. simpl in *.
  destruct (u64_checked_add n a) as [k|]; [|done]. injection E as <- <-. exists (b ++ a0). split; [done|]. by eapply Hrel.
Qed.

(** One row: the fault schedule decides alike for any visitor state. *)
Lemma visit_rows_eq {A} rows (visit : EncryptedChunk → M A VaultError unit) w a :
  Storage.visit_rows rows visit (w, a) =
  match in_env io_fault w with
  | (Ok false, w1) =>
      match rows with
      | [] => (Ok tt, (w1, a))
      | (index, row) :: rows =>
          match Storage.chunk_of_row index row with
          | Err e => (Err e, (w1, a))
          | Ok chunk =>
              match visit chunk a with
              | (Ok _, a1) => Storage.visit_rows rows visit (w1, a1)
              | (Err e, a1) => (Err e, (w1, a1))
              end
          end
      end
  | (_, w1) => (Err Storage, (w1, a))
  end.
Proof.
  destruct rows as [|[i row] rows]; cbn [Storage.visit_rows]; unfold sbind at 1, szoom at 1; cbn [fst snd];
    unfold in_env, io_fault, szoom; cbn [w_env]; destruct (env_faults _ _); try done.
  unfold sbind, slift, szoom. cbn [fst snd]. destruct (Storage.chunk_of_row i row); [|done]. by destruct (visit a0 a) as [[]].
Qed.

Lemma visit_rows_recorded vault o x m key rows w n out w' n' out' b :
  Rel out b →
  Storage.visit_rows rows (Vault.write_visitor vault o x m key) (w, (n, out)) = (Ok tt, (w', (n', out'))) →
  ∃ b', Storage.visit_rows rows (Vault.write_visitor vault o x m key) (w, (n, b)) = (Ok tt, (w', (n', b'))) ∧ Rel out' b'.
Proof.
  revert w n out b. induction rows as [|[i row] rows IH]; intros w n out b HR; rewrite !visit_rows_eq;
    destruct (in_env io_fault w) as [[[]|] w1]; try done.
  - intros [= <- <- <-]. by exists b.
  - destruct (Storage.chunk_of_row i row) as [c|]; [|done].
    destruct (Vault.write_visitor vault o x m key c (n, out)) as [[[]|] [n1 out1]] eqn:E; [|done].
    destruct (write_visitor_recorded _ _ _ _ _ _ _ _ _ _ _ HR E) as (b1 & -> & HR1). by apply IH.
Qed.

Lemma visit_chunks_recorded vault o x m key vid w n out w' n' out' b :
  Rel out b →
  Storage.visit_chunks vid (Vault.write_visitor vault o x m key) (w, (n, out)) = (Ok tt, (w', (n', out'))) →
  ∃ b', Storage.visit_chunks vid (Vault.write_visitor vault o x m key) (w, (n, b)) = (Ok tt, (w', (n', b'))) ∧ Rel out' b'.
Proof.
  intros HR. unfold Storage.visit_chunks, sbind, szoom. cbn [fst snd].
  destruct (Sql.query _ w) as [[rows|] w1]; [|done]. by apply visit_rows_recorded.
Qed.

(** The writing pass, followed by anything that ignores the writer. *)
Lemma recorded_writing {B} vault o x m key vid (k1 : Z → Op W B) k2 :
  (∀ n, recorded (k1 n) (k2 n)) →
  recorded
    (let* (n, _) := Vault.visiting (λ out, (0, out)) (λ a _, a.2) (Storage.visit_chunks vid (Vault.write_visitor vault o x m key)) in k1 n)
    (let* (n, _) := Vault.visiting (λ out, (0, out)) (λ a _, a.2) (Storage.visit_chunks vid (Vault.write_visitor vault o x m key)) in k2 n).
Proof.
  intros Hk [v w] out b a s' HR E. unfold sbind, Vault.visiting in *.
  destruct (Storage.visit_chunks vid _ (w, (0, out))) as [[[]|] [w1 [n1 out1]]] eqn:E1; [|done].
  destruct (visit_chunks_recorded _ _ _ _ _ _ _ _ _ _ _ _ _ HR E1) as (b1 & -> & HR1). by eapply Hk.
Qed.

Lemma get_recorded o : recorded (Vault.get_to_writer_inner o) (Vault.get_to_writer_inner o).
Proof.
  unfold Vault.get_to_writer_inner, Vault.require_root_key.
  repeat first [apply recorded_writing; intros ? | apply recorded_bind; [|intros ?] | case_match
    | solve [apply recorded_ret | apply recorded_throw | apply recorded_lift | apply recorded_vault | apply recorded_world
             | apply recorded_visiting]].
Qed.

End recorded.

(** ** What every read, failed or not, does to its writer *)

Section written.
Context `{Primitives} `{Write W} (Q : W → Prop) (HQ : ∀ d out, Q out → Q (write_all d out).2).

Lemma write_visitor_inv vault o x m key c a r a' :
  Vault.write_visitor vault o x m key c a = (r, a') → Q a.2 → Q a'.2.
Proof.
  destruct a as [n out]. unfold Vault.write_visitor, sbind, slift, sthrow. cbn [snd].
  destruct (Vault.expected_plaintext_chunk_len _ _) as [len|]; [|by intros [= _ <-]].
  destruct (Crypto.open _ _ _) as [pt|]; [|by intros [= _ <-]].
  destruct (negb _); [by intros [= _ <-]|]. cbn [fst snd]. pose proof (HQ pt out) as Hd.
  destruct (write_all pt out) as [[] out1]; cbn [negb fst snd] in *; [|intros ?; simplify_eq/=; auto].
  destruct (u64_checked_add n len); intros ?; simplify_eq/=; auto.
Qed.

Lemma visit_rows_borrows vault o x m key rows s r s' :
  Storage.visit_rows rows (Vault.write_visitor vault o x m key) s = (r, s') → Q s.2.2 → Q s'.2.2.
Proof.
  revert s. induction rows as [|[i row] rows IH]; intros [w a]; rewrite visit_rows_eq;
    destruct (in_env io_fault w) as [[[]|] w1]; try (by intros [= _ <-]).
  destruct (Storage.chunk_of_row i row) as [c|]; [|by intros [= _ <-]].
  destruct (Vault.write_visitor vault o x m key c a) as [[u|e] a1] eqn:E; intros E1 Ha; pose proof (write_visitor_inv _ _ _ _ _ _ _ _ _ E Ha).
  - by eapply IH.
  - by injection E1 as _ <-.
Qed.

Lemma visit_chunks_inv vault o x m key vid s r s' :
  Storage.visit_chunks vid (Vault.write_visitor vault o x m key) s = (r, s') → Q s.2.2 → Q s'.2.2.
Proof.
  unfold Storage.visit_chunks, sbind, szoom. destruct s as [w a]. cbn [fst snd].
  destruct (Sql.query _ w) as [[rows|] w1]; [apply visit_rows_borrows|by intros [= _ <-]].
Qed.

Lemma get_to_writer_borrows o : Borrowed.arg_inv Q (Vault.get_to_writer_inner o).
Proof.
  unfold Vault.get_to_writer_inner, Vault.require_root_key, Vault.the_vault.
  repeat first [apply Borrowed.arg_inv_bind; [|intros ?] | case_match
    | solve [apply Borrowed.arg_inv_ret | apply Borrowed.arg_inv_throw | apply Borrowed.arg_inv_lift
            | apply Borrowed.arg_inv_gets | apply Borrowed.arg_inv_world]].
  - intros [[v w] out] r s'. unfold Vault.visiting. destruct (Storage.visit_chunks _ _ _) as [[] [w1 y1]]; by intros [= _ <-].
  - intros [[v w] out] r s'. unfold Vault.visiting. destruct (Storage.visit_chunks _ _ _) as [r1 [w1 y1]] eqn:E.
    destruct r1; intros [= _ <-] Ho; by eapply visit_chunks_inv in E.
Qed.

End written.
End Recorded.

(** ** Exchanges *)

Module DaemonSpec.
Import Protocol ProtocolSpec Stream StreamItems StorageSpec VaultSpec StreamSpec Borrowed Daemon.

Section sent.
Context `{UnixStreamOk T} `{!Json Response}.

(** Reading sends nothing. *)
Definition quietly {A} (m : M T ProtocolError A) : Prop := ∀ t, sent (m t).2 = sent t.

Lemma quietly_bind {A B} (m : M T ProtocolError A) (k : A → M T ProtocolError B) :
  quietly m → (∀ a, quietly (k a)) → quietly (sbind m k).
Proof.
  intros Hm Hk t. unfold sbind. specialize (Hm t). destruct (m t) as [[a|e] t1]; simpl in *; [|done]. by rewrite Hk.
Qed.

Lemma quietly_read_exact n : quietly (read_exact n).
Proof.
  intros t. unfold read_exact. generalize (S (read_rank t)) as fuel. generalize ([] : bytes) as filled. intros filled fuel.
  revert filled t. induction fuel as [|fuel IH]; intros filled t; simpl; destruct (_ <=? _); try done.
  pose proof (read_sent (n - lenZ filled) t) as Hs. destruct (read (n - lenZ filled) t) as [[[|b d]| |] t1]; simpl in *;
    try done; by rewrite IH.
Qed.

Lemma quietly_read_frame {A} `{!Json A} : quietly (read_frame (A:=A)).
Proof.
  apply quietly_bind; [apply quietly_read_exact|]. intros a. cbv zeta. case_match; [done|].
  apply quietly_bind; [apply quietly_read_exact|done].
Qed.

Lemma quietly_read_item : quietly read_stream_item.
Proof.
  apply quietly_bind; [apply quietly_read_exact|]. intros a. cbv zeta. case_match; [done|]. case_match.
  { apply quietly_bind; [apply quietly_read_frame|done]. }
  case_match; [done|]. apply quietly_bind; [apply quietly_read_exact|done].
Qed.

Lemma fill_sent fuel (r : StreamReader T) : sent (sr_stream (fill fuel r).2) = sent (sr_stream r).
Proof.
  revert r. induction fuel as [|fuel IH]; intros r; cbn [fill]; (case_match; [done|]); cbn [sr_finished sr_stream]; (case_match; [done|]); [done|].
  pose proof (quietly_read_item (sr_stream r)) as Hs. destruct (read_stream_item (sr_stream r)) as [[[]|] t]; simpl in *; try done.
  by rewrite IH.
Qed.

Lemma reader_sent n (r : StreamReader T) : sent (sr_stream (read n r).2) = sent (sr_stream r).
Proof.
  simpl. unfold reader_read. case_match; [done|]. pose proof (fill_sent (S (read_rank (sr_stream r))) r) as Hs.
  destruct (fill _ r) as [[o|] r1]; [done|]. by case_match.
Qed.

End sent.

(** *** Uploading *)

Section exchanges.
Context `{PrimitivesOk} `{!Json Response} {Net : Type} `{UnixStreamOk T}.

Lemma on_stream_cases {A} what (m : M T ProtocolError A) P (h : Host Net) t r h' t' :
  sends m P → on_stream what m (h, t) = (r, (h', t')) →
  h' = h ∧ contents t' = contents t ∧ ∀ a, r = Ok a → ∃ o, P o ∧ sent t' = sent t ++ o.
Proof.
  intros Hm E. unfold on_stream, smap_err, szoom in E. cbn [fst snd] in E. destruct (m t) as [r1 t1] eqn:E1.
  destruct (Hm _ _ _ E1) as [Hc Hs]. destruct r1 as [a|e]; injection E as <- <- <-; split_and!; try done. intros a' [= <-]. exact (Hs _ eq_refl).
Qed.

(** Reading the object with the vault's key returns [pt]. *)
Definition reads_back (v : Vault) (db : Db) (o : ObjectId) (pt : bytes) : Prop :=
  ∀ w, w_db w = db → no_faults w → ∃ w', Vault.get o ((v, w), tt) = (Ok pt, ((v, w'), tt)) ∧ w_db w' = db.

Lemma stored_reads_back v root_key db o pt :
  v_root_key v = Some root_key → stored (v_vault_id v) root_key db o pt → reads_back v db o pt.
Proof.
  intros Hk Hst w <- Hn. destruct (get_to_writer_reads v w ([] : bytes) root_key o pt Hk Hst) as (w3 & Ht & [Hc|[_ Hf]]); [|done].
  exists w3. split; [|apply Ht]. unfold Vault.get, Vault.lock_after_failure, Vault.get_inner. by rewrite Hc.
Qed.

Lemma receive_cases o v (h : Host Net) t r h' (t' : T) :
  wf_id o → wf_id (v_vault_id v) → db_wf (w_db (h_world h)) →
  receive o v (h, t) = (r, (h', t')) →
  ∃ res, r = Ok res ∧ is_long h' = is_long h ∧ sent t' = sent t ∧
    ((is_ok res = false ∧ w_db (h_world h') = w_db (h_world h)) ∨
     ∃ data, upload_of (contents t) = Some data ∧ reads_back v (w_db (h_world h')) o data).
Proof.
  intros Ho Hv Hwf E. unfold receive, on_vault in E.
  destruct (Vault.put_from_reader o ((v, h_world h), new t)) as [res [[v' w'] rd]] eqn:E1. injection E as <- <- <-.
  exists res. split; [done|]. split; [done|]. unfold Vault.put_from_reader, Vault.put_from_reader_with_chunk_size in E1.
  apply Refinement.lock_after_failure_eq in E1 as (s1 & E1 & Ew & Ex & _). simpl in Ew, Ex. split.
  - pose proof (put_from_reader_inv (λ r : StreamReader T, sent (sr_stream r) = sent t)) as Hi.
    rewrite Ex. eapply Hi; [|exact E1|done]. intros n r0 Hr0. by rewrite reader_sent.
  - apply put_from_reader_effect in E1 as [[Hr Hdb]|[Hend (sv & cs & rk & Hk & <- & Hdb & Hadm & Hse & _)]]; [|  |done..].
    + left. split; [done|]. simpl. by rewrite Ew.
    + right. specialize (Hend _ complete_at_end). simpl in Hend, Hdb, Hse, Hadm, Hk.
      exists (pending (new t)).1. unfold pending, new in *. simpl in *. split.
      * unfold upload_of. by destruct (scan (contents t)) as [data []].
      * simpl. rewrite Ew, Hdb. eapply stored_reads_back; [done|]. by apply stored_published.
Qed.

Lemma digit_value_bound c n : digit_value c = Some n → 0 ≤ n < 16.
Proof.
  unfold digit_value, is_ascii_digit. destruct (_ && _) eqn:E1; [intros [= <-]; lia|].
  destruct ((97 <=? c) && _) eqn:E2; [intros [= <-]; lia|]. destruct ((65 <=? c) && _) eqn:E3; [intros [= <-]; lia|done].
Qed.

Lemma radix16_u8 pair n : u8_from_str_radix16 pair = Some n → is_u8 n.
Proof.
  unfold u8_from_str_radix16, is_u8, u8_max. destruct pair as [|x [|y [|]]]; try done. case_decide.
  - intros ?%digit_value_bound. lia.
  - destruct (digit_value x) eqn:Ex; [|done]. destruct (digit_value y) eqn:Ey; [|done].
    apply digit_value_bound in Ex, Ey. intros [= <-]. lia.
Qed.

Lemma parse_pairs_wf k s bs : (length s ≤ k)%nat → parse_pairs s = Some bs → wf_bytes bs.
Proof.
  revert s bs. induction k as [|k IH]; intros [|x [|y s]] bs Hk; simpl in Hk; try lia; try (intros [= <-]; constructor).
  cbn [parse_pairs]. destruct (u8_from_str_radix16 [x; y]) as [n|] eqn:En; [|done].
  destruct (parse_pairs s) as [ns|] eqn:Es; [|done]. intros [= <-]. constructor; [by eapply radix16_u8|].
  eapply IH; [|done]. lia.
Qed.

(** Every identifier the daemon accepts is one of sixteen bytes. *)
Lemma parse_object_id_wf text o : parse_object_id text = Ok o → wf_id o.
Proof.
  unfold parse_object_id. destruct (_ || _); [done|]. destruct (parse_pairs text) as [bs|] eqn:E; [|done].
  apply (parse_pairs_wf (length text)) in E; [|done]. destruct (from_slice bs) as [i|] eqn:Ei; [|done]. intros [= <-].
  by apply from_slice_ok in Ei as [-> Hl].
Qed.

(** Serving an upload once its identifier is accepted and the vault free. *)
Lemma write_response_cases r (h : Host Net) (t : T) res h' t' :
  write_response r (h, t) = (res, (h', t')) →
  h' = h ∧ contents t' = contents t ∧ ∀ a, res = Ok a → ∃ f, frame r = Some f ∧ sent t' = sent t ++ f.
Proof. intros E. by eapply on_stream_cases in E; [|apply sends_frame]. Qed.

Lemma write_stream_response_cases r (h : Host Net) (t : T) res h' t' :
  write_stream_response r (h, t) = (res, (h', t')) →
  h' = h ∧ ∀ a, res = Ok a → ∃ f, item_bytes (ItemError r) = Some f ∧ sent t' = sent t ++ f.
Proof. intros E. eapply on_stream_cases in E as (? & _ & ?); [|apply sends_stream_error]. done. Qed.

(** What an upload does and answers once its request was read. *)
Lemma put_stream_outcomes text o (h h' : Host Net) (t t' : T) res :
  parse_object_id text = Ok o → wf_id (v_vault_id (m_value (ds_vault (h_daemon h)))) → db_wf (w_db (h_world h)) →
  put_stream text (h, t) = (res, (h', t')) →
  let stored := λ db, ∃ data, upload_of (contents t) = Some data ∧
                  reads_back (m_value (ds_vault (h_daemon h))) db o data in
  is_long h' = is_long h ∧
  (w_db (h_world h') = w_db (h_world h) ∨ stored (w_db (h_world h'))) ∧
  (res = Ok tt →
   (∃ e f, frame (RError e) = Some f ∧ sent t' = sent t ++ f) ∨
   ∃ ready f, frame (ROk SStreamReady) = Some ready ∧ sent t' = sent t ++ ready ++ f ∧
     ((∃ e, item_bytes (ItemError (RError e)) = Some f) ∨
      (∃ vid : VersionId, frame (ROk (SPublished (to_hex vid))) = Some f) ∧ stored (w_db (h_world h')))).
Proof.
  intros Hp Hv Hwf E stored0. pose proof (parse_object_id_wf _ _ Hp) as Ho. unfold put_stream, with_long_permit_on in E.
  destruct (is_long h) eqn:Hl.
  { apply write_response_cases in E as (-> & _ & Hs). split_and!; [done|by left|]. intros Hr. left.
    destruct (Hs _ Hr) as (f & ? & ?). unfold overloaded_response, error_response in *. eauto. }
  rewrite Hp in E. set (h1 := set_daemon (set_long_operation true) h) in *.
  destruct ((write_response _ ;* _) (h1, t)) as [res1 [h2 t2]] eqn:E1. injection E as <- <- <-.
  assert (is_long (set_daemon (set_long_operation false) h2) = false) as Hl2 by done. split; [done|]. simpl.
  unfold sbind at 1 in E1. destruct (write_response (ROk SStreamReady) (h1, t)) as [[[]|] [h3 t3]] eqn:E2;
    apply write_response_cases in E2 as (-> & Hc & Hs).
  2: { injection E1 as <- <- <-. split; [by left|done]. }
  destruct (Hs _ eq_refl) as (ready & Hready & Hs3). unfold sbind at 1, sgets in E1. cbn [fst] in E1.
  change (ds_vault (h_daemon h1)) with (ds_vault (h_daemon h)) in E1. unfold lock_mutex in E1.
  destruct (m_poisoned (ds_vault (h_daemon h))).
  { apply write_stream_response_cases in E1 as (-> & Hs4). split; [by left|]. intros Hr. right.
    destruct (Hs4 _ Hr) as (f & Hf & Hs5). exists ready, f. rewrite Hs5, Hs3, (assoc_L (++)). split_and!; [done|done|]. left. eauto. }
  unfold sbind in E1. destruct (receive _ _ (h1, t3)) as [r4 [h4 t4]] eqn:E4.
  apply receive_cases in E4 as (r5 & -> & _ & Hsent & Heff); [|done..]. rewrite Hc in Heff. cbn [h_world set_daemon] in *.
  destruct r5 as [vid|e].
  - destruct Heff as [[? _]|Hst]; [done|]. apply write_response_cases in E1 as (-> & _ & Hs5). split; [by right|].
    intros Hr. right. destruct (Hs5 _ Hr) as (f & Hf & Hs6). exists ready, f.
    rewrite Hs6, Hsent, Hs3, (assoc_L (++)). split_and!; [done|done|]. right. eauto.
  - apply write_stream_response_cases in E1 as (-> & Hs5). split; [destruct Heff as [[_ ?]|?]; [by left|by right]|].
    intros Hr. right. destruct (Hs5 _ Hr) as (f & Hf & Hs6). exists ready, f.
    rewrite Hs6, Hsent, Hs3, (assoc_L (++)). split_and!; [done|done|]. left. eauto.
Qed.

(** *** Downloading *)

Definition framed (ds : list bytes) : bytes := concat (map (λ d, be_bytes 4 (lenZ d) ++ d) ds).

Lemma sends_chunks chunks : sends (T:=T) (write_chunks chunks) (λ o, Forall piece_ok chunks ∧ o = framed chunks).
Proof.
  induction chunks as [|c chunks IH]; cbn [write_chunks].
  - intros t r t' [= <- <-]. split; [done|]. intros a _. exists []. rewrite app_nil_r. split; [|done]. by split; [constructor|].
  - eapply sends_impl; [|eapply sends_bind; [apply sends_item|intros _; apply IH]].
    intros o (o1 & o2 & -> & [Hc ->] & Hcs & ->). split; [by constructor|done].
Qed.

(** The items a writer has sent since [base] carry [b]. *)
Definition carried (base : bytes) (w : StreamWriter T) (b : bytes) : Prop :=
  ∃ ds, Forall piece_ok ds ∧ concat ds = b ∧ sent (sw_stream w) = base ++ framed ds.

Lemma carried_write base w b d w' : carried base w b → write_all d w = (true, w') → carried base w' (b ++ d).
Proof.
  intros (ds & Hds & <- & Hs) E. simpl in E. unfold writer_write in E.
  destruct (write_chunks _ (sw_stream w)) as [r t'] eqn:E1. injection E as Hr <-. destruct r as [[]|]; [|done].
  apply sends_chunks in E1 as [_ Hs1]. destruct (Hs1 tt eq_refl) as (o & [Hp ->] & Ho).
  destruct (slice_chunks_parts MAX_STREAM_CHUNK_BYTES d) as [_ Hcat]; [by unfold MAX_STREAM_CHUNK_BYTES|].
  exists (ds ++ slice_chunks MAX_STREAM_CHUNK_BYTES d). split_and!; [by apply Forall_app|by rewrite concat_app, Hcat|].
  simpl. rewrite Ho, Hs. unfold framed. by rewrite map_app, concat_app, (assoc_L (++)).
Qed.

(** The same for some bytes, kept by every write of a reliable connection. *)
Definition carrying (base : bytes) (w : StreamWriter T) : Prop :=
  ∃ ds, Forall piece_ok ds ∧ sent (sw_stream w) = base ++ framed ds.

Lemma parts_ok_pieces size ps : 0 < size ≤ MAX_STREAM_CHUNK_BYTES → parts_ok size ps → Forall piece_ok ps.
Proof.
  intros Hs. induction ps as [|p [|q ps] IH]; [constructor|..]; intros Hp; constructor.
  - destruct Hp. unfold piece_ok. lia.
  - constructor.
  - destruct Hp. unfold piece_ok. lia.
  - apply IH. by destruct Hp.
Qed.

Lemma reliable_chunks chunks (t : T) : reliable (T:=T) → Forall piece_ok chunks → ∃ t', write_chunks chunks t = (Ok tt, t').
Proof.
  intros Hr Hc. revert t. induction Hc as [|c chunks Hc _ IH]; intros t; cbn [write_chunks]; [by eexists|].
  unfold sbind. destruct (reliable_item c t Hr Hc) as [t1 ->]. apply IH.
Qed.

Lemma carrying_write base d w : reliable (T:=T) → carrying base w → carrying base (write_all d w).2.
Proof.
  intros Hr (ds & Hds & Hs). assert (carried base w (concat ds)) as Hc by (exists ds; done).
  destruct (slice_chunks_parts MAX_STREAM_CHUNK_BYTES d) as [Hp _]; [by unfold MAX_STREAM_CHUNK_BYTES|].
  apply parts_ok_pieces in Hp; [|by unfold MAX_STREAM_CHUNK_BYTES]. destruct (reliable_chunks _ (sw_stream w) Hr Hp) as [t' E].
  apply (carried_write _ _ _ d (mkWriter t')) in Hc as (ds' & ? & _ & ?).
  - exists ds'. simpl. unfold writer_write. by rewrite E.
  - simpl. unfold writer_write. by rewrite E.
Qed.

Lemma send_cases o v (h : Host Net) (t : T) r h' t' :
  send o v (h, t) = (r, (h', t')) →
  ∃ res, r = Ok res ∧ is_long h' = is_long h ∧
    (res = Ok tt → w_db (h_world h') = w_db (h_world h) ∧
     ∃ root_key sv m dek cs parts ds, v_root_key v = Some root_key ∧
       Integrity.verified_read (v_vault_id v) root_key (w_db (h_world h)) o sv m dek cs parts ∧
       Forall piece_ok ds ∧ concat ds = concat parts ∧ sent t' = sent t ++ framed ds) ∧
    (reliable (T:=T) → ∃ ds, Forall piece_ok ds ∧ sent t' = sent t ++ framed ds).
Proof.
  intros E. unfold send, on_vault in E.
  destruct (Vault.get_to_writer o ((v, h_world h), mkWriter t)) as [res [[v' w'] wr]] eqn:E1. injection E as <- <- <-.
  exists res. split; [done|]. split; [done|].
  apply Refinement.lock_after_failure_eq in E1 as (s1 & E1 & Ew & Ex & Ev). cbn [fst snd] in *. split.
  2: { intros Hr. cbn [sw_stream]. rewrite Ex. eapply (Recorded.get_to_writer_borrows (carrying (sent t))); [|exact E1|].
       - by intros d out; apply carrying_write.
       - exists []. split; [constructor|by rewrite app_nil_r]. }
  intros ->.
  assert (carried (sent t) (mkWriter t) []) as H0' by (exists []; split_and!; [constructor|done|by rewrite app_nil_r]).
  destruct (Recorded.get_recorded (carried (sent t)) (carried_write (sent t)) o _ _ [] _ _ H0' E1)
    as (b & E2 & (ds & Hds & <- & Hs)).
  apply Integrity.get_to_writer_inv in E2 as (rk & sv & m & dek & cs & parts & Hk & Hvr & _ & Hdb & Hout). simpl in Hdb, Hout.
  split; [by rewrite Ew|]. exists rk, sv, m, dek, cs, parts, ds. split_and!; try done. simpl. by rewrite Ex.
Qed.

(** What a download sends once its request was read. *)
Lemma get_stream_outcomes text o (h h' : Host Net) (t t' : T) res :
  parse_object_id text = Ok o → get_stream text (h, t) = (res, (h', t')) →
  is_long h' = is_long h ∧
  (res = Ok tt →
   (∃ e f, frame (RError e) = Some f ∧ sent t' = sent t ++ f) ∨
   (∃ ready e f, frame (ROk SStreamReady) = Some ready ∧ item_bytes (ItemError (RError e)) = Some f ∧
      ∃ pre, sent t' = pre ++ f ∧ (reliable (T:=T) → ∃ ds, Forall piece_ok ds ∧ pre = sent t ++ ready ++ framed ds)) ∨
   ∃ ready ds root_key sv m dek cs parts, frame (ROk SStreamReady) = Some ready ∧ Forall piece_ok ds ∧
     sent t' = sent t ++ ready ++ client_items ds ∧ concat ds = concat parts ∧
     v_root_key (m_value (ds_vault (h_daemon h))) = Some root_key ∧
     Integrity.verified_read (v_vault_id (m_value (ds_vault (h_daemon h)))) root_key (w_db (h_world h)) o sv m dek cs parts ∧
     w_db (h_world h') = w_db (h_world h)).
Proof.
  intros Hp E. unfold get_stream, with_long_permit_on in E. destruct (is_long h) eqn:Hl.
  { apply write_response_cases in E as (-> & _ & Hs). split; [done|]. intros Hr. left.
    destruct (Hs _ Hr) as (f & ? & ?). unfold overloaded_response, error_response in *. eauto. }
  rewrite Hp in E. set (h1 := set_daemon (set_long_operation true) h) in *.
  destruct ((write_response _ ;* _) (h1, t)) as [res1 [h2 t2]] eqn:E1. injection E as <- <- <-.
  split; [done|]. intros ->. right.
  unfold sbind at 1 in E1. destruct (write_response (ROk SStreamReady) (h1, t)) as [[[]|] [h3 t3]] eqn:E2;
    apply write_response_cases in E2 as (-> & _ & Hs); [|done].
  destruct (Hs _ eq_refl) as (ready & Hready & Hs3). unfold sbind at 1, sgets in E1. cbn [fst] in E1.
  change (ds_vault (h_daemon h1)) with (ds_vault (h_daemon h)) in E1. unfold lock_mutex in E1.
  destruct (m_poisoned (ds_vault (h_daemon h))).
  { apply write_stream_response_cases in E1 as (-> & Hs4). left. destruct (Hs4 _ eq_refl) as (f & Hf & Hs5).
    eexists ready, _, f. split_and!; [done|exact Hf|]. exists (sent t3). split; [done|]. intros _. exists [].
    split; [constructor|]. by rewrite app_nil_r. }
  unfold sbind in E1. destruct (send _ _ (h1, t3)) as [r4 [h4 t4]] eqn:E4. apply send_cases in E4 as (r5 & -> & _ & Heff & Hfail).
  destruct r5 as [[]|e].
  - destruct (Heff eq_refl) as (Hdb & rk & sv & m & dek & cs & parts & ds & Hk & Hvr & Hds & Hcat & Hsent). right.
    eapply on_stream_cases in E1 as (-> & _ & Hs5); [|apply sends_stream_end]. destruct (Hs5 _ eq_refl) as (f & <- & Hs6).
    exists ready, ds, rk, sv, m, dek, cs, parts. split_and!; try done.
    rewrite Hs6, Hsent, Hs3. unfold client_items. by rewrite <-!(assoc_L (++)).
  - apply write_stream_response_cases in E1 as (-> & Hs5). left. destruct (Hs5 _ eq_refl) as (f & Hf & Hs6).
    eexists ready, _, f. split_and!; [done|exact Hf|]. exists (sent t4). split; [done|]. intros Hr.
    destruct (Hfail Hr) as (ds & Hds & ->). exists ds. split; [done|]. by rewrite Hs3, <-!(assoc_L (++)).
Qed.

End exchanges.

(** *** Refusals *)

Section refusals.
Context `{PrimitivesOk} `{!Base64} `{!SqliteFile} `{!Tempfile} `{!Json BackupManifest} `{!HexCrate}.
Context `{!Json IssueRequest} `{!Json IssueResponse} `{!Json HeadRequest} `{!Json HeadResponse}.
Context `{!Json Request} `{!Json Response} {Net : Type} `{!Transport Net} `{UnixStreamOk T}.

Lemma set_timeout_cases (f : T → bool * T) (h : Host Net) t r h' t' :
  set_timeout f (h, t) = (r, (h', t')) → h' = h ∧ t' = (f t).2.
Proof. unfold set_timeout. destruct (f t) as [ok t1]. by intros [= <- <- <-]. Qed.

Lemma dispatch_long request (h : Host Net) :
  is_long h = true →
  (dispatch request h).2 = h ∨ dc_allow_shutdown (ds_config (h_daemon h)) = true ∧ (dispatch request h).2 = set_daemon set_shutdown h.
Proof.
  intros Hl. unfold dispatch. rewrite Hl. case_bool_decide as Hr; cbn [negb andb]; [|by left]. subst.
  destruct (dc_allow_shutdown _); [by right|by left].
Qed.

Lemma long_permit_refused {A} (refused operation : M (Host Net * T) ServeError A) h t :
  is_long h = true → with_long_permit_on refused operation (h, t) = refused (h, t).
Proof. intros Hl. unfold with_long_permit_on. by rewrite Hl. Qed.

Definition authorized (h : Host Net) (t : T) : Prop := peer_uid t = Some (dc_allowed_uid (ds_config (h_daemon h))).

Lemma authorize_iff h t : authorize h t = true ↔ authorized h t.
Proof.
  unfold authorize, authorized. destruct (peer_uid t) as [u|]; [|done]. split.
  - by intros ->%Z.eqb_eq.
  - intros [= ->]. apply Z.eqb_refl.
Qed.

(** What is done with a request that was read. *)
Definition serve_request (request : Request) : M (Host Net * T) ServeError unit :=
  match request with
  | RqPutStream object_id => put_stream object_id
  | RqGetStream object_id => get_stream object_id
  | request => let* response := dispatch_request request in write_response response
  end.

(** A connection is refused without effect, or its request is read and served. *)
Lemma serve_stream_cases (h h' : Host Net) (t t' : T) res :
  serve_stream (h, t) = (res, (h', t')) →
  (h' = h ∧ (res = Ok tt → ∃ e f, frame (RError e) = Some f ∧ sent t' = sent t ++ f ∧
     (authorized h t ∧ e = failure CProtocol "invalid local protocol request" ∨
      e = failure CUnauthorized "local peer is not authorized"))) ∨
  authorized h t ∧ ∃ t1 request, sent t1 = sent t ∧ frame_at (contents t) request (contents t1) ∧
    serve_request request (h, t1) = (res, (h', t')).
Proof.
  intros E. unfold serve_stream, sbind at 1 in E. destruct (set_timeout set_read_timeout (h, t)) as [[[]|] [h1 t1]] eqn:E1;
    apply set_timeout_cases in E1 as [-> ->]; [|injection E as <- <- <-; by left].
  unfold sbind at 1 in E. destruct (set_timeout set_write_timeout (h, _)) as [[[]|] [h2 t2]] eqn:E2;
    apply set_timeout_cases in E2 as [-> ->]; [|injection E as <- <- <-; by left].
  destruct (read_timeout_frame t) as (Hp1 & Hs1 & Hc1), (write_timeout_frame (set_read_timeout t).2) as (Hp2 & Hs2 & Hc2).
  set (t2 := (set_write_timeout (set_read_timeout t).2).2) in *. unfold sbind at 1, sgets in E. cbn [fst snd] in E.
  assert (authorized h t2 ↔ authorized h t) as Ha by (unfold authorized; by rewrite Hp2, Hp1).
  pose proof (authorize_iff h t2) as Hauth. destruct (authorize h t2); cbn [negb] in E.
  2: { apply write_response_cases in E as (-> & _ & Hs). left. split; [done|]. intros Hr.
       destruct (Hs _ Hr) as (f & ? & Hs'). eexists _, f. split_and!; [done|congruence|by right]. }
  rewrite Ha in Hauth. destruct Hauth as [Hauth _]. specialize (Hauth eq_refl).
  unfold sbind at 1, read_request in E. destruct (read_frame t2) as [req t3] eqn:E3.
  assert (sent t3 = sent t) as Hs3 by (pose proof (quietly_read_frame (A:=Request) t2) as Hq; rewrite E3 in Hq; simpl in Hq; congruence).
  destruct req as [req|e].
  - apply read_frame_ok in E3; [|apply contents_wf]. rewrite Hc2, Hc1 in E3. right. split; [done|].
    exists t3, req. split_and!; [done|done|]. by destruct req.
  - apply write_response_cases in E as (-> & _ & Hs). left. split; [done|]. intros Hr.
    destruct (Hs _ Hr) as (f & ? & Hs'). eexists _, f. split_and!; [done|congruence|by left].
Qed.

(** C38: refusals have no effect.  A peer that does not have the configured
    user identifier changes nothing and is sent only the refusal; while a long
    operation is active a connection changes nothing either, except that a
    permitted shutdown request is recorded. *)
Theorem refused_without_effect (h h' : Host Net) (t t' : T) res :
  serve_stream (h, t) = (res, (h', t')) →
  (peer_uid t ≠ Some (dc_allowed_uid (ds_config (h_daemon h))) →
   h' = h ∧ (res = Ok tt → ∃ f, frame (error_response CUnauthorized "local peer is not authorized") = Some f ∧
                               sent t' = sent t ++ f)) ∧
  (is_long h = true → h' = h ∨ dc_allow_shutdown (ds_config (h_daemon h)) = true ∧ h' = set_daemon set_shutdown h).
Proof.
  intros [(-> & Hs)|(Ha & t1 & req & _ & _ & E)]%serve_stream_cases; (split; [intros Hn|intros Hl]).
  - split; [done|]. intros Hr. destruct (Hs Hr) as (e & f & Hf & Ho & [[? _]| ->]); [done|]. by exists f.
  - by left.
  - done.
  - destruct (dispatch_long req h Hl) as [Hd|Hd].
    all: destruct req; try (unfold serve_request, put_stream, get_stream in E; rewrite long_permit_refused in E by done; apply write_response_cases in E as (-> & _); by left).
    all: unfold serve_request, sbind, dispatch_request in E; destruct (dispatch _ h) as [resp h3]; simpl in Hd; apply write_response_cases in E as (-> & _).
    all: first [by left|by right].
Qed.

(** *** Streamed exchanges on a connection *)

Context `{!JsonOk Request}.

Lemma parse_object_id_err text resp : parse_object_id text = Err resp → ∃ e, resp = RError e.
Proof.
  unfold parse_object_id, error_response. destruct (_ || _); [intros [= <-]; eauto|]. destruct (parse_pairs text); [|intros [= <-]; eauto].
  destruct (from_slice _); [done|intros [= <-]; eauto].
Qed.

(** A connection that starts with a known request. *)
Lemma serve_known_request request rq rest (h h' : Host Net) (t t' : T) res :
  frame request = Some rq → contents t = rq ++ rest → serve_stream (h, t) = (res, (h', t')) →
  (h' = h ∧ (res = Ok tt → ∃ e f, frame (RError e) = Some f ∧ sent t' = sent t ++ f)) ∨
  ∃ t1, sent t1 = sent t ∧ contents t1 = rest ∧ serve_request request (h, t1) = (res, (h', t')).
Proof.
  intros Hrq Hc [(-> & Hs)|(_ & t1 & req & Hs1 & Hf & E)]%serve_stream_cases.
  - left. split; [done|]. intros Hr. destruct (Hs Hr) as (e & f & ? & ? & _). eauto.
  - right. rewrite Hc in Hf. apply (frame_at_frame _ _ _ _ _ Hrq) in Hf as [-> Hc1]. eauto.
Qed.

(** A streaming request whose identifier is not accepted. *)
Lemma refused_stream text resp m (h h' : Host Net) (t t' : T) res :
  parse_object_id text = Err resp →
  with_long_permit_on (write_response (overloaded_response "daemon long operation is in progress"))
    (match parse_object_id text with Err response => write_response response | Ok object_id => m object_id end) (h, t) = (res, (h', t')) →
  is_long h' = is_long h ∧ h_world h' = h_world h ∧ (res = Ok tt → ∃ e f, frame (RError e) = Some f ∧ sent t' = sent t ++ f).
Proof.
  intros Hp E. destruct (parse_object_id_err _ _ Hp) as [e ->]. unfold with_long_permit_on in E. rewrite Hp in E.
  destruct (is_long h) eqn:Hl.
  - apply write_response_cases in E as (-> & _ & Hs). split_and!; [done..|]. intros Hr. destruct (Hs _ Hr) as (f & ? & ?).
    unfold overloaded_response, error_response in *. eauto.
  - destruct (write_response _ _) as [r1 [h1 t1]] eqn:E1. injection E as <- <- <-. apply write_response_cases in E1 as (-> & _ & Hs).
    split_and!; [done..|]. intros Hr. destruct (Hs _ Hr) as (f & ? & ?). eauto.
Qed.

(** C8: a streamed upload, end to end.  On a connection that starts with an
    upload request, whatever follows and whatever faults strike, serving it
    leaves the tables as they were or adds one version whose plaintext is the
    concatenation of the data items up to the client's end item; without an
    end item nothing is stored.  The client is told that a version was
    published only if it was, and the long-operation flag is released. *)
Theorem upload_stores_stream text rq rest (h h' : Host Net) (t t' : T) res :
  frame (RqPutStream text) = Some rq → contents t = rq ++ rest →
  wf_id (v_vault_id (m_value (ds_vault (h_daemon h)))) → db_wf (w_db (h_world h)) →
  serve_stream (h, t) = (res, (h', t')) →
  let stored := λ db, ∃ o data, parse_object_id text = Ok o ∧ upload_of rest = Some data ∧
                  reads_back (m_value (ds_vault (h_daemon h))) db o data in
  is_long h' = is_long h ∧
  (w_db (h_world h') = w_db (h_world h) ∨ stored (w_db (h_world h'))) ∧
  (res = Ok tt →
   (∃ e f, frame (RError e) = Some f ∧ sent t' = sent t ++ f) ∨
   ∃ ready f, frame (ROk SStreamReady) = Some ready ∧ sent t' = sent t ++ ready ++ f ∧
     ((∃ e, item_bytes (ItemError (RError e)) = Some f) ∨
      (∃ vid : VersionId, frame (ROk (SPublished (to_hex vid))) = Some f) ∧ stored (w_db (h_world h')))).
Proof.
  intros Hrq Hc Hv Hwf E stored0. apply (serve_known_request _ _ _ _ _ _ _ _ Hrq Hc) in E as [(-> & Hs)|(t1 & Hs1 & Hc1 & E)].
  { split_and!; [done|by left|by left; auto]. }
  cbn [serve_request] in E.
  destruct (parse_object_id text) as [o|resp] eqn:Hp.
  - apply (put_stream_outcomes _ o) in E; [|done..]. rewrite Hc1, Hs1 in E. destruct E as (Hl & Hdb & Hr). split; [done|]. split.
    + destruct Hdb as [?|(data & ? & ?)]; [by left|]. right. by exists o, data.
    + intros Hres. destruct (Hr Hres) as [?|(ready & f & ? & ? & [?|[? (data & ? & ?)]])]; [by left|..]; right; exists ready, f; split_and!; try done.
      * by left.
      * right. split; [done|]. by exists o, data.
  - eapply refused_stream in E as (Hl & Hw & Hr); [|done]. rewrite Hs1 in Hr. split_and!; [done|left; by rewrite Hw|by left; auto].
Qed.

(** A streamed download, end to end.  When serving a download request
    completes, the client has been sent an error; or, over a reliable
    connection, the ready response, data items and an error item; or the ready
    response and items that end with the end item and carry the whole
    plaintext of a version whose key, manifest, receipt and chunks were all
    verified.  The long-operation flag is released. *)
Lemma download_complete text rq rest (h h' : Host Net) (t t' : T) :
  frame (RqGetStream text) = Some rq → contents t = rq ++ rest →
  serve_stream (h, t) = (Ok tt, (h', t')) →
  is_long h' = is_long h ∧
  ((∃ e f, frame (RError e) = Some f ∧ sent t' = sent t ++ f) ∨
   (∃ ready e f, frame (ROk SStreamReady) = Some ready ∧ item_bytes (ItemError (RError e)) = Some f ∧
      ∃ pre, sent t' = pre ++ f ∧ (reliable (T:=T) → ∃ ds, Forall piece_ok ds ∧ pre = sent t ++ ready ++ framed ds)) ∨
   ∃ o ready ds root_key sv m dek cs parts, parse_object_id text = Ok o ∧ frame (ROk SStreamReady) = Some ready ∧
     Forall piece_ok ds ∧ sent t' = sent t ++ ready ++ client_items ds ∧ concat ds = concat parts ∧
     v_root_key (m_value (ds_vault (h_daemon h))) = Some root_key ∧
     Integrity.verified_read (v_vault_id (m_value (ds_vault (h_daemon h)))) root_key (w_db (h_world h)) o sv m dek cs parts ∧
     w_db (h_world h') = w_db (h_world h)).
Proof.
  intros Hrq Hc E. apply (serve_known_request _ _ _ _ _ _ _ _ Hrq Hc) in E as [(-> & Hs)|(t1 & Hs1 & Hc1 & E)].
  { split; [done|]. left. auto. }
  cbn [serve_request] in E.
  destruct (parse_object_id text) as [o|resp] eqn:Hp.
  - pose proof (get_stream_outcomes text o h h' t1 t' _ Hp E) as [Hl Hr]. rewrite Hs1 in Hr. split; [done|].
    destruct (Hr eq_refl) as [?|[?|(ready & ds & rk & sv & m & dek & cs & parts & Hx)]]; [by left|by right; left|].
    right. right. exists o, ready, ds, rk, sv, m, dek, cs, parts. by split.
  - eapply refused_stream in E as (Hl & Hw & Hr); [|done]. rewrite Hs1 in Hr. split; [done|]. left. auto.
Qed.

End refusals.
End DaemonSpec.
