(* ===== verification/ServerSpec.v ===== *)
(** * Interleaved connections

    Properties of [Server]: a thread that is not interrupted does what
    [Daemon.serve_stream] says; in any interleaving the connections are served
    as if one after the other; the permits are those of [Admission]. *)

From S2P Require Import Prelude Format Crypto Fs Storage Vault WitnessService Https Backup Protocol Daemon Server DaemonSpec.
From Stdlib Require Import ZArith Lia.
From stdpp Require Import base numbers list gmap strings relations.

Open Scope Z_scope.
Open Scope vlt_scope.

Module ServerSpec.
Import Program.

Section alone.
Context `{Primitives} `{Base64} `{SqliteFile} `{Tempfile} `{Json BackupManifest}.
Context `{HexCrate} `{Json IssueRequest} `{Json IssueResponse} `{Json HeadRequest} `{Json HeadResponse}.
Context `{Json Request} `{Json Response} {Net : Type} `{Transport Net} `{UnixStream T}.
Implicit Types (h : Host Net) (t : T) (p : Prog Net T).

Lemma run_exec p s : run p s = run (exec p s).1 (exec p s).2.
Proof. destruct p; simpl; try done; repeat case_match; simpl in *; by simplify_eq. Qed.

(** A write to the connection leaves the host alone. *)
Lemma on_stream_sending what (m : M T ProtocolError unit) h t :
  Daemon.on_stream what m (h, t) = let '(r, t) := Handlers.sending what m t in (r, (h, t)).
Proof. unfold Daemon.on_stream, Handlers.sending, szoom, smap_err. cbn [fst snd]. by destruct (m t) as [[[]|e] t']. Qed.

Lemma run_respond response h t :
  run (Handlers.respond response) (h, t) = Daemon.write_response response (h, t).
Proof. unfold Daemon.write_response. by rewrite on_stream_sending. Qed.

(** An answer computed under one mutex. *)
Lemma run_section f h t :
  run (Handlers.section f) (h, t) = let '(response, h) := f h in Daemon.write_response response (h, t).
Proof.
  unfold Handlers.section, Handlers.on_host. cbn [run fst snd]. destruct (f h) as [response h']. apply run_respond.
Qed.

Lemma run_status h t :
  run Handlers.status (h, t) = let '(response, h) := Daemon.status h in Daemon.write_response response (h, t).
Proof.
  unfold Handlers.status, Daemon.status. cbn [run fst snd]. destruct (Daemon.is_long h) eqn:El; [apply run_respond|].
  unfold Handlers.on_host, Handlers.observe_vault. cbn [run fst snd].
  destruct (lock_mutex (ds_vault (h_daemon h))) as [v|]; [|apply run_respond].
  cbn [run fst snd mbind option_bind Handlers.status_reply Handlers.status_response].
  replace (set_recovery (ds_recovery (h_daemon h)) h) with h by (by destruct h as [[] ? ?]).
  rewrite run_respond. by destruct (lock_mutex (ds_recovery (h_daemon h))).
Qed.

Lemma run_verify h t :
  run Handlers.verify (h, t) = let '(response, h) := Daemon.verify h in Daemon.write_response response (h, t).
Proof.
  unfold Handlers.verify, Daemon.verify, Daemon.with_long_permit. cbn [run fst snd].
  destruct (Daemon.is_long h) eqn:El; [apply run_respond|]. unfold Handlers.on_host, Handlers.sweep.
  change (Daemon.set_daemon (Daemon.set_long_operation true) h) with (set_long true h). destruct (if Daemon.has_witness _ then _ else _) as [[n|e] h1].
  - cbn [run fst snd]. unfold Handlers.record_verified. destruct (lock_mutex (ds_recovery (h_daemon h1))) as [rec|] eqn:Er.
    + by rewrite run_respond.
    + rewrite run_respond. by replace (set_recovery (ds_recovery (h_daemon h1)) h1) with h1 by (by destruct h1 as [[] ? ?]).
  - cbn [run fst snd]. by rewrite run_respond.
Qed.

Lemma run_backup destination h t :
  run (Handlers.backup destination) (h, t) =
  let '(response, h) := Daemon.backup destination h in Daemon.write_response response (h, t).
Proof.
  unfold Handlers.backup, Daemon.backup, Daemon.with_long_permit. cbn [run fst snd].
  destruct (Daemon.is_long h) eqn:El; [apply run_respond|]. unfold Handlers.on_host, Handlers.backup_section.
  change (Daemon.set_daemon (Daemon.set_long_operation true) h) with (set_long true h).
  destruct (Daemon.with_vault _ _) as [response h1]. cbn [run fst snd]. by rewrite run_respond.
Qed.

Lemma run_dispatch request h t :
  run (Handlers.dispatch request) (h, t) =
  let '(response, h) := Daemon.dispatch request h in Daemon.write_response response (h, t).
Proof.
  unfold Handlers.dispatch, Daemon.dispatch. cbn [run fst snd].
  destruct (Daemon.is_long h && negb (bool_decide (request = RqShutdown))); [apply run_respond|].
  destruct request; try apply run_section; try apply run_respond; [apply run_status|apply run_verify|apply run_backup].
Qed.

(** A long exchange. *)
Lemma run_finish (m : M T Daemon.ServeError unit) h t :
  run (OnStream m Handlers.finish_long) (h, t) =
  let '(r, t) := m t in (r, (set_long false h, t)).
Proof. cbn [run fst snd]. by destruct (m t). Qed.

Lemma run_stream {A} text (body : ObjectId → Host Net * T → A * (Host Net * T)) answer serve h t :
  (∀ o h t, serve o (h, t) = let '(a, (h, t)) := body o (h, t) in let '(r, t) := answer a t in (r, (h, t))) →
  run (Handlers.stream text body answer) (h, t) =
  Daemon.with_long_permit_on (Daemon.write_response Handlers.busy)
    (match Daemon.parse_object_id text with
     | Err response => Daemon.write_response response
     | Ok o => Daemon.write_response (ROk SStreamReady) ;* serve o
     end) (h, t).
Proof.
  intros Hs. unfold Handlers.stream, Daemon.with_long_permit_on. cbn [run fst snd].
  destruct (Daemon.is_long h); [apply run_respond|].
  change (Daemon.set_daemon (Daemon.set_long_operation true) h) with (set_long true h). set (h1 := set_long true h).
  destruct (Daemon.parse_object_id text) as [o|response].
  2: { rewrite run_finish. unfold Daemon.write_response. rewrite on_stream_sending. unfold Handlers.response_to.
       by destruct (Handlers.sending _ _ t). }
  unfold sbind. unfold Daemon.write_response. rewrite on_stream_sending. cbn [run fst snd]. unfold Handlers.response_to.
  destruct (Handlers.sending _ _ t) as [[[]|e] t1]; [|done]. rewrite Hs. cbn [run fst snd].
  destruct (body o (h1, t1)) as [a [h2 t2]]. cbn [fst snd]. by destruct (answer a t2).
Qed.

Lemma run_put_stream text h t : run (Handlers.put_stream text) (h, t) = Daemon.put_stream text (h, t).
Proof.
  apply run_stream. clear h t. intros o h t. unfold sbind, sgets. cbn [fst snd Handlers.receive_section].
  destruct (lock_mutex (ds_vault (h_daemon h))) as [v|]; [|apply on_stream_sending].
  unfold Daemon.receive. destruct (Daemon.on_vault _ _ v h) as [[[vid|e] reader] h2]; apply on_stream_sending.
Qed.

Lemma run_get_stream text h t : run (Handlers.get_stream text) (h, t) = Daemon.get_stream text (h, t).
Proof.
  apply run_stream. clear h t. intros o h t. unfold sbind, sgets. cbn [fst snd Handlers.send_section].
  destruct (lock_mutex (ds_vault (h_daemon h))) as [v|]; [|apply on_stream_sending].
  unfold Daemon.send. destruct (Daemon.on_vault _ _ v h) as [[[[]|e] writer] h2]; apply on_stream_sending.
Qed.

Lemma run_serve_stream h t :
  run (Handlers.serve_stream (dc_allowed_uid (ds_config (h_daemon h)))) (h, t) = Daemon.serve_stream (h, t).
Proof.
  unfold Handlers.serve_stream, Daemon.serve_stream, Handlers.try. unfold sbind, Handlers.timeout, Daemon.set_timeout. cbn [run fst snd].
  destruct (set_read_timeout t) as [[] t1]; [|done]. cbn [run fst snd]. destruct (set_write_timeout t1) as [[] t2]; [|done].
  unfold Handlers.authorized, Daemon.authorize, sgets. cbn [run fst snd].
  destruct (peer_uid t2) as [uid|]; [|apply run_respond]. destruct (uid =? _); [|apply run_respond]. cbn [run fst snd negb].
  unfold Handlers.read_request, Daemon.read_request. destruct (Protocol.read_frame t2) as [[rq|e] t3]; [|apply run_respond].
  destruct rq; try apply run_put_stream; try apply run_get_stream; rewrite run_dispatch;
    unfold Daemon.dispatch_request; by destruct (Daemon.dispatch _ h).
Qed.

(** ** What interleaving cannot show *)

(** The host with given permits and recovery state. *)
Definition view (long : bool) (rec : Mutex RecoveryState) (h : Host Net) : Host Net :=
  let d := h_daemon h in
  mkHost (mkDaemon (ds_config d) (ds_vault d) rec (ds_witness d) 0 long (ds_shutdown d)) (h_world h) (h_files h).

Definition no_recovery : Mutex RecoveryState := mkMutex (mkRecovery [] None) false.

(** Everything but permits and recovery state: the vault, its database and
    files, the witness client, the shutdown flag and the configuration. *)
Definition core (h : Host Net) : Host Net := view false no_recovery h.

Lemma view_core long rec h h' : core h = core h' → view long rec h = view long rec h'.
Proof. intros E. change (view long rec (core h) = view long rec (core h')). by rewrite E. Qed.

Definition set_vault (v : Mutex Vault) (h : Host Net) : Host Net :=
  let d := h_daemon h in
  mkHost (mkDaemon (ds_config d) v (ds_recovery d) (ds_witness d) (ds_active_connections d) (ds_long_operation_active d)
            (ds_shutdown d)) (h_world h) (h_files h).

(** The request a connection carries. *)
Definition requested (t : T) : option Request :=
  match (Protocol.read_frame (set_write_timeout (set_read_timeout t).2).2).1 with Ok request => Some request | Err _ => None end.

(** The vault as the mutex of the daemon had it at earlier moments, and now. *)
Abbreviation moment h past := (ds_vault (h_daemon h) :: past).

(** One connection served by itself: with the host as it is, save that a long
    operation may be in progress ([long]) and for the recovery state; or a status
    request, which changes nothing and may report the vault of an earlier moment
    ([seen]). *)
Inductive served_alone (seen : list (Mutex Vault)) (h : Host Net) : Served T → Host Net → Prop :=
| alone_exchange long rec t0 r h1 t1 h' :
    Daemon.serve_stream (view long rec h, t0) = (r, (h1, t1)) → core h1 = core h' →
    served_alone seen h (mkServed t0 r t1) h'
| alone_status v rec t0 r h1 t1 h' :
    requested t0 = Some RqStatus → v ∈ seen →
    Daemon.serve_stream (view false rec (set_vault v h), t0) = (r, (h1, t1)) → core h = core h' →
    served_alone seen h (mkServed t0 r t1) h'.

(** One after the other; the vaults of the moments in between are collected. *)
Inductive serial : list (Mutex Vault) → Host Net → list (Served T) → Host Net → list (Mutex Vault) → Prop :=
| serial_nil past h h' : core h = core h' → serial past h [] h' past
| serial_cons past h sd h1 sds h' past' :
    served_alone (moment h past) h sd h1 → serial (moment h past) h1 sds h' past' → serial past h (sd :: sds) h' past'.

Lemma core_vault h h' : core h = core h' → ds_vault (h_daemon h) = ds_vault (h_daemon h').
Proof. intros E. exact (f_equal (λ h, ds_vault (h_daemon h)) E). Qed.

Lemma served_alone_core seen h1 h2 sd h1' h2' :
  core h1 = core h2 → core h1' = core h2' → served_alone seen h1 sd h1' → served_alone seen h2 sd h2'.
Proof.
  intros E E' Hs. destruct Hs as [long rec t0 r k1 t1 h' Hs Hc|v rec t0 r k1 t1 h' Hq Hv Hs Hc].
  - eapply alone_exchange; [|by etrans]. by rewrite <-(view_core long rec h1 h2).
  - eapply alone_status; [done|done| |congruence].
    assert (core (set_vault v h1) = core (set_vault v h2)) as Ev.
    { unfold core, view, set_vault in *. simpl in *. congruence. }
    by rewrite <-(view_core false rec _ _ Ev).
Qed.

Lemma serial_app past h sds h1 past1 sds' h' past' :
  serial past h sds h1 past1 → serial past1 h1 sds' h' past' → serial past h (sds ++ sds') h' past'.
Proof.
  induction 1 as [past h h1 E|past h sd k sds h1 past1 Hs _ IH]; intros Hr; simpl; [|econstructor; eauto].
  destruct Hr as [past k h' E'|past k sd k1 sds' h' past' Hs Hr]; [constructor; congruence|].
  rewrite <-(core_vault _ _ E) in *. econstructor; [|done]. by eapply served_alone_core.
Qed.


(** ** Sections under the mutexes *)

(** Permits, recovery state and configuration are left alone. *)
Definition unshared (h h' : Host Net) : Prop :=
  ds_config (h_daemon h') = ds_config (h_daemon h) ∧ ds_recovery (h_daemon h') = ds_recovery (h_daemon h) ∧
  Daemon.is_long h' = Daemon.is_long h ∧ ds_active_connections (h_daemon h') = ds_active_connections (h_daemon h).

(** They are not looked at either. *)
Definition host_ok {A} (f : Host Net → A * Host Net) : Prop :=
  ∀ h, (∀ long rec, f (view long rec h) = ((f h).1, view long rec (f h).2)) ∧ unshared h (f h).2.

Definition section_ok {A} (m : Host Net * T → A * (Host Net * T)) : Prop :=
  ∀ h t, (∀ long rec, m (view long rec h, t) = ((m (h, t)).1, (view long rec (m (h, t)).2.1, (m (h, t)).2.2))) ∧
    unshared h (m (h, t)).2.1.

Lemma on_host_section {A} (f : Host Net → A * Host Net) : host_ok f → section_ok (Handlers.on_host f).
Proof.
  intros Hf h t. destruct (Hf h) as [Hv Hu]. unfold Handlers.on_host. destruct (f h) as [a h'] eqn:E. simpl in *.
  split; [|done]. intros long rec. by rewrite Hv.
Qed.

Lemma with_vault_host_ok op : host_ok (Daemon.with_vault (Net:=Net) op).
Proof.
  intros h. unfold Daemon.with_vault, Daemon.on_vault, lock_mutex, view, unshared, Daemon.is_long.
  destruct h as [d w files]. simpl. destruct (m_poisoned (ds_vault d)); [done|]. by destruct (op _) as [r [[v w'] files']].
Qed.

Lemma with_vault_result_ok op : host_ok (Daemon.with_vault_result (Net:=Net) op).
Proof.
  intros h. unfold Daemon.with_vault_result, Daemon.on_vault, lock_mutex, view, unshared, Daemon.is_long.
  destruct h as [d w files]. simpl. destruct (m_poisoned (ds_vault d)); [done|]. by destruct (op _) as [r [[v w'] files']].
Qed.

Lemma with_witness_host_ok op : host_ok (Daemon.with_witness (Net:=Net) op).
Proof.
  intros [[cfg vault rec wit n l sh] w files]. unfold Daemon.with_witness, Daemon.on_vault, lock_mutex, view, unshared, Daemon.is_long. simpl.
  destruct wit as [p|]; [|done]. simpl. destruct (m_poisoned p); [done|].
  destruct (m_poisoned vault); [done|]. simpl. by destruct (op _) as [r [[v w'] p']].
Qed.

Lemma with_witness_result_ok op : host_ok (Daemon.with_witness_result (Net:=Net) op).
Proof.
  intros [[cfg vault rec wit n l sh] w files]. unfold Daemon.with_witness_result, Daemon.on_vault, lock_mutex, view, unshared, Daemon.is_long. simpl.
  destruct wit as [p|]; [|done]. simpl. destruct (m_poisoned p); [done|].
  destruct (m_poisoned vault); [done|]. simpl. by destruct (op _) as [r [[v w'] p']].
Qed.

(** A choice by whether there is a witness. *)
Lemma witness_choice_ok {A} (f g : Host Net → A * Host Net) :
  host_ok f → host_ok g → host_ok (λ h, if Daemon.has_witness h then f h else g h).
Proof.
  intros Hf Hg h. assert (∀ long rec, Daemon.has_witness (view long rec h) = Daemon.has_witness h) as E by done.
  destruct (Hf h) as [Hf1 Hf2], (Hg h) as [Hg1 Hg2]. split.
  - intros long rec. rewrite E. by destruct (Daemon.has_witness h).
  - by destruct (Daemon.has_witness h).
Qed.

Lemma const_ok {A} (a : A) : host_ok (λ h : Host Net, (a, h)).
Proof. by intros h. Qed.

#[local] Hint Resolve with_vault_host_ok with_vault_result_ok with_witness_host_ok with_witness_result_ok witness_choice_ok const_ok : core.

Lemma sweep_ok : host_ok (Handlers.sweep (Net:=Net)).
Proof. by apply witness_choice_ok. Qed.
Lemma unlock_ok passphrase : host_ok (Daemon.unlock (Net:=Net) passphrase).
Proof. by apply witness_choice_ok. Qed.
Lemma put_host_ok text plaintext : host_ok (Daemon.put (Net:=Net) text plaintext).
Proof.
  unfold Daemon.put. destruct (Daemon.parse_object_id text); [|apply const_ok].
  destruct (b64_decode plaintext); [|apply const_ok]. by apply witness_choice_ok.
Qed.
Lemma get_ok text : host_ok (Daemon.get (Net:=Net) text).
Proof. unfold Daemon.get. destruct (Daemon.parse_object_id text); [|apply const_ok]. by apply witness_choice_ok. Qed.
Lemma observe_ok : host_ok (Handlers.observe_vault (Net:=Net)).
Proof. by intros h. Qed.
Lemma shutdown_ok : host_ok (Handlers.request_shutdown (Net:=Net)).
Proof. intros [d w files]. unfold Handlers.request_shutdown. simpl. by destruct (dc_allow_shutdown _). Qed.

Lemma receive_ok o : section_ok (Handlers.receive_section (Net:=Net) o).
Proof.
  intros h t. unfold Handlers.receive_section, Daemon.on_vault, lock_mutex, view, unshared, Daemon.is_long.
  destruct h as [d w files]. simpl. destruct (m_poisoned (ds_vault d)); [done|].
  by destruct (Vault.put_from_reader o _) as [r [[v w'] reader]].
Qed.
Lemma send_ok o : section_ok (Handlers.send_section (Net:=Net) o).
Proof.
  intros h t. unfold Handlers.send_section, Daemon.on_vault, lock_mutex, view, unshared, Daemon.is_long.
  destruct h as [d w files]. simpl. destruct (m_poisoned (ds_vault d)); [done|].
  by destruct (Vault.get_to_writer o _) as [r [[v w'] writer]].
Qed.

(** ** The life of a thread *)

(** After its effect a program only writes to its connection, records the
    outcome of a verification and drops its permit. *)
Inductive finishing : bool → Prog Net T → Prop :=
| finishing_return r : finishing false (Return r)
| finishing_stream {A} held (m : T → A * T) k : (∀ a, finishing held (k a)) → finishing held (OnStream m k)
| finishing_release p : finishing false p → finishing true (ReleaseLong p)
| finishing_record held n k : (∀ a, finishing held (k a)) → finishing held (OnRecovery (Handlers.record_verified n) k).

Definition same_outcome (x y : result unit Daemon.ServeError * (Host Net * T)) : Prop :=
  x.1 = y.1 ∧ x.2.2 = y.2.2 ∧ core x.2.1 = core y.2.1.

Section origin.
Variables (cfg : DaemonConfig) (poisoned : bool) (t0 : T).

(** The host the thread may meet. *)
Definition legal (h : Host Net) : Prop :=
  ds_config (h_daemon h) = cfg ∧ m_poisoned (ds_recovery (h_daemon h)) = poisoned.

(** A refusal because of a long operation in progress. *)
Definition refusing (p : Prog Net T) (t : T) : Prop :=
  finishing false p ∧
  ∀ h rec, ds_config (h_daemon h) = cfg → same_outcome (run p (view true rec h, t)) (Daemon.serve_stream (view true rec h, t0)).

(** What a program that has had no effect yet may do, from the state [t] of its
    connection; [held] tells whether it holds the long-operation permit. *)
Inductive planning : bool → Prog Net T → T → Prop :=
| planning_return r t : planning false (Return r) t
| planning_stream {A} held (m : T → A * T) k t : planning held (k (m t).1) (m t).2 → planning held (OnStream m k) t
| planning_load k t : planning false (k false) t → refusing (k true) t → planning false (LoadLong k) t
| planning_load_either k t : k true = k false → planning false (k false) t → planning false (LoadLong k) t
| planning_acquire granted refused t : planning true granted t → refusing refused t → planning false (AcquireLong granted refused) t
| planning_release p t : planning false p t → planning true (ReleaseLong p) t
| planning_section {A} held (m : Host Net * T → A * (Host Net * T)) k t :
    section_ok m → (∀ a, finishing held (k a)) → planning held (Critical m k) t
| planning_status t :
    requested t0 = Some RqStatus → planning false (Critical (Handlers.on_host Handlers.observe_vault) Handlers.status_reply) t.

(** Run to its end, it does what the connection alone would do. *)
Definition faithful (held : bool) (p : Prog Net T) (t : T) : Prop :=
  ∀ h rec, ds_config (h_daemon h) = cfg →
    same_outcome (run p (view held rec h, t)) (Daemon.serve_stream (view false rec h, t0)).

(** Before the effect; a status request has two moments. *)
Inductive waiting (seen : list (Mutex Vault)) : Prog Net T → T → Prop :=
| waiting_plan held p t : planning held p t → faithful held p t → waiting seen p t
| waiting_status v vault_id lifecycle t :
    requested t0 = Some RqStatus → v ∈ seen →
    (∀ h rec, ds_config (h_daemon h) = cfg →
       same_outcome (run (OnRecovery (Handlers.status_response vault_id lifecycle) Handlers.respond) (view false rec h, t))
         (let '(r, (_, t1)) := Daemon.serve_stream (view false rec (set_vault v h), t0) in (r, (h, t1)))) →
    waiting seen (OnRecovery (Handlers.status_response vault_id lifecycle) Handlers.respond) t.

Lemma waiting_later seen seen' p t : seen ⊆ seen' → waiting seen p t → waiting seen' p t.
Proof. intros Hs [held p' t' ? ?|v vid lc t' ? Hv ?]; [by eapply waiting_plan|eapply waiting_status; [done|by apply Hs|done]]. Qed.

(** After it: the rest is determined and changes nothing. *)
Definition lands (p : Prog Net T) (t : T) (r : result unit Daemon.ServeError) (t1 : T) : Prop :=
  ∀ h, legal h → ∃ h', run p (h, t) = (r, (h', t1)) ∧ core h' = core h.

Definition over (p : Prog Net T) (t : T) (sd : Served T) : Prop :=
  sd_origin sd = t0 ∧ (∃ held, finishing held p) ∧ lands p t (sd_result sd) (sd_stream sd).

Lemma record_verified_outcome n rec rec' :
  m_poisoned rec = m_poisoned rec' → (Handlers.record_verified n rec).1 = (Handlers.record_verified n rec').1.
Proof. intros E. unfold Handlers.record_verified, lock_mutex. rewrite E. by destruct (m_poisoned rec'). Qed.

Lemma record_verified_poisoned n rec : m_poisoned (Handlers.record_verified n rec).2 = m_poisoned rec.
Proof. unfold Handlers.record_verified, lock_mutex. destruct (m_poisoned rec) eqn:E; simpl; congruence. Qed.

(** Some legal host, to run what no host influences. *)
Lemma finishing_lands held p t : finishing held p → ∃ r t1, lands p t r t1.
Proof.
  intros Hp. revert t. induction Hp as [r|A held m k _ IH|p _ IH|held n k _ IH]; intros t.
  - exists r, t. intros h _. by exists h.
  - destruct (IH (m t).1 (m t).2) as (r & t1 & Hl). exists r, t1. intros h Hh. destruct (Hl h Hh) as (h' & E & Hc).
    exists h'. split; [|done]. simpl. by destruct (m t).
  - destruct (IH t) as (r & t1 & Hl). exists r, t1. intros h Hh. destruct (Hl (set_long false h)) as (h' & E & Hc); [done|].
    exists h'. done.
  - set (rec0 := mkMutex (mkRecovery [] None) poisoned).
    destruct (IH (Handlers.record_verified n rec0).1 t) as (r & t1 & Hl). exists r, t1. intros h [Hh Hp].
    assert ((Handlers.record_verified n (ds_recovery (h_daemon h))).1 = (Handlers.record_verified n rec0).1) as Er
      by (by apply record_verified_outcome).
    destruct (Hl (set_recovery (Handlers.record_verified n (ds_recovery (h_daemon h))).2 h)) as (h' & E & Hc).
    { split; [done|]. simpl. by rewrite record_verified_poisoned. }
    exists h'. split; [|done]. simpl. rewrite <-Er in E. by destruct (Handlers.record_verified n (ds_recovery (h_daemon h))).
Qed.

(** An action after the effect. *)
Lemma over_exec p t sd h p' h' t' :
  over p t sd → legal h → exec p (h, t) = (p', (h', t')) → over p' t' sd ∧ core h' = core h ∧ legal h'.
Proof.
  intros (Ho & [held Hf] & Hl) Hh E.
  assert ((∃ held', finishing held' p') ∧ core h' = core h ∧ legal h') as ([held' Hf'] & Hc & Hh').
  { destruct Hf as [r|A held m k Hf|p Hf|held n k Hf]; simpl in E.
    - injection E as <- <- <-. split_and!; [eexists; constructor|done|done].
    - destruct (m t) as [a t2]. injection E as <- <- <-. split_and!; [by eexists|done|done].
    - injection E as <- <- <-. split_and!; [by eexists|done|done].
    - destruct (Handlers.record_verified n (ds_recovery (h_daemon h))) as [a rec] eqn:Er. injection E as <- <- <-.
      split_and!; [by eexists|done|]. split; [apply Hh|]. simpl.
      pose proof (record_verified_poisoned n (ds_recovery (h_daemon h))) as Hp. rewrite Er in Hp. simpl in Hp. rewrite Hp. apply Hh. }
  split; [|done]. split; [done|]. split; [by eexists|]. destruct (finishing_lands held' p' t' Hf') as (r & t1 & Hl').
  destruct (Hl h Hh) as (k & Ek & _), (Hl' h' Hh') as (k' & Ek' & _). rewrite run_exec, E in Ek. simpl in Ek.
  rewrite Ek' in Ek. by injection Ek as -> -> ->.
Qed.

(** *** The plan of a connection *)

(** So far the program has only followed [Daemon.serve_stream]. *)
Definition tracks (p : Prog Net T) (t : T) : Prop :=
  ∀ long rec h, ds_config (h_daemon h) = cfg → run p (view long rec h, t) = Daemon.serve_stream (view long rec h, t0).

Lemma same_outcome_refl x : same_outcome x x.
Proof. done. Qed.

Lemma finishing_respond response : finishing false (Handlers.respond response).
Proof. constructor. intros a. constructor. Qed.

Lemma finishing_release_respond response : finishing true (ReleaseLong (Handlers.respond response)).
Proof. constructor. apply finishing_respond. Qed.

Lemma finishing_stream_long (m : T → result unit Daemon.ServeError * T) : finishing true (OnStream m Handlers.finish_long).
Proof. constructor. intros a. constructor. constructor. Qed.

Lemma planning_respond response t : planning false (Handlers.respond response) t.
Proof. constructor. constructor. Qed.

Lemma planning_stream_long (m : T → result unit Daemon.ServeError * T) t : planning true (OnStream m Handlers.finish_long) t.
Proof. constructor. constructor. constructor. Qed.

Lemma planning_host held f t : host_ok f → (∀ a, finishing held (Handlers.respond a)) → planning held (Handlers.section f) t.
Proof. intros Hf Hk. constructor; [by apply on_host_section|done]. Qed.

Lemma planning_dispatch request t :
  tracks (Handlers.dispatch request) t → (request = RqStatus → requested t0 = Some RqStatus) →
  planning false (Handlers.dispatch request) t.
Proof.
  intros Ht Hst. unfold Handlers.dispatch in *.
  assert (request ≠ RqShutdown → refusing Handlers.respond_busy t) as Hbusy.
  { intros Hne. split; [apply finishing_respond|]. intros h rec Hc. rewrite <-(Ht true rec h Hc). cbn [run fst snd].
    change (Daemon.is_long (view true rec h)) with true. by rewrite bool_decide_eq_false_2. }
  destruct (decide (request = RqShutdown)) as [->|Hne].
  { apply planning_load_either; [done|]. apply planning_host; [apply shutdown_ok|apply finishing_respond]. }
  specialize (Hbusy Hne). apply planning_load; [|by rewrite bool_decide_eq_false_2]. cbn [andb].
  destruct request; try done;
    try (apply planning_host; [first [apply unlock_ok|apply put_host_ok|apply get_ok|apply with_vault_host_ok]|apply finishing_respond]);
    try apply planning_respond.
  - apply planning_load; [|done]. apply planning_status. auto.
  - apply planning_acquire; [|done]. apply planning_section; [apply on_host_section, sweep_ok|]. intros [n|e]; [|apply finishing_release_respond].
    apply finishing_record. intros a. apply finishing_release_respond.
  - apply planning_acquire; [|done]. apply planning_section; [apply on_host_section, with_vault_host_ok|]. intros a. apply finishing_release_respond.
Qed.

Lemma planning_exchange {A} text (body : ObjectId → Host Net * T → A * (Host Net * T)) answer t :
  tracks (Handlers.stream text body answer) t → (∀ o, section_ok (body o)) → planning false (Handlers.stream text body answer) t.
Proof.
  intros Ht Hb. unfold Handlers.stream in *. apply planning_acquire.
  - destruct (Daemon.parse_object_id text) as [o|response]; [|apply planning_stream_long]. apply planning_stream.
    destruct (Handlers.response_to _ t).1 as [[]|e]; [|repeat constructor]. apply planning_section; [done|]. intros a. apply finishing_stream_long.
  - split; [apply finishing_respond|]. intros h rec Hc. rewrite <-(Ht true rec h Hc). done.
Qed.

Lemma planning_serve : planning false (Handlers.serve_stream (dc_allowed_uid cfg)) t0.
Proof.
  assert (tracks (Handlers.serve_stream (dc_allowed_uid cfg)) t0) as Ht.
  { intros long rec h <-. apply (run_serve_stream (view long rec h)). }
  assert (∀ A (m : T → A * T) k t, tracks (OnStream m k) t → tracks (k (m t).1) (m t).2) as Hstep.
  { intros A m k t Hk long rec h Hc. rewrite <-(Hk long rec h Hc). cbn [run fst snd]. by destruct (m t). }
  unfold Handlers.serve_stream, Handlers.try in *. apply planning_stream. apply Hstep in Ht. unfold Handlers.timeout in *.
  destruct (set_read_timeout t0) as [[] t1] eqn:E1; [|constructor]. cbn [fst snd] in *.
  apply planning_stream. apply Hstep in Ht. destruct (set_write_timeout t1) as [[] t2] eqn:E2; [|constructor]. cbn [fst snd] in *.
  apply planning_stream. apply Hstep in Ht. unfold Handlers.authorized, sgets in *. cbn [fst snd] in *.
  destruct (match peer_uid t2 with Some uid => uid =? _ | None => false end); [|apply planning_respond]. cbn [negb] in *.
  apply planning_stream. apply Hstep in Ht. unfold Handlers.read_request in *.
  destruct (Protocol.read_frame t2) as [[rq|e] t3] eqn:E3; cbn [fst snd] in *; [|apply planning_respond].
  destruct rq; try (apply planning_exchange; [done|intros o; first [apply receive_ok|apply send_ok]]);
    (apply planning_dispatch; [done|]); intros Hr; try done. unfold requested. rewrite E1. cbn [snd]. rewrite E2. cbn [snd]. by rewrite E3.
Qed.

(** *** One action before the effect *)

(** From here the program finishes by itself, at any host with the core of [h'];
    the effect was that of an exchange at the host [h]. *)
Lemma over_exchange seen long rec p t h k h' :
  (∃ held, finishing held p) → legal k → core k = core h' →
  same_outcome (run p (k, t)) (Daemon.serve_stream (view long rec h, t0)) →
  ∃ sd, served_alone seen h sd h' ∧ over p t sd.
Proof.
  intros [held Hf] Hk Hc (E1 & E2 & E3). destruct (finishing_lands held p t Hf) as (r & t1 & Hl).
  destruct (Hl k Hk) as (k1 & Ek & Hk1). rewrite Ek in E1, E2, E3. simpl in *.
  destruct (Daemon.serve_stream _) as [r' [k' t1']] eqn:Es. simpl in *. subst r' t1'.
  exists (mkServed t0 r t1). split; [|by split_and!; [|eexists|]]. eapply alone_exchange; [done|congruence].
Qed.

Lemma legal_view long h : legal h → legal (view long (ds_recovery (h_daemon h)) h).
Proof. done. Qed.

(** A critical section is the effect. *)
Lemma section_effect {A} seen held (m : Host Net * T → A * (Host Net * T)) k t h :
  section_ok m → finishing held (k (m (h, t)).1) → faithful held (Critical m k) t → legal h →
  legal (m (h, t)).2.1 ∧ ∃ sd, served_alone seen h sd (m (h, t)).2.1 ∧ over (k (m (h, t)).1) (m (h, t)).2.2 sd.
Proof.
  intros Hm Hf Hfa [Hcfg Hp]. destruct (Hm h t) as [Hv (U1 & U2 & _)]. set (rec := ds_recovery (h_daemon h)) in *.
  specialize (Hfa h rec Hcfg). cbn [run] in Hfa. rewrite Hv in Hfa. cbn [fst snd] in Hfa.
  split; [by split; congruence|]. eapply (over_exchange seen false rec _ _ _ (view held rec (m (h, t)).2.1)); [by eexists| |done|done].
  split; simpl; congruence.
Qed.

Lemma run_respond_pair response (h : Host Net) (t : T) :
  run (Handlers.respond response) (h, t) = ((Handlers.response_to response t).1, (h, (Handlers.response_to response t).2)).
Proof. unfold Handlers.respond. cbn [run fst snd]. by destruct (Handlers.response_to response t). Qed.

Lemma run_status_reply vault_id lifecycle (h : Host Net) (t : T) :
  run (OnRecovery (Handlers.status_response vault_id lifecycle) Handlers.respond) (h, t) =
  run (Handlers.respond (Handlers.status_response vault_id lifecycle (ds_recovery (h_daemon h))).1)
    (set_recovery (ds_recovery (h_daemon h)) h, t).
Proof. done. Qed.

(** The first moment of a status request. *)
Lemma status_moment v vault_id lifecycle t :
  faithful false (Critical (Handlers.on_host Handlers.observe_vault) Handlers.status_reply) t →
  (∀ h, ds_vault (h_daemon h) = v → (Handlers.observe_vault h).1 = Some (vault_id, lifecycle)) →
  ∀ h rec, ds_config (h_daemon h) = cfg →
    same_outcome (run (OnRecovery (Handlers.status_response vault_id lifecycle) Handlers.respond) (view false rec h, t))
      (let '(r, (_, t1)) := Daemon.serve_stream (view false rec (set_vault v h), t0) in (r, (h, t1))).
Proof.
  intros Hfa Hv h rec Hc. specialize (Hfa (set_vault v h) rec Hc). cbn [run] in Hfa. unfold Handlers.on_host in Hfa.
  specialize (Hv (view false rec (set_vault v h)) eq_refl).
  destruct (Handlers.observe_vault (view false rec (set_vault v h))) as [o h1] eqn:Eo. simpl in Hv. subst o.
  assert (h1 = view false rec (set_vault v h)) as -> by (by injection Eo as _ <-). cbn [Handlers.status_reply] in Hfa.
  rewrite run_status_reply, run_respond_pair in *. destruct Hfa as (E1 & E2 & _). cbn [fst snd] in E1, E2.
  destruct (Daemon.serve_stream _) as [r [k1 t1]]. simpl in *. subst r t1. done.
Qed.

Lemma waiting_exec past p t h p' h' t' :
  waiting (moment h past) p t → legal h → Server.is_return p = false → exec p (h, t) = (p', (h', t')) →
  legal h' ∧ ((waiting (moment h past) p' t' ∧ core h' = core h) ∨ ∃ sd, served_alone (moment h past) h sd h' ∧ over p' t' sd).
Proof.
  intros Hw Hh Hr E. pose proof Hh as [Hcfg Hp]. set (rec := ds_recovery (h_daemon h)) in *.
  destruct Hw as [held p t Hpl Hfa|v vid lc t Hq Hv Hst].
  - destruct Hpl as [r t|A held m k t Hpl|k t Hpl [Hf Href]|k t Heq Hpl|g r t Hpl [Hf Href]|p t Hpl|A held m k t Hm Hf|t Hq]; simpl in E.
    + done.
    + destruct (m t) as [a t1] eqn:Em. injection E as <- <- <-. split; [done|]. left. split; [|done].
      apply (waiting_plan _ held); [done|]. intros h1 rec1 Hc. specialize (Hfa h1 rec1 Hc). simpl in Hfa. by rewrite Em in Hfa.
    + injection E as <- <- <-. split; [done|]. destruct (Daemon.is_long h).
      * right. apply (over_exchange _ true rec _ _ _ (view true rec h)); [by eexists|done|done|]. by apply Href.
      * left. split; [|done]. by apply (waiting_plan _ false).
    + injection E as <- <- <-. split; [done|]. left. split; [|done]. assert (k (Daemon.is_long h) = k false) as -> by (by destruct (Daemon.is_long h)).
      by apply (waiting_plan _ false).
    + destruct (Daemon.is_long h); injection E as <- <- <-; (split; [done|]).
      * right. apply (over_exchange _ true rec _ _ _ (view true rec h)); [by eexists|done|done|]. by apply Href.
      * left. split; [|done]. by apply (waiting_plan _ true).
    + injection E as <- <- <-. split; [done|]. left. split; [|done]. by apply (waiting_plan _ false).
    + pose proof (section_effect (moment h past) held m k t h Hm (Hf _) Hfa Hh) as Hs. destruct (m (h, t)) as [a [h1 t1]]. injection E as <- <- <-.
      destruct Hs as [? ?]. split; [done|by right].
    + injection E as <- <- <-. split; [done|]. destruct (lock_mutex (ds_vault (h_daemon h))) as [vault|] eqn:El.
      * left. split; [|done]. apply (waiting_status _ (ds_vault (h_daemon h))); [done|by left|]. apply status_moment; [done|].
        intros h1 E1. unfold Handlers.observe_vault. by rewrite E1, El.
      * right. apply (over_exchange _ false rec _ _ _ (view false rec h)); [eexists; apply finishing_respond|done|done|].
        specialize (Hfa h rec Hcfg). cbn [run] in Hfa. unfold Handlers.on_host, Handlers.observe_vault in Hfa.
        change (lock_mutex (ds_vault (h_daemon (view false rec h)))) with (lock_mutex (ds_vault (h_daemon h))) in Hfa. by rewrite El in Hfa.
  - simpl in E. injection E as <- <- <-. split; [done|]. right.
    set (response := (Handlers.status_response vid lc rec).1). destruct (Hst h rec Hcfg) as (E1 & E2 & _).
    rewrite run_status_reply, run_respond_pair in E1, E2.
    destruct (Daemon.serve_stream (view false rec (set_vault v h), t0)) as [r [k t1]] eqn:Es. simpl in E1, E2.
    exists (mkServed t0 r t1). split; [by eapply (alone_status _ _ v rec)|]. split; [done|]. split; [eexists; apply finishing_respond|].
    intros h1 _. exists h1. rewrite run_respond_pair. split; [|done]. by rewrite <-E1, <-E2.
Qed.


Lemma waiting_return seen r t h :
  waiting seen (Return r) t → legal h → served_alone seen h (mkServed t0 r t) h.
Proof.
  intros Hw [Hcfg _]. inversion Hw as [held p t' Hpl Hfa|]; subst. inversion Hpl; subst.
  destruct (Hfa h (ds_recovery (h_daemon h)) Hcfg) as (E1 & E2 & E3). simpl in *.
  destruct (Daemon.serve_stream _) as [r' [k t1]] eqn:Es. simpl in *. subst r' t1. by eapply alone_exchange.
Qed.

End origin.

(** ** The machine *)

Section machine.
Variables (cfg : DaemonConfig) (poisoned : bool).

(** The threads, each before or after its effect; [effects] are those after. *)
Definition thread_ok (seen : list (Mutex Vault)) (th : option (Thread Net T)) (effect : option (Served T)) : Prop :=
  match th, effect with
  | Some th, None => waiting cfg (th_origin th) seen (th_prog th) (th_stream th)
  | Some th, Some sd => over cfg poisoned (th_origin th) (th_prog th) (th_stream th) sd
  | None, effect => effect = None
  end.

Record machine_ok (past : list (Mutex Vault)) (s : Machine Net T) (effects : gmap nat (Served T)) : Prop := {
  mo_legal : legal cfg poisoned (sv_host s);
  mo_threads id : thread_ok (moment (sv_host s) past) (sv_threads s !! id) (effects !! id);
}.

Definition listening (s : Machine Net T) : Prop := ∀ r, sv_loop s ≠ Returned r.

Lemma thread_later seen seen' th effect : seen ⊆ seen' → thread_ok seen th effect → thread_ok seen' th effect.
Proof. intros Hs. destruct th as [th|], effect as [sd|]; try done. by apply waiting_later. Qed.

(** A thread that goes on, with the others as they were. *)
Lemma machine_ok_insert past past' h h' l ts (effects effects' : gmap nat (Served T)) id th :
  legal cfg poisoned h' → (∀ id, thread_ok (moment h past) (ts !! id) (effects !! id)) →
  moment h past ⊆ moment h' past' → thread_ok (moment h' past') (Some th) (effects' !! id) →
  (∀ id', id ≠ id' → effects' !! id' = effects !! id') →
  machine_ok past' (mkMachine h' l (<[id := th]> ts)) effects'.
Proof.
  intros Hl Ht Hs Hth Heq. constructor; [done|]. simpl. intros id'.
  destruct (decide (id = id')) as [<-|Hne]; [by rewrite lookup_insert_eq|].
  rewrite lookup_insert_ne, Heq by done. by eapply thread_later.
Qed.

(** A step of the machine, as steps of the serial history. *)
Lemma machine_step past s e s' effects :
  machine_ok past s effects → Server.step s e s' → listening s' →
  ∃ hist effects' past', machine_ok past' s' effects' ∧ serial past (sv_host s) hist (sv_host s') past' ∧
    (map_to_list effects).*2 ++ hist ≡ₚ Server.ended (option_list e) ++ (map_to_list effects').*2.
Proof.
  intros [Hl Ht] Hst Hli.
  assert (∀ l ts, s' = mkMachine (sv_host s) l ts → ts = sv_threads s → Server.ended (option_list e) = [] →
    ∃ hist effects' past', machine_ok past' s' effects' ∧ serial past (sv_host s) hist (sv_host s') past' ∧
      (map_to_list effects).*2 ++ hist ≡ₚ Server.ended (option_list e) ++ (map_to_list effects').*2) as Hloop.
  { intros l ts -> -> ->. exists [], effects, past. split_and!; [done|by constructor|by rewrite app_nil_r]. }
  destruct Hst as [h ts Hs|h ts r h' Hs Hr|h ts t|h ts|h ts|h ts t|h ts t n Hn|h ts t n Hn|h ts t n id Hn Ha Hid
                  |h l ts id th p h' t' Hid Hr Ex|h l ts id th r Hid Hr]; try by eapply Hloop.
  - by destruct (Hli r).
  - clear Hloop. exists [], effects, past. split_and!; [|by constructor|by rewrite app_nil_r]. simpl in *.
    eapply (machine_ok_insert past past h); [done|exact Ht|done| |done].
    specialize (Ht id). rewrite Hid in Ht. simpl in Ht. rewrite Ht. unfold thread_ok, Server.spawn. cbn [th_origin th_prog th_stream].
    destruct Hl as [<- _]. apply (waiting_plan _ _ _ false); [apply planning_serve|]. intros h1 rec Hc.
    rewrite <-Hc. by rewrite (run_serve_stream (view false rec h1)).
  - clear Hloop. simpl in *. pose proof (Ht id) as Hth. rewrite Hid in Hth. destruct (effects !! id) as [sd|] eqn:Ee; simpl in Hth.
    + destruct (over_exec _ _ _ _ _ _ _ _ _ _ Hth Hl Ex) as (Ho & Hc & Hl'). exists [], effects, past.
      split_and!; [|by constructor|by rewrite app_nil_r].
      eapply (machine_ok_insert past past h); [done|exact Ht|by rewrite (core_vault _ _ Hc)|by rewrite Ee|done].
    + destruct (waiting_exec _ poisoned _ _ _ _ _ _ _ _ Hth Hl Hr Ex) as [Hl' [[Hw Hc]|(sd & Hsd & Ho)]].
      * exists [], effects, past. split_and!; [|by constructor|by rewrite app_nil_r].
        eapply (machine_ok_insert past past h); [done|exact Ht|by rewrite (core_vault _ _ Hc)| |done].
        rewrite Ee. unfold thread_ok. by rewrite (core_vault _ _ Hc).
      * exists [sd], (<[id := sd]> effects), (moment h past). split_and!.
        -- eapply (machine_ok_insert past (moment h past) h); [done|exact Ht|intros ? ?; by right| |].
           ++ by rewrite lookup_insert_eq.
           ++ intros id' Hne. by rewrite lookup_insert_ne.
        -- econstructor; [done|by constructor].
        -- simpl. rewrite map_to_list_insert by done. simpl. by rewrite Permutation_app_comm.
  - clear Hloop. simpl in *. pose proof (Ht id) as Hth. rewrite Hid in Hth.
    assert (∀ effects' past', moment h past ⊆ moment h past' →
      effects' !! id = None → (∀ id', id ≠ id' → effects' !! id' = effects !! id') →
      machine_ok past' (mkMachine (Server.set_active (Admission.fetch_sub (ds_active_connections (h_daemon h))) h) l (delete id ts)) effects') as Hok.
    { intros effects' past' Hs Hn Heq. constructor; [done|]. simpl. intros id'.
      destruct (decide (id = id')) as [<-|Hne]; [by rewrite lookup_delete_eq, Hn|rewrite lookup_delete_ne, Heq by done].
      by eapply thread_later. }
    destruct (effects !! id) as [sd|] eqn:Ee; simpl in Hth; rewrite Hr in Hth.
    + destruct Hth as (Ho & _ & Hla). destruct (Hla h Hl) as (k & Ek & _). simpl in Ek. injection Ek as E1 _ E2.
      exists [], (delete id effects), past. split_and!; [|by constructor|].
      * apply Hok; [done|by rewrite lookup_delete_eq|]. intros id' Hne. by rewrite lookup_delete_ne.
      * rewrite app_nil_r. rewrite <-(map_to_list_delete _ _ _ Ee). simpl. destruct sd. simpl in *. by subst.
    + exists [mkServed (th_origin th) r (th_stream th)], effects, (moment h past). split_and!.
      * apply Hok; [intros ? ?; by right|done|done].
      * econstructor; [by eapply waiting_return|]. by constructor.
      * simpl. by rewrite Permutation_app_comm.
Qed.

Lemma step_returned s e s' r : Server.step s e s' → sv_loop s = Returned r → sv_loop s' = Returned r.
Proof. by destruct 1. Qed.

Lemma steps_returned s es s' r : Server.steps s es s' → sv_loop s = Returned r → sv_loop s' = Returned r.
Proof. induction 1; eauto using step_returned. Qed.

Lemma machine_steps past s es s' effects :
  machine_ok past s effects → Server.steps s es s' → listening s' →
  ∃ hist effects' past', machine_ok past' s' effects' ∧ serial past (sv_host s) hist (sv_host s') past' ∧
    (map_to_list effects).*2 ++ hist ≡ₚ Server.ended es ++ (map_to_list effects').*2.
Proof.
  intros Hok Hs. revert past effects Hok. induction Hs as [s|s1 s2 s3 e es Hst1 Hst2 IH]; intros past effects Hok Hl.
  - exists [], effects, past. split_and!; [done|by constructor|by rewrite app_nil_r].
  - assert (listening s2) as Hl2 by (intros r Hr; by eapply (Hl r), steps_returned).
    destruct (machine_step _ _ _ _ _ Hok Hst1 Hl2) as (hist1 & eff1 & past1 & Hok1 & Hs1 & Hp1).
    destruct (IH past1 eff1 Hok1 Hl) as (hist2 & eff2 & past2 & Hok2 & Hs2 & Hp2). exists (hist1 ++ hist2), eff2, past2.
    split_and!; [done|by eapply serial_app|]. unfold Server.ended in *. rewrite omap_app, <-(assoc_L (++)), <-Hp2.
    by rewrite !(assoc_L (++)), Hp1.
Qed.

End machine.

Lemma machine_ok_start h :
  machine_ok (ds_config (h_daemon h)) (m_poisoned (ds_recovery (h_daemon h))) [] (mkMachine h Checking ∅) ∅.
Proof. constructor; [done|]. intros id. simpl. by rewrite !lookup_empty. Qed.

(** No thread is left: every effect belongs to a connection that ended. *)
Lemma no_effects_left cfg poisoned past (s : Machine Net T) effects : machine_ok cfg poisoned past s effects → sv_threads s = ∅ → effects = ∅.
Proof.
  intros [_ Ht] E. apply map_eq. intros id. specialize (Ht id). rewrite E, lookup_empty in Ht. simpl in Ht. by rewrite Ht, lookup_empty.
Qed.

Lemma serve_start h s h' : Server.serve (T:=T) h = (Ok s, h') → s = mkMachine h' Checking ∅.
Proof. unfold Server.serve. destruct (Server.on_env _ h) as [[[]|e] h1]; by intros [= <- <-]. Qed.

(** An order of the connections, for two moments of a run. *)
Lemma connections_in_order h s0 h0 es1 s1 es2 s2 :
  Server.serve h = (Ok s0, h0) → Server.steps s0 es1 s1 → Server.steps s1 es2 s2 → listening s2 →
  ∃ before after past1 past2,
    serial [] h0 before (sv_host s1) past1 ∧ serial past1 (sv_host s1) after (sv_host s2) past2 ∧
    Server.ended es1 ⊆+ before ∧ Server.ended es1 ++ Server.ended es2 ⊆+ before ++ after ∧
    (sv_threads s2 = ∅ → before ++ after ≡ₚ Server.ended es1 ++ Server.ended es2).
Proof.
  intros Hs Hr1 Hr2 Hl2. apply serve_start in Hs as ->.
  assert (listening s1) as Hl1 by (intros r Hr; by eapply (Hl2 r), steps_returned).
  destruct (machine_steps _ _ _ _ _ _ _ (machine_ok_start h0) Hr1 Hl1) as (before & eff1 & past1 & Hok1 & Hs1 & Hp1).
  destruct (machine_steps _ _ _ _ _ _ _ Hok1 Hr2 Hl2) as (after & eff2 & past2 & Hok2 & Hs2 & Hp2).
  rewrite map_to_list_empty in Hp1. simpl in Hp1. exists before, after, past1, past2.
  assert (before ++ after ≡ₚ Server.ended es1 ++ Server.ended es2 ++ (map_to_list eff2).*2) as Hp.
  { by rewrite Hp1, <-(assoc_L (++)), Hp2. }
  split_and!; [done|done|..].
  - rewrite Hp1. apply submseteq_inserts_r. done.
  - rewrite Hp, (assoc_L (++)). by apply submseteq_inserts_r.
  - intros Hn. rewrite Hp, (no_effects_left _ _ _ _ _ Hok2 Hn), map_to_list_empty. simpl. by rewrite app_nil_r.
Qed.

(** C6: interleaved connections are served as if one after the other.  Stop the
    server at two moments of any run of its accept loop and its threads.  There
    is an order of the connections that, served alone in turn by
    [Daemon.serve_stream], bring the host through the states of the two moments;
    every connection that has ended appears in it with its result and the bytes
    it sent and received, those that had ended by the first moment in the part
    before it; and when no thread is left, nobody else appears.  A status request
    may report the vault as it was between two earlier connections. *)
Theorem connections_serialise h s0 h0 es1 s1 es2 s2 :
  Server.serve h = (Ok s0, h0) → Server.steps s0 es1 s1 → Server.steps s1 es2 s2 → listening s2 →
  ∃ before after past1 past2,
    serial [] h0 before (sv_host s1) past1 ∧ serial past1 (sv_host s1) after (sv_host s2) past2 ∧
    Server.ended es1 ⊆+ before ∧ Server.ended es1 ++ Server.ended es2 ⊆+ before ++ after ∧
    (sv_threads s2 = ∅ → before ++ after ≡ₚ Server.ended es1 ++ Server.ended es2).
Proof. apply connections_in_order. Qed.

(** ** Permits *)

(** Programs that pair the long-operation permit with its release; [held] tells
    whether the permit is held. *)
Inductive balanced : bool → Prog Net T → Prop :=
| balanced_return r : balanced false (Return r)
| balanced_stream {A} held (m : T → A * T) k : (∀ a, balanced held (k a)) → balanced held (OnStream m k)
| balanced_load k : (∀ b, balanced false (k b)) → balanced false (LoadLong k)
| balanced_acquire granted refused : balanced true granted → balanced false refused → balanced false (AcquireLong granted refused)
| balanced_release p : balanced false p → balanced true (ReleaseLong p)
| balanced_section {A} held (m : Host Net * T → A * (Host Net * T)) k :
    section_ok m → (∀ a, balanced held (k a)) → balanced held (Critical m k)
| balanced_recovery {A} held (m : Mutex RecoveryState → A * Mutex RecoveryState) k :
    (∀ a, balanced held (k a)) → balanced held (OnRecovery m k).

Lemma balanced_respond response : balanced false (Handlers.respond response).
Proof. constructor. constructor. Qed.

Lemma balanced_host f : host_ok f → balanced false (Handlers.section f).
Proof. intros Hf. constructor; [by apply on_host_section|apply balanced_respond]. Qed.

Lemma balanced_dispatch request : balanced false (Handlers.dispatch request).
Proof.
  constructor. intros long. destruct (_ && _); [apply balanced_respond|].
  destruct request; try apply balanced_respond;
    try (apply balanced_host; first [apply unlock_ok|apply put_host_ok|apply get_ok|apply shutdown_ok|apply with_vault_host_ok]).
  - constructor. intros []; [apply balanced_respond|]. constructor; [apply on_host_section, observe_ok|].
    intros [[vid lc]|]; [|apply balanced_respond]. constructor. apply balanced_respond.
  - constructor; [|apply balanced_respond]. constructor; [apply on_host_section, sweep_ok|].
    intros [n|e]; repeat constructor; apply balanced_respond.
  - constructor; [|apply balanced_respond]. constructor; [apply on_host_section, with_vault_host_ok|]. intros a. constructor. apply balanced_respond.
Qed.

Lemma balanced_exchange {A} text (body : ObjectId → Host Net * T → A * (Host Net * T)) answer :
  (∀ o, section_ok (body o)) → balanced false (Handlers.stream text body answer).
Proof.
  intros Hb. constructor; [|apply balanced_respond]. destruct (Daemon.parse_object_id text) as [o|response].
  - constructor. intros [[]|e]; [|repeat constructor]. constructor; [done|]. intros a. repeat constructor.
  - repeat constructor.
Qed.

Lemma balanced_serve uid : balanced false (Handlers.serve_stream uid).
Proof.
  unfold Handlers.serve_stream, Handlers.try. constructor. intros [[]|e]; [|constructor]. constructor. intros [[]|e]; [|constructor].
  constructor. intros [[]|e]; [|apply balanced_respond|constructor]. constructor. intros [[rq|e]|e]; [|apply balanced_respond|constructor].
  destruct rq; try apply balanced_dispatch; apply balanced_exchange; intros o; [apply receive_ok|apply send_ok].
Qed.

Definition phase_held (ph : Admission.Phase) : bool :=
  match ph with Admission.Serving => false | Admission.InLongOperation => true end.

Definition acceptor_of (l : Loop T) : Admission.Acceptor :=
  match l with
  | Accepted _ => Admission.Accepted
  | Observed _ n => Admission.Observed n
  | _ => Admission.Listening
  end.

(** Each thread is in the phase its program says. *)
Definition in_phases (ts : gmap nat (Thread Net T)) (phases : gmap nat Admission.Phase) : Prop :=
  ∀ id, match ts !! id, phases !! id with
        | Some th, Some ph => balanced (phase_held ph) (th_prog th)
        | None, None => True
        | _, _ => False
        end.

(** The permits of a machine, as [Admission] has them. *)
Record permits_of (max : Z) (s : Machine Net T) (pm : Admission.Permits) : Prop := {
  po_max : Server.max_connections (sv_host s) = max;
  po_active : Admission.active_connections pm = ds_active_connections (h_daemon (sv_host s));
  po_long : Admission.long_operation_active pm = Daemon.is_long (sv_host s);
  po_acceptor : Admission.acceptor pm = acceptor_of (sv_loop s);
  po_threads : in_phases (sv_threads s) (Admission.threads pm);
}.

Lemma in_phases_insert ts phases id th ph :
  in_phases ts phases → balanced (phase_held ph) (th_prog th) → in_phases (<[id := th]> ts) (<[id := ph]> phases).
Proof.
  intros Hts Hb i. destruct (decide (id = i)) as [<-|Hne]; [by rewrite !lookup_insert_eq|rewrite !lookup_insert_ne by done; apply Hts].
Qed.

Lemma in_phases_delete ts phases id : in_phases ts phases → in_phases (delete id ts) (delete id phases).
Proof.
  intros Hts i. destruct (decide (id = i)) as [<-|Hne]; [by rewrite !lookup_delete_eq|rewrite !lookup_delete_ne by done; apply Hts].
Qed.

(** An action of a thread, on the permits. *)
Lemma balanced_exec held p h t p' h' t' :
  balanced held p → Server.is_return p = false → exec p (h, t) = (p', (h', t')) →
  Server.max_connections h' = Server.max_connections h ∧
  ds_active_connections (h_daemon h') = ds_active_connections (h_daemon h) ∧
  ((balanced held p' ∧ Daemon.is_long h' = Daemon.is_long h) ∨
   (held = false ∧ Daemon.is_long h = false ∧ balanced true p' ∧ Daemon.is_long h' = true) ∨
   (held = true ∧ balanced false p' ∧ Daemon.is_long h' = false)).
Proof.
  intros Hb Hr E. destruct Hb as [r|A held m k Hk|k Hk|g r Hg Hrf|p Hp|A held m k Hm Hk|A held m k Hk]; simpl in E; [done|..].
  - destruct (m t) as [a t1]. injection E as <- <- <-. split_and!; [done..|]. left. done.
  - injection E as <- <- <-. split_and!; [done..|]. left. done.
  - destruct (Daemon.is_long h) eqn:El; injection E as <- <- <-; (split_and!; [done..|]); [by left|]. right. left. done.
  - injection E as <- <- <-. split_and!; [done..|]. right. right. done.
  - destruct (Hm h t) as [_ (U1 & _ & U3 & U4)]. destruct (m (h, t)) as [a [h1 t1]]. injection E as <- <- <-. simpl in *.
    split_and!; [unfold Server.max_connections; by rewrite U1|done|]. left. done.
  - destruct (m _) as [a rec]. injection E as <- <- <-. split_and!; [done..|]. left. done.
Qed.

Lemma permits_step max s e s' pm :
  permits_of max s pm → Server.step s e s' → ∃ pm', rtc (Admission.step max) pm pm' ∧ permits_of max s' pm'.
Proof.
  intros Hpo Hst. destruct pm as [n lg acc phases].
  destruct Hst as [h ts Hs|h ts r h' Hs Hr|h ts t|h ts|h ts|h ts t|h ts t m Hn|h ts t m Hn|h ts t m id Hn Ha Hid
                  |h l ts id th p h' t' Hid Hr Ex|h l ts id th r Hid Hr];
    destruct Hpo as [Pm Pa Pl Pc Pt]; simpl in *; subst acc.
  - eexists. split; [done|]. by constructor.
  - eexists. split; [done|]. unfold Server.on_env in Hr. destruct (Server.remove_socket _ _) as [r1 e1]. injection Hr as <- <-. by constructor.
  - eexists. split; [apply rtc_once, Admission.step_accept|]. by constructor.
  - eexists. split; [done|]. by constructor.
  - eexists. split; [done|]. by constructor.
  - eexists. split; [apply rtc_once, Admission.step_load|]. constructor; simpl; congruence || done.
  - eexists. split; [apply rtc_once, Admission.step_reject; lia|]. by constructor.
  - eexists. split; [apply rtc_once, Admission.step_exchange_failed; lia|]. by constructor.
  - assert (n = m) as -> by congruence. pose proof (Pt id) as Hth. rewrite Hid in Hth. destruct (phases !! id) eqn:Eph; [done|].
    eexists. split; [apply rtc_once, (Admission.step_admit _ _ _ _ id); [lia|done]|]. constructor; simpl; [done|congruence|done|done|].
    apply in_phases_insert; [done|]. apply balanced_serve.
  - pose proof (Pt id) as Hth. rewrite Hid in Hth. destruct (phases !! id) as [ph|] eqn:Eph; [|done].
    destruct (balanced_exec _ _ _ _ _ _ _ Hth Hr Ex) as (Em & Ea & Hc).
    destruct Hc as [[Hb El]|[(Eh & El & Hb & El')|(Eh & Hb & El')]].
    + exists (Admission.mkPermits n lg (acceptor_of l) phases). split; [done|]. constructor; simpl; [congruence..|done|].
      rewrite <-(insert_id phases id ph) by done. by apply in_phases_insert.
    + destruct ph; [|done]. rewrite El in Pl. subst lg. eexists. split; [apply rtc_once, (Admission.step_start_long _ _ _ _ id); done|].
      constructor; simpl; [congruence..|done|]. by apply in_phases_insert.
    + destruct ph; [done|]. eexists. split; [apply rtc_once, (Admission.step_finish_long _ _ _ _ _ id); done|].
      constructor; simpl; [congruence..|done|]. by apply in_phases_insert.
  - pose proof (Pt id) as Hth. rewrite Hid in Hth. destruct (phases !! id) as [ph|] eqn:Eph; [|done].
    rewrite Hr in Hth. inversion Hth as [r'| | | | | |]; subst. destruct ph; [|done].
    eexists. split; [apply rtc_once, (Admission.step_end _ _ _ _ _ id); done|]. constructor; simpl; [done|congruence|done|done|].
    by apply in_phases_delete.
Qed.

(** C16: permits.  In every interleaving of the accept loop and the handlers of
    its connections, the counter equals the number of threads and never exceeds
    the configured limit (so it never wraps), at most one thread is inside a long
    operation, and the flag tells exactly whether one is. *)
Theorem server_permits h s0 h0 es s :
  let max := dc_max_connections (ds_config (h_daemon h0)) in
  Server.serve h = (Ok s0, h0) → Server.steps s0 es s →
  ds_active_connections (h_daemon h0) = 0 → Daemon.is_long h0 = false → 0 < max ≤ usize_max →
  ∃ phases,
    in_phases (sv_threads s) phases ∧
    AdmissionSpec.permits_ok max (Admission.mkPermits (ds_active_connections (h_daemon (sv_host s))) (Daemon.is_long (sv_host s))
      (acceptor_of (sv_loop s)) phases).
Proof.
  intros max Hs Hr Ha Hl Hmax. apply serve_start in Hs as ->.
  assert (permits_of max (mkMachine h0 Checking ∅ : Machine Net T) Admission.initial) as Hi.
  { constructor; simpl; [done..|]. intros id. by rewrite !lookup_empty. }
  assert (∃ pm, rtc (Admission.step max) Admission.initial pm ∧ permits_of max s pm) as (pm & Hrun & [Pm Pa Pl Pc Pt]).
  { remember Admission.initial as pm eqn:E. clear E. revert pm Hi.
    induction Hr as [s|s1 s2 s3 e es Hst _ IH]; intros pm Hi; [by exists pm|].
    destruct (permits_step _ _ _ _ _ Hi Hst) as (pm1 & R1 & H1'). destruct (IH pm1 H1') as (pm2 & R2 & H2').
    exists pm2. split; [by etrans|done]. }
  exists (Admission.threads pm). split; [done|]. rewrite <-Pa, <-Pl, <-Pc. destruct pm. simpl.
  by apply AdmissionSpec.permits_reachable.
Qed.

End alone.
End ServerSpec.
