(* ===== verification/TypedServer.v ===== *)
(** * Typed tables under the daemon

    Every machine [Server] reaches keeps the types of [Typed]: whatever the
    clients send, in whatever order the threads act, and whatever the witness
    answers, each column has the length and range its schema promises and no two
    chunks of a version share a nonce. *)

From S2P Require Import Prelude Format Cde Crypto Witness Fs Storage Vault WitnessService Https Backup Protocol Daemon Server.
From S2P Require Import StorageSpec VaultSpec Typed BackupSpec DaemonSpec ServerSpec.
From Stdlib Require Import ZArith Lia.
From stdpp Require Import base numbers list gmap strings sorting relations.

Open Scope Z_scope.
Open Scope vlt_scope.

Module TypedServer.
Import Typed.

(** ** Creating a vault *)

Section creating.
Context `{Primitives}.

Lemma typed_initialize : typed_io Storage.initialize_schema any.
Proof. apply typed_exec. by intros db db' Hd [= <-]. Qed.

Lemma typed_insert_envelope e : typed_io (Storage.insert_envelope e) any.
Proof. apply typed_exec. intros db db' Hd E. by apply (insert_meta_typed _ _ _ Hd) in E. Qed.

(** Whatever was behind the connection, a created vault starts typed. *)
Lemma create_typed path passphrase w v w' : Vault.create path passphrase w = (Ok v, w') → db_typed (w_db w').
Proof.
  unfold Vault.create, Storage.create. intros E. do 4 sbind_step E. sbind_step E. injection E as <- <-. do 3 sbind_step E4.
  injection E6 as _ <-. assert (typed_io (Storage.initialize_schema ;* Storage.insert_envelope a2 ;*
    Storage.enforce_owner_private_state_files path) any) as Ht.
  { typed_step; [apply typed_initialize|]. typed_step; [apply typed_insert_envelope|apply typed_private]. }
  by apply Ht in E4 as [? _]; [|apply empty_typed].
Qed.

End creating.

(** ** What typed rows are good for *)

(** A read never stops at the shape of a row: each decodes to a value of its Rust
    type. *)
Record readable (db : Db) : Prop := {
  rd_object oid vid : db_objects db !! oid = Some vid → from_slice vid = Ok (mkId vid : VersionId);
  rd_version vid row : db_versions db !! vid = Some row →
    Storage.version_of_row vid row =
      Ok (mkStored (mkId (vr_object_id row)) (mkId vid) (mkSealed (vr_dek_nonce row) (vr_dek_ciphertext row))
            (mkSealed (vr_manifest_nonce row) (vr_manifest_ciphertext row))
            (vr_plaintext_len row) (vr_chunk_size row) (vr_chunk_count row));
  rd_chunk vid i row : db_chunks db !! (vid, i) = Some row →
    Storage.chunk_of_row i row = Ok (mkChunk i (mkSealed (cr_nonce row) (cr_ciphertext row)));
}.

Lemma bytes12_ok b : length b = 12%nat → Storage.bytes12 b = Ok b.
Proof. intros Hb. unfold Storage.bytes12. by rewrite (proj2 (fixed_array_some 12 b b) (conj eq_refl Hb)). Qed.

Lemma from_slice_16 {k} b : length b = 16%nat → from_slice b = Ok (mkId b : Identifier k).
Proof. intros Hb. by apply from_slice_ok. Qed.

Lemma typed_readable db : db_typed db → readable db.
Proof.
  assert (Vault.MAX_CHUNKS_PER_VERSION < u32_max) as Hm by by vm_compute.
  intros Hd. constructor.
  - intros oid vid Ho. apply from_slice_16. by apply (ty_object _ Hd oid vid).
  - intros vid row Hv. destruct (ty_version _ Hd _ _ Hv). unfold Storage.version_of_row, Sql.u64_of_sql.
    rewrite (proj2 (Z.leb_le 0 _) (proj1 vt_plaintext_len)), !StorageSpec.u32_of_sql_ok by lia. simpl. by rewrite !from_slice_16, !bytes12_ok.
  - intros vid i row Hc. destruct (ty_chunk _ Hd _ _ _ Hc) as (_ & Hi & Hn). unfold Storage.chunk_of_row.
    rewrite StorageSpec.u32_of_sql_ok by lia. simpl. by rewrite bytes12_ok.
Qed.

(** The rows of one version, as [visit_chunks] reads them. *)
Lemma elem_of_select_chunks vid db i row : (i, row) ∈ Sql.select_chunks vid db ↔ db_chunks db !! (vid, i) = Some row.
Proof.
  unfold Sql.select_chunks. rewrite merge_sort_Permutation, list_elem_of_omap. split.
  - intros ([[v j] r] & Hin & E). simpl in E. case_decide; [|done]. simplify_eq. by apply elem_of_map_to_list.
  - intros E. exists ((vid, i), row). split; [by apply elem_of_map_to_list|]. simpl. by rewrite decide_True.
Qed.

Lemma select_chunks_indices vid db : NoDup (Sql.select_chunks vid db).*1.
Proof.
  unfold Sql.select_chunks. rewrite merge_sort_Permutation. pose proof (NoDup_fst_map_to_list (db_chunks db)) as Hnd.
  induction (map_to_list (db_chunks db)) as [|[[v j] r] l IH]; simpl in *; [constructor|]. apply NoDup_cons in Hnd as [Hj Hnd].
  case_decide as Ev; [|by apply IH]. simpl. apply NoDup_cons. split; [|by apply IH]. intros Hin. apply Hj.
  apply list_elem_of_fmap in Hin as ([j' r'] & -> & Hin). apply list_elem_of_omap in Hin as ([[v' k] r''] & Hin & E).
  simpl in *. case_decide; [|done]. simplify_eq. apply list_elem_of_fmap. eexists. split; [|exact Hin]. done.
Qed.

(** Indices that are distinct and in range are not more than the range. *)
Lemma bounded_indices (l : list Z) n : 0 ≤ n → NoDup l → Forall (λ i, 0 ≤ i < n) l → lenZ l ≤ n.
Proof.
  intros Hn Hnd Hl. assert (length l ≤ length (seqZ 0 n))%nat as Hle.
  { apply submseteq_length, NoDup_submseteq; [done|]. intros i Hi. apply elem_of_seqZ. rewrite Forall_forall in Hl.
    specialize (Hl i Hi). simpl in Hl. lia. }
  rewrite length_seqZ in Hle. unfold lenZ. lia.
Qed.

Lemma typed_nonces vid db : db_typed db → NoDup ((λ r, cr_nonce r.2) <$> Sql.select_chunks vid db).
Proof.
  intros Hd. apply NoDup_fmap_2_strong; [|eapply NoDup_fmap_1, select_chunks_indices].
  intros [i r] [j r'] Hi%elem_of_select_chunks Hj%elem_of_select_chunks En. simpl in En.
  pose proof (ty_nonces _ Hd _ _ _ _ _ Hi Hj En) as <-. congruence.
Qed.

Lemma typed_budget vid db : db_typed db → lenZ (Sql.select_chunks vid db) ≤ Vault.MAX_CHUNKS_PER_VERSION.
Proof.
  intros Hd. transitivity (lenZ (Sql.select_chunks vid db).*1); [by unfold lenZ; rewrite length_fmap|].
  apply bounded_indices; [by vm_compute|apply select_chunks_indices|]. apply Forall_fmap, Forall_forall. intros [i row] Hi%elem_of_select_chunks.
  by apply (ty_chunk _ Hd _ _ _ Hi).
Qed.

(** ** Sections of the daemon *)

Section sections.
Context `{Primitives} `{Base64} `{SqliteFile} `{Tempfile} `{Json BackupManifest}.
Context `{HexCrate} `{Json IssueRequest} `{Json IssueResponse} `{Json HeadRequest} `{Json HeadResponse}.
Context `{Json Request} `{Json Response} {Net : Type} `{Transport Net} `{UnixStream T}.
Implicit Types (h : Host Net) (t : T) (p : Prog Net T).

Definition tables (h : Host Net) : Db := w_db (h_world h).

Definition keeps {A} (f : Host Net → A * Host Net) : Prop := ∀ h, db_typed (tables h) → db_typed (tables (f h).2).

Lemma keeps_const {A} (a : A) : keeps (λ h : Host Net, (a, h)).
Proof. by intros h. Qed.

Lemma keeps_choice {A} (b : Host Net → bool) (f g : Host Net → A * Host Net) :
  keeps f → keeps g → keeps (λ h, if b h then f h else g h).
Proof. intros Hf Hg h Hh. destruct (b h); auto. Qed.

Lemma on_vault_typed {X A} (m : Op X A) Q x v h :
  typed_op X m Q → db_typed (tables h) → db_typed (tables (Daemon.on_vault m x v h).2).
Proof.
  intros Hm Hh. unfold Daemon.on_vault. destruct (m ((v, h_world h), x)) as [r [[v' w'] x']] eqn:E. by eapply Hm in E as [E _].
Qed.

Lemma keeps_with_vault op Q : typed_op Files op Q → keeps (Daemon.with_vault (Net:=Net) op).
Proof.
  intros Hop h Hh. unfold Daemon.with_vault. destruct (lock_mutex _) as [v|]; [|done].
  pose proof (on_vault_typed op Q (h_files h) v h Hop Hh). by destruct (Daemon.on_vault _ _ v h) as [[r f] h'].
Qed.

Lemma keeps_with_vault_result op Q : typed_op Files op Q → keeps (Daemon.with_vault_result (Net:=Net) op).
Proof.
  intros Hop h Hh. unfold Daemon.with_vault_result. destruct (lock_mutex _) as [v|]; [|done].
  pose proof (on_vault_typed op Q (h_files h) v h Hop Hh). by destruct (Daemon.on_vault _ _ v h) as [[r f] h'].
Qed.

Lemma keeps_with_witness op Q : typed_op (HttpsWitnessProvider Net) op Q → keeps (Daemon.with_witness op).
Proof.
  intros Hop h Hh. unfold Daemon.with_witness. destruct (ds_witness _) as [w|]; [|done]. destruct (lock_mutex w) as [p|]; [|done].
  destruct (lock_mutex _) as [v|]; [|done]. pose proof (on_vault_typed op Q p v h Hop Hh). by destruct (Daemon.on_vault _ _ v h) as [[r f] h'].
Qed.

Lemma keeps_with_witness_result op Q : typed_op (HttpsWitnessProvider Net) op Q → keeps (Daemon.with_witness_result op).
Proof.
  intros Hop h Hh. unfold Daemon.with_witness_result. destruct (ds_witness _) as [w|]; [|done]. destruct (lock_mutex w) as [p|]; [|done].
  destruct (lock_mutex _) as [v|]; [|done]. pose proof (on_vault_typed op Q p v h Hop Hh). by destruct (Daemon.on_vault _ _ v h) as [[r f] h'].
Qed.

Lemma typed_then {X A B} (m : Op X A) (f : A → B) : typed_op X m any → typed_op X (let* a := m in sret (f a)) any.
Proof. intros Hm. apply (typed_bind _ _ _ any); [done|]. intros a _. by apply typed_ret. Qed.

Lemma typed_backup_to destination : typed_op Files (Backup.backup_to destination) any.
Proof.
  apply typed_same. intros [[v w] files] r s' E. unfold Backup.backup_to in E.
  destruct (Backup.create_backup _ _ (w, files)) as [r1 [w1 files1]] eqn:Eb. apply BackupSpec.preserves_create_backup in Eb as (Ed & _).
  by injection E as <- <-.
Qed.

Lemma keeps_unlock passphrase : keeps (Daemon.unlock (Net:=Net) passphrase).
Proof.
  apply keeps_choice; [|eapply keeps_with_vault, typed_then, typed_unlock].
  eapply keeps_with_witness, (typed_bind _ _ _ any); [apply typed_unlock|intros _ _].
  eapply (typed_bind _ _ _ any); [apply typed_recover|intros _ _]. apply (typed_then _ (λ _, SEmpty)), typed_verify_with_witness.
Qed.

Lemma keeps_sweep : keeps (Handlers.sweep (Net:=Net)).
Proof.
  apply keeps_choice; [eapply keeps_with_witness_result, typed_verify_with_witness|eapply keeps_with_vault_result, typed_verify].
Qed.

Lemma keeps_put text plaintext : keeps (Daemon.put (Net:=Net) text plaintext).
Proof.
  unfold Daemon.put. destruct (Daemon.parse_object_id text) as [o|]; [|apply keeps_const]. destruct (b64_decode plaintext) as [data|]; [|apply keeps_const].
  apply keeps_choice; [eapply keeps_with_witness, typed_then, typed_put_with_witness|eapply keeps_with_vault, typed_then, typed_put].
Qed.

Lemma keeps_get text : keeps (Daemon.get (Net:=Net) text).
Proof.
  unfold Daemon.get. destruct (Daemon.parse_object_id text) as [o|]; [|apply keeps_const].
  apply keeps_choice; [|eapply keeps_with_vault, typed_then, typed_get].
  eapply keeps_with_witness, (typed_bind _ _ _ any); [apply typed_verify_with_witness|intros _ _]. apply typed_then, typed_get.
Qed.

Lemma keeps_shutdown : keeps (Handlers.request_shutdown (Net:=Net)).
Proof. intros h Hh. unfold Handlers.request_shutdown. by destruct (dc_allow_shutdown _). Qed.

(** ** Programs whose sections keep the types *)

Fixpoint careful (p : Prog Net T) : Prop :=
  match p with
  | Return _ => True
  | OnStream _ k => ∀ a, careful (k a)
  | LoadLong k => ∀ b, careful (k b)
  | AcquireLong granted refused => careful granted ∧ careful refused
  | ReleaseLong k => careful k
  | Critical m k => (∀ s, db_typed (tables s.1) → db_typed (tables (m s).2.1)) ∧ ∀ a, careful (k a)
  | OnRecovery _ k => ∀ a, careful (k a)
  end.

Lemma careful_exec p s p' s' :
  careful p → db_typed (tables s.1) → Program.exec p s = (p', s') → careful p' ∧ db_typed (tables s'.1).
Proof.
  intros Hp Hs E. destruct p; simpl in *.
  - by injection E as <- <-.
  - destruct (m s.2). injection E as <- <-. auto.
  - by injection E as <- <-.
  - destruct (Daemon.is_long _); injection E as <- <-; naive_solver.
  - by injection E as <- <-.
  - destruct Hp as [Hm Hk]. specialize (Hm s Hs). destruct (m s). injection E as <- <-. auto.
  - destruct (m _). injection E as <- <-. auto.
Qed.

Lemma careful_on_host {A} (f : Host Net → A * Host Net) k :
  keeps f → (∀ a, careful (k a)) → careful (Critical (Handlers.on_host f) k).
Proof.
  intros Hf Hk. split; [|done]. intros [h t] Hh. specialize (Hf h Hh). unfold Handlers.on_host. by destruct (f h).
Qed.

Lemma careful_respond response : careful (Handlers.respond response).
Proof. by intros a. Qed.

Lemma careful_section f : keeps f → careful (Handlers.section f).
Proof. intros Hf. apply careful_on_host; [done|]. intros a. apply careful_respond. Qed.

Lemma careful_status : careful Handlers.status.
Proof.
  intros []; [apply careful_respond|]. apply careful_on_host; [by intros h|]. intros [[vid l]|]; [|apply careful_respond].
  intros a. apply careful_respond.
Qed.

Lemma careful_verify : careful Handlers.verify.
Proof.
  split; [|apply careful_respond]. apply careful_on_host; [apply keeps_sweep|]. intros [n|e]; [intros a|]; apply careful_respond.
Qed.

Lemma careful_backup destination : careful (Handlers.backup destination).
Proof.
  split; [|apply careful_respond]. apply careful_on_host; [|intros a; apply careful_respond].
  eapply keeps_with_vault, typed_then, typed_backup_to.
Qed.

Lemma careful_dispatch request : careful (Handlers.dispatch request).
Proof.
  intros long. destruct (_ && _); [apply careful_respond|].
  destruct request; try apply careful_respond; try apply careful_status; try apply careful_verify; try apply careful_backup;
    apply careful_section.
  - apply keeps_unlock.
  - eapply keeps_with_vault, typed_then, typed_lock.
  - apply keeps_put.
  - apply keeps_get.
  - eapply keeps_with_vault, typed_then, typed_rotate.
  - eapply keeps_with_vault, typed_then, typed_full_checkpoint.
  - apply keeps_shutdown.
Qed.

Lemma careful_stream {A} text (body : ObjectId → Host Net * T → A * (Host Net * T)) answer :
  (∀ o s, db_typed (tables s.1) → db_typed (tables (body o s).2.1)) → careful (Handlers.stream text body answer).
Proof.
  intros Hb. split; [|apply careful_respond]. destruct (Daemon.parse_object_id text) as [o|]; [|by intros a].
  intros [u|e]; [|done]. split; [apply Hb|by intros a b].
Qed.

Lemma careful_put_stream text : careful (Handlers.put_stream text).
Proof.
  apply careful_stream. intros o [h t] Hh. unfold Handlers.receive_section. destruct (lock_mutex _) as [v|]; [|done].
  pose proof (on_vault_typed _ _ (Stream.new t) v h (typed_put_from_reader o Vault.DEFAULT_CHUNK_SIZE) Hh). unfold Vault.put_from_reader. by destruct (Daemon.on_vault _ _ v h) as [[r f] h'].
Qed.

Lemma careful_get_stream text : careful (Handlers.get_stream text).
Proof.
  apply careful_stream. intros o [h t] Hh. unfold Handlers.send_section. destruct (lock_mutex _) as [v|]; [|done].
  pose proof (on_vault_typed _ _ (mkWriter t) v h (typed_get_to_writer o) Hh). by destruct (Daemon.on_vault _ _ v h) as [[r f] h'].
Qed.

Lemma careful_serve_stream uid : careful (Handlers.serve_stream uid).
Proof.
  intros [u|e]; [|done]. intros [u'|e]; [|done]. intros [b|e]; [|done]. destruct (negb b); [apply careful_respond|].
  intros [[request|e]|e]; [|apply careful_respond|done].
  destruct request; try apply careful_dispatch; [apply careful_put_stream|apply careful_get_stream].
Qed.

(** ** Machines *)

Definition typed_machine (s : Machine Net T) : Prop :=
  db_typed (tables (sv_host s)) ∧ map_Forall (λ _ th, careful (th_prog th)) (sv_threads s).

Lemma step_typed s e s' : typed_machine s → Server.step s e s' → typed_machine s'.
Proof.
  intros [Hd Ht] Hs. destruct Hs; simpl in *; try done.
  - split; [|done]. unfold Server.on_env in *. simpl. destruct (Server.remove_socket _ _). by simplify_eq.
  - split; [done|]. apply map_Forall_insert_2; [apply careful_serve_stream|done].
  - destruct (careful_exec _ (_, _) _ (_, _) (Ht _ _ ltac:(eassumption)) Hd ltac:(eassumption)) as [Hp Hd']. split; [done|].
    by apply map_Forall_insert_2.
  - split; [done|]. by apply map_Forall_delete.
Qed.

Lemma steps_typed s es s' : typed_machine s → Server.steps s es s' → typed_machine s'.
Proof. intros Hs Hr. revert Hs. induction Hr; intros Hs; [done|]. eauto using step_typed. Qed.

Lemma served_typed h s h1 es s' :
  db_typed (tables h) → Server.serve h = (Ok s, h1) → Server.steps s es s' → db_typed (tables (sv_host s')).
Proof.
  intros Hh Es Hr. refine (proj1 (steps_typed _ _ _ _ Hr)). unfold Server.serve, Server.on_env in Es.
  destruct (Server.listen _ _) as [[u|e] env]; [|done]. injection Es as <- <-. split; [done|]. apply map_Forall_empty.
Qed.

(** C13: whatever the clients send, in whatever order the threads of the daemon
    act, and whatever the system and the witness answer, the tables of every
    reachable machine keep their types when they had them at the start: columns
    have the lengths and ranges of the schema and of the Rust types, chunks,
    staged publications and receipts belong to a stored version, no witness key
    signs an epoch twice; and so every row decodes when it is read. *)
Theorem tables_typed h s h1 es s' :
  db_typed (tables h) → Server.serve h = (Ok s, h1) → Server.steps s es s' →
  db_typed (tables (sv_host s')) ∧ readable (tables (sv_host s')).
Proof. intros Hh Es Hr. pose proof (served_typed _ _ _ _ _ Hh Es Hr) as Hd. split; [done|by apply typed_readable]. Qed.

(** C17: under any interleaving a data key seals at most 2^24 chunks, each under a
    nonce of its own: the chunk rows of a version are within the nonce budget and
    their nonces are pairwise distinct, whatever the random generator returns. *)
Theorem nonce_budget h s h1 es s' vid :
  db_typed (tables h) → Server.serve h = (Ok s, h1) → Server.steps s es s' →
  lenZ (Sql.select_chunks vid (tables (sv_host s'))) ≤ 2 ^ 24 ∧
  NoDup ((λ row, cr_nonce row.2) <$> Sql.select_chunks vid (tables (sv_host s'))).
Proof.
  intros Hh Es Hr. pose proof (served_typed _ _ _ _ _ Hh Es Hr) as Hd. split; [exact (typed_budget vid _ Hd)|by apply typed_nonces].
Qed.

End sections.
End TypedServer.
