(* ===== verification/MapServer.v ===== *)
(** * The daemon as a map shared by its clients

    The top of the development: a daemon without a witness, with any number of
    connections interleaved as [Server] lets them, behaves as one map from
    objects to plaintexts on which the connections act one after the other.
    [Refinement] gives the map behind one vault, [ServerSpec] the order of the
    connections; here every kind of request is related to the map, with what the
    client is sent. *)

From S2P Require Import Prelude Format Cde Crypto Witness Fs Storage Vault WitnessService Https Backup Protocol Daemon Server.
From S2P Require Import StorageSpec VaultSpec StreamSpec Refinement Lifecycle Typed BackupSpec ProtocolSpec DaemonSpec ServerSpec.
From Stdlib Require Import ZArith Lia.
From stdpp Require Import base numbers list gmap strings relations.

Open Scope Z_scope.
Open Scope vlt_scope.

Module MapServer.
Import StorageSpec VaultSpec StreamSpec ProtocolSpec StreamItems DaemonSpec ServerSpec.

Abbreviation Store := (gmap ObjectId bytes).

(** ** Vault operations on the map *)

Section operations.
Context `{PrimitivesOk}.
Variables (vid : VaultId) (rk : bytes).

(** The vault object belongs to the vault: it is locked or holds the root key,
    and some passphrase opens its envelope to that key. *)
Definition keyed (v : Vault) : Prop :=
  Refinement.vault_ok vid rk v ∧ ∃ p, Crypto.open_root_key p (v_envelope v) = Ok rk.

(** The passphrase opens the envelope to the root key or not at all. *)
Definition honest (p : bytes) (env : Crypto.RootEnvelope) : Prop := ∀ k, Crypto.open_root_key p env = Ok k → k = rk.

(** Two passphrases open one envelope to two different keys: the tag of the
    sealed root key is forged. *)
Definition collides (p : bytes) (env : Crypto.RootEnvelope) : Prop :=
  ∃ p' k, Crypto.open_root_key p' env = Ok rk ∧ Crypto.open_root_key p env = Ok k ∧ k ≠ rk.

Lemma honest_or_collides p v : keyed v → honest p (v_envelope v) ∨ collides p (v_envelope v).
Proof.
  intros [_ [p' Hp]]. destruct (Crypto.open_root_key p (v_envelope v)) as [k|] eqn:E; [|left; intros k' E'; congruence].
  destruct (decide (k = rk)) as [->|Hne]; [left; intros k' E'; congruence|]. right. by exists p', k.
Qed.

Abbreviation refines := (Refinement.refines vid rk).

(** The operation on the vault [v] takes the map [kv] to one that [Q] allows for
    its result. *)
Definition mapped {X A} (v : Vault) (kv : Store) (m : Op X A) (Q : Result A → Store → Prop) : Prop :=
  ∀ s r s', s.1.1 = v → keyed v → refines kv (w_db s.1.2) → m s = (r, s') →
    ∃ kv', Q r kv' ∧ keyed s'.1.1 ∧ refines kv' (w_db s'.1.2).

Lemma keyed_after {A} (r : Result A) v :
  keyed v → keyed (match r with Ok _ => v | Err e => if requires_lock e then Vault.lock v else v end).
Proof.
  intros [Hv Hk]. split; [by apply Refinement.vault_ok_after|]. destruct r as [|e]; [done|]. by destruct (requires_lock e).
Qed.

Lemma mapped_impl {X A} v kv (m : Op X A) (Q Q' : Result A → Store → Prop) :
  (∀ r kv', Q r kv' → Q' r kv') → mapped v kv m Q → mapped v kv m Q'.
Proof. intros HQ Hm s r s' Hv Hk Hr E. destruct (Hm s r s' Hv Hk Hr E) as (kv' & ? & ?). eauto. Qed.

(** The map does not change, and the vault at most its key. *)
Lemma mapped_same {X A} v kv (m : Op X A) :
  (∀ s r s', s.1.1 = v → keyed v → m s = (r, s') → keyed s'.1.1 ∧ w_db s'.1.2 = w_db s.1.2) → mapped v kv m (λ _ kv', kv' = kv).
Proof. intros Hm s r s' Hv Hk Hr E. destruct (Hm s r s' Hv Hk E) as [? ->]. eauto. Qed.

Lemma mapped_then {X A B} v kv (m : Op X A) (f : A → B) Q :
  mapped v kv m Q → mapped v kv (let* a := m in sret (f a)) (λ r kv', ∃ r', Q r' kv' ∧ r = match r' with Ok a => Ok (f a) | Err e => Err e end).
Proof.
  intros Hm s r s' Hv Hk Hr E. unfold sbind in E. destruct (m s) as [r1 s1] eqn:E1. destruct (Hm _ _ _ Hv Hk Hr E1) as (kv' & HQ & Hk' & Hr').
  exists kv'. destruct r1; injection E as <- <-; eauto.
Qed.

Lemma mapped_lock_op {X} v kv : mapped (X:=X) v kv Vault.lock_op (λ _ kv', kv' = kv).
Proof. apply mapped_same. intros s r s' <- [[? _] Hk] [= <- <-]. split; [|done]. split; [|done]. split; [done|by right]. Qed.

Lemma mapped_unlock {X} v kv p : honest p (v_envelope v) → mapped (X:=X) v kv (Vault.unlock p) (λ _ kv', kv' = kv).
Proof.
  intros Hp. apply mapped_same. intros s r s' <- Hk E. unfold Vault.unlock, sbind, slift in E.
  destruct (Vault.validate_passphrase p); [|by injection E as <- <-]. cbn in E.
  destruct (Crypto.open_root_key p (v_envelope s.1.1)) as [k|] eqn:Eo; [|by injection E as <- <-].
  injection E as <- <-. destruct Hk as [[Hv _] Hs]. split; [|done]. split; [|done]. split; [done|]. left. simpl. by rewrite (Hp _ Eo).
Qed.

Lemma mapped_checkpoint {X} v kv : mapped (X:=X) v kv Vault.full_checkpoint (λ _ kv', kv' = kv).
Proof.
  apply mapped_same. intros s r s' <- Hk E. apply Refinement.lock_after_failure_eq in E as (s1 & E & Ew & _ & Ev). rewrite Ew, Ev.
  unfold Vault.require_root_key, sbind in E. cbn in E.
  destruct (v_root_key s.1.1) as [k|]; [|injection E as <- <-; split; [exact (keyed_after (Err Locked : Result unit) _ Hk)|done]]. cbn in E.
  unfold Vault.on_world, szoom in E. destruct (Storage.full_checkpoint s.1.2) as [r1 w1] eqn:E1. injection E as <- <-.
  split; [by apply (keyed_after r1)|]. simpl. unfold Storage.full_checkpoint, sbind in E1.
  destruct (in_env io_fault s.1.2) as [[[]|] w2] eqn:F1; apply in_env_db in F1 as [F1 _]; try (by injection E1 as _ <-).
  destruct (in_env io_fault w2) as [[[]|] w3] eqn:F2; apply in_env_db in F2 as [F2 _]; injection E1 as _ <-; congruence.
Qed.

Lemma mapped_put {X} v kv o data :
  wf_id vid → wf_id o →
  mapped (X:=X) v kv (Vault.put o data) (λ r kv', (is_ok r = false ∧ kv' = kv) ∨ kv' = <[o := data]> kv).
Proof.
  intros Hvid Ho s r s' <- Hk Hr E. apply Refinement.lock_after_failure_eq in E as (s1 & E & Ew & _ & Ev). rewrite Ew, Ev.
  apply put_inner_cases in E as (F & _ & Heff); [|done|by destruct Hk as [[-> _] _]|by vm_compute]. rewrite F.
  destruct (Refinement.refines_effect _ _ _ _ _ _ _ _ _ (proj1 Hk) Hr Heff) as [[He Hk']|Hk'];
    eexists; (split; [|split; [by apply keyed_after|done]]); auto.
Qed.

(** What a read of the map may return. *)
Definition looked_up (kv : Store) (o : ObjectId) (r : Result bytes) : Prop :=
  match r with
  | Ok pt => kv !! o = Some pt
  | Err e => e = NotFound ∧ kv !! o = None ∨ e = Locked ∨ e = Storage
  end.

Lemma get_inner_looked_up {X} kv v w (x : X) o r s' :
  keyed v → refines kv (w_db w) → Vault.get_inner o ((v, w), x) = (r, s') →
  s'.1.1 = v ∧ w_db s'.1.2 = w_db w ∧ looked_up kv o r.
Proof.
  intros [Hv _] Hr E. apply (Refinement.get_inner_cases (R:=bytes) vid rk kv) in E as (F & Edb & Hs); [|done..].
  split_and!; [done|done|]. inversion Hs; subst; simpl; naive_solver.
Qed.

Lemma mapped_get {X} v kv o : mapped (X:=X) v kv (Vault.get o) (λ r kv', kv' = kv ∧ looked_up kv o r).
Proof.
  intros [[v0 w] x] r s' <- Hk Hr E. apply Refinement.lock_after_failure_eq in E as (s1 & E & Ew & _ & Ev). rewrite Ew, Ev.
  apply (get_inner_looked_up kv) in E as (F & Edb & Hs); [|done..]. exists kv. rewrite F, Edb. split_and!; [done|done|by apply keyed_after|done].
Qed.

(** A sweep counts the objects. *)
Lemma mapped_verify {X} v kv :
  mapped (X:=X) v kv Vault.verify_active_objects (λ r kv', kv' = kv ∧ ∀ n, r = Ok n → n = Z.of_nat (size kv)).
Proof.
  intros [[v0 w] x] r s' <- Hk Hr E. apply Refinement.lock_after_failure_eq in E as (s1 & E & Ew & _ & Ev). rewrite Ew, Ev.
  apply (Refinement.verify_inner_cases (R:=bytes) vid rk kv) in E as (F & Edb & Hs); [|apply Hk|done]. exists kv. rewrite F, Edb.
  split_and!; [done| |by apply keyed_after|done]. intros n ->. by inversion Hs.
Qed.

(** A rotation seals the root key anew; only the envelope's row may change. *)
Lemma replace_envelope_refines kv path env w r w' :
  refines kv (w_db w) → Storage.replace_root_envelope path env w = (r, w') → refines kv (w_db w').
Proof.
  intros Hr. unfold Storage.replace_root_envelope, sbind at 1. destruct (Sql.exec_count _ w) as [r1 w1] eqn:E1.
  assert (refines kv (w_db w1)) as Hr1.
  { unfold Sql.exec_count, sbind in E1. destruct (in_env io_fault w) as [[[]|] w2] eqn:F; apply in_env_db in F as [F _];
      [injection E1 as _ <-; by rewrite F| |injection E1 as _ <-; by rewrite F].
    unfold Sql.update_meta in E1. rewrite F in E1.
    destruct (db_meta (w_db w)) as [old|]; [|injection E1 as _ <-; done].
    destruct (decide _); [|injection E1 as _ <-; done].
    destruct (_ && _); injection E1 as _ <-; [by apply (Lifecycle.with_meta_refines vid rk kv)|by rewrite F]. }
  destruct r1 as [n|e]; [|by intros [= <- <-]]. destruct (negb _); [by intros [= <- <-]|]. intros [E _]%in_env_db. by rewrite E.
Qed.

Lemma mapped_rotate {X} v kv current replacement :
  wf_id vid → honest current (v_envelope v) → mapped (X:=X) v kv (Vault.rotate_passphrase current replacement) (λ _ kv', kv' = kv).
Proof.
  intros Hvid Hp s r s' <- Hk Hr E. exists kv. split; [done|]. unfold Vault.rotate_passphrase, sbind at 1, slift in E.
  destruct (Vault.validate_passphrase replacement); [|by injection E as <- <-].
  apply Refinement.lock_after_failure_eq in E as (s1 & E & Ew & _ & Ev). rewrite Ew, Ev. clear s' Ew Ev.
  assert (keyed s1.1.1 ∧ refines kv (w_db s1.1.2)) as [Hk1 ?]; [|split; [by apply keyed_after|done]].
  unfold sbind at 1 in E. cbn in E. unfold sbind at 1, slift in E.
  destruct (Crypto.open_root_key current (v_envelope s.1.1)) as [k|] eqn:Eo; [|by injection E as <- <-].
  pose proof (Lifecycle.open_root_key_length _ _ _ Eo) as Hlen.
  destruct Hk as [[Hv Hkey] Hs]. apply Hp in Eo as ->. unfold sbind at 1 in E.
  destruct (Vault.random _ s) as [r2 s2] eqn:E2. destruct (frames_random _ _ _ _ E2) as (F & Fdb & _).
  destruct r2 as [env|e]; [|injection E as <- <-; rewrite F, Fdb; done].
  apply random_ok in E2 as (g & g' & E2). rewrite Hv in E2. unfold sbind in E.
  destruct (Vault.on_world _ s2) as [r3 s3] eqn:E3. apply on_world_eq in E3 as (w3 & E3 & ->).
  apply (replace_envelope_refines kv) in E3; [|by rewrite Fdb].
  destruct r3 as [[]|e]; injection E as <- <-; [|by cbn [fst snd]; rewrite F]. split; [|done].
  split; [|exists replacement; by apply Crypto.open_seal_root_key in E2 as [? _]].
  split; [|by right]. by apply Lifecycle.seal_root_key_wf in E2 as [_ ?].
Qed.

End operations.

(** ** Requests on the map *)

(** Requests that concern the vault as a whole and no object. *)
Definition administrative (request : Request) : Prop :=
  match request with
  | RqStatus | RqUnlock _ | RqLock | RqRotatePassphrase _ _ | RqCheckpoint | RqBackup _ | RqShutdown => True
  | RqPut _ _ | RqGet _ | RqVerify | RqPutStream _ | RqGetStream _ => False
  end.

(** The passphrase a request presents to open the vault's envelope. *)
Definition presented (request : Request) : option bytes :=
  match request with
  | RqUnlock passphrase | RqRotatePassphrase passphrase _ => Some passphrase
  | _ => None
  end.

(** An error that says an object is not there is right about it. *)
Definition truthful (kv : Store) (text : bytes) (e : Failure) : Prop :=
  f_code e = CNotFound → ∃ o, Daemon.parse_object_id text = Ok o ∧ kv !! o = None.

(** One request, its answer, and the map before and after.  A publication whose
    answer is an error may still have taken effect. *)
Inductive map_request `{Base64} (kv : Store) : Request → Response → Store → Prop :=
| map_put text encoded o data (x : VersionId) :
    Daemon.parse_object_id text = Ok o → b64_decode encoded = Some data →
    map_request kv (RqPut text encoded) (ROk (SPublished (to_hex x))) (<[o := data]> kv)
| map_put_late text encoded o data e :
    Daemon.parse_object_id text = Ok o → b64_decode encoded = Some data →
    map_request kv (RqPut text encoded) (RError e) (<[o := data]> kv)
| map_get text o data :
    Daemon.parse_object_id text = Ok o → kv !! o = Some data →
    map_request kv (RqGet text) (ROk (SPlaintext (b64_encode data))) kv
| map_verify : map_request kv RqVerify (ROk (SVerified (Z.of_nat (size kv)))) kv
| map_administrative request s : administrative request → map_request kv request (ROk s) kv
| map_error request e :
    (∀ text, request = RqGet text → truthful kv text e) → map_request kv request (RError e) kv.

Section daemon.
Context `{PrimitivesOk} `{!Base64} `{!SqliteFile} `{!Tempfile} `{!Json BackupManifest} `{!HexCrate}.
Context `{!Json IssueRequest} `{!Json IssueResponse} `{!Json HeadRequest} `{!Json HeadResponse}.
Context `{!Json Request} `{!Json Response} {Net : Type} `{!Transport Net}.
Variables (vid : VaultId) (rk : bytes).

(** The daemon has no witness, and its vault holds the map. *)
Definition holds (kv : Store) (h : Host Net) : Prop :=
  ds_witness (h_daemon h) = None ∧ keyed vid rk (m_value (ds_vault (h_daemon h))) ∧
  Refinement.refines vid rk kv (w_db (h_world h)).

Abbreviation object h := (m_value (ds_vault (h_daemon h))).

Lemma on_vault_mapped {X A} kv (m : Op X A) Q x h r x' h' :
  holds kv h → mapped vid rk (object h) kv m Q → Daemon.on_vault m x (m_value (ds_vault (h_daemon h))) h = (r, x', h') →
  ∃ kv', Q r kv' ∧ holds kv' h'.
Proof.
  intros (Hw & Hk & Hr) Hm E. unfold Daemon.on_vault in E. destruct (m _) as [r1 [[v w] x1]] eqn:E1. injection E as <- <- <-.
  destruct (Hm (_, _, x) _ _ eq_refl Hk Hr E1) as (kv' & ? & ? & ?). exists kv'. split; [done|]. by split_and!.
Qed.

Lemma with_vault_mapped kv op Q h resp h' :
  holds kv h → mapped vid rk (object h) kv op Q → Daemon.with_vault op h = (resp, h') →
  ∃ kv', holds kv' h' ∧ ((∃ r, resp = Daemon.respond r ∧ Q r kv') ∨
    kv' = kv ∧ resp = Daemon.error_response CInternal "daemon state is unavailable").
Proof.
  intros Hh Hm E. unfold Daemon.with_vault, lock_mutex in E. destruct (m_poisoned _); [injection E as <- <-; eauto|].
  destruct (Daemon.on_vault op _ _ h) as [[r files] h1] eqn:E1. injection E as <- <-.
  destruct (on_vault_mapped _ _ _ _ _ _ _ _ Hh Hm E1) as (kv' & ? & ?). exists kv'. split; [done|]. left. eauto.
Qed.

(** Requests that leave the map alone. *)
Lemma with_vault_same kv (op : Op Files Success) request h resp h' :
  administrative request → holds kv h → mapped vid rk (object h) kv op (λ _ kv', kv' = kv) → Daemon.with_vault op h = (resp, h') →
  holds kv h' ∧ map_request kv request resp kv.
Proof.
  intros Ha Hh Hm E. destruct (with_vault_mapped _ _ _ _ _ _ Hh Hm E) as (kv' & Hh' & [(r & -> & ->)|[-> ->]]); split; try done.
  - destruct r; [by constructor|]. apply map_error. by intros text ->.
  - apply map_error. by intros text ->.
Qed.

Lemma mapped_empty {X A} v kv (m : Op X A) :
  mapped vid rk v kv m (λ _ kv', kv' = kv) → mapped vid rk v kv (Daemon.empty m) (λ _ kv', kv' = kv).
Proof. intros Hm. eapply mapped_impl; [|apply (mapped_then vid rk v kv m (λ _, SEmpty)), Hm]. by intros r kv' (r' & -> & _). Qed.

Lemma mapped_backup v kv destination :
  mapped vid rk v kv (let* manifest := Backup.backup_to destination in
                    sret (SBackup (bm_format manifest) (bm_database_sha256 manifest) (bm_database_bytes manifest)))
    (λ _ kv', kv' = kv).
Proof.
  eapply mapped_impl; [|apply mapped_then, (mapped_same vid rk v kv)]; [by intros r kv' (r' & -> & _)|].
  intros [[v0 w] files] r s' <- Hk E. unfold Backup.backup_to in E.
  destruct (Backup.create_backup _ _ (w, files)) as [r1 [w1 files1]] eqn:Eb. apply BackupSpec.preserves_create_backup in Eb as (Ed & _).
  by injection E as <- <-.
Qed.

Lemma no_witness kv h : holds kv h → Daemon.has_witness h = false.
Proof. intros [E _]. unfold Daemon.has_witness. rewrite E. by apply bool_decide_eq_false_2, is_Some_None. Qed.

Lemma not_found_code e : f_code (Daemon.map_vault_error e) = CNotFound → e = NotFound.
Proof. by destruct e. Qed.

Lemma put_mapped kv text encoded h resp h' :
  wf_id vid → holds kv h → Daemon.put text encoded h = (resp, h') → ∃ kv', holds kv' h' ∧ map_request kv (RqPut text encoded) resp kv'.
Proof.
  intros Hvid Hh E. unfold Daemon.put in E. destruct (Daemon.parse_object_id text) as [o|] eqn:Ho.
  2: { destruct (parse_object_id_err _ _ Ho) as [er ->]. injection E as <- <-. exists kv. split; [done|]. by apply map_error. }
  destruct (b64_decode encoded) as [data|] eqn:Ed; [|injection E as <- <-; exists kv; split; [done|by apply map_error]].
  rewrite (no_witness _ _ Hh) in E.
  eapply with_vault_mapped in E as (kv' & Hh' & Hc); [|done|apply mapped_then, mapped_put; [done|by eapply parse_object_id_wf]].
  exists kv'. split; [done|]. destruct Hc as [(r & -> & r' & [[Hf ->]| ->] & ->)|[-> ->]]; [|  |by apply map_error].
  - destruct r'; [done|]. by apply map_error.
  - destruct r'; by econstructor.
Qed.

Lemma get_mapped kv text h resp h' :
  holds kv h → Daemon.get text h = (resp, h') → holds kv h' ∧ map_request kv (RqGet text) resp kv.
Proof.
  intros Hh E. unfold Daemon.get in E. destruct (Daemon.parse_object_id text) as [o|] eqn:Ho.
  2: { injection E as <- <-. split; [done|]. unfold Daemon.parse_object_id, Daemon.error_response in Ho.
       repeat (case_match; try done); injection Ho as <-; apply map_error; by intros text' [= <-]. }
  rewrite (no_witness _ _ Hh) in E. eapply with_vault_mapped in E as (kv' & Hh' & Hc); [|done|apply mapped_then, mapped_get].
  destruct Hc as [(r & -> & r' & [-> Hl] & ->)|[-> ->]]; [|by split; [|apply map_error; intros text' [= <-]]].
  split; [done|]. destruct r' as [data|e]; [by econstructor|]. apply map_error. intros text' [= <-] Hn.
  apply not_found_code in Hn as ->. exists o. split; [done|]. by destruct Hl as [[_ ?]|[?|?]].
Qed.

Lemma verify_mapped kv h resp h' :
  holds kv h → Daemon.verify h = (resp, h') → holds kv h' ∧ map_request kv RqVerify resp kv.
Proof.
  intros Hh E. unfold Daemon.verify, Daemon.with_long_permit in E. destruct (Daemon.is_long h); [injection E as <- <-; split; [done|by apply map_error]|].
  set (h1 := Daemon.set_daemon (Daemon.set_long_operation true) h) in *. assert (holds kv h1) as Hh1 by exact Hh.
  rewrite (no_witness _ _ Hh1) in E. destruct (Daemon.with_vault_result _ h1) as [r h2] eqn:E2.
  assert (holds kv h2 ∧ ∀ n, r = Ok n → n = Z.of_nat (size kv)) as [Hh2 Hn].
  { unfold Daemon.with_vault_result, lock_mutex in E2. destruct (m_poisoned _); [by injection E2 as <- <-|].
    destruct (Daemon.on_vault _ _ _ h1) as [[r1 files] h3] eqn:E3. injection E2 as <- <-.
    by destruct (on_vault_mapped _ _ _ _ _ _ _ _ Hh1 (mapped_verify vid rk _ kv) E3) as (kv' & [-> Hn] & Hh3). }
  destruct r as [n|e]; [|injection E as <- <-; split; [exact Hh2|by apply map_error]].
  destruct (lock_mutex _); injection E as <- <-; (split; [exact Hh2|]); [|by apply map_error]. rewrite (Hn n eq_refl). constructor.
Qed.

Lemma status_mapped kv (h : Host Net) : map_request kv RqStatus (Daemon.status h).1 kv.
Proof. unfold Daemon.status. repeat case_match; simpl; first [by constructor|by apply map_error]. Qed.

Lemma status_host (h : Host Net) : (Daemon.status h).2 = h.
Proof. unfold Daemon.status. by repeat case_match. Qed.

Lemma dispatch_mapped kv request h resp h' :
  wf_id vid → (∀ p, presented request = Some p → honest rk p (v_envelope (object h))) →
  holds kv h → Daemon.dispatch request h = (resp, h') →
  ∃ kv', holds kv' h' ∧ map_request kv request resp kv'.
Proof.
  intros Hvid Hp Hh E. unfold Daemon.dispatch in E. destruct (_ && _).
  { injection E as <- <-. exists kv. split; [done|]. apply map_error. by intros text ->. }
  destruct request.
  - exists kv. pose proof (status_mapped kv h) as Hm. pose proof (status_host h) as Hs. rewrite E in Hm, Hs. simpl in *. by subst.
  - exists kv. unfold Daemon.unlock in E. rewrite (no_witness _ _ Hh) in E.
    refine (with_vault_same kv _ _ h resp h' _ Hh _ E); [done|]. by apply mapped_empty, mapped_unlock, Hp.
  - exists kv. refine (with_vault_same kv _ _ h resp h' _ Hh _ E); [done|]. apply mapped_empty, mapped_lock_op.
  - by eapply put_mapped.
  - injection E as <- <-. exists kv. split; [done|by apply map_error].
  - exists kv. by eapply get_mapped.
  - injection E as <- <-. exists kv. split; [done|by apply map_error].
  - exists kv. refine (with_vault_same kv _ _ h resp h' _ Hh _ E); [done|]. by apply mapped_empty, mapped_rotate, Hp.
  - exists kv. by eapply verify_mapped.
  - exists kv. refine (with_vault_same kv _ _ h resp h' _ Hh _ E); [done|]. apply mapped_empty, mapped_checkpoint.
  - exists kv. unfold Daemon.backup, Daemon.with_long_permit in E.
    destruct (Daemon.is_long h); [injection E as <- <-; split; [done|by apply map_error]|].
    destruct (Daemon.with_vault _ _) as [resp1 h1] eqn:E1. injection E as <- <-.
    exact (with_vault_same kv _ (RqBackup destination) (Daemon.set_daemon (Daemon.set_long_operation true) h) resp1 h1 I Hh (mapped_backup _ kv _) E1).
  - exists kv. destruct (dc_allow_shutdown _); injection E as <- <-; (split; [exact Hh|]); [by constructor|by apply map_error].
Qed.

End daemon.

(** ** Reads leave the tables alone *)

Section reads.
Context `{Primitives}.

Definition reads_only {X A} (m : Op X A) : Prop := ∀ s r s', m s = (r, s') → w_db s'.1.2 = w_db s.1.2.

Lemma reads_only_pure {X A} (f : VS X → Result A) : reads_only (λ s, (f s, s)).
Proof. by intros s r s' [= <- <-]. Qed.

Lemma reads_only_bind {X A B} (m : Op X A) (k : A → Op X B) : reads_only m → (∀ a, reads_only (k a)) → reads_only (sbind m k).
Proof.
  intros Hm Hk s r s' E. unfold sbind in E. destruct (m s) as [[a|e] s1] eqn:E1; apply Hm in E1; [apply Hk in E; congruence|by injection E as <- <-].
Qed.

Lemma reads_only_world {X A} (m : IO A) : (∀ w r w', m w = (r, w') → w_db w' = w_db w) → reads_only (X:=X) (Vault.on_world m).
Proof. intros Hm s r s' E. apply on_world_eq in E as (w' & E & ->). by apply Hm in E. Qed.

Lemma reads_only_visiting {X A} (init : X → A) back v (visit : EncryptedChunk → M A VaultError unit) :
  reads_only (Vault.visiting init back (Storage.visit_chunks v visit)).
Proof.
  intros [[v0 w] x] r s' E. unfold Vault.visiting in E.
  destruct (Storage.visit_chunks v visit (w, init x)) as [[u|e] [w1 a]] eqn:Ev; apply Typed.visit_chunks_db in Ev; by injection E as <- <-.
Qed.

Lemma active_version_db o w r w' : Storage.active_version o w = (r, w') → w_db w' = w_db w.
Proof.
  unfold Storage.active_version, Storage.version, sbind, slift. destruct (Sql.query _ w) as [[x|e] w1] eqn:E1; apply Typed.query_db in E1; [|by intros [= <- <-]].
  destruct (ok_or _ _) as [b|]; [|by intros [= <- <-]]. destruct (from_slice b) as [i|]; [|by intros [= <- <-]].
  destruct (Sql.query _ w1) as [[y|e] w2] eqn:E2; apply Typed.query_db in E2; intros [= <- <-]; congruence.
Qed.

Lemma receipt_db v w r w' : Storage.receipt v w = (r, w') → w_db w' = w_db w.
Proof.
  unfold Storage.receipt, sbind, slift. destruct (Sql.query _ w) as [[x|e] w1] eqn:E1; apply Typed.query_db in E1; by intros [= <- <-].
Qed.

Lemma get_to_writer_db `{Write W} o : reads_only (Vault.get_to_writer_inner (W:=W) o).
Proof.
  unfold Vault.get_to_writer_inner, Vault.require_root_key.
  repeat match goal with
  | |- reads_only (sbind _ _) => apply reads_only_bind; [|intros ?]
  | |- reads_only (if _ then _ else _) => case_match
  | |- reads_only (let '(_, _) := ?x in _) => destruct x
  | |- reads_only (Vault.on_world (Storage.active_version _)) => apply reads_only_world, active_version_db
  | |- reads_only (Vault.on_world (Storage.receipt _)) => apply reads_only_world, receipt_db
  | |- reads_only (Vault.visiting _ _ _) => apply reads_only_visiting
  | |- reads_only _ => apply reads_only_pure
  end.
Qed.

End reads.

(** ** Connections on the map *)

Section connections.
Context `{PrimitivesOk} `{!Base64} `{!SqliteFile} `{!Tempfile} `{!Json BackupManifest} `{!HexCrate}.
Context `{!Json IssueRequest} `{!Json IssueResponse} `{!Json HeadRequest} `{!Json HeadResponse}.
Context `{!Json Request} `{!Json Response} {Net : Type} `{!Transport Net} `{UnixStreamOk T}.
Implicit Types (h : Host Net) (sd : Served T) (kv : Store).

(** What the client was sent, when it could be sent at all. *)
Definition answers sd (response : Response) : Prop :=
  sd_result sd = Ok tt → ∃ f, frame response = Some f ∧ sent (sd_stream sd) = sent (sd_origin sd) ++ f.

(** [data] is stored under the identifier: the items of the client up to its
    end item. *)
Definition uploads (text rest : bytes) (kv kv' : Store) : Prop :=
  ∃ o data, Daemon.parse_object_id text = Ok o ∧ upload_of rest = Some data ∧ kv' = <[o := data]> kv.

(** One connection, and the map before and after it. *)
Inductive map_served (kv : Store) sd : Store → Prop :=
| served_refused e : f_code e ≠ CNotFound → answers sd (RError e) → map_served kv sd kv
| served_request request rest response kv' :
    frame_at (contents (sd_origin sd)) request rest → map_request kv request response kv' → answers sd response →
    map_served kv sd kv'
| served_upload text rest kv' :
    frame_at (contents (sd_origin sd)) (RqPutStream text) rest →
    kv' = kv ∨ uploads text rest kv kv' →
    (sd_result sd = Ok tt → ∃ ready f, frame (ROk SStreamReady) = Some ready ∧
       sent (sd_stream sd) = sent (sd_origin sd) ++ ready ++ f ∧
       ((∃ e, item_bytes (ItemError (RError e)) = Some f) ∨
        (∃ x : VersionId, frame (ROk (SPublished (to_hex x))) = Some f) ∧ uploads text rest kv kv')) →
    map_served kv sd kv'
| served_download text rest :
    frame_at (contents (sd_origin sd)) (RqGetStream text) rest →
    (sd_result sd = Ok tt → ∃ ready, frame (ROk SStreamReady) = Some ready ∧
       ((∃ pre e f, item_bytes (ItemError (RError e)) = Some f ∧ sent (sd_stream sd) = pre ++ f) ∨
        ∃ o data ds, Daemon.parse_object_id text = Ok o ∧ kv !! o = Some data ∧ Forall piece_ok ds ∧ concat ds = data ∧
          sent (sd_stream sd) = sent (sd_origin sd) ++ ready ++ client_items ds)) →
    map_served kv sd kv.

(** Connections one after the other. *)
Inductive map_session : Store → list (Served T) → Store → Prop :=
| session_nil kv : map_session kv [] kv
| session_cons kv sd kv1 sds kv2 : map_served kv sd kv1 → map_session kv1 sds kv2 → map_session kv (sd :: sds) kv2.

Lemma parse_error_code text resp : Daemon.parse_object_id text = Err resp → ∃ e, resp = RError e ∧ f_code e ≠ CNotFound.
Proof. unfold Daemon.parse_object_id, Daemon.error_response. repeat (case_match; try done); intros [= <-]; by eexists. Qed.

(** A long exchange is refused, or goes on after the ready response. *)
Lemma long_exchange_cases text (body : ObjectId → M (Host Net * T) Daemon.ServeError unit) h t res h' t' :
  Daemon.with_long_permit_on (Daemon.write_response (Daemon.overloaded_response "daemon long operation is in progress"))
    (match Daemon.parse_object_id text with
     | Err response => Daemon.write_response response
     | Ok o => Daemon.write_response (ROk SStreamReady) ;* body o
     end) (h, t) = (res, (h', t')) →
  (core h' = core h ∧ ∃ e, f_code e ≠ CNotFound ∧ (res = Ok tt → ∃ f, frame (RError e) = Some f ∧ sent t' = sent t ++ f)) ∨
  ∃ o ready t1 h2, Daemon.parse_object_id text = Ok o ∧ frame (ROk SStreamReady) = Some ready ∧ sent t1 = sent t ++ ready ∧
    contents t1 = contents t ∧ body o (Daemon.set_daemon (Daemon.set_long_operation true) h, t1) = (res, (h2, t')) ∧ core h' = core h2.
Proof.
  unfold Daemon.with_long_permit_on. destruct (Daemon.is_long h).
  { intros E. apply write_response_cases in E as (-> & _ & Hs). left. split; [done|]. eexists. split; [|exact (Hs tt)]. done. }
  destruct (Daemon.parse_object_id text) as [o|resp] eqn:Ho.
  - destruct ((Daemon.write_response _ ;* _) _) as [r1 [h1 t1]] eqn:E1. intros [= <- <- <-]. unfold sbind in E1.
    destruct (Daemon.write_response _ _) as [[[]|e] [h2 t2]] eqn:E2; apply write_response_cases in E2 as (-> & Hc & Hs).
    + right. destruct (Hs tt eq_refl) as (ready & ? & ?). by exists o, ready, t2, h1.
    + injection E1 as <- <- <-. left. split; [done|]. by exists (Daemon.failure CInternal "").
  - destruct (parse_error_code _ _ Ho) as (e & -> & He). destruct (Daemon.write_response _ _) as [r1 [h1 t1]] eqn:E1. intros [= <- <- <-].
    apply write_response_cases in E1 as (-> & _ & Hs). left. split; [done|]. exists e. split; [done|]. exact (Hs tt).
Qed.

Section map.
Variables (vid : VaultId) (rk : bytes).
Hypothesis (Hvid : wf_id vid).
Abbreviation holds := (holds vid rk).

Lemma holds_core kv h h' : core h = core h' → holds kv h → holds kv h'.
Proof.
  intros E (Hw & Hk & Hr). apply (f_equal (λ h, (ds_witness (h_daemon h), ds_vault (h_daemon h), h_world h))) in E. simpl in E.
  injection E as E1 E2 E3. split_and!; congruence.
Qed.

Lemma receive_mapped kv o h t r h' t' :
  wf_id o → holds kv h → Daemon.receive o (m_value (ds_vault (h_daemon h))) (h, t) = (r, (h', t')) →
  ∃ res kv', r = Ok res ∧ sent t' = sent t ∧ holds kv' h' ∧
    ((is_ok res = false ∧ kv' = kv) ∨ ∃ data, upload_of (contents t) = Some data ∧ kv' = <[o := data]> kv).
Proof.
  intros Ho (Hw & Hk & Hr) E. unfold Daemon.receive, Daemon.on_vault in E. set (v := m_value _) in *.
  destruct (Vault.put_from_reader o ((v, h_world h), Stream.new t)) as [res [[v' w'] rd]] eqn:E1. injection E as <- <- <-.
  unfold Vault.put_from_reader, Vault.put_from_reader_with_chunk_size in E1.
  apply Refinement.lock_after_failure_eq in E1 as (s1 & E1 & Ew & Ex & Ev). cbn [fst snd] in Ew, Ex, Ev. exists res.
  assert (keyed vid rk v') as Hk' by (rewrite Ev; apply keyed_after; by rewrite (keeps_put_from_reader _ _ _ _ _ E1)).
  assert (sent (sr_stream rd) = sent t) as Hsent.
  { rewrite Ex. eapply (Borrowed.put_from_reader_inv (λ r : StreamReader T, sent (sr_stream r) = sent t)); [|exact E1|done].
    intros n r0 Hr0. by rewrite reader_sent. }
  apply put_from_reader_effect in E1 as [[Hf Hdb]|[Hend (sv & cs & k & Hkey & <- & Hdb & Hadm & Hse & _)]];
    [| |done|cbn [fst snd]; by destruct Hk as [[-> _] _]|by vm_compute]; cbn [fst snd] in *.
  - exists kv. split_and!; [done|done| |by left]. split_and!; [done|exact Hk'|]. cbn [h_world]. by rewrite Ew, Hdb.
  - specialize (Hend _ complete_at_end). destruct Hk as [[Ev1 [Hk|Hk]] _]; [|congruence]. assert (k = rk) as -> by congruence.
    rewrite Ev1 in Hse. exists (<[sv_object_id sv := (pending (Stream.new t)).1]> kv). split_and!; [done|done| |right].
    + split_and!; [done|exact Hk'|]. cbn [h_world]. rewrite Ew, Hdb. by apply Refinement.refines_put.
    + exists (pending (Stream.new t)).1. split; [|done]. unfold pending, Stream.new in *. simpl in *. unfold upload_of.
      by destruct (scan (contents t)) as [data []].
Qed.

Lemma send_mapped kv o h t r h' t' :
  holds kv h → Daemon.send o (m_value (ds_vault (h_daemon h))) (h, t) = (r, (h', t')) →
  ∃ res, r = Ok res ∧ holds kv h' ∧
    (res = Ok tt → ∃ data ds, kv !! o = Some data ∧ Forall piece_ok ds ∧ concat ds = data ∧ sent t' = sent t ++ framed ds).
Proof.
  intros (Hw & Hk & Hr) E. unfold Daemon.send, Daemon.on_vault in E. set (v := m_value _) in *.
  destruct (Vault.get_to_writer o ((v, h_world h), mkWriter t)) as [res [[v' w'] wr]] eqn:E1. injection E as <- <- <-.
  apply Refinement.lock_after_failure_eq in E1 as (s1 & E1 & Ew & Ex & Ev). cbn [fst snd] in *. exists res. split; [done|].
  assert (s1.1.1 = v) as F by (by rewrite (Lifecycle.keeps_get_to_writer _ _ _ _ E1)). split.
  - split_and!; [done| |].
    + cbn. rewrite Ev. apply keyed_after. by rewrite F.
    + cbn. by rewrite Ew, (get_to_writer_db _ _ _ _ E1).
  - intros ->. assert (carried (sent t) (mkWriter t) []) as H0' by (exists []; split_and!; [constructor|done|by rewrite app_nil_r]).
    destruct (Recorded.get_recorded (carried (sent t)) (carried_write (sent t)) o _ _ [] _ _ H0' E1) as (b & E2 & (ds & Hds & Hcat & Hs)).
    assert (Vault.get_inner o ((v, h_world h), tt) = (Ok b, (s1.1, tt))) as E3 by (unfold Vault.get_inner; by rewrite E2).
    apply (get_inner_looked_up vid rk kv) in E3 as (_ & _ & Hl); [|done..]. exists b, ds. split_and!; try done. cbn. by rewrite Ex.
Qed.

Lemma put_stream_mapped kv text rest h t res h' t' sd :
  holds kv h → frame_at (contents (sd_origin sd)) (RqPutStream text) rest → contents t = rest → sent t = sent (sd_origin sd) →
  Daemon.put_stream text (h, t) = (res, (h', t')) → sd_result sd = res → sd_stream sd = t' →
  ∃ kv', holds kv' h' ∧ map_served kv sd kv'.
Proof.
  intros Hh Hf <- Hs0 E <- <-. apply long_exchange_cases in E as [(Hc & e & He & Hs)|(o & ready & t1 & h2 & Ho & Hready & Hs1 & Hc1 & E & Hcore)].
  { exists kv. split; [by eapply holds_core|]. eapply served_refused; [done|]. intros Hr. rewrite <-Hs0. auto. }
  set (h1 := Daemon.set_daemon _ h) in *. assert (holds kv h1) as Hh1 by exact Hh. unfold sbind at 1, sgets, lock_mutex in E. cbn [fst] in E.
  destruct (m_poisoned _).
  - apply write_stream_response_cases in E as (-> & Hs). exists kv. split; [by eapply holds_core|].
    eapply served_upload; [done|by left|]. intros Hr. destruct (Hs _ Hr) as (f & ? & Hsf). exists ready, f.
    rewrite Hsf, Hs1, Hs0, (assoc_L (++)). split_and!; [done|done|]. left. eauto.
  - unfold sbind in E. destruct (Daemon.receive o _ (h1, t1)) as [r2 [h3 t2]] eqn:E2.
    apply (receive_mapped kv) in E2 as (r & kv' & -> & Hsent & Hh3 & Heff); [|by eapply parse_object_id_wf|done]. rewrite Hc1 in Heff.
    assert (kv' = kv ∨ uploads text (contents t) kv kv') as Hkv by (destruct Heff as [[_ ?]|(data & ? & ?)]; [by left|right; by exists o, data]).
    exists kv'. destruct r as [x|e].
    + apply write_response_cases in E as (-> & _ & Hs). split; [by eapply holds_core|]. eapply served_upload; [done|done|].
      intros Hr. destruct (Hs _ Hr) as (f & ? & Hsf). exists ready, f. rewrite Hsf, Hsent, Hs1, Hs0, (assoc_L (++)). split_and!; [done|done|].
      right. split; [by exists x|]. destruct Heff as [[? _]|(data & ? & ?)]; [done|by exists o, data].
    + apply write_stream_response_cases in E as (-> & Hs). split; [by eapply holds_core|]. eapply served_upload; [done|done|].
      intros Hr. destruct (Hs _ Hr) as (f & ? & Hsf). exists ready, f. rewrite Hsf, Hsent, Hs1, Hs0, (assoc_L (++)). split_and!; [done|done|]. left. eauto.
Qed.

Lemma get_stream_mapped kv text rest h t res h' t' sd :
  holds kv h → frame_at (contents (sd_origin sd)) (RqGetStream text) rest → sent t = sent (sd_origin sd) →
  Daemon.get_stream text (h, t) = (res, (h', t')) → sd_result sd = res → sd_stream sd = t' →
  holds kv h' ∧ map_served kv sd kv.
Proof.
  intros Hh Hf Hs0 E <- <-. apply long_exchange_cases in E as [(Hc & e & He & Hs)|(o & ready & t1 & h2 & Ho & Hready & Hs1 & Hc1 & E & Hcore)].
  { split; [by eapply holds_core|]. eapply served_refused; [done|]. intros Hr. rewrite <-Hs0. auto. }
  set (h1 := Daemon.set_daemon _ h) in *. assert (holds kv h1) as Hh1 by exact Hh. unfold sbind at 1, sgets, lock_mutex in E. cbn [fst] in E.
  destruct (m_poisoned _).
  - apply write_stream_response_cases in E as (-> & Hs). split; [by eapply holds_core|]. eapply served_download; [done|].
    intros Hr. destruct (Hs _ Hr) as (f & ? & Hsf). exists ready. split; [done|]. left. eauto.
  - unfold sbind in E. destruct (Daemon.send o _ (h1, t1)) as [r2 [h3 t2]] eqn:E2.
    apply (send_mapped kv) in E2 as (r & -> & Hh3 & Heff); [|done]. destruct r as [[]|e].
    + eapply on_stream_cases in E as (-> & _ & Hs); [|apply sends_stream_end]. split; [by eapply holds_core|]. eapply served_download; [done|].
      intros Hr. destruct (Hs _ Hr) as (f & <- & Hsf), (Heff eq_refl) as (data & ds & ? & ? & ? & Hsent). exists ready. split; [done|]. right.
      exists o, data, ds. split_and!; try done. rewrite Hsf, Hsent, Hs1, Hs0. unfold client_items. by rewrite <-!(assoc_L (++)).
    + apply write_stream_response_cases in E as (-> & Hs). split; [by eapply holds_core|]. eapply served_download; [done|].
      intros Hr. destruct (Hs _ Hr) as (f & ? & Hsf). exists ready. split; [done|]. left. eauto.
Qed.

(** A request that is dispatched. *)
Lemma request_mapped kv request rest h t res h' t' sd resp h1 kv' :
  frame_at (contents (sd_origin sd)) request rest → sent t = sent (sd_origin sd) → map_request kv request resp kv' →
  Daemon.write_response resp (h1, t) = (res, (h', t')) → sd_result sd = res → sd_stream sd = t' →
  h' = h1 ∧ map_served kv sd kv'.
Proof.
  intros Hf Hs0 Hm E <- <-. apply write_response_cases in E as (-> & _ & Hs). split; [done|]. eapply served_request; [done|done|].
  intros Hr. rewrite <-Hs0. exact (Hs tt Hr).
Qed.

(** The client of the connection presents a passphrase that opens the envelope
    of the vault object to a key that is not the root key. *)
Definition forges h sd : Prop :=
  ∃ request rest p, frame_at (contents (sd_origin sd)) request rest ∧ presented request = Some p ∧
    collides rk p (v_envelope (m_value (ds_vault (h_daemon h)))).

Lemma honest_or_forges kv h sd request rest :
  holds kv h → frame_at (contents (sd_origin sd)) request rest →
  (∀ p, presented request = Some p → honest rk p (v_envelope (m_value (ds_vault (h_daemon h))))) ∨ forges h sd.
Proof.
  intros (_ & Hk & _) Hf. destruct (presented request) as [p|] eqn:Ep; [|by left].
  destruct (honest_or_collides vid rk p _ Hk) as [Hp|Hc]; [left; by intros p' [= <-]|right; by exists request, rest, p].
Qed.

Lemma serve_mapped kv h t r h1 t1 :
  holds kv h → Daemon.serve_stream (h, t) = (r, (h1, t1)) →
  (∃ kv', holds kv' h1 ∧ map_served kv (mkServed t r t1) kv') ∨ forges h (mkServed t r t1).
Proof.
  intros Hh [(-> & Hs)|(_ & t2 & request & Hs2 & Hf & E)]%serve_stream_cases.
  { left. exists kv. split; [done|]. destruct r as [[]|e].
    - destruct (Hs eq_refl) as (e & f & Hfr & Hsent & He). eapply (served_refused _ _ e); [by destruct He as [[_ ->]| ->]|]. by exists f.
    - by apply (served_refused _ _ (Daemon.failure CInternal "")). }
  destruct (honest_or_forges kv h (mkServed t r t1) _ _ Hh Hf) as [Hp|]; [left|by right].
  destruct request;
    try (unfold serve_request, sbind, Daemon.dispatch_request in E; destruct (Daemon.dispatch _ h) as [resp h2] eqn:Ed;
         eapply dispatch_mapped in Ed as (kv' & Hh2 & Hm); [|exact Hvid|exact Hp|exact Hh];
         eapply (request_mapped kv _ _ h2 _ _ _ _ (mkServed t r t1)) in E as [-> ?]; [|done..]; by exists kv').
  - by eapply put_stream_mapped.
  - exists kv. by eapply get_stream_mapped.
Qed.

(** A request is determined by the bytes that arrive. *)
Lemma frame_at_fun (bs : bytes) (a a' : Request) rest rest' : frame_at bs a rest → frame_at bs a' rest' → a = a'.
Proof.
  intros (lb & body & -> & Hl & Hb & _ & Ha) (lb' & body' & E & Hl' & Hb' & _ & Ha').
  apply app_inj_1 in E as [<- E]; [|congruence]. apply app_inj_1 in E as [<- _]; [congruence|]. unfold lenZ in *. lia.
Qed.

Lemma requested_frame t request : requested t = Some request → ∃ rest, frame_at (contents t) request rest.
Proof.
  unfold requested. destruct (Protocol.read_frame _) as [[rq|e] t3] eqn:E; [|done]. intros [= ->]. apply read_frame_ok in E; [|apply contents_wf].
  destruct (read_timeout_frame t) as (_ & _ & Hc1), (write_timeout_frame (set_read_timeout t).2) as (_ & _ & Hc2).
  rewrite Hc2, Hc1 in E. eauto.
Qed.

Lemma dispatch_status kv h : map_request kv RqStatus (Daemon.dispatch RqStatus h).1 kv.
Proof. unfold Daemon.dispatch. destruct (_ && _); [by apply map_error|]. apply status_mapped. Qed.

Lemma alone_mapped kv seen h sd h' :
  holds kv h → served_alone seen h sd h' → (∃ kv', holds kv' h' ∧ map_served kv sd kv') ∨ forges h sd.
Proof.
  intros Hh Ha. destruct Ha as [long rec t0 r h1 t1 h' E Hc|v rec t0 r h1 t1 h' Hq Hid E Hc].
  - eapply (serve_mapped kv) in E as [(kv' & Hh1 & Hm)|Hf]; [|by right|exact Hh]. left. exists kv'. split; [by eapply holds_core|done].
  - left. exists kv. split; [by eapply holds_core|]. destruct (requested_frame _ _ Hq) as [rest0 Hf0].
    apply serve_stream_cases in E as [(-> & Hs)|(_ & t2 & request & Hs2 & Hf & E)].
    + destruct r as [[]|e]; [|by apply (served_refused _ _ (Daemon.failure CInternal ""))].
      destruct (Hs eq_refl) as (e & f & Hfr & Hsent & He). eapply (served_refused _ _ e); [by destruct He as [[_ ->]| ->]|]. by exists f.
    + pose proof (frame_at_fun _ _ _ _ _ Hf0 Hf) as <-. unfold serve_request, sbind, Daemon.dispatch_request in E.
      set (h2 := view false rec (set_vault v h)) in *. pose proof (dispatch_status kv h2) as Hm.
      destruct (Daemon.dispatch RqStatus h2) as [resp h3].
      by eapply (request_mapped kv _ _ h3 _ _ _ _ (mkServed t0 r t1)) in E as [_ ?].
Qed.

(** The connections up to one of them act on the map, and that one forges the
    envelope the vault object has at that moment. *)
Definition forged kv past h (sds : list (Served T)) : Prop :=
  ∃ sds1 sd sds2 kv1 h1 past1, sds = sds1 ++ sd :: sds2 ∧ serial past h sds1 h1 past1 ∧
    map_session kv sds1 kv1 ∧ holds kv1 h1 ∧ forges h1 sd.

Lemma serial_mapped kv past h sds h' past' :
  holds kv h → serial past h sds h' past' → (∃ kv', holds kv' h' ∧ map_session kv sds kv') ∨ forged kv past h sds.
Proof.
  intros Hh Hs. revert kv Hh. induction Hs as [past h h' Hc|past h sd h1 sds h' past' Ha _ IH]; intros kv Hh.
  - left. exists kv. split; [by eapply holds_core|constructor].
  - destruct (alone_mapped kv _ _ _ _ Hh Ha) as [(kv1 & Hh1 & Hm)|Hf].
    2: { right. exists [], sd, sds, kv, h, past. split_and!; try done; by constructor. }
    destruct (IH kv1 Hh1) as [(kv2 & Hh2 & Hms)|(sds1 & sd1 & sds2 & kv2 & h2 & past2 & -> & ? & ? & ? & ?)].
    + left. exists kv2. split; [done|]. by econstructor.
    + right. exists (sd :: sds1), sd1, sds2, kv2, h2, past2. split_and!; try done; by econstructor.
Qed.

Lemma forged_l kv past h sds sds' : forged kv past h sds → forged kv past h (sds ++ sds').
Proof.
  intros (sds1 & sd & sds2 & kv1 & h1 & past1 & -> & ?). exists sds1, sd, (sds2 ++ sds'), kv1, h1, past1. by rewrite <-(assoc_L (++)).
Qed.

Lemma map_session_app kv sds kv1 sds' kv2 : map_session kv sds kv1 → map_session kv1 sds' kv2 → map_session kv (sds ++ sds') kv2.
Proof. induction 1; [done|]. intros. econstructor; eauto. Qed.

Lemma forged_r kv past h sds kv1 h1 past1 sds' :
  serial past h sds h1 past1 → map_session kv sds kv1 → forged kv1 past1 h1 sds' → forged kv past h (sds ++ sds').
Proof.
  intros Hs Hm (sds1 & sd & sds2 & kv2 & h2 & past2 & -> & ? & ? & ?). exists (sds ++ sds1), sd, sds2, kv2, h2, past2. rewrite (assoc_L (++)).
  destruct_and?. split; [done|]. split; [by eapply serial_app|]. split; [by eapply map_session_app|done].
Qed.

(** A run in which nobody presents a passphrase has no forgery. *)
Lemma forged_presents kv past h sds :
  forged kv past h sds → ∃ sd, sd ∈ sds ∧ ∀ request, requested (sd_origin sd) = Some request → presented request ≠ None.
Proof.
  intros (sds1 & sd & sds2 & kv1 & h1 & past1 & -> & _ & _ & _ & request & rest & p & Hf & Hp & _). exists sd. split; [set_solver|].
  intros request' [rest' Hf']%requested_frame. rewrite (frame_at_fun _ _ _ _ _ Hf' Hf). congruence.
Qed.

Lemma serve_holds kv h (s0 : Machine Net T) h0 : holds kv h → Server.serve h = (Ok s0, h0) → holds kv h0.
Proof.
  intros Hh E. unfold Server.serve, Server.on_env in E. destruct (Server.listen _ _) as [[u|e] env]; [|done]. by injection E as <- <-.
Qed.

(** C1: a daemon without a witness is one map shared by all its clients.  Start
    it on a vault that holds the map [kv], let any clients connect and interleave
    their requests, uploads and downloads in any way, under any faults, and stop
    it at two moments.  There is an order of the connections in which, one after
    the other, they take [kv] to a map [kv1] that the tables hold at the first
    moment and [kv1] to a map [kv2] that they hold at the second, each with
    exactly the effect and the answer [map_served] gives it: a publication
    inserts what the client sent, a read answers with the entry of the map, a
    sweep counts the entries, everything else changes nothing.  Or the run has an
    explicit forgery ([forged]): the connections before one of them act on the
    map, and that one unlocks or rotates with a passphrase that opens the
    envelope of the vault object to another key than the root key, to which
    another passphrase opens it; nothing excludes this but the strength of the
    cipher.  Connections that ended before the first moment come before it, and
    when no thread is left nobody else appears. *)
Theorem clients_share_map kv h s0 h0 es1 s1 es2 s2 :
  holds kv h → Server.serve h = (Ok s0, h0) → Server.steps s0 es1 s1 → Server.steps s1 es2 s2 → listening s2 →
  ∃ before after,
    Server.ended es1 ⊆+ before ∧ Server.ended es1 ++ Server.ended es2 ⊆+ before ++ after ∧
    (sv_threads s2 = ∅ → before ++ after ≡ₚ Server.ended es1 ++ Server.ended es2) ∧
    ((∃ kv1 kv2,
        map_session kv before kv1 ∧ Refinement.refines vid rk kv1 (w_db (h_world (sv_host s1))) ∧
        map_session kv1 after kv2 ∧ Refinement.refines vid rk kv2 (w_db (h_world (sv_host s2)))) ∨
     forged kv [] h0 (before ++ after)).
Proof.
  intros Hh Hserve Hr1 Hr2 Hl.
  destruct (connections_in_order h s0 h0 es1 s1 es2 s2 Hserve Hr1 Hr2 Hl) as (before & after & past1 & past2 & Hs1 & Hs2 & Ho1 & Ho2 & Ho3).
  assert (holds kv h0) as Hh0 by (by eapply serve_holds). exists before, after. split_and!; try done.
  destruct (serial_mapped kv _ _ _ _ _ Hh0 Hs1) as [(kv1 & Hh1 & Hm1)|Hf]; [|right; by apply forged_l].
  destruct (serial_mapped kv1 _ _ _ _ _ Hh1 Hs2) as [(kv2 & Hh2 & Hm2)|Hf]; [left|right; by eapply forged_r].
  exists kv1, kv2. split_and!; [done|apply Hh1|done|apply Hh2].
Qed.

End map.
End connections.
End MapServer.
