(* ===== verification/BenchSpec.v ===== *)
(** * What the benchmark reports

    A round trip the driver measures is never reported as corrupted: whatever
    faults strike the disk, the clock or the connections, a plaintext that comes
    back is the payload that was stored.  A run that succeeds has printed one
    line per payload, run and operation, and has removed its directory. *)

From S2P Require Import Prelude Format Cde Crypto Witness Fs Storage Vault WitnessService Https Backup Protocol Daemon Cli Utf8 Startup Server Bench.
From S2P Require Import StorageSpec VaultSpec StreamSpec Refinement Lifecycle ProtocolSpec DaemonSpec.
From Stdlib Require Import ZArith Lia.
From stdpp Require Import base numbers list gmap strings sorting.

Open Scope Z_scope.
Open Scope vlt_scope.

#[local] Arguments be_bytes : simpl never.

(** [STANDARD.decode] reads what [STANDARD.encode] wrote. *)
Class Base64Ok `{Base64} : Prop := {
  b64_roundtrip data : wf_bytes data → b64_decode (b64_encode data) = Some data;
}.

(** A Unix stream socket: a new connection is empty, what arrives at one end is
    some prefix of what was sent at the other, all of it unless the connection
    breaks, and a write that fails has sent some prefix of its data. *)
Class LoopbackOk (T : Type) `{UnixStreamOk T} `{!Loopback T} : Prop := {
  client_new : sent client_end = [];
  accepted_new c : sent (accepted c) = [];
  accepted_contents c : contents (accepted c) `prefix_of` sent c;
  replied_contents c t : contents (replied c t) `prefix_of` sent t;
  reset_contents c : contents (reset c) = [];
  write_failed data (t t' : T) : write_all data t = (false, t') → ∃ p, p `prefix_of` data ∧ sent t' = sent t ++ p;
}.

(** ** Messages over a breaking connection *)

Module Partial.
Import Protocol ProtocolSpec StreamItems Daemon DaemonSpec.

(** Some prefix of the frame of a value. *)
Definition within {A} `{Json A} (a : A) (p : bytes) : Prop := p = [] ∨ ∃ f, frame a = Some f ∧ p `prefix_of` f.

Lemma within_prefix {A} `{Json A} (a : A) p q : q `prefix_of` p → within a p → within a q.
Proof. intros Hq [-> |(f & ? & ?)]; [left; by apply prefix_nil_inv|]. right. exists f. split; [done|]. by etrans. Qed.

Section partial.
Context `{LoopbackOk T}.

Lemma frame_at_app {A} `{!Json A} bs (a : A) rest k : frame_at bs a rest → frame_at (bs ++ k) a (rest ++ k).
Proof. intros (lb & body & -> & ? & ? & [? ?] & ?). exists lb, body. split_and!; try done. by rewrite <-!(assoc_L (++)). Qed.

(** No other value can be read from it. *)
Lemma frame_at_within {A} `{!Json A} `{!JsonOk A} (a b : A) p rest : within a p → frame_at p b rest → b = a.
Proof.
  intros [-> |(f & Hf & k & ->)] Hb.
  - destruct Hb as (lb & body & E & Hl & _). by destruct lb.
  - apply (frame_at_app _ _ _ k) in Hb. rewrite <-(app_nil_r (p ++ k)) in Hb. by apply (frame_at_frame _ _ _ _ _ Hf) in Hb as [? _].
Qed.

Lemma write_bytes_prefix data (t t' : T) r :
  write_bytes data t = (r, t') → ∃ p, p `prefix_of` data ∧ sent t' = sent t ++ p ∧ (r = Ok tt → p = data).
Proof.
  unfold write_bytes. destruct (write_all data t) as [[] t1] eqn:E; intros [= <- <-].
  - apply write_sent in E. by exists data.
  - apply write_failed in E as (p & ? & ?). by exists p.
Qed.

Lemma write_frame_within {A} `{!Json A} (a : A) (t t' : T) r :
  write_frame a t = (r, t') → ∃ p, sent t' = sent t ++ p ∧ within a p.
Proof.
  intros E. assert (sent t' = sent t ∨ ∃ f p, frame a = Some f ∧ p `prefix_of` f ∧ sent t' = sent t ++ p) as Hc.
  2: { destruct Hc as [Hs|(f & q & ? & ? & ?)]; [exists []; rewrite app_nil_r; split; [done|by left]|]. exists q. split; [done|]. right. by exists f. }
  unfold write_frame, frame in *. unfold sbind at 1, slift in E.
  destruct (json_to_vec a) as [body|]; cbn [ok_or mbind option_bind] in *; [|injection E as <- <-; by left].
  destruct (_ || _); [injection E as <- <-; by left|]. unfold sbind at 1 in E.
  destruct (u32_try_from (lenZ body)) as [n|] eqn:En; cbn [ok_or] in E; [|injection E as <- <-; by left].
  apply u32_try_from_some in En as [<- _]. right. exists (be_bytes 4 (lenZ body) ++ body).
  unfold sbind at 1 in E. destruct (write_bytes (be_bytes 4 (lenZ body)) t) as [r1 t1] eqn:E1.
  apply write_bytes_prefix in E1 as (p1 & Hp1 & Hs1 & Hok1). destruct r1 as [[]|].
  2: { injection E as <- <-. exists p1. split_and!; [done|by apply prefix_app_r|done]. }
  rewrite (Hok1 eq_refl) in Hs1. unfold sbind at 1 in E. destruct (write_bytes body t1) as [r2 t2] eqn:E2.
  apply write_bytes_prefix in E2 as (p2 & Hp2 & Hs2 & _). exists (be_bytes 4 (lenZ body) ++ p2).
  split_and!; [done|by apply prefix_app|]. rewrite (assoc_L (++)), <-Hs1, <-Hs2. destruct r2 as [[]|]; [|by injection E as <- <-].
  unfold flush_writer in E. pose proof (flush_sent t2) as Hf. destruct (flush t2) as [ok t3]. by injection E as _ <-.
Qed.

Lemma read_frame_within {A} `{!Json A} `{!JsonOk A} (a b : A) (t t' : T) :
  within a (contents t) → read_frame t = (Ok b, t') → b = a.
Proof. intros Hw E. apply read_frame_ok in E; [|apply contents_wf]. by eapply frame_at_within. Qed.

Section serving.
Context `{PrimitivesOk} `{!Base64} `{!SqliteFile} `{!Tempfile} `{!Json BackupManifest} `{!HexCrate}.
Context `{!Json IssueRequest} `{!Json IssueResponse} `{!Json HeadRequest} `{!Json HeadResponse}.
Context `{!Json Request} `{!JsonOk Request} `{!Json Response} {Net : Type} `{!Transport Net}.

Definition streamed (request : Request) : bool :=
  match request with RqPutStream _ | RqGetStream _ => true | _ => false end.

Lemma write_response_within resp (h h' : Host Net) (t t' : T) r :
  write_response resp (h, t) = (r, (h', t')) → h' = h ∧ ∃ p, sent t' = sent t ++ p ∧ within resp p.
Proof.
  unfold write_response, on_stream, smap_err, szoom. cbn [fst snd]. destruct (write_frame resp t) as [r1 t1] eqn:E.
  apply write_frame_within in E. destruct r1; by intros [= <- <- <-].
Qed.

(** A connection on which at most a request has arrived is served without
    effect, or the request is; what is sent is part of one answer. *)
Lemma serve_within request (h h' : Host Net) (t t' : T) r :
  streamed request = false → within request (contents t) → sent t = [] → serve_stream (h, t) = (r, (h', t')) →
  ∃ resp, within resp (sent t') ∧ ((h' = h ∧ ∃ e, resp = RError e) ∨ dispatch request h = (resp, h')).
Proof.
  intros Hst Hw H0' E. assert (∀ resp t1 h1 r1, sent t1 = [] → write_response resp (h1, t1) = (r1, (h', t')) → h' = h1 ∧ within resp (sent t')) as Hresp.
  { intros resp t1 h1 r1 Hs1 E1. apply write_response_within in E1 as (-> & p & Hs & Hp). by rewrite Hs, Hs1. }
  unfold serve_stream, sbind at 1 in E.
  destruct (read_timeout_frame t) as (Hp1 & Hs1 & Hc1), (write_timeout_frame (set_read_timeout t).2) as (Hp2 & Hs2 & Hc2).
  destruct (set_timeout set_read_timeout (h, t)) as [[[]|] [h1 t1]] eqn:E1; apply set_timeout_cases in E1 as [-> ->].
  2: { injection E as <- <- <-. exists (RError (failure CInternal "")). rewrite Hs1, H0'. split; [by left|]. left. eauto. }
  unfold sbind at 1 in E. destruct (set_timeout set_write_timeout (h, _)) as [[[]|] [h2 t2]] eqn:E2; apply set_timeout_cases in E2 as [-> ->].
  2: { injection E as <- <- <-. exists (RError (failure CInternal "")). rewrite Hs2, Hs1, H0'. split; [by left|]. left. eauto. }
  set (t2 := (set_write_timeout _).2) in *. unfold sbind at 1, sgets in E. cbn [fst snd] in E.
  destruct (authorize h t2); cbn [negb] in E.
  2: { apply Hresp in E as [-> ?]; [|congruence]. eexists. split; [done|]. left. split; [done|]. by eexists. }
  unfold sbind at 1, read_request in E. destruct (read_frame t2) as [req t3] eqn:E3.
  assert (sent t3 = []) as Hs3 by (pose proof (quietly_read_frame (A:=Request) t2) as Hq; rewrite E3 in Hq; simpl in Hq; congruence).
  destruct req as [req|e].
  - apply (read_frame_within request) in E3 as ->; [|by rewrite Hc2, Hc1]. destruct request; try done.
    all: unfold sbind, dispatch_request in E; destruct (dispatch _ h) as [resp h3] eqn:Ed; apply Hresp in E as [-> ?]; [|done]; exists resp; by split; [|right].
  - apply Hresp in E as [-> ?]; [|done]. eexists. split; [done|]. left. split; [done|]. by eexists.
Qed.

End serving.
End partial.
End Partial.

(** ** A vault and the plaintexts it holds *)

Module Tracked.
Import StorageSpec VaultSpec StreamSpec DaemonSpec.

Abbreviation Store := (gmap ObjectId bytes).

Section tracked.
Context `{PrimitivesOk}.
Variables (env : Crypto.RootEnvelope) (rk : bytes).
Hypothesis (Hvid : wf_id (Crypto.env_vault_id env)).

(** The vault object has the envelope, is locked or holds the root key, and its
    tables hold the map. *)
Definition tracks {X} (kv : Store) (s : VS X) : Prop :=
  v_envelope s.1.1 = env ∧ (v_root_key s.1.1 = Some rk ∨ v_root_key s.1.1 = None) ∧
  Refinement.refines (Crypto.env_vault_id env) rk kv (w_db s.1.2).

Lemma tracks_ok {X} kv (s : VS X) : tracks kv s → Refinement.vault_ok (Crypto.env_vault_id env) rk s.1.1.
Proof. intros (He & Hk & _). split; [|done]. unfold v_vault_id. by rewrite He. Qed.

(** After the body of an operation: the vault may have been locked. *)
Lemma tracks_after {X A} kv (r : Result A) (s s1 s' : VS X) :
  tracks kv s → s1.1.1 = s.1.1 → Refinement.refines (Crypto.env_vault_id env) rk kv (w_db s1.1.2) → s'.1.2 = s1.1.2 →
  s'.1.1 = match r with Ok _ => s1.1.1 | Err e => if requires_lock e then Vault.lock s1.1.1 else s1.1.1 end → tracks kv s'.
Proof.
  intros (He & Hk & _) E1 Hr Ew Ev. rewrite E1 in Ev. unfold tracks. rewrite Ew, Ev. clear Ev.
  destruct r as [a|e]; [done|]. destruct (requires_lock e); [|done]. split_and!; [done|by right|done].
Qed.

Lemma put_tracks {X} kv o data (s s' : VS X) r :
  wf_id o → tracks kv s → Vault.put o data s = (r, s') → ∃ kv', tracks kv' s' ∧ (is_ok r = true → kv' = <[o := data]> kv).
Proof.
  intros Ho Ht E. apply Refinement.lock_after_failure_eq in E as (s1 & E & Ew & _ & Ev). pose proof (tracks_ok _ _ Ht) as Hok.
  apply put_inner_cases in E as (F & _ & Heff); [|done|by destruct Hok as [-> _]|by vm_compute].
  destruct Ht as (He & Hk & Hr). destruct (Refinement.refines_effect _ _ _ _ _ _ _ _ _ Hok Hr Heff) as [[Hf Hr']|Hr'].
  - exists kv. split; [by eapply (tracks_after kv r s s1)|]. congruence.
  - exists (<[o := data]> kv). split; [|done]. eapply (tracks_after _ r (s1.1.1, s1.1.2, s.2) s1); try done. split_and!; [|by rewrite F|done]. by rewrite F.
Qed.

Lemma get_tracks {X} kv o (s s' : VS X) r :
  tracks kv s → Vault.get o s = (r, s') → tracks kv s' ∧ ∀ pt, r = Ok pt → kv !! o = Some pt.
Proof.
  intros Ht E. destruct s as [[v w] x]. apply Refinement.lock_after_failure_eq in E as (s1 & E & Ew & _ & Ev).
  apply (Refinement.get_inner_cases (R:=bytes) (Crypto.env_vault_id env) rk kv) in E as (F & Edb & Hs); [|by apply (tracks_ok kv (v, w, x))|apply Ht].
  split; [|intros pt ->; by inversion Hs]. eapply (tracks_after kv r (v, w, x) s1); try done. rewrite Edb. apply Ht.
Qed.

Lemma unlock_tracks {X} kv p (s s' : VS X) r :
  Crypto.open_root_key p env = Ok rk → tracks kv s → Vault.unlock p s = (r, s') → tracks kv s'.
Proof.
  intros Ho Ht E. unfold Vault.unlock, sbind, slift in E. destruct (Vault.validate_passphrase p); [|by injection E as <- <-]. cbn in E.
  pose proof Ht as (He & _ & Hr). rewrite He, Ho in E. injection E as <- <-. split_and!; [done|by left|done].
Qed.

(** *** Behind a daemon *)

Context `{!Base64} `{!SqliteFile} `{!Tempfile} `{!Json BackupManifest} `{!HexCrate}.
Context `{!Json IssueRequest} `{!Json IssueResponse} `{!Json HeadRequest} `{!Json HeadResponse}.
Context `{!Json Request} `{!Json Response} {Net : Type} `{!Transport Net}.

Definition hosts (kv : Store) (h : Host Net) : Prop :=
  ds_witness (h_daemon h) = None ∧ tracks kv ((m_value (ds_vault (h_daemon h)), h_world h), tt).

Lemma hosts_tables kv d w w' files files' : w_db w' = w_db w → hosts kv (mkHost d w files) → hosts kv (mkHost d w' files').
Proof. intros E (Hw & He & Hk & Hr). split; [done|]. split; [done|]. split; [done|]. simpl in *. by rewrite E. Qed.

Lemma with_vault_tracks kv (op : Op Files Success) (Q : Result Success → Store → Prop) h resp h' :
  (∀ s r s', tracks kv s → op s = (r, s') → ∃ kv', tracks kv' s' ∧ Q r kv') → hosts kv h → Daemon.with_vault op h = (resp, h') →
  ∃ kv', hosts kv' h' ∧ ∀ x, resp = ROk x → Q (Ok x) kv'.
Proof.
  intros Hop [Hw Ht] E. unfold Daemon.with_vault, lock_mutex in E. destruct (m_poisoned _).
  { injection E as <- <-. by exists kv. }
  unfold Daemon.on_vault in E. destruct (op _) as [r [[v w] files]] eqn:E1. injection E as <- <-.
  destruct (Hop (_, _, h_files h) _ _ Ht E1) as (kv' & Ht' & HQ). exists kv'. split; [by split|]. intros x Hx. destruct r; [|done]. by injection Hx as ->.
Qed.

(** A successful answer to a request of the benchmark. *)
Definition answered (kv : Store) (request : Request) (x : Success) (kv' : Store) : Prop :=
  match request with
  | RqPut text encoded => ∃ o data, Daemon.parse_object_id text = Ok o ∧ b64_decode encoded = Some data ∧ kv' = <[o := data]> kv
  | RqGet text => ∃ o data, Daemon.parse_object_id text = Ok o ∧ kv !! o = Some data ∧ x = SPlaintext (b64_encode data)
  | _ => True
  end.

(** The requests the benchmark makes. *)
Definition benchmarked (request : Request) : Prop :=
  match request with
  | RqUnlock p => Crypto.open_root_key p env = Ok rk
  | RqPut _ _ | RqGet _ | RqShutdown => True
  | _ => False
  end.

Lemma then_tracks {A} kv (m : Op Files A) (f : A → Success) (Q : Result A → Store → Prop) (Q' : Result Success → Store → Prop) :
  (∀ s r s', tracks kv s → m s = (r, s') → ∃ kv', tracks kv' s' ∧ Q r kv') → (∀ a kv', Q (Ok a) kv' → Q' (Ok (f a)) kv') →
  (∀ e kv', Q' (Err e) kv') → ∀ s r s', tracks kv s → (let* a := m in sret (f a)) s = (r, s') → ∃ kv', tracks kv' s' ∧ Q' r kv'.
Proof.
  intros Hm Hf He s r s' Ht E. unfold sbind in E. destruct (m s) as [[a|e] s1] eqn:E1; injection E as <- <-;
    destruct (Hm _ _ _ Ht E1) as (kv' & ? & ?); exists kv'; auto.
Qed.

Lemma dispatch_tracks kv request h resp h' :
  benchmarked request → hosts kv h → Daemon.dispatch request h = (resp, h') →
  ∃ kv', hosts kv' h' ∧ ∀ x, resp = ROk x → answered kv request x kv'.
Proof.
  intros Hb Hh E. assert (Daemon.has_witness h = false) as Hnw.
  { unfold Daemon.has_witness. rewrite (proj1 Hh). by apply bool_decide_eq_false_2, is_Some_None. }
  unfold Daemon.dispatch in E. destruct (_ && _); [injection E as <- <-; by exists kv|]. destruct request; try done.
  - unfold Daemon.unlock in E. rewrite Hnw in E. eapply (with_vault_tracks kv _ (λ _ _, True)) in E as (kv' & ? & _); [by exists kv'| |done].
    eapply (then_tracks _ _ _ (λ _ _, True)); [|done..]. intros s r s' Ht Eu. exists kv. split; [|done]. by eapply unlock_tracks.
  - unfold Daemon.put in E. destruct (Daemon.parse_object_id object_id) as [o|] eqn:Ho.
    2: { destruct (parse_object_id_err _ _ Ho) as [er ->]. injection E as <- <-. by exists kv. }
    destruct (b64_decode plaintext_b64) as [data|] eqn:Ed; [|injection E as <- <-; by exists kv]. rewrite Hnw in E.
    eapply (with_vault_tracks kv _ (λ r kv', is_ok r = true → kv' = <[o := data]> kv)) in E as (kv' & ? & HQ); [| |done].
    + exists kv'. split; [done|]. intros x Hx. exists o, data. split_and!; [done|done|]. by apply (HQ x).
    + eapply (then_tracks _ _ _ (λ r kv', is_ok r = true → kv' = <[o := data]> kv)); [|done..].
      intros s r s'. apply put_tracks. by eapply parse_object_id_wf.
  - unfold Daemon.get in E. destruct (Daemon.parse_object_id object_id) as [o|] eqn:Ho.
    2: { destruct (parse_object_id_err _ _ Ho) as [er ->]. injection E as <- <-. by exists kv. }
    rewrite Hnw in E.
    eapply (with_vault_tracks kv _ (λ r kv', ∀ x, r = Ok x → ∃ data, kv !! o = Some data ∧ x = SPlaintext (b64_encode data))) in E
      as (kv' & ? & HQ); [| |done].
    + exists kv'. split; [done|]. intros x Hx. destruct (HQ x Hx x eq_refl) as (data & ? & ?). by exists o, data.
    + eapply (then_tracks _ _ _ (λ r _, ∀ pt, r = Ok pt → kv !! o = Some pt)).
      * intros s r s' Ht Eg. exists kv. by apply (get_tracks kv o s s' r).
      * intros a kv' Ha x [= <-]. exists a. split; [by apply Ha|done].
      * done.
  - exists kv. destruct (dc_allow_shutdown _); by injection E as <- <-.
Qed.

End tracked.
End Tracked.

(** ** Options *)

Module OptionsSpec.
Import Options.

(** What a configuration holds: machine integers, and nothing that is zero. *)
Definition valid (config : Config) : Prop :=
  payloads_kib config ≠ [] ∧ Forall (λ k, 0 < k ≤ u32_max) (payloads_kib config) ∧ 0 < runs config ≤ usize_max.

(** The types of the fields. *)
Definition typed (config : Config) : Prop :=
  Forall (λ k, 0 ≤ k ≤ u32_max) (payloads_kib config) ∧ 0 ≤ runs config ≤ usize_max.

Lemma parse_digits_bounds max acc s n : 0 ≤ acc ≤ max → parse_digits max acc s = Some n → 0 ≤ n ≤ max.
Proof.
  revert acc. induction s as [|c s IH]; intros acc Ha; simpl; [by intros [= <-]|]. unfold digit.
  destruct ((48 <=? c) && (c <=? 57)) eqn:Ec; [|done]. simpl. destruct (Z.leb_spec (acc * 10 + (c - 48)) max); [|done]. apply IH. lia.
Qed.

Lemma parse_unsigned_bounds max s n : 0 ≤ max → parse_unsigned max s = Some n → 0 ≤ n ≤ max.
Proof. intros Hm. destruct s as [|c s]; [done|]. unfold parse_unsigned. destruct (_ && _); by apply parse_digits_bounds. Qed.

Lemma parse_payloads_bounds value payloads : parse_payloads value = Ok payloads → Forall (λ k, 0 ≤ k ≤ u32_max) payloads.
Proof.
  intros E%ok_or_ok. apply mapM_Some in E. apply Forall_forall. intros k (i & Hi)%list_elem_of_lookup.
  eapply Forall2_lookup_r in E as (part & _ & Hp); [|done]. by eapply parse_unsigned_bounds.
Qed.

Lemma finish_valid config config' : typed config → finish config = Ok (Run config') → config' = config ∧ valid config.
Proof.
  intros [Hp Hr]. unfold finish. destruct (_ || _) eqn:E; [done|]. intros [= <-]. split; [done|].
  apply orb_false_iff in E as [[E1%bool_decide_eq_false E2%bool_decide_eq_false]%orb_false_iff E3%Z.eqb_neq].
  split_and!; [done| |lia|lia]. apply Forall_forall. intros k Hk. rewrite Forall_forall in Hp. specialize (Hp k Hk).
  assert (k ≠ 0) by (by intros ->). lia.
Qed.

(** Only valid configurations are accepted. *)
Lemma parse_from_valid config arguments config' : typed config → parse_from config arguments = Ok (Run config') → valid config'.
Proof.
  revert config. remember (length arguments) as n eqn:Hn. revert arguments Hn.
  induction (lt_wf n) as [n _ IH]. intros [|a arguments] -> config Ht; cbn [parse_from]; [by intros [-> ?]%finish_valid|].
  assert (∀ v rest c, arguments = v :: rest → typed c → parse_from c rest = Ok (Run config') → valid config') as Hrec.
  { intros v rest c -> Hc. by eapply (IH (length rest)); [simpl; lia| |]. }
  destruct Ht as [Hp Hr].
  case_bool_decide; [destruct arguments as [|v rest]; [done|]; intros (p & ?%parse_payloads_bounds & E)%rbind_ok; eapply Hrec; [done| |exact E]; by split|].
  case_bool_decide; [destruct arguments as [|v rest]; [done|]; intros (k & E1%ok_or_ok%parse_unsigned_bounds & E)%rbind_ok; [|done]; eapply Hrec; [done| |exact E]; by split|].
  case_bool_decide; [destruct arguments as [|v rest]; [done|]; intros (m & _ & E)%rbind_ok; eapply Hrec; [done| |exact E]; by split|]. by destruct (_ || _).
Qed.

Lemma parse_valid arguments config : parse arguments = Ok (Run config) → valid config.
Proof. apply parse_from_valid. split; [|done]. by repeat constructor. Qed.

(** *** Every valid configuration can be asked for *)

Fixpoint decimal (fuel : nat) (n : Z) : bytes :=
  match fuel with
  | O => []
  | S fuel => (if n <? 10 then [] else decimal fuel (n / 10)) ++ [48 + n `mod` 10]
  end.
(** Twenty digits are enough for 64 bits. *)
Definition print_number (n : Z) : bytes := decimal 20 n.
Definition mode_name (m : Mode) : bytes := str_bytes (match m with Direct => "direct" | Rpc => "rpc" | Both => "both" end).
Definition print_payloads (payloads : list Z) : bytes := foldr (λ n s, if s is [] then print_number n else print_number n ++ 44 :: s) [] payloads.
Definition print (config : Config) : list bytes :=
  [str_bytes "--payloads-kib"; print_payloads (payloads_kib config); str_bytes "--runs"; print_number (runs config);
   str_bytes "--mode"; mode_name (mode config)].

Lemma parse_digits_snoc max acc s c :
  parse_digits max acc (s ++ [c]) = (m ← parse_digits max acc s; d ← digit c; if m * 10 + d <=? max then Some (m * 10 + d) else None).
Proof.
  revert acc. induction s as [|c' s IH]; intros acc; cbn [app parse_digits].
  - simpl. destruct (digit c) as [d|]; [|done]. simpl. by destruct (_ <=? _).
  - destruct (digit c') as [d'|]; [|done]. simpl. destruct (_ <=? _); [apply IH|done].
Qed.

Lemma parse_decimal max fuel n : 0 ≤ n ≤ max → n < 10 ^ Z.of_nat fuel → parse_digits max 0 (decimal fuel n) = Some n.
Proof.
  revert n. induction fuel as [|fuel IH]; intros n Hn Hf; [simpl in *; assert (n = 0) by lia; by subst|].
  rewrite Nat2Z.inj_succ, Z.pow_succ_r in Hf by lia. cbn [decimal]. rewrite parse_digits_snoc.
  pose proof (Z.div_mod n 10 ltac:(done)) as Hdm. pose proof (Z.mod_pos_bound n 10 ltac:(done)) as Hmod.
  assert (parse_digits max 0 (if n <? 10 then [] else decimal fuel (n / 10)) = Some (n / 10)) as ->.
  { destruct (Z.ltb_spec n 10); [simpl; by rewrite Z.div_small by lia|]. apply IH; [|apply Z.div_lt_upper_bound; lia]. lia. }
  simpl. unfold digit. rewrite (proj2 (Z.leb_le 48 _)), (proj2 (Z.leb_le _ 57)) by lia. simpl.
  replace (n / 10 * 10 + (48 + n `mod` 10 - 48)) with n by lia. by rewrite (proj2 (Z.leb_le _ _)) by lia.
Qed.

Lemma decimal_digits fuel n : Forall (λ c, 48 ≤ c ≤ 57) (decimal fuel n).
Proof.
  revert n. induction fuel as [|fuel IH]; intros n; cbn [decimal]; [constructor|]. apply Forall_app. split; [by destruct (_ <? _)|].
  constructor; [|constructor]. pose proof (Z.mod_pos_bound n 10). lia.
Qed.

Lemma print_number_ne n : print_number n ≠ [].
Proof. intros [_ ?]%app_nil. done. Qed.

Lemma parse_print_number max n : 0 ≤ n ≤ max → n ≤ usize_max → parse_unsigned max (print_number n) = Some n.
Proof.
  intros Hn Hu. assert (parse_digits max 0 (print_number n) = Some n) as Hp by (apply parse_decimal; [done|unfold usize_max in Hu; simpl; lia]).
  pose proof (decimal_digits 20 n) as Hd. fold (print_number n) in Hd. destruct (print_number n) as [|c s] eqn:E.
  - by apply print_number_ne in E.
  - apply Forall_cons in Hd as [Hc _]. unfold parse_unsigned. by rewrite (proj2 (Z.eqb_neq c 43)) by lia.
Qed.

Lemma split_comma_part part s : Forall (λ c, 48 ≤ c ≤ 57) part → split_comma (part ++ 44 :: s) = part :: split_comma s ∧ split_comma part = [part].
Proof.
  induction 1 as [|c part Hc _ [IH1 IH2]]; [done|]. cbn [app split_comma]. rewrite (proj2 (Z.eqb_neq c 44)) by lia. by rewrite IH1, IH2.
Qed.

Lemma split_print_payloads n payloads : split_comma (print_payloads (n :: payloads)) = map print_number (n :: payloads).
Proof.
  revert n. induction payloads as [|m payloads IH]; intros n.
  - cbn [print_payloads foldr]. by apply (split_comma_part _ []), decimal_digits.
  - specialize (IH m). unfold print_payloads in *. cbn [foldr map] in *. set (s := match foldr _ _ _ with [] => _ | _ => _ end) in *.
    destruct s as [|c s]; [injection IH as Hm _; by destruct (print_number_ne m)|]. rewrite (proj1 (split_comma_part (print_number n) _ (decimal_digits _ _))). by rewrite IH.
Qed.

(** The options that ask for a configuration are read back as it. *)
Lemma parse_print config : valid config → parse (print config) = Ok (Run config).
Proof.
  intros (Hne & Hp & Hr). assert (parse_payloads (print_payloads (payloads_kib config)) = Ok (payloads_kib config)) as E1.
  { unfold parse_payloads. destruct (payloads_kib config) as [|n payloads]; [done|]. rewrite split_print_payloads. apply ok_or_ok, mapM_Some.
    apply Forall2_fmap_l, Forall_Forall2_diag. eapply Forall_impl; [exact Hp|]. intros k Hk. unfold compose.
    apply parse_print_number; unfold u32_max, usize_max in *; lia. }
  unfold parse, print. cbn [parse_from].
  rewrite bool_decide_eq_true_2 by done. rewrite E1. cbn [rbind parse_from].
  rewrite bool_decide_eq_false_2, bool_decide_eq_true_2 by done. rewrite parse_print_number by lia. cbn [ok_or rbind parse_from].
  rewrite 2!bool_decide_eq_false_2, bool_decide_eq_true_2 by done.
  assert (parse_mode (mode_name (mode config)) = Ok (mode config)) as -> by (by destruct (mode config)). cbn [rbind parse_from].
  unfold finish. cbn [payloads_kib runs mode]. rewrite bool_decide_eq_false_2 by done. rewrite bool_decide_eq_false_2.
  - rewrite (proj2 (Z.eqb_neq _ _)) by lia. by destruct config.
  - intros H0. rewrite Forall_forall in Hp. specialize (Hp _ H0). lia.
Qed.

End OptionsSpec.

(** ** Runs of the driver *)

Module BenchSpec.
Import Bench Partial Tracked.

(** An error a user may see: no measured round trip failed its check, nothing
    panicked, and the call returned. *)
Definition honest (e : BenchError) : Prop :=
  match e with
  | Bails message =>
      message ≠ [PText "direct benchmark round-trip verification failed"] ∧
      message ≠ [PText "RPC benchmark round-trip verification failed"]
  | Panics _ | Blocks => False
  | Because _ _ => True
  end.

(** A printed line without its duration. *)
Definition untimed (line : Printed) : Printed :=
  match line with Row mode operation bytes run _ => Row mode operation bytes run 0 | line => line end.

(** The lines of a successful run. *)
Definition run_rows (mode : string) (bytes run : Z) : list Printed := [Row mode "put" bytes run 0; Row mode "get" bytes run 0].
Definition payload_rows (mode : string) (runs payload_kib : Z) : list Printed :=
  concat (map (run_rows mode (payload_kib * 1024)) (seqZ 0 runs)).
Definition mode_rows (mode : string) (config : Options.Config) : list Printed :=
  concat (map (payload_rows mode (Options.runs config)) (Options.payloads_kib config)).
Definition expected (config : Options.Config) : list Printed :=
  [Header] ++ (if Options.includes_direct (Options.mode config) then mode_rows "direct" config else [])
  ++ (if Options.includes_rpc (Options.mode config) then mode_rows "rpc" config else []).

Section driver.
Context {Net : Type}.
Implicit Types (b : Driver Net) (l : list Printed) (R : World * Files → Service Net → Prop).

Definition lines b : list Printed := map untimed (b_printed b).

(** The host and the thread satisfy [R], and [l] has been printed. *)
Definition at_point R l b : Prop := R (b_host b) (b_service b) ∧ lines b = l.

(** The daemon's thread waits for connections, and no shutdown was requested. *)
Definition stuck b : Prop := ∃ d, b_service b = Serving d ∧ ds_shutdown d = false.

(** How a computation may fail. *)
Definition failed (e : BenchError) b : Prop := honest e ∨ e = Blocks ∧ stuck b.

(** From a state of [P] the computation ends in one of [Q], or fails as above. *)
Definition triple {A} (P : Driver Net → Prop) (m : M (Driver Net) BenchError A) (Q : A → Driver Net → Prop) : Prop :=
  ∀ b r b', P b → m b = (r, b') → match r with Ok a => Q a b' | Err e => failed e b' end.

Lemma triple_bind {A C} P (m : M (Driver Net) BenchError A) (k : A → M (Driver Net) BenchError C) Q S :
  triple P m Q → (∀ a, triple (Q a) (k a) S) → triple P (sbind m k) S.
Proof.
  intros Hm Hk b r b' HP E. unfold sbind in E. destruct (m b) as [[a|e] b1] eqn:E1; specialize (Hm _ _ _ HP E1); simpl in Hm.
  - by eapply Hk.
  - by injection E as <- <-.
Qed.

Lemma triple_pure {A} (φ : Prop) P (m : M (Driver Net) BenchError A) Q : (φ → triple P m Q) → triple (λ b, φ ∧ P b) m Q.
Proof. intros Hm b r b' [? HP]. by apply Hm. Qed.

(** Choose the assertion by looking at the state. *)
Lemma triple_pull {A} P (m : M (Driver Net) BenchError A) Q :
  (∀ b, P b → ∃ P' : Driver Net → Prop, P' b ∧ triple P' m Q) → triple P m Q.
Proof. intros Hm b r b' HP. destruct (Hm b HP) as (P' & ? & Ht). by apply Ht. Qed.

Lemma triple_ret {A} P (a : A) : triple P (sret a) (λ a' b, a' = a ∧ P b).
Proof. by intros b r b' HP [= <- <-]. Qed.

Lemma triple_throw {A} P e (Q : A → Driver Net → Prop) : honest e → triple P (sthrow e) Q.
Proof. intros He b r b' _ [= <- <-]. by left. Qed.

Lemma triple_impl {A} (P P' : Driver Net → Prop) (m : M (Driver Net) BenchError A) (Q Q' : A → Driver Net → Prop) :
  (∀ b, P b → P' b) → (∀ a b, Q' a b → Q a b) → triple P' m Q' → triple P m Q.
Proof. intros HP HQ Hm b r b' Hb E. specialize (Hm _ _ _ (HP _ Hb) E). destruct r; auto. Qed.

Lemma triple_lift {A} P (r : result A BenchError) : (∀ e, r = Err e → honest e) → triple P (returned r) (λ a b, r = Ok a ∧ P b).
Proof. intros He b r' b' HP [= <- <-]. destruct r; [done|]. left. auto. Qed.

Lemma triple_now R l : triple (at_point R l) now (λ _, at_point R l).
Proof. by intros b r b' [HR Hl] [= <- <-]. Qed.

Lemma triple_elapsed R l started : triple (at_point R l) (elapsed started) (λ _, at_point R l).
Proof. by intros b r b' [HR Hl] [= <- <-]. Qed.

Lemma triple_println R l line : triple (at_point R l) (println line) (λ _, at_point R (l ++ [untimed line])).
Proof. intros b r b' [HR <-] [= <- <-]. split; [done|]. unfold lines. simpl. by rewrite map_app. Qed.

Lemma triple_emit R l mode operation bytes run duration :
  bytes ≤ u32_max →
  triple (at_point R l) (emit mode operation bytes run duration) (λ _, at_point R (l ++ [Row mode operation bytes run 0])).
Proof.
  intros Hb. unfold emit. rewrite (bool_decide_eq_true_2 (is_Some _)), orb_true_r; [apply triple_println|].
  exists bytes. by apply u32_try_from_some.
Qed.

Lemma triple_each {X V} (body : V → X → M (Driver Net) BenchError V) (I : V → list Printed → Driver Net → Prop) rows xs :
  (∀ v x l, x ∈ xs → triple (I v l) (body v x) (λ v', I v' (l ++ rows x))) →
  ∀ v l, triple (I v l) (each body v xs) (λ v', I v' (l ++ concat (map rows xs))).
Proof.
  induction xs as [|x xs IH]; intros Hb v l; simpl.
  - intros b r b' HI [= <- <-]. by rewrite app_nil_r.
  - eapply triple_bind; [apply Hb; by left|]. intros v1. rewrite (assoc_L (++)). apply IH. intros v2 y l2 Hy. apply Hb. by right.
Qed.

Lemma run_rows_app l mode bytes run :
  l ++ run_rows mode bytes run = (l ++ [Row mode "put" bytes run 0]) ++ [Row mode "get" bytes run 0].
Proof. by rewrite <-(assoc_L (++)). Qed.

(** ** Payloads *)

Lemma payload_for_ok payload_kib payload :
  0 ≤ payload_kib → Payload.payload_for payload_kib = Ok payload →
  lenZ payload = payload_kib * 1024 ∧ lenZ payload ≤ u32_max ∧ wf_bytes payload.
Proof.
  intros Hk. unfold Payload.payload_for, Payload.u32_checked_mul. destruct (Z.leb_spec (payload_kib * 1024) u32_max); [|done]. intros [= <-].
  assert (lenZ (Payload.deterministic_payload (payload_kib * 1024)) = payload_kib * 1024) as ->.
  { unfold Payload.deterministic_payload, lenZ. rewrite length_map, length_seqZ. lia. }
  split_and!; [done|done|]. apply Forall_fmap, Forall_forall. intros i _. unfold is_u8, u8_max. simpl.
  pose proof (Z.mod_pos_bound i 251). lia.
Qed.

Lemma payload_for_err payload_kib e : Payload.payload_for payload_kib = Err e → honest e.
Proof. unfold Payload.payload_for, Payload.u32_checked_mul. by destruct (_ <=? _); intros [= <-]. Qed.

(** The loop over the runs of a payload, for a body that prints its two lines. *)
Lemma triple_for_payload {V} (run : bytes → V → Z → M (Driver Net) BenchError V) (I : V → list Printed → Driver Net → Prop) mode runs payload_kib v l :
  0 ≤ payload_kib →
  (∀ payload v x l, wf_bytes payload → lenZ payload ≤ u32_max →
     triple (I v l) (run payload v x) (λ v', I v' (l ++ run_rows mode (lenZ payload) x))) →
  triple (I v l) (for_payload run runs v payload_kib) (λ v', I v' (l ++ payload_rows mode runs payload_kib)).
Proof.
  intros Hk Hrun. eapply triple_bind; [apply triple_lift, payload_for_err|]. intros payload b r b' [Hp HI].
  apply payload_for_ok in Hp as (Hn & Hu & Hw); [|done]. revert HI. eapply (triple_each (run payload) I (run_rows mode (payload_kib * 1024))).
  intros v1 x l1 _. rewrite <-Hn. by apply Hrun.
Qed.

Section host.
Context `{PrimitivesOk}.

(** A relation that looks at the tables only. *)
Definition tables_only R : Prop :=
  ∀ (s s' : World * Files) (svc : Service Net), w_db s'.1 = w_db s.1 → s'.2 = s.2 → R s svc → R s' svc.

Lemma triple_random_object R l :
  tables_only R → triple (at_point R l) random_object (λ o b, wf_id o ∧ at_point R l b).
Proof.
  intros HR b r b' [Hb Hl] E. unfold random_object, on_host, smap_err, Backup.in_world, szoom in E.
  destruct (in_rng random_id (b_host b).1) as [r1 w1] eqn:E1. unfold in_rng, szoom in E1.
  destruct (random_id _) as [r2 g] eqn:E2. injection E1 as <- <-. destruct r2 as [o|e]; injection E as <- <-; [|by left].
  split; [by eapply VaultSpec.random_id_ok|]. split; [|done]. by eapply (HR (b_host b)).
Qed.

Lemma triple_on_vault {A} (m : Op unit A) v (P : Vault → World → Prop) (Q : A → Vault → World → Prop) l :
  (∀ w a v' w', P v w → m ((v, w), tt) = (Ok a, ((v', w'), tt)) → Q a v' w') →
  triple (at_point (λ s _, P v s.1) l) (on_vault v m) (λ x, at_point (λ s _, Q x.1 x.2 s.1) l).
Proof.
  intros Hm b r b' [HP Hl] E. unfold on_vault, on_host, smap_err, Backup.in_world, szoom in E.
  destruct (m ((v, (b_host b).1), tt)) as [[a|e] [[v' w'] []]] eqn:E1; injection E as <- <-; [|by left]. split; [|done]. by eapply Hm.
Qed.

Section direct.
Variables (env : Crypto.RootEnvelope) (rk : bytes).
Hypothesis (Hvid : wf_id (Crypto.env_vault_id env)).

Definition owned (v : Vault) (w : World) : Prop := ∃ kv, tracks env rk kv ((v, w), tt).
Definition owned_with (o : ObjectId) (data : bytes) (v : Vault) (w : World) : Prop :=
  ∃ kv, tracks env rk kv ((v, w), tt) ∧ kv !! o = Some data.

Lemma owned_tables v : tables_only (λ s _, owned v s.1).
Proof. intros s s' svc Ew _ (kv & He & Hk & Hr). exists kv. split_and!; [done|done|]. simpl. by rewrite Ew. Qed.

Lemma direct_run_triple payload v run l :
  lenZ payload ≤ u32_max →
  triple (at_point (λ s _, owned v s.1) l) (direct_run payload v run)
    (λ v', at_point (λ s _, owned v' s.1) (l ++ run_rows "direct" (lenZ payload) run)).
Proof.
  intros Hu. rewrite run_rows_app. unfold direct_run.
  eapply triple_bind; [apply triple_random_object, owned_tables|]. intros o. apply triple_pure. intros Ho.
  eapply triple_bind; [apply triple_now|]. intros started. eapply triple_bind.
  { apply (triple_on_vault _ _ _ (λ _, owned_with o payload)). intros w a v' w' (kv & Ht) E.
    eapply (put_tracks env rk Hvid) in E as (kv' & Ht' & Hi); [|done..]. rewrite (Hi eq_refl) in Ht'.
    eexists. split; [done|]. apply lookup_insert_eq. }
  intros [x v1]. eapply triple_bind; [apply triple_elapsed|]. intros d.
  eapply triple_bind; [by apply triple_emit|]. intros []. eapply triple_bind; [apply triple_now|]. intros started2.
  eapply triple_bind.
  { apply (triple_on_vault _ _ _ (λ recovered v w, recovered = payload ∧ owned v w)). intros w a v' w' (kv & Ht & Hkv) E.
    apply (get_tracks env rk kv) in E as [Ht' Hget]; [|done]. specialize (Hget _ eq_refl). split; [congruence|]. by exists kv. }
  intros [recovered v2]. eapply triple_bind; [apply triple_elapsed|]. intros d2.
  eapply triple_bind; [by apply triple_emit|]. intros [] b r b' [[Hrec Hown] Hl] E. cbn [fst snd] in Hrec, Hown. subst recovered.
  rewrite bool_decide_eq_true_2 in E by done. by injection E as <- <-.
Qed.

End direct.

(** What creation leaves behind. *)
Lemma triple_create_vault context path l R :
  triple (at_point R l) (create_vault context path)
    (λ v b, lines b = l ∧ ∃ w, Vault.create path PASSPHRASE w = (Ok v, (b_host b).1)).
Proof.
  intros b r b' [_ Hl] E. unfold create_vault, on_host, smap_err, Backup.in_world, szoom in E.
  destruct (Vault.create path PASSPHRASE (b_host b).1) as [[v|e] w1] eqn:E1; injection E as <- <-; [|by left]. split; [done|]. by eexists.
Qed.

Lemma benchmark_direct_triple config directory l R :
  Forall (λ k, 0 ≤ k) (Options.payloads_kib config) →
  triple (at_point R l) (benchmark_direct config directory) (λ _, at_point (λ _ _, True) (l ++ mode_rows "direct" config)).
Proof.
  intros Hk. unfold benchmark_direct. eapply triple_bind; [apply triple_create_vault|]. intros v. apply triple_pull. intros b [Hl (w & E)].
  apply Refinement.create_ok in E as (rk & Hrk & _ & Hvid & _ & _ & Hr).
  exists (at_point (λ s _, owned (v_envelope v) rk v s.1) l). split.
  { split; [|done]. exists ∅. split_and!; [done|by left|done]. }
  eapply triple_bind.
  - eapply (triple_each _ (λ v1, at_point (λ s _, owned (v_envelope v) rk v1 s.1)) (payload_rows "direct" (Options.runs config))).
    intros v1 kib l1 Hin. eapply (triple_for_payload _ (λ v1, at_point (λ s _, owned (v_envelope v) rk v1 s.1))).
    + rewrite Forall_forall in Hk. by apply Hk.
    + intros payload v2 x l2 _ Hu. by apply direct_run_triple.
  - intros v1. eapply triple_bind; [by apply (triple_on_vault _ _ (owned (v_envelope v) rk) (λ _ _ _, True))|]. intros x. eapply triple_impl; [..|apply (triple_ret _ tt)]; [done|]. by intros [] b1 [_ ?].
Qed.

(** ** Requests to the daemon *)

Section rpc.
Context `{!Base64} `{!Base64Ok} `{!SqliteFile} `{!Tempfile} `{!Json BackupManifest} `{!HexCrate}.
Context `{!Json IssueRequest} `{!Json IssueResponse} `{!Json HeadRequest} `{!Json HeadResponse}.
Context `{!Json Request} `{!JsonOk Request} `{!Json Response} `{!JsonOk Response} `{!Transport Net} `{LoopbackOk T} `{!Symlinks}.

(** Only the fault schedule has moved on. *)
Definition same_tables b b' : Prop :=
  b_service b' = b_service b ∧ lines b' = lines b ∧ w_db (b_host b').1 = w_db (b_host b).1 ∧ (b_host b').2 = (b_host b).2.

Lemma on_env_same {E A} (m : M Env E A) b r b' : Bench.on_env m b = (r, b') → same_tables b b'.
Proof. unfold Bench.on_env, szoom. destruct (m _) as [r1 e1]. by intros [= <- <-]. Qed.

Lemma connect_outcome socket_path b r b' :
  Bench.connect (T:=T) socket_path b = (r, b') →
  same_tables b b' ∧ match r with Ok c => c = client_end ∧ ∃ d, b_service b = Serving d | Err e => honest e end.
Proof.
  unfold Bench.connect, sbind, sget. destruct (Bench.on_env io_fault b) as [r1 b1] eqn:E1. apply on_env_same in E1 as Hs.
  assert (∃ fault, r1 = Ok fault) as [fault ->] by (injection E1 as <- _; by eexists).
  destruct (env_fs _ !! socket_path); [|by intros [= <- <-]]. destruct (b_service b1) as [| |d|] eqn:Ed; try (by intros [= <- <-]).
  destruct fault; intros [= <- <-]; [done|]. split; [done|]. split; [done|]. exists d. destruct Hs as [Hs _]. congruence.
Qed.

(** One exchange. *)
Lemma rpc_outcome socket_path request b r b' :
  rpc (T:=T) socket_path request b = (r, b') →
  lines b' = lines b ∧
  match r with
  | Err e => honest e
  | Ok x => ∃ d w c t h' rs rd, b_service b = Serving d ∧ w_db w = w_db (b_host b).1 ∧ within request (sent c) ∧
      Daemon.serve_stream (mkHost d w (b_host b).2, accepted c) = (rs, (h', t)) ∧
      Protocol.read_frame (replied c t) = (Ok (ROk x), rd) ∧ b_service b' = Serving (h_daemon h') ∧ b_host b' = (h_world h', h_files h')
  end.
Proof.
  intros E. unfold rpc, sbind at 1 in E. destruct (Bench.connect socket_path b) as [[c0|e] b1] eqn:E1;
    apply connect_outcome in E1 as [(Hsv & Hln & Hdb & Hfi) Hc]; [|by injection E as <- <-]. destruct Hc as [-> [d Hd]].
  destruct (Protocol.write_frame request client_end) as [written c] eqn:Ew.
  apply write_frame_within in Ew as (p & Hp & Hw). rewrite client_new in Hp. simpl in Hp. subst p.
  unfold sbind at 1, serve_connection, sbind in E. destruct (Bench.on_env io_fault b1) as [r2 b2] eqn:E2.
  apply on_env_same in E2 as Hs2. destruct Hs2 as (Hsv2 & Hln2 & Hdb2 & Hfi2).
  assert (∃ fault, r2 = Ok fault) as [fault ->] by (injection E2 as <- _; by eexists). rewrite Hsv2, Hsv, Hd in E. destruct fault.
  - destruct written as [[]|e]; [|injection E as <- <-; split; [simpl; unfold lines in *; simpl; congruence|done]].
    destruct (Protocol.read_frame (reset c)) as [[x|e] rd] eqn:Er; cbn [fst] in E.
    + exfalso. apply ProtocolSpec.read_frame_ok in Er; [|apply contents_wf]. rewrite reset_contents in Er. destruct Er as (lb & body & Hn & Hl & _). by destruct lb.
    + injection E as <- <-. split; [unfold lines in *; simpl; congruence|done].
  - destruct (Daemon.serve_stream (host_of d b2, accepted c)) as [rs [h' t]] eqn:Es. unfold host_of in Es.
    assert (lines (from_host Serving h' b2) = lines b) as Hl by (unfold lines in *; simpl; congruence).
    destruct written as [[]|e]; [|by injection E as <- <-].
    destruct (Protocol.read_frame (replied c t)) as [[[x|er]|e] rd] eqn:Er; cbn [fst] in E; injection E as <- <-; (split; [done|]); try done.
    exists d, (b_host b2).1, c, t, h', rs, rd. rewrite <-Hfi, <-Hfi2. split_and!; try done. congruence.
Qed.

Section serving.
Variables (env : Crypto.RootEnvelope) (rk : bytes).
Hypothesis (Hvid : wf_id (Crypto.env_vault_id env)).

(** The daemon's vault, while there is a daemon. *)
Definition serves (kv : gmap ObjectId bytes) (s : World * Files) (svc : Service Net) : Prop :=
  match svc with
  | Starting d | Serving d => hosts env rk kv (mkHost d s.1 s.2)
  | Absent | Stopped _ => True
  end.

Lemma serves_tables kv : tables_only (serves kv).
Proof.
  intros s s' svc Ew _. destruct svc; simpl; try done; by apply hosts_tables.
Qed.

Lemma rpc_triple socket_path request kv l :
  benchmarked env rk request →
  triple (at_point (serves kv) l) (rpc (T:=T) socket_path request)
    (λ x, at_point (λ s svc, ∃ kv', answered kv request x kv' ∧ serves kv' s svc) l).
Proof.
  intros Hb b r b' [Hsv Hl] E. apply rpc_outcome in E as [Hl' Hr]. destruct r as [x|e]; [|by left].
  destruct Hr as (d & w & c & t & h' & rs & rd & Hd & Hdb & Hw & Es & Er & Hd' & Hh').
  split; [|congruence]. rewrite Hd', Hh'. simpl. rewrite Hd in Hsv. simpl in Hsv.
  assert (hosts env rk kv (mkHost d w (b_host b).2)) as Hh by (by eapply hosts_tables).
  apply (serve_within request) in Es as (resp & Hresp & Hc); [|by destruct request|eapply within_prefix; [apply accepted_contents|done]|apply accepted_new].
  apply (read_frame_within resp) in Er; [|eapply within_prefix; [apply replied_contents|done]]. subst resp.
  destruct Hc as [[_ [e He]]|Ed]; [done|]. eapply (dispatch_tracks env rk Hvid) in Ed as (kv' & Hh1 & Ha); [|done..].
  exists kv'. split; [by apply Ha|]. by destruct h'.
Qed.

Definition serving (s : World * Files) (svc : Service Net) : Prop := ∃ kv, serves kv s svc.

Lemma serving_tables : tables_only serving.
Proof. intros s s' svc Ew Ef [kv Hs]. exists kv. by eapply serves_tables. Qed.

Lemma triple_at_exists {A X} (R : X → World * Files → Service Net → Prop) l (m : M (Driver Net) BenchError A) Q :
  (∀ x, triple (at_point (R x) l) m Q) → triple (at_point (λ s svc, ∃ x, R x s svc) l) m Q.
Proof. intros Hm. apply triple_pull. intros b [[x HR] Hl]. by exists (at_point (R x) l). Qed.

Lemma parse_to_hex (o : ObjectId) : wf_id o → Daemon.parse_object_id (to_hex o) = Ok o.
Proof.
  intros Ho. pose proof Ho as [Hl Hw]. unfold Daemon.parse_object_id, to_hex.
  rewrite (bool_decide_eq_true_2 (length _ = _)) by (by rewrite length_hex_encode, Hl).
  assert (forallb is_ascii_hexdigit (hex_encode (as_bytes o)) = true) as ->.
  { pose proof (hex_encode_lower _ Hw) as Hh. rewrite forallb_forall in Hh |- *. intros c Hc. by apply Hh, andb_prop in Hc as [? _]. }
  simpl. by rewrite parse_pairs_hex_encode, from_slice_as_bytes.
Qed.

Definition holding (o : ObjectId) (data : bytes) (s : World * Files) (svc : Service Net) : Prop :=
  ∃ kv, serves kv s svc ∧ kv !! o = Some data.

Lemma rpc_put_triple socket_path o payload l :
  wf_id o → wf_bytes payload →
  triple (at_point serving l) (rpc (T:=T) socket_path (RqPut (to_hex o) (b64_encode payload))) (λ _, at_point (holding o payload) l).
Proof.
  intros Ho Hw. apply triple_at_exists. intros kv. eapply triple_impl; [done| |by apply rpc_triple]. intros x b [(kv' & Ha & Hs) Hl].
  destruct Ha as (o' & data & Hp & Hd & ->). rewrite parse_to_hex in Hp by done. rewrite b64_roundtrip in Hd by done. simplify_eq.
  split; [|done]. eexists. split; [done|]. apply lookup_insert_eq.
Qed.

Lemma rpc_get_triple socket_path o payload l :
  wf_id o →
  triple (at_point (holding o payload) l) (rpc (T:=T) socket_path (RqGet (to_hex o)))
    (λ x b, x = SPlaintext (b64_encode payload) ∧ at_point serving l b).
Proof.
  intros Ho. apply triple_at_exists. intros kv. apply triple_pull. intros b [[Hs Hkv] Hl].
  exists (at_point (serves kv) l). split; [done|]. eapply triple_impl; [done| |by apply rpc_triple]. intros x b1 [(kv' & Ha & Hs') Hl'].
  destruct Ha as (o' & data & Hp & Hd & ->). rewrite parse_to_hex in Hp by done. simplify_eq. split; [done|]. split; [by exists kv'|done].
Qed.

(** A run: what comes back is the payload. *)
Lemma rpc_run_triple socket_path payload u run l :
  wf_bytes payload → lenZ payload ≤ u32_max →
  triple (at_point serving l) (rpc_run (T:=T) socket_path payload u run)
    (λ _, at_point serving (l ++ run_rows "rpc" (lenZ payload) run)).
Proof.
  intros Hw Hu. rewrite run_rows_app. unfold rpc_run.
  eapply triple_bind; [apply triple_random_object, serving_tables|]. intros o. apply triple_pure. intros Ho.
  eapply triple_bind; [apply triple_now|]. intros started.
  eapply triple_bind; [by apply rpc_put_triple|]. intros x.
  eapply triple_bind; [apply triple_lift; by destruct x; intros e [= <-]|]. intros []. apply triple_pure. intros _.
  eapply triple_bind; [apply triple_elapsed|]. intros d.
  eapply triple_bind; [by apply triple_emit|]. intros []. eapply triple_bind; [apply triple_now|]. intros started2.
  eapply triple_bind; [by apply rpc_get_triple|]. intros y. apply triple_pure. intros ->.
  eapply triple_bind; [apply triple_lift; simpl; by rewrite b64_roundtrip|]. simpl. intros recovered. apply triple_pure.
  rewrite b64_roundtrip by done. intros [= <-].
  eapply triple_bind; [apply triple_elapsed|]. intros d2. eapply triple_bind; [by apply triple_emit|]. intros [].
  rewrite bool_decide_eq_true_2 by done. eapply triple_impl; [done| |apply triple_ret]. by intros [] b [_ ?].
Qed.

Lemma measure_triple socket_path config l :
  Forall (λ k, 0 ≤ k) (Options.payloads_kib config) → Crypto.open_root_key PASSPHRASE env = Ok rk →
  triple (at_point serving l) (measure (T:=T) config socket_path) (λ _, at_point serving (l ++ mode_rows "rpc" config)).
Proof.
  intros Hk Hp. unfold measure. eapply (triple_bind _ _ _ (λ _, at_point serving l)).
  { apply triple_at_exists. intros kv. eapply triple_impl; [done| |by apply rpc_triple]. intros x b [(kv' & _ & Hs) Hl]. split; [by exists kv'|done]. }
  intros x. eapply triple_bind; [apply triple_lift; by destruct x; intros e [= <-]|]. intros []. apply triple_pure. intros _.
  apply (triple_each _ (λ _, at_point serving) (payload_rows "rpc" (Options.runs config))). intros v kib l1 Hin.
  apply (triple_for_payload _ (λ _, at_point serving)); [rewrite Forall_forall in Hk; by apply Hk|].
  intros payload v2 x2 l2 ? Hu. by apply rpc_run_triple.
Qed.

End serving.

(** ** The daemon's thread *)

(** There is a vault that the passphrase of the benchmark opens. *)
Definition prepared l b : Prop :=
  ∃ env rk, wf_id (Crypto.env_vault_id env) ∧ Crypto.open_root_key PASSPHRASE env = Ok rk ∧ at_point (serving env rk) l b.

Lemma prepared_same l b b' : same_tables b b' → prepared l b → prepared l b'.
Proof.
  intros (Hs & Hl & Hdb & Hf) (env & rk & ? & ? & HS & <-). exists env, rk. split_and!; [done|done|]. split; [|done].
  rewrite Hs. by eapply (serving_tables env rk (b_host b)).
Qed.

Lemma open_daemon_triple uid agent socket_path vault_path l R :
  triple (at_point R l) (open_daemon uid agent socket_path vault_path) (λ _, prepared l).
Proof.
  unfold open_daemon. eapply triple_bind; [apply triple_create_vault|]. intros v b r b' [Hl (w & Ec)] E. unfold sbind at 1 in E.
  unfold Bench.on_host, smap_err, Backup.in_world, szoom in E. destruct (Daemon.open _ _ (b_host b).1) as [[d|e] w1] eqn:E1; injection E as <- <-; [|by left].
  unfold Daemon.open in E1. destruct (_ || _) in E1; [done|].
  sbind_step E1. sbind_step E1. injection E0 as <- <-. injection E1 as <- <-. rename a into v', s into w2, E into Eo.
  destruct (Lifecycle.create_envelope _ _ _ _ _ Ec) as [Hwe Hm]. apply Refinement.create_ok in Ec as (rk & Hrk & _ & Hvid & Hopen & _ & Hr).
  apply Lifecycle.open_ok in Eo as (_ & Hn & Hdb & _ & row & Hrow & Henv). rewrite Hm in Hrow. injection Hrow as <-.
  rewrite (Lifecycle.envelope_of_meta_of_envelope _ Hwe) in Henv. injection Henv as Henv.
  exists (v_envelope v), rk. split_and!; [done|done|]. split; [|done]. exists ∅. split; [done|]. split_and!; [done|by right|]. simpl. by rewrite Hdb.
Qed.

Lemma listen_prepared l b : prepared l b → prepared l (listen (T:=T) b).
Proof.
  unfold listen. destruct (b_service b) as [|d|d|] eqn:Ed; try done. intros (env & rk & ? & ? & [kv HS] & Hl). rewrite Ed in HS. simpl in HS.
  unfold Server.serve, Server.on_env. destruct (Server.listen _ _) as [[[]|e] env1]; exists env, rk; (split_and!; [done|done|]); (split; [|done]); exists kv; [|done].
  simpl. by eapply (hosts_tables _ _ _ _ (b_host b).1).
Qed.

Lemma path_exists_same path b r b' : Bench.path_exists (T:=T) path b = (r, b') → same_tables b b' ∧ ∃ found, r = Ok found.
Proof. intros E. unfold Bench.path_exists, smap_err, szoom, Cli.path_exists, Cli.on_env, sbind in E. by injection E as <- <-; split; [|eexists]. Qed.

(** The deadline is at most [fuel] intervals away. *)
Definition patient l (deadline : Z) (fuel : nat) b : Prop := prepared l b ∧ deadline ≤ b_now b + INTERVAL * Z.of_nat fuel.

Lemma listen_now b : b_now (listen (T:=T) b) = b_now b.
Proof. unfold listen. destruct (b_service b); try done. by destruct (Server.serve _) as [[]]. Qed.

Lemma listen_lines b : lines (listen (T:=T) b) = lines b.
Proof. unfold listen. destruct (b_service b); try done. by destruct (Server.serve _) as [[]]. Qed.

Lemma listen_started b d : b_service (listen (T:=T) b) ≠ Starting d.
Proof. unfold listen. destruct (b_service b) eqn:E; try congruence. by destruct (Server.serve _) as [[]]. Qed.

(** The loop ends when its deadline has passed. *)
Lemma poll_triple fuel socket_path deadline polls l :
  triple (patient l deadline fuel) (poll (T:=T) fuel socket_path deadline polls) (λ _, prepared l).
Proof.
  assert (0 < INTERVAL) as Hpos by done. revert polls. induction fuel as [|fuel IH]; intros polls; cbn [poll].
  all: eapply (triple_bind _ _ _ (λ _, patient l deadline _));
    [intros b r b' [HP Hn] [= <- <-]; case_match; [split; [by apply listen_prepared|by rewrite listen_now]|done]|]; intros [].
  all: eapply (triple_bind _ _ _ (λ _, patient l deadline _));
    [intros b r b' [HP Hn] E; assert (b_now b' = b_now b) as Hn' by (by injection E as _ <-); apply path_exists_same in E as [? [found ->]];
     split; [by eapply prepared_same|by rewrite Hn']|].
  all: intros found; destruct found; [eapply triple_impl; [done| |apply triple_ret]; by intros [] b [_ [? _]]|].
  all: eapply (triple_bind _ _ _ (λ time b, patient l deadline _ b ∧ time = b_now b));
    [intros b r b' [HP Hn] [= <- <-]; split; [split; [by eapply prepared_same|etrans; [exact Hn|]; apply Z.add_le_mono_r; simpl; lia]|done]|]; intros time.
  all: destruct (Z.leb_spec deadline time); [by apply triple_throw|].
  - intros b r b' [[HP Hn] ->] E. lia.
  - eapply (triple_bind _ _ _ (λ _, patient l deadline fuel)); [|intros []; apply IH].
    intros b r b' [[HP Hn] ->] [= <- <-]. split; [by eapply prepared_same|]. cbn [b_now]. lia.
Qed.

Lemma wait_triple socket_path l : triple (prepared l) (wait_for_socket (T:=T) socket_path) (λ _, prepared l).
Proof.
  unfold wait_for_socket. eapply (triple_bind _ _ _ (λ time b, patient l (time + DEADLINE) POLLS b)); [|intros time; apply poll_triple].
  intros b r b' HP [= <- <-]. split; [by eapply prepared_same|]. done.
Qed.

Lemma measure_prepared socket_path config l :
  Forall (λ k, 0 ≤ k) (Options.payloads_kib config) →
  triple (prepared l) (measure (T:=T) config socket_path) (λ _ b, lines b = l ++ mode_rows "rpc" config).
Proof.
  intros Hk. apply triple_pull. intros b (env & rk & Hv & Hp & HI). exists (at_point (serving env rk) l). split; [done|].
  eapply triple_impl; [done| |by eapply measure_triple]. by intros a b1 [_ ?].
Qed.

Lemma shut_down_triple socket_path l : triple (λ b, lines b = l) (shut_down (T:=T) socket_path) (λ _ b, lines b = l).
Proof.
  unfold shut_down. eapply (triple_bind _ _ _ (λ _ b, lines b = l)).
  - intros b r b' Hl E. apply rpc_outcome in E as [Hl' Hr]. destruct r; [congruence|by left].
  - intros x. eapply triple_impl; [|..|apply (triple_lift (λ b, lines b = l)); by destruct x; intros e [= <-]]; [done|]. by intros a b [_ ?].
Qed.

Lemma kept_triple {A} P (m : M (Driver Net) BenchError A) Q :
  triple P m Q → triple P (kept m) (λ r b, match r with Ok a => Q a b | Err e => honest e end).
Proof.
  intros Hm b r b' HP E. unfold kept in E. destruct (m b) as [[a|e] b1] eqn:E1; specialize (Hm _ _ _ HP E1); simpl in Hm; [by injection E as <- <-|].
  destruct (unwinds e) eqn:Eu; injection E as <- <-; [done|]. by destruct Hm as [?|[-> _]].
Qed.

Lemma benchmark_rpc_triple uid agent config directory l R :
  Forall (λ k, 0 ≤ k) (Options.payloads_kib config) →
  triple (at_point R l) (benchmark_rpc (T:=T) uid agent config directory) (λ _ b, lines b = l ++ mode_rows "rpc" config).
Proof.
  intros Hk. unfold benchmark_rpc. eapply triple_bind; [apply open_daemon_triple|]. intros [].
  eapply triple_bind; [apply wait_triple|]. intros []. eapply triple_bind; [by apply kept_triple, measure_prepared|]. intros measurement.
  set (l' := l ++ mode_rows "rpc" config).
  eapply (triple_bind _ _ _ (λ shutdown b, match measurement, shutdown with Ok _, Ok _ => lines b = l' | Err e, _ | _, Err e => honest e end)).
  { destruct measurement as [[]|e].
    - eapply triple_impl; [|..|apply kept_triple, (shut_down_triple _ l')]; [done|]. by intros [[]|e] b Hb.
    - apply triple_pull. intros b Hb. exists (λ b1, lines b1 = lines b). split; [done|].
      eapply triple_impl; [|..|apply kept_triple, (shut_down_triple _ (lines b))]; [done|]. by intros [] b1 _. }
  intros shutdown.
  eapply (triple_bind _ _ _ (λ _ b, match measurement, shutdown with Ok _, Ok _ => lines b = l' | Err e, _ | _, Err e => honest e end)).
  { intros b r b' HP E. unfold join_server in E. cbv zeta in E. rewrite <-listen_lines in HP.
    destruct (b_service (listen b)) as [|d|d|r0] eqn:Ed; [by injection E as <- <-| | |by injection E as <- <-].
    { by destruct (listen_started b d). }
    destruct (ds_shutdown d) eqn:Es; [|injection E as <- <-; right; split; [done|]; by exists d]. destruct (Server.on_env _ _) as [r0 h]. by injection E as <- <-. }
  intros server_result b r b' HP E. destruct measurement as [[]|e]; [|by injection E as <- <-; left].
  destruct shutdown as [[]|e]; [|by injection E as <- <-; left]. by destruct server_result; injection E as <- <-; [|left].
Qed.

Lemma run_triple uid agent config directory l :
  Forall (λ k, 0 ≤ k) (Options.payloads_kib config) →
  triple (λ b, lines b = l) (run (T:=T) uid agent config directory) (λ _ b, lines b = l ++ expected config).
Proof.
  intros Hk. unfold run, expected. eapply (triple_bind _ _ _ (λ _, at_point (λ _ _, True) (l ++ [Header]))).
  { eapply triple_impl; [|..|apply (triple_println (λ _ _, True) l)]; done. }
  intros []. rewrite (assoc_L (++) l [Header]).
  set (rows := if Options.includes_direct (Options.mode config) then mode_rows "direct" config else []).
  eapply (triple_bind _ _ _ (λ _, at_point (λ _ _, True) ((l ++ [Header]) ++ rows))).
  { unfold rows. destruct (Options.includes_direct _); [by apply benchmark_direct_triple|].
    rewrite app_nil_r. eapply triple_impl; [done| |apply triple_ret]. by intros [] b [_ ?]. }
  intros []. rewrite (assoc_L (++)). destruct (Options.includes_rpc _); [by eapply benchmark_rpc_triple|].
  rewrite app_nil_r. eapply triple_impl; [done| |apply triple_ret]. intros [] b [_ Hb]. by destruct Hb.
Qed.

(** ** The whole program *)

Lemma parse_honest arguments e : Options.parse arguments = Err e → honest e.
Proof.
  unfold Options.parse. generalize (Options.mkConfig [4; 64; 1024; 4096] 5 Options.Both) as config.
  remember (length arguments) as n eqn:Hn. revert arguments Hn. induction (lt_wf n) as [n _ IH].
  intros [|a arguments] -> config; cbn [Options.parse_from]; [unfold Options.finish; by destruct (_ || _); intros [= <-]|].
  assert (∀ v rest c, arguments = v :: rest → Options.parse_from c rest = Err e → honest e) as Hrec.
  { intros v rest c ->. eapply (IH (length rest)); [simpl; lia|done]. }
  unfold Options.missing, Options.parse_payloads, Options.parse_mode, rbind, ok_or.
  repeat case_match; intros E; simplify_eq; try done; by eapply Hrec.
Qed.

Lemma triple_on_host {A} f (m : BIO A) l :
  (∀ e, honest (f e)) → triple (λ b, lines b = l) (Bench.on_host f m) (λ a b, lines b = l ∧ ∃ s, m s = (Ok a, b_host b)).
Proof.
  intros Hf b r b' Hl E. unfold Bench.on_host, smap_err, szoom in E. destruct (m (b_host b)) as [[a|e] s1] eqn:E1; injection E as <- <-.
  - split; [done|]. by eexists.
  - left. apply Hf.
Qed.

Lemma remove_file_ok path (s s' : World * Files) :
  Backup.remove_file path s = (Ok tt, s') → env_fs (w_env s'.1) = delete path (env_fs (w_env s.1)).
Proof.
  destruct s as [w files]. unfold Backup.remove_file, Backup.syscall, sbind. cbn.
  destruct (env_faults _ _); [done|]. cbn. destruct (env_fs (w_env w) !! path); [|done]. cbn. by intros [= <-].
Qed.

Lemma remove_each_ok paths (s s' : World * Files) q :
  remove_each paths s = (Ok tt, s') → env_fs (w_env s'.1) !! q = if decide (q ∈ paths) then None else env_fs (w_env s.1) !! q.
Proof.
  revert s. induction paths as [|p paths IH]; intros s; cbn [remove_each].
  - intros [= <-]. by rewrite decide_False by apply not_elem_of_nil.
  - intros ([] & s1 & E1%remove_file_ok & E2)%sbind_ok. rewrite (IH _ E2), E1. destruct (decide (q ∈ paths)) as [Hq|Hq].
    + by rewrite decide_True by (by right).
    + destruct (decide (q = p)) as [-> |Hne]; [rewrite decide_True by left; by rewrite lookup_delete_eq|].
      rewrite decide_False by (rewrite elem_of_cons; by intros [?|?]). by rewrite lookup_delete_ne.
Qed.

(** A removed directory is gone with everything below it, and nothing else is;
    a symbolic link is removed alone. *)
Lemma remove_dir_all_ok directory (s s' : World * Files) :
  remove_dir_all directory s = (Ok tt, s') →
  ∃ md, env_fs (w_env s.1) !! directory = Some md ∧
    ∀ q, env_fs (w_env s'.1) !! q =
      if decide (q = directory ∨ is_symlink md = false ∧ is_below directory q = true) then None else env_fs (w_env s.1) !! q.
Proof.
  unfold remove_dir_all. intros (md & s1 & E1 & E)%sbind_ok. exists md.
  assert (env_fs (w_env s1.1) = env_fs (w_env s.1) ∧ env_fs (w_env s.1) !! directory = Some md) as [Hfs Hmd].
  { destruct s as [w files]. unfold Backup.in_fs, Backup.in_world, in_env, szoom, smap_err in E1. cbn [fst] in E1.
    destruct (symlink_metadata directory (w_env w)) as [[md'|k] e1] eqn:Em; [|done]. injection E1 as -> <-.
    apply PrivateFile.symlink_metadata_ok in Em as [? ?]. done. }
  split; [done|]. intros q. rewrite <-Hfs. destruct (is_symlink md).
  { apply remove_file_ok in E as ->. destruct (decide (q = directory)) as [-> |Hq].
    - rewrite decide_True by (by left). apply lookup_delete_eq.
    - rewrite decide_False by (by intros [?|[? _]]). by rewrite lookup_delete_ne. }
  destruct (negb _); [done|]. apply sbind_ok in E as (s2 & s3 & E2 & E). injection E2 as <- <-. rewrite (remove_each_ok _ _ _ q E).
  set (fs := env_fs (w_env s1.1)) in *. destruct (fs !! q) as [mq|] eqn:Eq; [|by case_decide; case_decide].
  apply decide_ext. unfold entries_below. rewrite elem_of_app, list_elem_of_singleton, merge_sort_Permutation, list_elem_of_filter.
  assert (q ∈ map fst (map_to_list fs)) as Hin by (apply list_elem_of_fmap; exists (q, mq); split; [done|by apply elem_of_map_to_list]).
  naive_solver.
Qed.

(** A shutdown request that is lost leaves the benchmark waiting for ever.
    Suppose the daemon has been started and the measurement is over, with any
    result, and the connection for the shutdown request fails.  The driver joins
    the daemon's thread all the same before it looks at its results; the thread
    is still in its accept loop, so [benchmark_rpc] does not return: no result is
    reported and the temporary directory with the daemon's socket stays. *)
Lemma lost_shutdown_blocks uid agent config directory b b1 b2 b3 measurement d :
  open_daemon uid agent (join directory "vlt1-bench.sock") (join directory "rpc.vlt.sqlite") b = (Ok tt, b1) →
  wait_for_socket (T:=T) (join directory "vlt1-bench.sock") b1 = (Ok tt, b2) →
  kept (measure (T:=T) config (join directory "vlt1-bench.sock")) b2 = (Ok measurement, b3) →
  b_service b3 = Serving d → ds_shutdown d = false → env_faults (w_env (b_host b3).1) (env_tick (w_env (b_host b3).1)) = true →
  ∃ b', benchmark_rpc (T:=T) uid agent config directory b = (Err Blocks, b') ∧ stuck b'.
Proof.
  intros E1 E2 E3 Hd Hs Hf. unfold benchmark_rpc. rewrite (sbind_eq _ _ _ _ _ E1), (sbind_eq _ _ _ _ _ E2), (sbind_eq _ _ _ _ _ E3).
  assert (∃ e b4, kept (shut_down (T:=T) (join directory "vlt1-bench.sock")) b3 = (Ok (Err e), b4) ∧ b_service b4 = Serving d) as (e & b4 & E4 & Hd4).
  { unfold kept, shut_down, rpc, Bench.connect, sbind, Bench.on_env, szoom, io_fault, sget. rewrite Hf.
    cbn [b_service set_host]. rewrite Hd. destruct (_ !! _); by eexists _, _. }
  rewrite (sbind_eq _ _ _ _ _ E4). unfold sbind at 1, join_server, listen. rewrite Hd4. cbv zeta. rewrite Hd4, Hs. exists b4. split; [done|]. by exists d.
Qed.

Context `{!Links}.

(** The part of [main] that has a directory. *)
Lemma in_directory_triple around agent config directory l :
  Forall (λ k, 0 ≤ k) (Options.payloads_kib config) →
  triple (λ b, lines b = l)
    (smap_err (λ _, Because None CauseIo) (Bench.on_env (create_dir_all (directory_mode around) directory)) ;*
     let* result := kept (run (T:=T) (current_uid around) agent config directory) in
     Bench.on_host (λ _, Because (Some [PText "could not remove benchmark temporary directory"]) CauseIo) (remove_dir_all directory) ;*
     returned result)
    (λ _ b, lines b = l ++ expected config ∧ env_fs (w_env (b_host b).1) !! directory = None).
Proof.
  intros Hk. eapply (triple_bind _ _ _ (λ _ b, lines b = l)).
  { intros b r b' Hl E. unfold smap_err in E. destruct (Bench.on_env _ b) as [[[]|e] b1] eqn:E1; apply on_env_same in E1 as (_ & Hl1 & _);
      injection E as <- <-; [congruence|by left]. }
  intros []. eapply triple_bind; [by apply kept_triple, run_triple|]. intros result. apply triple_pull. intros b Hb.
  exists (λ b1, lines b1 = lines b). split; [done|]. eapply triple_bind; [by apply triple_on_host|]. intros [].
  intros b1 r1 b2 [Hl (s & Er)] [= <- <-]. destruct result as [[]|e]; [|by left]. split; [congruence|].
  apply remove_dir_all_ok in Er as (md & _ & Hq). rewrite Hq. by rewrite decide_True by (by left).
Qed.

(** C23: the benchmark reports what it measured.  Whatever the options, the disk
    and the connections do, and when the clock is not before the epoch, [vlt1-bench] never says that a round trip,
    direct or through a daemon, brought back other bytes than it stored, and its
    conversions never panic.  When it succeeds it has printed the header and, for
    every payload and run in order, a line for the publication and one for the
    read, each with the number of bytes moved, and its directory is gone (or it
    was asked for the usage).  The only way not to return is a daemon that was
    never told to stop: the wait for the socket and every exchange end. *)
Theorem benchmark_reports around nonce agent arguments b r b' :
  since_epoch around = Some nonce → main (T:=T) around agent arguments b = (r, b') →
  match r with
  | Ok _ => Options.parse arguments = Ok Options.Usage ∧ lines b' = lines b ++ [UsageText] ∨
      ∃ config directory, Options.parse arguments = Ok (Options.Run config) ∧ benchmark_directory around = Ok directory ∧
        lines b' = lines b ++ expected config ∧ env_fs (w_env (b_host b').1) !! directory = None
  | Err e => honest e ∨ e = Blocks ∧ stuck b'
  end.
Proof.
  intros Hnonce E. set (l := lines b). refine ((_ : triple (λ b, lines b = l) (main (T:=T) around agent arguments) (λ _ b',
    Options.parse arguments = Ok Options.Usage ∧ lines b' = l ++ [UsageText] ∨
    ∃ config directory, Options.parse arguments = Ok (Options.Run config) ∧ benchmark_directory around = Ok directory ∧
      lines b' = l ++ expected config ∧ env_fs (w_env (b_host b').1) !! directory = None)) b r b' eq_refl E).
  unfold main. eapply triple_bind; [apply triple_lift, parse_honest|]. intros parsed. apply triple_pure. intros Hparse. destruct parsed as [|config].
  { eapply triple_impl; [| |apply (triple_println (λ _ _, True) l)]; [done|]. intros [] b1 [_ Hl]. by left. }
  eapply triple_bind; [apply triple_lift; unfold benchmark_directory; by rewrite Hnonce|]. intros directory. apply triple_pure. intros Hdir.
  eapply triple_impl; [| |apply (in_directory_triple _ _ _ _ l)]; [done|..].
  - intros [] b1 [Hl Hfs]. right. by exists config, directory.
  - apply OptionsSpec.parse_valid in Hparse as (_ & Hk & _). eapply Forall_impl; [exact Hk|]. simpl. lia.
Qed.

End rpc.
End host.
End driver.
End BenchSpec.
