(* ===== verification/StartupSpec.v ===== *)
(** * What start-up guarantees

    Properties of [Startup]: which secrets a process accepts, what a trust
    configuration consists of, and when a daemon and a witness that were set up
    separately work together. *)

From S2P Require Import Prelude Format Crypto Fs Storage Vault Witness WitnessService Https Backup Protocol Daemon Cli Utf8 Startup.
From S2P Require Import StorageSpec Lifecycle.
From Stdlib Require Import ZArith Lia.
From stdpp Require Import base numbers list gmap strings.

Open Scope Z_scope.
Open Scope vlt_scope.

Module StartupSpec.
Import Secrets.

Section files.
Context `{Links}.

Lemma reading_cases {A} what path (f : gmap Path Metadata → Files → option A) s r s' :
  reading what path f s = (r, s') →
  same_files s s' ∧
  (r = Err (Caused (Some [PText what; PPath path]) ByIo) ∨ ∃ a, r = Ok a ∧ f (env_fs s.1) s.2 = Some a).
Proof.
  destruct s as [e files]. unfold reading, sbind, szoom, io_fault, sgets. cbn [fst snd env_fs].
  destruct (f _ files) as [a|] eqn:E; [destruct (env_faults e (env_tick e))|]; unfold cannot, sthrow, sret;
    intros [= <- <-]; (split; [done|]); eauto.
Qed.

Lemma reading_quiet {A} what path (f : gmap Path Metadata → Files → option A) s a :
  PrivateFile.quiet s.1 → f (env_fs s.1) s.2 = Some a → ∃ s', reading what path f s = (Ok a, s') ∧ same_files s s'.
Proof.
  destruct s as [e files]. intros Hq Hf. unfold reading, sbind, szoom, io_fault, sgets. cbn [fst snd env_fs] in *.
  rewrite Hf, Hq. eexists. split; [done|]. done.
Qed.

Lemma same_files_quiet s s' : same_files s s' → PrivateFile.quiet s.1 → PrivateFile.quiet s'.1.
Proof. intros (_ & Hf & _) Hq n. by rewrite Hf. Qed.

Lemma same_files_secret s s' path content : same_files s s' → private_secret s' path content ↔ private_secret s path content.
Proof. intros (Hfs & _ & _ & Hf). unfold private_secret. by rewrite Hfs, Hf. Qed.

(** The metadata a secret must have. *)
Definition closed_at (s : Env * Files) (path : Path) : Prop :=
  ∃ q md, resolve (env_fs s.1) path = Some q ∧ env_fs s.1 !! q = Some md ∧ file_type md = FRegular ∧ Z.land (mode md) 0x3f = 0.

Lemma metadata_ok path s md s' :
  metadata path s = (Ok md, s') → same_files s s' ∧ ∃ q, resolve (env_fs s.1) path = Some q ∧ env_fs s.1 !! q = Some md.
Proof.
  intros E. apply reading_cases in E as [Hs [?|(a & [= <-] & E)]]; [done|]. split; [done|].
  apply bind_Some in E as (q & Hq & E). eauto.
Qed.

Lemma check_secret_ok path s s' : check_secret path s = (Ok tt, s') → same_files s s' ∧ closed_at s path.
Proof.
  unfold check_secret. intros E. sbind_step E. apply metadata_ok in E0 as (Hs & q & Hq & Hl).
  destruct (is_file a) eqn:Ef; [|done]. simpl in E. destruct (_ =? 0) eqn:Em; [|done]. injection E as <-.
  split; [done|]. exists q, a. apply bool_decide_eq_true in Ef. apply Z.eqb_eq in Em. done.
Qed.

Lemma read_ok path s content s' :
  read path s = (Ok content, s') → closed_at s path → same_files s s' ∧ private_secret s path content.
Proof.
  intros E (q & md & Hq & Hl & Ht & Hm). apply reading_cases in E as [Hs [?|(a & [= <-] & E)]]; [done|]. split; [done|].
  apply bind_Some in E as (q' & Hq' & E). exists q, md. rewrite Hq in Hq'. injection Hq' as <-. done.
Qed.

Lemma read_to_string_ok path s content s' :
  read_to_string path s = (Ok content, s') → closed_at s path →
  same_files s s' ∧ private_secret s path content ∧ Utf8.is_utf8 content = true.
Proof.
  intros E (q & md & Hq & Hl & Ht & Hm). apply reading_cases in E as [Hs [?|(a & [= <-] & E)]]; [done|]. split; [done|].
  apply bind_Some in E as (q' & Hq' & E). apply bind_Some in E as (c & Hc & E). rewrite Hq in Hq'. injection Hq' as <-.
  destruct (Utf8.is_utf8 c) eqn:Eu; [|done]. injection E as <-. split; [|done]. by exists q, md.
Qed.

(** The contents a path leads to are unique. *)
Lemma private_secret_unique s path c c' : private_secret s path c → private_secret s path c' → c = c'.
Proof. intros (q & md & Hq & _ & Hc & _) (q' & md' & Hq' & _ & Hc' & _). congruence. Qed.

Lemma daemon_secret_ok path s value s' :
  DaemonProcess.read_secret path s = (Ok value, s') →
  same_files s s' ∧ ∃ content, private_secret s path content ∧ Utf8.is_utf8 content = true ∧ value = Utf8.trim content ∧ value ≠ [].
Proof.
  unfold DaemonProcess.read_secret. intros E. sbind_step E. destruct a. apply check_secret_ok in E0 as [Hs Hc].
  sbind_step E. assert (closed_at s0 path) as Hc0 by (destruct Hs as (Hf & _); unfold closed_at; by rewrite Hf).
  apply read_to_string_ok in E0 as (Hs1 & Hp & Hu); [|done]. case_bool_decide as Hne; [done|]. injection E as <- <-.
  split; [by etrans|]. exists a. split_and!; [|done..]. by apply (same_files_secret s s0).
Qed.

Lemma daemon_secret_quiet path s content :
  PrivateFile.quiet s.1 → private_secret s path content → Utf8.is_utf8 content = true → Utf8.trim content ≠ [] →
  ∃ s', DaemonProcess.read_secret path s = (Ok (Utf8.trim content), s') ∧ same_files s s'.
Proof.
  intros Hq (q & md & Hl & Hm & Hc & Ht & Hp) Hu Hne.
  destruct (reading_quiet "cannot stat " path (λ fs _, q ← resolve fs path; fs !! q) s md Hq) as (s1 & E1 & S1).
  { by rewrite Hl. }
  destruct (reading_quiet "cannot read " path (λ fs files, q ← resolve fs path; content ← files !! q;
    if Utf8.is_utf8 content then Some content else None) s1 content) as (s2 & E2 & S2).
  { by eapply same_files_quiet. } { destruct S1 as (Hf & _ & _ & Hf'). rewrite Hf, Hl. simpl. rewrite Hf', Hc. simpl. by rewrite Hu. }
  exists s2. split; [|by etrans]. unfold DaemonProcess.read_secret, check_secret, metadata, read_to_string.
  rewrite (sbind_eq _ _ s tt s1).
  2: { rewrite (sbind_eq _ _ s md s1) by done. unfold is_file. rewrite bool_decide_eq_true_2 by done. simpl. by rewrite Hp. }
  rewrite (sbind_eq _ _ s1 content s2) by done. by rewrite bool_decide_eq_false_2.
Qed.

Lemma witness_secret_ok path s content s' :
  WitnessProcess.read_secret path s = (Ok content, s') → same_files s s' ∧ private_secret s path content.
Proof.
  unfold WitnessProcess.read_secret. intros E. sbind_step E. destruct a. apply check_secret_ok in E0 as [Hs Hc].
  assert (closed_at s0 path) as Hc0 by (destruct Hs as (Hf & _); unfold closed_at; by rewrite Hf).
  apply read_ok in E as [Hs1 Hp]; [|done]. split; [by etrans|]. by apply (same_files_secret s s0).
Qed.

Lemma witness_fixed_secret_ok n path s content s' :
  WitnessProcess.read_fixed_secret n path s = (Ok content, s') →
  same_files s s' ∧ private_secret s path content ∧ length content = n.
Proof.
  unfold WitnessProcess.read_fixed_secret. intros E. sbind_step E. apply witness_secret_ok in E0 as [Hs Hp].
  unfold slift in E. destruct (fixed_array n a) eqn:Ef; [|done]. simpl in E. injection E as <- <-.
  apply fixed_array_some in Ef as [-> Hn]. done.
Qed.

(** *** Keys *)

Lemma parse_hex32_ok value key :
  DaemonProcess.parse_hex32 value = Ok key → hex_encode key = value ∧ length key = 32%nat ∧ wf_bytes key.
Proof.
  unfold DaemonProcess.parse_hex32. intros E. step_ok E. apply orb_false_iff in E0 as [E1 E2]. apply negb_false_iff in E1, E2.
  apply bool_decide_eq_true in E1. destruct (parse_pairs_lower 32 value E1 E2) as (bs & Hp & ? & ? & ?).
  rewrite Hp in E. simpl in E. by injection E as <-.
Qed.

Lemma parse_hex32_encode key : wf_bytes key → length key = 32%nat → DaemonProcess.parse_hex32 (hex_encode key) = Ok key.
Proof.
  intros Hw Hl. unfold DaemonProcess.parse_hex32. rewrite bool_decide_eq_true_2 by (rewrite length_hex_encode; lia).
  rewrite hex_encode_lower by done. simpl. by rewrite parse_pairs_hex_encode.
Qed.

Lemma read_key_ok path s key s' :
  DaemonProcess.read_key path s = (Ok key, s') →
  same_files s s' ∧ length key = 32%nat ∧ wf_bytes key ∧
  ∃ content, private_secret s path content ∧ hex_encode key = Utf8.trim content.
Proof.
  unfold DaemonProcess.read_key. intros E. sbind_step E. apply daemon_secret_ok in E0 as (Hs & content & Hp & Hu & -> & _).
  unfold slift in E. rewrite Utf8.trim_idem in E by done. injection E as E <-. apply parse_hex32_ok in E as (? & ? & ?).
  split_and!; [done..|]. by exists content.
Qed.

Lemma hex_encode_trimmed bs : wf_bytes bs → Utf8.trimmed (hex_encode bs).
Proof.
  intros Hw. assert (Forall (λ c, (48 ≤ c ≤ 57 ∨ 97 ≤ c ≤ 102)) (hex_encode bs)) as Hd.
  { induction Hw as [|b bs Hb _ IH]; [constructor|]. cbn [hex_encode hex_byte app].
    destruct (byte_nibbles b Hb) as (H1 & H2 & _). unfold hex_digit.
    constructor; [|constructor; [|done]]; case_match; lia. }
  apply Utf8.trimmed_ascii; eapply Forall_impl; try exact Hd; intros c Hc; simpl in Hc.
  - unfold Utf8.between. lia.
  - unfold Utf8.is_whitespace. apply bool_decide_eq_false. intros Hx%list_elem_of_In. simpl in Hx.
    repeat destruct Hx as [Hx|Hx]; try discriminate; try (injection Hx as Hx; lia); done.
Qed.

(** A file that holds the key's line, padded as one likes. *)
Lemma read_key_quiet path s key pre post :
  PrivateFile.quiet s.1 → wf_bytes key → length key = 32%nat → Utf8.blank pre → Utf8.blank post →
  private_secret s path (pre ++ hex_encode key ++ post) →
  ∃ s', DaemonProcess.read_key path s = (Ok key, s') ∧ same_files s s'.
Proof.
  intros Hq Hw Hl Hpre Hpost Hs. pose proof (hex_encode_trimmed key Hw) as Ht.
  pose proof (Utf8.trim_padded pre post _ Hpre Hpost Ht) as Et.
  destruct (daemon_secret_quiet path s _ Hq Hs) as (s' & E & Hsf).
  { apply Utf8.is_utf8_app; [apply Hpre|]. apply Utf8.is_utf8_app; [apply Ht|apply Hpost]. }
  { rewrite Et. intros Hn. apply (f_equal length) in Hn. rewrite length_hex_encode in Hn. simpl in Hn. lia. }
  rewrite Et in E. exists s'. split; [|done]. unfold DaemonProcess.read_key. rewrite (sbind_eq _ _ _ _ _ E). unfold slift.
  by rewrite Utf8.trim_trimmed, parse_hex32_encode.
Qed.

(** A key pinned by a file: the only one its text spells. *)
Definition pinned (s : Env * Files) (path : Path) (key : bytes) : Prop :=
  length key = 32%nat ∧ wf_bytes key ∧ ∃ content, private_secret s path content ∧ hex_encode key = Utf8.trim content.

Lemma read_key_pinned path s key s' : DaemonProcess.read_key path s = (Ok key, s') → same_files s s' ∧ pinned s path key.
Proof. intros E. apply read_key_ok in E as (? & ? & ? & ?). done. Qed.

Lemma pinned_same s s' path key : same_files s s' → pinned s' path key → pinned s path key.
Proof. intros Hs (? & ? & c & Hc & ?). split_and!; [done..|]. exists c. by rewrite <-(same_files_secret s s'). Qed.

(** What the witness options of the command line give, as the files they name
    stand in [s]: no witness when none was given, otherwise a token that is not
    empty, a primary key and perhaps a different previous key, each spelled by a
    regular file that neither group nor others can access. *)
Definition options_give (s : Env * Files) (endpoint : option bytes) (token_file key_file previous_file : option Path)
    (r : option WitnessConfig) : Prop :=
  match r with
  | None => endpoint = None ∧ token_file = None ∧ key_file = None ∧ previous_file = None
  | Some wc =>
      endpoint = Some (wc_endpoint wc) ∧
      (∃ path content, token_file = Some path ∧ private_secret s path content ∧ Utf8.is_utf8 content = true ∧
         wc_bearer_token wc = Utf8.trim content ∧ wc_bearer_token wc ≠ []) ∧
      (∃ path, key_file = Some path ∧ pinned s path (wc_public_key wc)) ∧
      match wc_previous_public_key wc with
      | None => previous_file = None
      | Some key => key ≠ wc_public_key wc ∧ ∃ path, previous_file = Some path ∧ pinned s path key
      end
  end.

Lemma witness_config_ok endpoint token_file key_file previous_file s r s' :
  DaemonProcess.witness_config endpoint token_file key_file previous_file s = (Ok r, s') →
  same_files s s' ∧ options_give s endpoint token_file key_file previous_file r.
Proof.
  unfold DaemonProcess.witness_config. destruct endpoint as [endpoint|], token_file as [tf|], key_file as [kf|]; try done.
  2: { destruct previous_file; [done|]. by intros [= <- <-]. }
  intros E. sbind_step E. apply daemon_secret_ok in E0 as (S1 & content & Hp & Hu & -> & Hne).
  sbind_step E. apply read_key_pinned in E0 as [S2 Hk]. apply (pinned_same s) in Hk; [|done].
  sbind_step E. case_bool_decide as Hd; [done|]. injection E as <- <-. assert (same_files s s1) as S3 by (by etrans).
  destruct previous_file as [pf|].
  - sbind_step E0. apply read_key_pinned in E as [S4 Hk']. injection E0 as <- <-. split; [by etrans|].
    split_and!; [done|by eauto 8|by eauto|]. simpl. split; [congruence|]. exists pf. split; [done|]. by apply (pinned_same s s1).
  - injection E0 as <- <-. split; [done|]. split_and!; [done|by eauto 8|by eauto|done].
Qed.

End files.

(** ** A daemon that starts *)

Lemma build_ok endpoint token key previous cfg :
  Https.new_with_previous endpoint token key previous = Ok cfg →
  https_authorization cfg = str_bytes "Bearer " ++ token ∧ primary_public_key cfg = key ∧ previous_public_key cfg = previous.
Proof. unfold Https.new_with_previous, Https.build. intros E. steps_ok E. by injection E as <-. Qed.

Lemma build_https endpoint token key previous cfg :
  Https.new_with_previous endpoint token key previous = Ok cfg → Https.starts_with (str_bytes "https://") endpoint = true.
Proof. unfold Https.new_with_previous, Https.build. by destruct (Https.starts_with _ _). Qed.

Section daemon.
Context `{Primitives} `{Links} {Net : Type}.
Implicit Types (d : DaemonState Net).

(** The client of the witness that a configuration calls for. *)
Definition client_of (agent : Net) (r : option WitnessConfig) (m : option (Mutex (HttpsWitnessProvider Net))) : Prop :=
  match r with
  | None => m = None
  | Some wc =>
      Https.starts_with (str_bytes "https://") (wc_endpoint wc) = true ∧
      ∃ cfg, m = Some (mkMutex (mkProvider cfg agent) false) ∧
        https_authorization cfg = str_bytes "Bearer " ++ wc_bearer_token wc ∧
        primary_public_key cfg = wc_public_key wc ∧ previous_public_key cfg = wc_previous_public_key wc
  end.

Lemma daemon_open_ok agent config w d w' :
  Daemon.open agent config w = (Ok d, w') →
  ds_config d = config ∧ client_of agent (dc_witness config) (ds_witness d) ∧
  (ds_active_connections d = 0 ∧ ds_long_operation_active d = false ∧ ds_shutdown d = false) ∧
  ∃ v, ds_vault d = mkMutex v false ∧ Vault.open (dc_vault_path config) w = (Ok v, w').
Proof.
  unfold Daemon.open. destruct (_ || _); [done|]. intros E. sbind_step E. rename a into v. sbind_step E. injection E as <- <-.
  unfold slift in E1. injection E1 as E1 ->. split_and!; try done; [|by exists v]. cbn [ds_witness].
  unfold Daemon.witness_of_config in E1. unfold client_of. destruct (dc_witness config) as [wc|]; [|by injection E1 as <-].
  destruct (Https.new_with_previous _ _ _ _) as [cfg|] eqn:Eb; [|done]. injection E1 as <-. simpl.
  split; [by eapply build_https|]. exists cfg. split; [done|]. by eapply build_ok.
Qed.

Lemma configure_ok uid arguments s config s' :
  DaemonProcess.configure uid arguments s = (Ok config, s') →
  same_files s s' ∧
  config = mkDaemonConfig (DaemonProcess.da_socket arguments) (DaemonProcess.da_vault arguments) (default uid (DaemonProcess.da_allow_uid arguments))
             (DaemonProcess.da_allow_shutdown arguments) (dc_witness config) Daemon.DEFAULT_MAX_CONNECTIONS Daemon.DEFAULT_IO_TIMEOUT ∧
  options_give s (DaemonProcess.da_witness_endpoint arguments) (DaemonProcess.da_witness_token_file arguments) (DaemonProcess.da_witness_public_key_file arguments)
    (DaemonProcess.da_witness_previous_public_key_file arguments) (dc_witness config).
Proof.
  unfold DaemonProcess.configure. intros E. sbind_step E. injection E as <- <-. apply witness_config_ok in E0 as [? ?]. done.
Qed.

(** C20: the daemon starts as its command line says.  When start-up succeeds, the
    socket, the vault, the permitted user (the daemon's own unless another was
    given) and the shutdown permission are those of the arguments; it has a
    witness exactly when the witness options were given, reached over https, with
    a token that is not empty, a primary key and perhaps a different previous
    key, each spelled by a regular file that neither group nor others can access,
    and the client it will use presents that token and trusts those keys and no
    others.  The vault is locked, over tables that passed the start-up check;
    neither they nor the contents of a file have changed, no connection is
    counted and no long operation or shutdown is pending. *)
Theorem trust_configuration uid agent arguments w files d w' files' :
  DaemonProcess.start uid agent arguments (w, files) = (Ok d, (w', files')) →
  let config := ds_config d in
  let v := m_value (ds_vault d) in
  (dc_socket_path config = DaemonProcess.da_socket arguments ∧ dc_vault_path config = DaemonProcess.da_vault arguments ∧
   dc_allowed_uid config = default uid (DaemonProcess.da_allow_uid arguments) ∧ dc_allow_shutdown config = DaemonProcess.da_allow_shutdown arguments) ∧
  options_give (w_env w, files) (DaemonProcess.da_witness_endpoint arguments) (DaemonProcess.da_witness_token_file arguments)
    (DaemonProcess.da_witness_public_key_file arguments) (DaemonProcess.da_witness_previous_public_key_file arguments) (dc_witness config) ∧
  client_of agent (dc_witness config) (ds_witness d) ∧
  (v_path v = DaemonProcess.da_vault arguments ∧ v_root_key v = None ∧ db_wf (w_db w) ∧
   ∃ row, db_meta (w_db w) = Some row ∧ Storage.envelope_of_meta row = Ok (v_envelope v)) ∧
  w_db w' = w_db w ∧ files' = files ∧
  ds_active_connections d = 0 ∧ ds_long_operation_active d = false ∧ ds_shutdown d = false.
Proof.
  unfold DaemonProcess.start. intros E. sbind_step E. unfold DaemonProcess.in_files, szoom in E0. cbn [fst snd] in E0.
  destruct (DaemonProcess.configure _ _ _) as [r t] eqn:Ec. injection E0 as -> <-. apply configure_ok in Ec as ((_ & _ & _ & Hf) & Hc & Hg).
  apply smap_err_ok in E. unfold Backup.in_world, szoom in E. cbn [fst snd] in E.
  destruct (Daemon.open _ _ _) as [r2 w2] eqn:Eo. injection E as -> <- <-.
  apply daemon_open_ok in Eo as (-> & Hw & Hz & v & Hv & Eo). apply Lifecycle.open_ok in Eo as (Hp & Hk & Hdb & Hwf & Hm).
  cbn [fst snd] in Hf, Hdb, Hwf, Hm. rewrite Hv. set (witness := dc_witness a) in *. clearbody witness. subst a. split_and!; try done; apply Hz.
Qed.

End daemon.

(** ** A daemon and its witness *)

Section deployment.
Context `{Primitives} `{!PrimitivesOk} `{HexCrate} `{!HexCrateOk} `{Links}.

Lemma key_tool_ok path s line s' :
  KeyTool.main path s = (Ok line, s') →
  ∃ seed, private_secret s path seed ∧ length seed = 32%nat ∧ line = hex_encode (ed_public seed) ++ [10].
Proof.
  unfold KeyTool.main. intros E. sbind_step E. apply metadata_ok in E0 as (Hs & q & Hq & Hl).
  destruct (_ || _) eqn:Et; [done|]. apply orb_false_iff in Et as [Ef Em]. apply negb_false_iff in Ef, Em.
  apply bool_decide_eq_true in Ef. apply Z.eqb_eq in Em.
  sbind_step E. apply read_ok in E0 as [_ Hp]; [|destruct Hs as (Hf & _); unfold closed_at; rewrite Hf; by exists q, a].
  sbind_step E. unfold slift, KeyTool.seed_array in E0. destruct (fixed_array 32 a0) eqn:Ea; [|done].
  apply fixed_array_some in Ea as [-> Hn]. injection E0 as <- _. injection E as <- _.
  exists a0. split_and!; [by apply (same_files_secret s s0)|done|]. by rewrite hex_crate_encode_lower by apply ed_public_wf.
Qed.

(** A configuration that was read names the token of its file. *)
Lemma config_cases endpoint token_file key_file previous_file s r s' :
  DaemonProcess.witness_config (Some endpoint) (Some token_file) (Some key_file) previous_file s = (Ok r, s') →
  ∃ wc, r = Some wc ∧ ∃ content, private_secret s token_file content ∧ Utf8.is_utf8 content = true ∧
    wc_bearer_token wc = Utf8.trim content ∧ wc_bearer_token wc ≠ [].
Proof.
  unfold DaemonProcess.witness_config. intros E. sbind_step E. apply daemon_secret_ok in E0 as (S1 & content & Hp & Hu & -> & Hne).
  sbind_step E. sbind_step E. case_bool_decide; [done|]. injection E as <- _. eexists. split; [done|]. by exists content.
Qed.

Lemma in_files_ok {A} (m : SYS A) (s : WitnessWorld * Files) a s' :
  WitnessProcess.in_files m s = (Ok a, s') →
  ∃ t, m (ww_env s.1, s.2) = (Ok a, t) ∧ s' = (set_ww_env t.1 s.1, t.2).
Proof. unfold WitnessProcess.in_files, szoom. destruct (m _) as [r t] eqn:E. intros [= -> <-]. by exists t. Qed.

Lemma service_open_ok path key w svc w' :
  Service.open path key w = (Ok svc, w') →
  svc = mkService path key ∧ ww_db w' = ww_db w ∧ PrivateFile.private_at (env_fs (ww_env w')) path.
Proof.
  unfold Service.open. intros E. sbind_step E. apply Service.service_in_env_db in E0. sbind_step E.
  apply Service.service_in_env_db in E1. destruct a0; [done|]. sbind_step E. apply Service.service_in_env_db in E2.
  sbind_step E. apply Service.service_in_env_db in E3. destruct a1; [done|]. sbind_step E.
  assert (ww_db s3 = ww_db s2) as E5.
  { apply Service.service_exec_cases in E4. naive_solver. }
  sbind_step E. injection E as <- <-. apply Service.service_in_env_db in E6 as E7. split_and!; [done|congruence|].
  unfold Service.enforce_owner_private_sqlite_state, Service.in_env, szoom in E6.
  destruct (PrivateFile.enforce_owner_private_sqlite_state path (ww_env s3)) as [r e] eqn:Ee. injection E6 as -> <-. simpl.
  destruct a2. unfold PrivateFile.enforce_owner_private_sqlite_state in Ee. do 2 sbind_step Ee. destruct a1, a2.
  apply PrivateFile.enforce_file_spec in E as [_ P1].
  apply PrivateFile.enforce_optional_spec in E6 as [R2 _]; [|apply PrivateFile.path_push_suffix_nonempty].
  apply PrivateFile.enforce_optional_spec in Ee as [R3 _]; [|apply PrivateFile.path_push_suffix_nonempty].
  eapply PrivateFile.only_restricts_private; [done|]. eapply PrivateFile.only_restricts_private; eauto.
Qed.

Lemma witness_start_ok a s svc token s' :
  WitnessProcess.start a s = (Ok (svc, token), s') →
  WitnessProcess.is_loopback (sa_ip (WitnessProcess.wa_listen a)) = true ∧
  svc = mkService (WitnessProcess.wa_state a) (ws_signing_key svc) ∧
  private_secret (ww_env s.1, s.2) (WitnessProcess.wa_signing_seed a) (ws_signing_key svc) ∧
  length (ws_signing_key svc) = 32%nat ∧
  private_secret (ww_env s.1, s.2) (WitnessProcess.wa_auth_token_file a) token ∧
  PrivateFile.private_at (env_fs (ww_env s'.1)) (WitnessProcess.wa_state a) ∧
  ww_db s'.1 = ww_db s.1 ∧ s'.2 = s.2.
Proof.
  unfold WitnessProcess.start. destruct (WitnessProcess.is_loopback _); [|done]. simpl. intros E.
  sbind_step E. apply in_files_ok in E0 as (t & E0 & ->). apply witness_fixed_secret_ok in E0 as (S1 & Hk & Hn).
  sbind_step E. apply in_files_ok in E0 as (t1 & E0 & ->). apply witness_secret_ok in E0 as (S2 & Ht). simpl in S2, Ht.
  sbind_step E. injection E as -> -> ->. apply smap_err_ok in E0. unfold szoom in E0. cbn [fst snd] in E0.
  destruct (Service.open _ _ _) as [r w] eqn:Eo. injection E0 as -> <-. apply service_open_ok in Eo as (-> & Hdb & Hp).
  cbn [fst snd ws_signing_key ws_path ww_db] in *.
  assert (t1.2 = s.2) as ->. { destruct S1 as (_ & _ & _ & S1), S2 as (_ & _ & _ & S2). simpl in *. congruence. }
  split_and!; try done. apply (same_files_secret _ (t.1, t.2)); [|done]. by destruct t.
Qed.

(** C21: a witness serves on a loopback address only.  On any other address it
    stops before it touches a file; when it serves, it signs with the 32 bytes of
    its seed file and answers each request, in order, as the service with the
    token of its token file does, both files closed to group and others, its
    database closed to them too and with the contents it found. *)
Theorem witness_serves_private `{Listener} `{!Json IssueRequest} `{!Json IssueResponse} `{!Json HeadRequest} `{!Json HeadResponse}
    a s r s' :
  WitnessProcess.main a s = (r, s') →
  (WitnessProcess.is_loopback (sa_ip (WitnessProcess.wa_listen a)) = false → is_ok r = false ∧ s' = s) ∧
  ∀ responses, r = Ok responses →
    ∃ seed token requests w,
      http (WitnessProcess.wa_listen a) = Some requests ∧
      private_secret (ww_env s.1, s.2) (WitnessProcess.wa_signing_seed a) seed ∧ length seed = 32%nat ∧
      private_secret (ww_env s.1, s.2) (WitnessProcess.wa_auth_token_file a) token ∧
      PrivateFile.private_at (env_fs (ww_env w)) (WitnessProcess.wa_state a) ∧ ww_db w = ww_db s.1 ∧
      WitnessProcess.serve_all (mkService (WitnessProcess.wa_state a) seed) token requests w = (responses, s'.1).
Proof.
  intros E. split.
  - intros Hl. revert E. unfold WitnessProcess.main, WitnessProcess.start. rewrite Hl. simpl. by intros [= <- <-].
  - intros responses ->. unfold WitnessProcess.main in E. sbind_step E. destruct a0 as [svc token].
    apply witness_start_ok in E0 as (_ & Hsvc & Hs & Hn & Ht & Hp & Hdb & _). destruct (http _) as [requests|]; [|done].
    destruct (WitnessProcess.serve_all _ _ _ _) as [rs w] eqn:Es. injection E as <- <-. simpl. rewrite Hsvc in Es.
    exists (ws_signing_key svc), token, requests, s0.1. done.
Qed.

(** C22: the pieces of a deployment fit.  When the key tool's line for a
    witness's seed is given to the daemon as key file, and the token the witness
    reads as token file, both in private files and padded with white space as one
    likes, the witness's token is a text that is not empty and has no white space
    at its ends, no previous key is configured and no system call fails, the
    daemon reads its configuration, pins exactly the key the witness signs with,
    and every request that carries the daemon's credential is authorised by the
    witness. *)
Theorem deployment_pairs a (s : WitnessWorld * Files) line t svc token s' (d : Env * Files) endpoint token_file key_file pre post pre' post' :
  KeyTool.main (WitnessProcess.wa_signing_seed a) (ww_env s.1, s.2) = (Ok line, t) →
  WitnessProcess.start a s = (Ok (svc, token), s') →
  PrivateFile.quiet d.1 → private_secret d key_file (pre ++ line ++ post) → private_secret d token_file (pre' ++ token ++ post') →
  Utf8.blank pre → Utf8.blank post → Utf8.blank pre' → Utf8.blank post' → Utf8.trimmed token → token ≠ [] →
  ∃ wc d', DaemonProcess.witness_config (Some endpoint) (Some token_file) (Some key_file) None d = (Ok (Some wc), d') ∧
    wc_public_key wc = Service.public_key svc ∧
    ∀ cfg request, Https.new_with_previous (wc_endpoint wc) (wc_bearer_token wc) (wc_public_key wc) (wc_previous_public_key wc) = Ok cfg →
      Service.rq_authorization request = Some (https_authorization cfg) →
      Https.trusted cfg (Service.public_key svc) ∧ Service.authorized request (WitnessProcess.expected token) = true.
Proof.
  intros Hkey Hstart Hq Hkf Htf Hpre Hpost Hpre' Hpost' Ht Hne.
  apply key_tool_ok in Hkey as (seed & Hseed & _ & ->).
  apply witness_start_ok in Hstart as (_ & _ & Hseed' & _). rewrite (private_secret_unique _ _ _ _ Hseed Hseed') in Hkf.
  destruct (daemon_secret_quiet token_file d _ Hq Htf) as (d1 & E1 & S1).
  { apply Utf8.is_utf8_app; [apply Hpre'|]. apply Utf8.is_utf8_app; [apply Ht|apply Hpost']. }
  { by rewrite Utf8.trim_padded. }
  rewrite Utf8.trim_padded in E1 by done.
  assert (Utf8.blank ([10] ++ post)) as Hnl.
  { destruct Hpost as [Hu Hw]. split; [by apply Utf8.is_utf8_app|]. rewrite Utf8.chars_app by done. by constructor. }
  destruct (read_key_quiet key_file d1 (Service.public_key svc) pre ([10] ++ post)) as (d2 & E2 & S2);
    [by eapply same_files_quiet|apply ed_public_wf|apply ed_public_length|done|done| |].
  { apply (same_files_secret d d1); [done|]. by rewrite <-(assoc_L (++)) in Hkf. }
  exists (mkWitnessConfig endpoint token (Service.public_key svc) None), d2. split_and!; [|done|].
  - unfold DaemonProcess.witness_config. rewrite (sbind_eq _ _ _ _ _ E1), (sbind_eq _ _ _ _ _ E2). done.
  - intros cfg request Hcfg Hr. apply build_ok in Hcfg as (Ha & Hk & _). split; [by left|].
    unfold Service.authorized. rewrite Hr, Ha. apply bool_decide_eq_true. unfold WitnessProcess.expected.
    by rewrite Utf8.from_utf8_lossy_valid by apply Ht.
Qed.

(** C40: a token file that both sides cannot use.  When the two processes are
    given the same token file and it holds bytes that are no text, white space at
    an end (a final line feed, say) or nothing, then the daemon refuses to start
    or the witness answers every request with its credential by a refusal that
    changes nothing, although the witness itself has started. *)
Theorem unusable_token `{!Json IssueRequest} `{!Json IssueResponse} `{!Json HeadRequest} `{!Json HeadResponse}
    a s svc token s' (d : Env * Files) endpoint token_file key_file previous_file r d' :
  WitnessProcess.start a s = (Ok (svc, token), s') →
  ¬ (Utf8.trimmed token ∧ token ≠ []) → private_secret d token_file token →
  DaemonProcess.witness_config (Some endpoint) (Some token_file) (Some key_file) previous_file d = (r, d') →
  is_ok r = false ∨
  ∃ wc, r = Ok (Some wc) ∧ ∀ cfg request w,
    Https.new_with_previous (wc_endpoint wc) (wc_bearer_token wc) (wc_public_key wc) (wc_previous_public_key wc) = Ok cfg →
    Service.rq_authorization request = Some (https_authorization cfg) →
    Service.serve svc (WitnessProcess.expected token) request w = (Service.unauthorized, w).
Proof.
  intros _ Hbad Hs E. destruct r as [r|]; [|by left]. right. apply config_cases in E as (wc & -> & content & Hp & Hu & Hw & Hne).
  exists wc. split; [done|]. rewrite (private_secret_unique _ _ _ _ Hp Hs) in *.
  intros cfg request w Hcfg Hr. apply build_ok in Hcfg as (Ha & _). unfold Service.serve, Service.authorized. rewrite Hr, Ha.
  rewrite bool_decide_eq_false_2; [done|]. unfold WitnessProcess.expected. rewrite Utf8.from_utf8_lossy_valid by done.
  intros Hx%app_inv_head. apply Hbad. rewrite Hw in Hx. split; [by apply Utf8.trim_fixpoint|]. congruence.
Qed.


End deployment.
End StartupSpec.
