(* ===== verification/CliSpec.v ===== *)
(** * The client's guarantees

    What each command leaves on the disk and sends, and the client and the
    daemon composed: a connection is the pair of what each end sent, and each
    end received what the other sent. *)

From S2P Require Import Prelude Format Crypto Witness Fs Storage Vault WitnessService Https Backup Protocol Daemon Cli.
From S2P Require Import StorageSpec VaultSpec StreamSpec Refinement Integrity Lifecycle BackupSpec ProtocolSpec DaemonSpec.
From Stdlib Require Import ZArith Lia.
From stdpp Require Import base numbers list gmap strings.

Open Scope Z_scope.
Open Scope vlt_scope.

#[local] Arguments be_bytes : simpl never.

(** An opened file delivers the contents it was opened with. *)
Class OpenFileOk (F : Type) `{OpenFile F} : Type := {
  of_read_ok :: ReadOk F;
  opened_contents bs : contents (opened bs) = bs;
}.

Module CliSpec.
Import Cli Protocol ProtocolSpec StreamItems DaemonSpec.
Import BackupSpec (fs_of, preserves, nothing, two, private_meta, not_temporary, existing_kept).

Section socket.
Context `{!Json Response} `{UnixStreamOk T}.

(** ** Access lemmas *)

Lemma on_socket_sends {A} context (m : M T ProtocolError A) P p t r p' t' :
  sends m P → on_socket context m (p, t) = (r, (p', t')) →
  p' = p ∧ contents t' = contents t ∧ ∀ a, r = Ok a → ∃ o, P o ∧ sent t' = sent t ++ o.
Proof.
  intros Hm E. unfold on_socket, smap_err, szoom in E. cbn [fst snd] in E. destruct (m t) as [r1 t1] eqn:E1.
  destruct (Hm _ _ _ E1) as [Hc Hs]. destruct r1 as [a|e]; injection E as <- <- <-; split_and!; try done.
  intros a' [= <-]. exact (Hs _ eq_refl).
Qed.

Lemma on_socket_run {A} context (m : M T ProtocolError A) p t r p' t' :
  on_socket context m (p, t) = (r, (p', t')) →
  p' = p ∧ ∃ r1, m t = (r1, t') ∧ match r1 with Ok a => r = Ok a | Err e => r = Err (Caused (Some [PText context]) (ByProtocol e)) end.
Proof.
  unfold on_socket, smap_err, szoom. cbn [fst snd]. destruct (m t) as [[a|e] t1]; intros [= <- <- <-].
  - split; [done|]. by exists (Ok a).
  - split; [done|]. by exists (Err e).
Qed.

Lemma on_socket_ok {A} context (m : M T ProtocolError A) p t a p' t' :
  on_socket context m (p, t) = (Ok a, (p', t')) → p' = p ∧ m t = (Ok a, t').
Proof. intros (-> & [b|e] & E & Hr)%on_socket_run; simplify_eq; eauto. Qed.

Lemma read_response_ok p t s p' t' :
  read_response (p, t) = (Ok s, (p', t')) →
  p' = p ∧ sent t' = sent t ∧ frame_at (contents t) (ROk s) (contents t').
Proof.
  intros E. unfold read_response in E. sbind_step E. destruct s0 as [p1 t1]. apply on_socket_ok in E0 as [-> E0].
  injection E as Hr -> ->. destruct a as [res|]; [|done]. injection Hr as ->.
  pose proof (quietly_read_frame (A:=Response) t) as Hq. rewrite E0 in Hq. split_and!; [done|done|].
  apply read_frame_ok in E0; [done|]. apply contents_wf.
Qed.

Lemma read_response_quiet p t r p' t' : read_response (p, t) = (r, (p', t')) → p' = p ∧ sent t' = sent t.
Proof.
  unfold read_response, sbind. destruct (on_socket _ _ (p, t)) as [r1 [p1 t1]] eqn:E1. apply on_socket_run in E1 as (-> & r2 & E2 & Hr).
  pose proof (quietly_read_frame (A:=Response) t) as Hq. rewrite E2 in Hq. simpl in Hq.
  destruct r1; intros [= _ <- <-]; done.
Qed.

(** ** Connections *)

Context `{!Connect T}.

Lemma connected_cases {A} socket (m : M (Process T * T) CliError A) p r p' :
  connected socket m p = (r, p') →
  (connect socket = None ∧ r = Err (Caused (Some [PText "could not connect to "; PPath socket]) ByIo) ∧ p' = p) ∨
  ∃ t p1 t', connect socket = Some t ∧ m (p, t) = (r, (p1, t')) ∧ (p_host p' = p_host p1 ∧ p_printed p' = p_printed p1) ∧
    p_socket p' = Some t'.
Proof.
  unfold connected. destruct (connect socket) as [t|]; [|by intros [= <- <-]; left].
  destruct (m (p, t)) as [r1 [p1 t1]] eqn:E. intros [= <- <-]. right. exists t, p1, t1. done.
Qed.

(** One request and its answer. *)
Lemma request_cases `{!Json Request} socket operation p r p' :
  request socket operation p = (r, p') →
  (p_host p' = p_host p ∧ p_printed p' = p_printed p) ∧
  match r with
  | Ok s => ∃ c c' rq rest, connect socket = Some c ∧ p_socket p' = Some c' ∧ frame operation = Some rq ∧
      sent c' = sent c ++ rq ∧ frame_at (contents c) (ROk s) rest
  | Err (Bail line) => ∃ c c' rq rest e, connect socket = Some c ∧ p_socket p' = Some c' ∧ frame operation = Some rq ∧
      sent c' = sent c ++ rq ∧ frame_at (contents c) (RError e) rest ∧ Bail line = daemon_error e
  | Err (Caused _ _) => True
  end.
Proof.
  intros [(_ & -> & ->)|(c & p1 & c' & Hc & E & Hh & Hp)]%connected_cases; [done|].
  unfold sbind in E. destruct (on_socket "could not write daemon request" _ (p, c)) as [r1 [p2 c2]] eqn:E1.
  pose proof (on_socket_run _ _ _ _ _ _ _ E1) as (_ & r2 & _ & Hr2).
  eapply on_socket_sends in E1 as (-> & Hc2 & Hs2); [|apply sends_frame]. destruct r1 as [[]|e1].
  2: { injection E as <- <- <-. split; [done|]. destruct r2; by simplify_eq. }
  destruct (Hs2 _ eq_refl) as (rq & Hrq & Hs3). clear Hr2.
  pose proof (read_response_quiet _ _ _ _ _ E) as [-> Hs4]. split; [done|].
  unfold read_response, sbind in E. destruct (on_socket _ _ (p, c2)) as [r3 [p3 c3]] eqn:E3.
  apply on_socket_run in E3 as (-> & r4 & E4 & Hr4). destruct r4 as [resp|e4]; subst r3; [|by injection E as <- <-].
  apply read_frame_ok in E4; [|apply contents_wf]. rewrite Hc2 in E4. injection E as <- <-.
  destruct resp as [s|e]; simpl; [|unfold daemon_error].
  - exists c, c3, rq, (contents c3). split_and!; [done..| |done]. congruence.
  - exists c, c3, rq, (contents c3), e. split_and!; [done..| |done|done]. congruence.
Qed.

(** ** Sending a file *)

Context `{OpenFileOk F}.

Lemma send_file_ok fuel input (file : F) p t p' t' :
  send_file fuel input file (p, t) = (Ok tt, (p', t')) →
  ∃ ds, Forall piece_ok ds ∧ concat ds = contents file ∧ p' = p ∧ contents t' = contents t ∧ sent t' = sent t ++ framed ds.
Proof.
  assert (0 < MAX_STREAM_CHUNK_BYTES) as Hm by done.
  revert file t. induction fuel as [|fuel IH]; intros file t; cbn [send_file];
    destruct (read MAX_STREAM_CHUNK_BYTES file) as [[[|b d]| |] file1] eqn:E; try done.
  1, 2: intros [= <- <-]; destruct (read_data _ _ _ _ Hm E) as (_ & _ & He); exists [];
    rewrite He, app_nil_r by done; split_and!; done || constructor.
  destruct (read_data _ _ _ _ Hm E) as (Hc & _). intros E1. sbind_step E1. destruct s as [p1 t1].
  eapply on_socket_sends in E0 as (-> & Hc1 & Hs1); [|apply sends_item]. destruct (Hs1 _ eq_refl) as (o & [Hd ->] & Hs2).
  apply IH in E1 as (ds & Hds & Hcat & -> & Hc2 & Hs3). exists ((b :: d) :: ds). split_and!; [by constructor| |done|congruence|].
  - simpl. by rewrite Hcat, Hc.
  - rewrite Hs3, Hs2. unfold framed. cbn [map concat]. by rewrite <-(assoc_L (++)).
Qed.

(** What a successful upload read, sent and was answered. *)
Lemma put_ok `{!Json Request} socket text input p p' :
  put socket text input p = (Ok tt, p') →
  ∃ content c c' rq ds rest vid rest',
    (p_host p).2 !! input = Some content ∧ connect socket = Some c ∧ p_socket p' = Some c' ∧
    frame (RqPutStream text) = Some rq ∧ Forall piece_ok ds ∧ concat ds = content ∧
    sent c' = sent c ++ rq ++ client_items ds ∧
    frame_at (contents c) (ROk SStreamReady) rest ∧ frame_at rest (ROk (SPublished vid)) rest'.
Proof.
  intros E. unfold put in E. sbind_step E. unfold io, on_host in E0. apply smap_err_ok in E0.
  unfold szoom in E0. destruct (Backup.read_file input (p_host p)) as [r1 h1] eqn:Er. injection E0 as -> <-.
  apply BackupSpec.read_file_ok in Er.
  apply connected_cases in E as [(_ & ? & _)|(c & p1 & c' & Hc & E & _ & Hp)]; [done|].
  sbind_step E. destruct s as [p2 t2]. eapply on_socket_sends in E0 as (-> & C2 & S2); [|apply sends_frame].
  destruct (S2 _ eq_refl) as (rq & Hrq & S2').
  sbind_step E. destruct s as [p3 t3]. apply read_response_ok in E0 as (-> & S3 & F3).
  sbind_step E. injection E0 as E0 <-. unfold expect_stream_ready in E0. case_bool_decide as Hrd; [subst|done]. clear E0.
  sbind_step E. destruct s as [p4 t4]. destruct a1. apply send_file_ok in E0 as (ds & Hds & Hcat & -> & C4 & S4).
  sbind_step E. destruct s as [p5 t5]. eapply on_socket_sends in E0 as (-> & C5 & S5); [|apply sends_stream_end].
  destruct (S5 _ eq_refl) as (o & <- & S5').
  sbind_step E. destruct s as [p6 t6]. apply read_response_ok in E0 as (-> & S6 & F6).
  destruct a3; try done. injection E as _ <-. rewrite C2 in F3. rewrite C5, C4 in F6. rewrite opened_contents in Hcat.
  exists a, c, t6, rq, ds, (contents t3), version_id, (contents t6). split_and!; try done.
  rewrite S6, S5', S4, S3, S2'. unfold client_items. fold (framed ds). by rewrite <-!(assoc_L (++)).
Qed.

End socket.

(** ** Paths as text *)








(** ** What commands do to the disk *)

Section disk.
Context {T : Type}.

(** Only the files in [P] may differ after [m]. *)
Definition touches {A} (P : Path → Prop) (m : M (Process T) CliError A) : Prop :=
  ∀ p r p', m p = (r, p') → BackupSpec.frame P (p_host p) (p_host p').

Lemma touches_step {A B} P (m : M (Process T) CliError A) (k : A → M (Process T) CliError B) p r p' :
  touches P m → sbind m k p = (r, p') →
  ((∀ b, r ≠ Ok b) ∧ BackupSpec.frame P (p_host p) (p_host p')) ∨
  ∃ a p1, m p = (Ok a, p1) ∧ BackupSpec.frame P (p_host p) (p_host p1) ∧ k a p1 = (r, p').
Proof.
  intros Hm E. unfold sbind in E. destruct (m p) as [[a|e] p1] eqn:E1; pose proof (Hm _ _ _ E1).
  - right. eauto.
  - left. injection E as <- <-. done.
Qed.

Lemma touches_bind {A B} P (m : M (Process T) CliError A) (k : A → M (Process T) CliError B) :
  touches P m → (∀ a, touches P (k a)) → touches P (sbind m k).
Proof.
  intros Hm Hk p r p' E0. destruct (touches_step P _ _ _ _ _ Hm E0) as [[_ ?]|(a & p1 & _ & F1 & E)]; [done|]. etrans; [done|]. by eapply Hk.
Qed.

Lemma touches_mono {A} (P Q : Path → Prop) (m : M (Process T) CliError A) : (∀ x, P x → Q x) → touches P m → touches Q m.
Proof. intros HPQ Hm p r p' E. eapply BackupSpec.frame_mono; [done|]. by eapply Hm. Qed.

Lemma touches_const {A} P (m : M (Process T) CliError A) : (∀ p, p_host (m p).2 = p_host p) → touches P m.
Proof. intros Hm p r p' E. specialize (Hm p). rewrite E in Hm. simpl in Hm. by rewrite Hm. Qed.

Lemma on_host_run {A} f (m : BIO A) (p : Process T) r p' :
  on_host f m p = (r, p') →
  ∃ r1, m (p_host p) = (r1, p_host p') ∧ p_socket p' = p_socket p ∧ match r1 with Ok a => r = Ok a | Err e => r = Err (f e) end.
Proof.
  unfold on_host, smap_err, szoom. destruct (m (p_host p)) as [[a|e] s]; intros [= <- <-].
  - by exists (Ok a).
  - by exists (Err e).
Qed.

Lemma on_host_ok {A} f (m : BIO A) (p : Process T) a p' :
  on_host f m p = (Ok a, p') → m (p_host p) = (Ok a, p_host p') ∧ p_socket p' = p_socket p.
Proof. intros ([b|e] & E & Hs & Hr)%on_host_run; by simplify_eq. Qed.

Lemma touches_io {A} P context (m : BIO A) : preserves P m → touches P (io context m).
Proof. intros Hm p r p' (r1 & E & _)%on_host_run. by eapply Hm. Qed.

(** *** The destination of a download *)

Lemma symlink_metadata_host path (p : Process T) r p' :
  on_env (symlink_metadata path) p = (r, p') →
  BackupSpec.frame nothing (p_host p) (p_host p') ∧ p_socket p' = p_socket p ∧
  (path_is_empty path = false → r = Err IoNotFound → fs_of (p_host p) !! path = None).
Proof.
  destruct p as [[w files] ans pr so]. unfold on_env, szoom. cbn [p_host fst snd].
  destruct (symlink_metadata path (w_env w)) as [r1 e1] eqn:E. intros [= <- <-].
  pose proof (PrivateFile.symlink_metadata_fs _ _ _ _ E) as Hfs. split; [|split; [done|]].
  - split_and!; try done. intros q _. unfold BackupSpec.fs_of. simpl. by rewrite Hfs.
  - intros Hp ->. revert E. unfold symlink_metadata, sbind. simpl. destruct (env_faults _ _); [done|]. rewrite Hp.
    unfold slift, BackupSpec.fs_of. simpl. by destruct (env_fs (w_env w) !! path).
Qed.

Lemma validate_output_directories_touches dirs : touches nothing (validate_output_directories (T:=T) dirs).
Proof.
  induction dirs as [|dir dirs IH]; cbn [validate_output_directories]; [by apply touches_const|].
  apply touches_bind.
  - intros p r p' E. unfold smap_err in E. destruct (on_env _ p) as [r1 p1] eqn:E1. apply symlink_metadata_host in E1 as [? _].
    destruct r1; by injection E as _ <-.
  - intros md. case_match; [by apply touches_const|done].
Qed.

Lemma validate_output_directories_socket dirs (p : Process T) r p' :
  validate_output_directories dirs p = (r, p') → p_socket p' = p_socket p.
Proof.
  revert p. induction dirs as [|dir dirs IH]; intros p; cbn [validate_output_directories]; [by intros [= _ <-]|].
  unfold sbind, smap_err. destruct (on_env _ p) as [[md|e] p1] eqn:E1; apply symlink_metadata_host in E1 as (_ & <- & _); [|by intros [= _ <-]].
  case_match; [by intros [= _ <-]|apply IH].
Qed.

Lemma validate_output_cases output (p : Process T) r p' :
  validate_new_plaintext_output output p = (r, p') →
  BackupSpec.frame nothing (p_host p) (p_host p') ∧ p_socket p' = p_socket p ∧ (∀ dir, r = Ok dir → fs_of (p_host p) !! output = None).
Proof.
  unfold validate_new_plaintext_output, sbind at 1, slift. destruct (parent output) as [dir|] eqn:Hd; [|by intros [= <- <-]].
  assert (path_is_empty output = false) as Hne.
  { unfold parent in Hd. unfold path_is_empty. destruct (comps output); [done|]. by rewrite andb_false_r. }
  cbn [ok_or]. unfold sbind. destruct (validate_output_directories _ p) as [[u|e] p1] eqn:E1;
    pose proof (validate_output_directories_touches _ _ _ _ E1) as F1; apply validate_output_directories_socket in E1; [|by intros [= <- <-]].
  destruct (on_env (symlink_metadata output) p1) as [r2 p2] eqn:E2. apply symlink_metadata_host in E2 as (F2 & S2 & Hn).
  assert (BackupSpec.frame nothing (p_host p) (p_host p2)) as F by (by etrans).
  destruct r2 as [md|[]]; intros [= <- <-]; split_and!; try done; try congruence.
  intros dir' _. pose proof (BackupSpec.frame_nothing_eq _ _ F1) as [<- _]. auto.
Qed.

Lemma validate_output_touches output : touches nothing (validate_new_plaintext_output (T:=T) output).
Proof. intros p r p' E. by apply validate_output_cases in E as [? _]. Qed.

End disk.

(** ** Downloading to a file *)

Lemma preserves_append (P : Path → Prop) path data : P path → preserves P (append_file path data).
Proof.
  intros Hp. apply BackupSpec.preserves_syscall. intros [fs files] a st' E q Hq. destruct (files !! path); [|done].
  injection E as <- <-. simpl. rewrite lookup_insert_ne; [done|]. by intros ->.
Qed.

Lemma append_cases path data s r s' :
  append_file path data s = (r, s') →
  fs_of s' = fs_of s ∧ (r = Ok tt → ∃ c, s.2 !! path = Some c ∧ s'.2 !! path = Some (c ++ data)).
Proof.
  intros (_&_&_&[(-> & -> & _)|([] & -> & E)])%BackupSpec.syscall_cases; [done|]. simpl in E.
  destruct (s.2 !! path) as [c|]; [|done]. injection E as <- <-. split; [done|]. intros _. exists c. by rewrite lookup_insert_eq.
Qed.

Section download.
Context `{!Json Request} `{!Json Response} `{UnixStreamOk T} `{!Connect T}.

Lemma receive_items_cases fuel temporary output p (t : T) r p' t' :
  receive_items fuel temporary output (p, t) = (r, (p', t')) →
  BackupSpec.frame (eq temporary) (p_host p) (p_host p') ∧ fs_of (p_host p') = fs_of (p_host p) ∧ sent t' = sent t ∧
  ∀ old, (p_host p).2 !! temporary = Some old → r = Ok tt →
    ∃ data, scan (contents t) = (data, true) ∧ (p_host p').2 !! temporary = Some (old ++ data).
Proof.
  revert p t. induction fuel as [|fuel IH]; intros p t; cbn [receive_items]; [by intros [= <- <- <-]|].
  unfold sbind at 1. destruct (on_socket _ _ (p, t)) as [r1 [p1 t1]] eqn:E1. apply on_socket_run in E1 as (-> & r2 & E1 & Hr).
  pose proof (quietly_read_item t) as Hq. rewrite E1 in Hq. simpl in Hq.
  destruct r2 as [item|e]; subst r1; [|by intros [= <- <- <-]]. destruct item as [d| |[]]; [..|by intros [= <- <- <-]|by intros [= <- <- <-]].
  - apply read_item_ok in E1 as (_ & lb & Hc & Hl & Hn & Hd). unfold sbind, on_process, szoom. cbn [fst snd].
    destruct (io _ _ p) as [r3 p3] eqn:E3. apply on_host_run in E3 as (r4 & E4 & _ & Hr4).
    pose proof (preserves_append (eq temporary) _ _ eq_refl _ _ _ E4) as F4. apply append_cases in E4 as [Hf4 Ha].
    destruct r4 as [[]|e4]; subst r3; [|by intros [= <- <- <-]].
    intros (F5 & Hf5 & Hs5 & Hd5)%IH. split_and!; [by etrans|congruence|congruence|].
    intros old Hold Hok. destruct (Ha eq_refl) as (c & Hc1 & Hc2). assert (c = old) as -> by congruence.
    destruct (Hd5 _ Hc2 Hok) as (data & Hsc & Hfin). exists (d ++ data). rewrite Hc, scan_item, Hsc by done.
    by rewrite (assoc_L (++)).
  - apply read_item_ok in E1 as (_ & lb & Hc & Hl & Hn). intros [= <- <- <-]. split_and!; try done. intros old Hold _.
    exists []. rewrite Hc, scan_end by done. by rewrite app_nil_r.
Qed.

(** The exchange of a download. *)
Lemma fetch_cases socket text temporary output p r (p' : Process T) :
  connected socket (
    on_socket "could not start streaming download" (write_frame (RqGetStream text)) ;*
    let* response := read_response in
    slift (expect_stream_ready response) ;*
    let* fuel := sgets (λ s, S (unread s.2)) in
    receive_items fuel temporary output) p = (r, p') →
  BackupSpec.frame (eq temporary) (p_host p) (p_host p') ∧ fs_of (p_host p') = fs_of (p_host p) ∧
  ∀ old, (p_host p).2 !! temporary = Some old → r = Ok tt →
    ∃ c c' rq rest data, connect socket = Some c ∧ p_socket p' = Some c' ∧ frame (RqGetStream text) = Some rq ∧
      sent c' = sent c ++ rq ∧ frame_at (contents c) (ROk SStreamReady) rest ∧ upload_of rest = Some data ∧
      (p_host p').2 !! temporary = Some (old ++ data).
Proof.
  intros [(_ & -> & ->)|(c & p1 & c' & Hc & E & Hh & Hp)]%connected_cases; [done|]. destruct Hh as [Hh _]. rewrite Hh. clear Hh.
  unfold sbind at 1 in E. destruct (on_socket _ _ (p, c)) as [r1 [p2 c2]] eqn:E1.
  eapply on_socket_sends in E1 as (-> & C2 & S2); [|apply sends_frame]. destruct r1 as [[]|e]; [|by injection E as <- <- <-].
  destruct (S2 _ eq_refl) as (rq & Hrq & S2').
  unfold sbind at 1 in E. destruct (read_response (p, c2)) as [r3 [p3 c3]] eqn:E3.
  pose proof (read_response_quiet _ _ _ _ _ E3) as [-> S3]. destruct r3 as [s|e]; [|by injection E as <- <- <-].
  apply read_response_ok in E3 as (_ & _ & F3). unfold sbind at 1, slift, expect_stream_ready in E.
  case_bool_decide as Hs; [subst s|by injection E as <- <- <-]. unfold sbind, sgets in E. cbn [snd] in E.
  apply receive_items_cases in E as (F4 & Hf4 & S4 & Hd). split_and!; [done..|].
  intros old Hold ->. destruct (Hd old Hold eq_refl) as (data & Hsc & Hfin). rewrite C2 in F3.
  exists c, c', rq, (contents c3), data. split_and!; try done; [congruence|]. unfold upload_of. by rewrite Hsc.
Qed.

Lemma publish_private_cases temporary output (p : Process T) r p' :
  publish_private_temporary_file temporary output p = (r, p') →
  p_socket p' = p_socket p ∧
  (((∀ b, r ≠ Ok b) ∧ BackupSpec.frame nothing (p_host p) (p_host p')) ∨
   ∃ md c, fs_of (p_host p) !! temporary = Some md ∧ (p_host p).2 !! temporary = Some c ∧
     fs_of (p_host p) !! output = None ∧ BackupSpec.frame (eq output) (p_host p) (p_host p') ∧
     fs_of (p_host p') !! output = Some md ∧ (p_host p').2 !! output = Some c).
Proof.
  unfold publish_private_temporary_file, sbind.
  destruct (validate_new_plaintext_output output p) as [[dir|e] p1] eqn:E1; apply validate_output_cases in E1 as (F1 & S1 & Hn).
  2: { intros [= <- <-]. split; [done|]. by left. }
  pose proof (BackupSpec.frame_nothing_eq _ _ F1) as [Ef1 Ex1].
  destruct (io _ _ p1) as [r2 p2] eqn:E2. apply on_host_run in E2 as (r3 & E3 & S3 & Hr3).
  pose proof (BackupSpec.preserves_hard_link (eq output) temporary output eq_refl _ _ _ E3) as F3.
  apply BackupSpec.syscall_cases in E3 as (?&?&?&[(-> & Ef & Ex)|(a & -> & E)]); subst r2.
  { intros [= <- <-]. split; [congruence|]. left. split; [done|]. etrans; [done|]. split_and!; try done. by rewrite Ef, Ex. }
  intros E4. destruct (on_host_run _ _ _ _ _ E4) as (r5 & E5 & S5 & _). split; [congruence|]. right.
  pose proof (BackupSpec.preserves_open_and_sync (eq output) dir _ _ _ E5) as F5.
  apply (BackupSpec.preserves_nothing_files _ _ _ _ (BackupSpec.preserves_open_and_sync _ _)) in E5 as [Ef5 Ex5].
  simpl in E. rewrite Ef1, Ex1 in E. destruct (fs_of (p_host p) !! temporary) as [md|]; [|done]. simpl in E.
  destruct ((p_host p).2 !! temporary) as [c|]; [|done]. simpl in E. rewrite (Hn dir eq_refl) in E. injection E as _ Ef2 Ex2.
  exists md, c. split_and!; try done; [by apply (Hn dir)| |by rewrite Ef5, <-Ef2, lookup_insert_eq|by rewrite Ex5, <-Ex2, lookup_insert_eq].
  etrans; [by eapply BackupSpec.frame_mono; [|exact F1]|]. by etrans.
Qed.

Context `{!Tempfile} `{!TempfileOk}.

Lemma new_in_cases dir s r s' :
  Backup.new_in dir s = (r, s') →
  ((∀ b, r ≠ Ok b) ∧ BackupSpec.frame nothing s s') ∨
  ∃ temporary, r = Ok temporary ∧ fs_of s !! temporary = None ∧ (∀ q, not_temporary q → temporary ≠ q) ∧
    BackupSpec.frame (eq temporary) s s' ∧ fs_of s' !! temporary = Some private_meta ∧ s'.2 !! temporary = Some [].
Proof.
  intros (Hd & Hi & Hr & [(-> & Ef & Ex)|(a & -> & E)])%BackupSpec.syscall_cases.
  - left. split; [done|]. split_and!; try done. by rewrite Ef, Ex.
  - right. simpl in E. injection E as <- Ef Ex. exists (temp_path dir (fs_of s)).
    split_and!; [done|apply temp_new|intros q; apply BackupSpec.temp_ne| |by rewrite <-Ef, lookup_insert_eq|by rewrite <-Ex, lookup_insert_eq].
    split_and!; try done. intros q Hq. by rewrite <-Ef, <-Ex, !lookup_insert_ne.
Qed.

Lemma protect_cases context temporary (p : Process T) r p' :
  smap_err (λ _, Caused context ByIo) (on_env (set_permissions temporary 0x180)) p = (r, p') →
  BackupSpec.frame (eq temporary) (p_host p) (p_host p') ∧ p_socket p' = p_socket p ∧ (p_host p').2 = (p_host p).2 ∧
  (∀ md, fs_of (p_host p) !! temporary = Some md → r = Ok tt →
     fs_of (p_host p') !! temporary = Some (mkMeta (file_type md) 0x180)).
Proof.
  destruct p as [[w files] ans pr so]. unfold smap_err, on_env, szoom, set_permissions, sbind, io_fault. cbn [p_host fst snd]. simpl.
  destruct (env_faults _ _); [by intros [= <- <-]|]. unfold sgets. simpl.
  destruct (env_fs (w_env w) !! temporary) as [md|] eqn:El; intros [= <- <-]; [|done].
  split; [|split; [done|split; [done|]]]; unfold BackupSpec.fs_of in *; simpl in *.
  - split_and!; try done. intros q Hq. unfold BackupSpec.fs_of. simpl. by rewrite lookup_insert_ne.
  - intros md' Hm _. rewrite El in Hm. injection Hm as <-. by rewrite lookup_insert_eq.
Qed.

(** Where a download put its output, and what the client had received. *)
Definition downloaded (socket : Path) (text : bytes) (output : Path) (p p' : Process T) : Prop :=
  ∃ c c' rq rest data, connect socket = Some c ∧ p_socket p' = Some c' ∧ frame (RqGetStream text) = Some rq ∧
    sent c' = sent c ++ rq ∧ frame_at (contents c) (ROk SStreamReady) rest ∧ upload_of rest = Some data ∧
    fs_of (p_host p') !! output = Some private_meta ∧ (p_host p').2 !! output = Some data.

(** The part of [get] under the temporary file. *)
Lemma fill_output_cases socket text temporary output (p : Process T) r p' :
  fs_of (p_host p) !! temporary = Some private_meta → (p_host p).2 !! temporary = Some [] → temporary ≠ output →
  (smap_err (λ _, Caused (Some [PText "could not protect temporary output for "; PPath output]) ByIo)
      (on_env (set_permissions temporary 0x180)) ;*
    connected socket (
      on_socket "could not start streaming download" (write_frame (RqGetStream text)) ;*
      let* response := read_response in
      slift (expect_stream_ready response) ;*
      let* fuel := sgets (λ s, S (unread s.2)) in
      receive_items fuel temporary output) ;*
    io [PText "could not sync temporary output for "; PPath output] (Backup.syscall (λ s, Some (tt, s))) ;*
    publish_private_temporary_file temporary output ;*
    println [PText "verified and wrote "; PPath output]) p = (r, p') →
  ((∀ b, r ≠ Ok b) ∧ BackupSpec.frame (eq temporary) (p_host p) (p_host p')) ∨
  BackupSpec.frame (two temporary output) (p_host p) (p_host p') ∧ downloaded socket text output p p'.
Proof.
  intros Hm Hc Hne E. unfold sbind at 1 in E. destruct (smap_err _ _ p) as [[[]|e] p1] eqn:E1; apply protect_cases in E1 as (F1 & S1 & X1 & M1).
  2: { injection E as <- <-. by left. }
  specialize (M1 _ Hm eq_refl). rewrite <-X1 in Hc.
  unfold sbind at 1 in E. destruct (connected socket _ p1) as [r2 p2] eqn:E2. apply fetch_cases in E2 as (F2 & Ef2 & Hd).
  assert (BackupSpec.frame (eq temporary) (p_host p) (p_host p2)) as F by (by etrans).
  destruct r2 as [[]|e]; [|injection E as <- <-; by left].
  destruct (Hd _ Hc eq_refl) as (c & c' & rq & rest & data & Hcn & Hp2 & Hrq & Hs & Hf & Hu & Hx).
  unfold sbind at 1 in E. destruct (io _ _ p2) as [r3 p3] eqn:E3. apply on_host_run in E3 as (r4 & E4 & S4 & Hr4).
  pose proof (BackupSpec.preserves_tick nothing _ _ _ E4) as F4. pose proof (BackupSpec.frame_nothing_eq _ _ F4) as [Ef4 Ex4].
  assert (BackupSpec.frame (eq temporary) (p_host p) (p_host p3)) as F3 by (etrans; [done|]; by eapply BackupSpec.frame_mono; [|exact F4]).
  destruct r3 as [[]|e]; [|injection E as <- <-; by left].
  unfold sbind at 1 in E. destruct (publish_private_temporary_file temporary output p3) as [r5 p5] eqn:E5.
  apply publish_private_cases in E5 as [S5 [[Hr F5]|(md & cc & Hmd & Hcc & Hno & F5 & Hfo & Hxo)]].
  - left. destruct r5 as [[]|e]; [by destruct (Hr tt)|]. injection E as <- <-. split; [done|]. etrans; [done|].
    by eapply BackupSpec.frame_mono; [|exact F5].
  - right. assert (p_host p' = p_host p5 ∧ p_socket p' = p_socket p5) as [Hh' Hp'] by (destruct r5; by injection E as _ <-).
    unfold downloaded. rewrite Hh'. split. { etrans; [by apply BackupSpec.frame_two_l|by apply BackupSpec.frame_two_r]. }
    exists c, c', rq, rest, data. split_and!; try done; [congruence|..].
    + rewrite Hfo, <-Hmd, Ef4, Ef2, M1. done.
    + rewrite Hxo, <-Hcc, Ex4, Hx. done.
Qed.

(** What a download leaves on the disk, whatever arrives. *)
Lemma get_cases socket text output (p p' : Process T) r :
  not_temporary output → get socket text output p = (r, p') →
  existing_kept (p_host p) (p_host p') ∧
  (((∀ b, r ≠ Ok b) ∧ fs_of (p_host p') !! output = fs_of (p_host p) !! output ∧
      (p_host p').2 !! output = (p_host p).2 !! output) ∨
   fs_of (p_host p) !! output = None ∧ downloaded socket text output p p').
Proof.
  intros Hout E. unfold get, sbind at 1 in E.
  destruct (validate_new_plaintext_output output p) as [[dir|e] p1] eqn:E1; apply validate_output_cases in E1 as (F1 & S1 & Hn);
    pose proof (BackupSpec.frame_nothing_eq _ _ F1) as [Ef1 Ex1].
  2: { injection E as <- <-. split; [by eapply BackupSpec.frame_mono; [|exact F1]|]. left. by rewrite Ef1, Ex1. }
  specialize (Hn dir eq_refl). unfold sbind at 1 in E. destruct (io _ _ p1) as [r2 p2] eqn:E2.
  apply on_host_run in E2 as (r3 & E3 & S3 & Hr3).
  apply new_in_cases in E3 as [[Hr F3]|(tmp & -> & Ht & Hne & F3 & Hm & Hc)].
  { destruct r3 as [tmp|e3]; [by destruct (Hr tmp)|]. subst r2. injection E as <- <-.
    pose proof (BackupSpec.frame_nothing_eq _ _ F3) as [Ef3 Ex3].
    split; [|left; by rewrite Ef3, Ex3, Ef1, Ex1]. unfold existing_kept. etrans; by eapply BackupSpec.frame_mono; [|eassumption]. }
  subst r2. cbv beta in E. unfold dropping_temporary in E. destruct (sbind _ _ p2) as [r4 p4] eqn:E4. injection E as <- <-.
  specialize (Hne _ Hout). rewrite Ef1 in Ht.
  destruct (Backup.remove_file tmp (p_host p4)) as [r5 s5] eqn:E5.
  apply (BackupSpec.preserves_remove (eq tmp) tmp eq_refl) in E5 as F5. cbn [snd].
  assert (BackupSpec.frame (eq tmp) (p_host p) (p_host p2)) as F2 by (etrans; [|exact F3]; by eapply BackupSpec.frame_mono; [|exact F1]).
  apply fill_output_cases in E4 as [[Hr F4]|[F4 Hdl]]; [..|done|done|done].
  - assert (BackupSpec.frame (eq tmp) (p_host p) s5) as F by (etrans; [done|]; by etrans). split; [by eapply BackupSpec.existing_kept_tmp|].
    left. split; [done|]. destruct F as (_&_&_&F). by apply F.
  - assert (BackupSpec.frame (two tmp output) (p_host p) s5) as F.
    { etrans; [by apply BackupSpec.frame_two_l|]. etrans; [done|]. by apply BackupSpec.frame_two_l. }
    split; [by apply (BackupSpec.existing_kept_two tmp output)|]. right. split; [done|].
    destruct Hdl as (c & c' & rq & rest & data & ? & ? & ? & ? & ? & ? & Hfo & Hxo).
    destruct F5 as (_&_&_&F5). destruct (F5 output Hne) as [Hf5 Hx5].
    exists c, c', rq, rest, data. split_and!; try done; simpl; congruence.
Qed.

End download.

(** ** The client and the daemon

    A fresh connection with its client end going from [c] to [c'] and its
    daemon end from [d] to [d']: each end receives what the other sent. *)
Record exchange {C D : Type} `{UnixStreamOk C} `{UnixStreamOk D} (c c' : C) (d d' : D) : Prop := {
  ex_client_new : sent c = [];
  ex_daemon_new : sent d = [];
  ex_upstream : contents d = sent c';
  ex_downstream : contents c = sent d';
}.

Section composed.
Context `{PrimitivesOk} `{!Symlinks} `{!Base64} `{!SqliteFile} `{!Tempfile} `{!TempfileOk} `{!Json BackupManifest} `{!HexCrate}.
Context `{!Json IssueRequest} `{!Json IssueResponse} `{!Json HeadRequest} `{!Json HeadResponse}.
Context `{!Json Request} `{!JsonOk Request} `{!Json Response} `{!JsonOk Response} {Net : Type} `{!Transport Net}.
Context `{UnixStreamOk C} `{!Connect C} `{OpenFileOk F} `{UnixStreamOk D}.

(** The daemon's end of an exchange whose first answer the client could read. *)
Lemma exchange_served request rq up resp down (c c' : C) (d d' : D) (h h' : Host Net) :
  exchange c c' d d' → frame request = Some rq → sent c' = sent c ++ rq ++ up → frame_at (contents c) resp down →
  Daemon.serve_stream (h, d) = (Ok tt, (h', d')) →
  frame_at (sent d') resp down ∧
  ((∃ e, resp = RError e ∧ h' = h) ∨
   ∃ d1, sent d1 = [] ∧ contents d1 = up ∧ serve_request request (h, d1) = (Ok tt, (h', d'))).
Proof.
  intros [Xc Xd Xu Xo] Hrq Hs Hf E. rewrite Xc in Hs. rewrite Hs in Xu. rewrite Xo in Hf. split; [done|].
  destruct (serve_known_request _ _ _ _ _ _ _ _ Hrq Xu E) as [(Hh & Hr)|(d1 & Hs1 & Hc1 & E1)].
  - left. destruct (Hr eq_refl) as (e & f & He & Hs'). rewrite Xd in Hs'. simpl in Hs'.
    rewrite Hs', <-(app_nil_r f) in Hf. destruct (frame_at_frame _ _ _ _ _ He Hf) as [? _]. eauto.
  - right. exists d1. split_and!; [congruence|done..].
Qed.

(** A streamed exchange that the client saw accepted had a valid identifier. *)
Lemma accepted_stream text m (h h' : Host Net) (d d' : D) down :
  sent d = [] → frame_at (sent d') (ROk SStreamReady) down →
  Daemon.with_long_permit_on (Daemon.write_response (Daemon.overloaded_response "daemon long operation is in progress"))
    (match Daemon.parse_object_id text with Err response => Daemon.write_response response | Ok object_id => m object_id end) (h, d) =
    (Ok tt, (h', d')) →
  ∃ o, Daemon.parse_object_id text = Ok o.
Proof.
  intros Hd Hf E. destruct (Daemon.parse_object_id text) as [o|resp] eqn:Hp; [eauto|]. exfalso.
  destruct (refused_stream text resp m h h' d d' (Ok tt) Hp) as (_ & _ & Hr); [by rewrite Hp|].
  destruct (Hr eq_refl) as (e & f & He & Hs). rewrite Hd in Hs. simpl in Hs. rewrite Hs, <-(app_nil_r f) in Hf.
  by destruct (frame_at_frame _ _ _ _ _ He Hf) as [? _].
Qed.

(** C11: an upload from file to vault.  When the client reports success, over
    a connection whose other end the daemon served to its end, the daemon's
    vault reads back, under the identifier given to the client, exactly the
    bytes of the input file. *)
Theorem put_stores_file socket text input (p p' : Process C) (c c' : C) (h h' : Host Net) (d d' : D) :
  put (F:=F) socket text input p = (Ok tt, p') → connect socket = Some c → p_socket p' = Some c' →
  Daemon.serve_stream (h, d) = (Ok tt, (h', d')) → exchange c c' d d' →
  wf_id (v_vault_id (m_value (ds_vault (h_daemon h)))) → db_wf (w_db (h_world h)) →
  ∃ o content, Daemon.parse_object_id text = Ok o ∧ (p_host p).2 !! input = Some content ∧
    reads_back (m_value (ds_vault (h_daemon h))) (w_db (h_world h')) o content.
Proof.
  intros E Hc Hc' Ed X Hv Hwf.
  apply put_ok in E as (content & c0 & c0' & rq & ds & rest & vid & rest' & Hin & Hc0 & Hc0' & Hrq & Hds & Hcat & Hsent & F1 & F2).
  assert (c0 = c) as -> by congruence. assert (c0' = c') as -> by congruence.
  destruct (exchange_served _ _ _ _ _ _ _ _ _ _ _ X Hrq Hsent F1 Ed) as [F3 [(e & ? & _)|(d1 & Hs1 & Hc1 & E)]]; [done|].
  cbn [serve_request] in E. destruct (accepted_stream _ _ _ _ _ _ _ Hs1 F3 E) as [o Hp].
  destruct (put_stream_outcomes text o _ _ _ _ _ Hp Hv Hwf E) as (_ & _ & Hr). rewrite Hs1 in Hr.
  destruct (Hr eq_refl) as [(e & f & Hf & Hs)|(ready & f & Hrd & Hs & Hf)]; simpl in Hs; rewrite Hs in F3.
  { rewrite <-(app_nil_r f) in F3. by destruct (frame_at_frame _ _ _ _ _ Hf F3) as [? _]. }
  apply (frame_at_frame _ _ _ _ _ Hrd) in F3 as [_ ->]. destruct Hf as [[e He]|[_ (data & Hup & Hst)]].
  - exfalso. rewrite <-(app_nil_r f) in F2. by eapply frame_at_error in F2.
  - exists o, content. split_and!; [done..|]. unfold upload_of in Hup. rewrite Hc1, <-(app_nil_r (client_items ds)) in Hup.
    rewrite scan_client_items in Hup by done. injection Hup as <-. by rewrite <-Hcat.
Qed.

(** Requests that are answered with one response. *)
Definition is_stream (r : Request) : bool :=
  match r with RqPutStream _ | RqGetStream _ => true | _ => false end.

(** The answer the client reads is the handler's, or a refusal. *)
Lemma answer_dispatched r rq resp rest (c c' : C) (d d' : D) (h h' : Host Net) :
  is_stream r = false → exchange c c' d d' → frame r = Some rq → sent c' = sent c ++ rq → frame_at (contents c) resp rest →
  Daemon.serve_stream (h, d) = (Ok tt, (h', d')) →
  (∃ e, resp = RError e ∧ h' = h) ∨ Daemon.dispatch r h = (resp, h').
Proof.
  intros Hr X Hrq Hs Hf Ed. rewrite <-(app_nil_r rq) in Hs.
  destruct (exchange_served _ _ _ _ _ _ _ _ _ _ _ X Hrq Hs Hf Ed) as [Hf1 [?|(d1 & Hs1 & _ & E1)]]; [by left|]. right.
  assert ((let* response := Daemon.dispatch_request r in Daemon.write_response response) (h, d1) = (Ok tt, (h', d'))) as E2
    by (by destruct r).
  unfold sbind, Daemon.dispatch_request in E2. destruct (Daemon.dispatch r h) as [v h1].
  apply write_response_cases in E2 as (Hh1 & _ & Hw). destruct (Hw _ eq_refl) as (f & Hf2 & Hs2).
  rewrite Hs1 in Hs2. simpl in Hs2. rewrite Hs2, <-(app_nil_r f) in Hf1.
  destruct (frame_at_frame v resp f [] rest Hf2 Hf1) as [Hv _]. by rewrite Hv, Hh1.
Qed.

(** C15: a request and its answer.  Over a connection the daemon served to its
    end, a result the client obtains for a request is the daemon's result for
    that very request, and the daemon's state is the one the handler left; an
    error message the client shows is one the daemon answered, and then the
    daemon either refused the connection without effect or its handler failed
    with that error. *)
Theorem request_answered socket r (p p' : Process C) res (c c' : C) (h h' : Host Net) (d d' : D) :
  request socket r p = (res, p') → is_stream r = false → connect socket = Some c → p_socket p' = Some c' →
  Daemon.serve_stream (h, d) = (Ok tt, (h', d')) → exchange c c' d d' →
  p_host p' = p_host p ∧
  match res with
  | Ok s => Daemon.dispatch r h = (ROk s, h')
  | Err (Bail line) => ∃ e, Bail line = daemon_error e ∧ (h' = h ∨ Daemon.dispatch r h = (RError e, h'))
  | Err (Caused _ _) => True
  end.
Proof.
  intros E Hr Hc Hc' Ed X. apply request_cases in E as [[Hh _] E]. split; [done|].
  destruct res as [s|[line|]]; [..|done].
  - destruct E as (c0 & c0' & rq & rest & Hc0 & Hc0' & Hrq & Hs & Hf).
    assert (c0 = c) as -> by congruence. assert (c0' = c') as -> by congruence.
    by destruct (answer_dispatched _ _ _ _ _ _ _ _ _ _ Hr X Hrq Hs Hf Ed) as [(e & ? & _)|?].
  - destruct E as (c0 & c0' & rq & rest & e & Hc0 & Hc0' & Hrq & Hs & Hf & Hl).
    assert (c0 = c) as -> by congruence. assert (c0' = c') as -> by congruence. exists e. split; [done|].
    destruct (answer_dispatched _ _ _ _ _ _ _ _ _ _ Hr X Hrq Hs Hf Ed) as [(e' & _ & ?)|?]; [by left|by right].
Qed.

(** *** Lifecycle commands *)

Lemma with_vault_ok operation (h h' : Host Net) s :
  Daemon.with_vault operation h = (ROk s, h') →
  ∃ s', operation ((m_value (ds_vault (h_daemon h)), h_world h), h_files h) = (Ok s, s') ∧
    m_value (ds_vault (h_daemon h')) = s'.1.1.
Proof.
  unfold Daemon.with_vault, lock_mutex, Daemon.on_vault. destruct (m_poisoned _); [done|].
  destruct (operation _) as [[a|e] [[v w] x]]; [|done]. intros [= <- <-]. by eexists.
Qed.

Lemma with_witness_ok operation (h h' : Host Net) s :
  Daemon.with_witness operation h = (ROk s, h') →
  ∃ w s', operation ((m_value (ds_vault (h_daemon h)), h_world h), w) = (Ok s, s') ∧
    m_value (ds_vault (h_daemon h')) = s'.1.1.
Proof.
  unfold Daemon.with_witness, lock_mutex, Daemon.on_vault. destruct (ds_witness (h_daemon h)) as [w|]; [|done].
  destruct (m_poisoned _); [done|]. destruct (m_poisoned _); [done|].
  destruct (operation _) as [[a|e] [[v wd] x]] eqn:E; [|done]. intros [= <- <-]. eauto.
Qed.

Lemma secret_op_keeps `{Read R} `{Write W} `{WitnessProvider P} {X A} (m : Op X A) s a s' :
  Lifecycle.secret_op (R:=R) (W:=W) (P:=P) m → m s = (Ok a, s') → s'.1.1 = s.1.1.
Proof.
  intros (body & -> & Hk & _)%Lifecycle.secret_op_body (s1 & E & _ & _ & Ev)%Refinement.lock_after_failure_eq.
  apply Hk in E. congruence.
Qed.

(** The commands that change the lifecycle of the daemon's vault: their
    socket, and the status they announce. *)
Definition lifecycle_command (command : Command) : option (Path * VaultStatus) :=
  match command with
  | CmdUnlock socket => Some (socket, StatusUnlocked)
  | CmdLock socket | CmdRotatePassphrase socket => Some (socket, StatusLocked)
  | _ => None
  end.

Lemma unlock_unlocks {X} pw s a (s' : VS X) : Vault.unlock pw s = (Ok a, s') → Vault.status s'.1.1 = StatusUnlocked.
Proof. intros E. unfold Vault.unlock in E. do 3 sbind_step E. by injection E as _ <-. Qed.

Lemma handled_lifecycle r (h h' : Host Net) status :
  Daemon.dispatch r h = (ROk SEmpty, h') →
  match r with RqUnlock _ => Some StatusUnlocked | RqLock | RqRotatePassphrase _ _ => Some StatusLocked | _ => None end = Some status →
  Vault.status (m_value (ds_vault (h_daemon h'))) = status.
Proof.
  unfold Daemon.dispatch. destruct (_ && _); [done|]. destruct r; try done; intros E [= <-].
  - unfold Daemon.unlock in E. destruct (Daemon.has_witness h).
    + apply with_witness_ok in E as (w & s' & E & ->). do 3 sbind_step E. injection E as <-.
      set (Pv := HttpsWitnessProvider Net) in *.
      assert (s1.1.1 = s0.1.1) as -> by (apply (secret_op_keeps (R:=bytes) (W:=bytes) (P:=Pv) _ _ _ _ (Lifecycle.secret_verify_witness (R:=bytes) (W:=bytes) (P:=Pv)) E2)).
      assert (s0.1.1 = s.1.1) as -> by (apply (secret_op_keeps (R:=bytes) (W:=bytes) (P:=Pv) _ _ _ _ (Lifecycle.secret_recover (R:=bytes) (W:=bytes) (P:=Pv)) E1)).
      by eapply unlock_unlocks.
    + apply with_vault_ok in E as (s' & E & ->). unfold Daemon.empty in E. sbind_step E. injection E as <-. by eapply unlock_unlocks.
  - apply with_vault_ok in E as (s' & E & ->). unfold Daemon.empty in E. sbind_step E. injection E as <-.
    unfold Vault.lock_op in E0. sbind_step E0. by injection E0 as _ <-.
  - apply with_vault_ok in E as (s' & E & ->). unfold Daemon.empty in E. sbind_step E. injection E as <-.
    unfold Vault.rotate_passphrase in E0. sbind_step E0. apply Refinement.lock_after_failure_eq in E0 as (s2 & E0 & _ & _ & ->).
    do 4 sbind_step E0. by injection E0 as _ <-.
Qed.

(** What a lifecycle command announces is so.  When [unlock], [lock] or
    [rotate-passphrase] reports success over a connection the daemon served to
    its end, the daemon's vault is unlocked, locked and locked. *)
Lemma lifecycle_announced command socket status (p p' : Process C) (c c' : C) (h h' : Host Net) (d d' : D) :
  lifecycle_command command = Some (socket, status) → main (F:=F) command p = (Ok tt, p') →
  connect socket = Some c → p_socket p' = Some c' →
  Daemon.serve_stream (h, d) = (Ok tt, (h', d')) → exchange c c' d d' →
  Vault.status (m_value (ds_vault (h_daemon h'))) = status.
Proof.
  intros Hcmd E Hc Hc' Ed X.
  assert (∀ r message p1, is_stream r = false →
    match r with RqUnlock _ => Some StatusUnlocked | RqLock | RqRotatePassphrase _ _ => Some StatusLocked | _ => None end = Some status →
    empty socket r message p1 = (Ok tt, p') → Vault.status (m_value (ds_vault (h_daemon h'))) = status) as Hempty.
  { intros r message p1 Hr Hst E1. unfold empty in E1. sbind_step E1. destruct a; try done. injection E1 as <-.
    apply request_cases in E0 as [_ (c0 & c0' & rq & rest & Hc0 & Hc0' & Hrq & Hs & Hf)]. cbn [p_socket] in Hc'.
    assert (c0 = c) as -> by congruence. assert (c0' = c') as -> by congruence.
    destruct (answer_dispatched _ _ _ _ _ _ _ _ _ _ Hr X Hrq Hs Hf Ed) as [(e & ? & _)|Hd]; [done|]. by eapply handled_lifecycle. }
  destruct command; try done; injection Hcmd as -> <-; cbn [main] in E.
  - unfold unlock in E. sbind_step E. by eapply Hempty in E.
  - by eapply Hempty in E.
  - unfold rotate_passphrase in E. do 2 sbind_step E. by eapply Hempty in E.
Qed.

(** *** Backup *)

Context `{!SqliteFileOk} `{!JsonOk BackupManifest}.



(** Items that end with an error item are not a complete stream. *)
Lemma scan_error ds resp f :
  Forall piece_ok ds → item_bytes (ItemError resp) = Some f → upload_of (framed ds ++ f) = None.
Proof.
  intros Hds Hf. unfold upload_of. enough ((scan (framed ds ++ f)).2 = false) as -> by done.
  induction Hds as [|d ds Hd _ IH]; unfold framed in *; cbn [map concat].
  - cbn [item_bytes] in Hf. destruct (frame resp) as [g|]; [|done]. apply (inj Some) in Hf as <-.
    unfold scan. cbn [scan_fuel app]. destruct (_ <? 4)%nat; [done|].
    rewrite take_app_length' by (by rewrite length_be_bytes). rewrite from_be_len by (unfold STREAM_ERROR, u32_max; lia). done.
  - rewrite <-!(assoc_L (++)). rewrite scan_item; [done|by rewrite length_be_bytes| |done].
    apply from_be_len. destruct Hd. unfold MAX_STREAM_CHUNK_BYTES, u32_max in *. lia.
Qed.

(** C10: a download from vault to file.  Under any faults and whatever
    arrives, no file that existed is changed; the output path is left as it
    was, or it is a new file readable by its owner only that holds the data of
    a stream received up to its end item, and only then can the command
    succeed.  Over a connection the daemon served to its end (without failed
    writes), those data are the whole plaintext of a version of the requested
    object that the daemon's vault verified.  (The output is not one of the
    client's own temporary names.) *)
Theorem get_delivers_plaintext socket text output (p p' : Process C) r :
  not_temporary output → get socket text output p = (r, p') →
  existing_kept (p_host p) (p_host p') ∧
  (((∀ b, r ≠ Ok b) ∧ fs_of (p_host p') !! output = fs_of (p_host p) !! output ∧
      (p_host p').2 !! output = (p_host p).2 !! output) ∨
   fs_of (p_host p) !! output = None ∧ downloaded socket text output p p' ∧
   ∀ c c' (h h' : Host Net) (d d' : D),
     connect socket = Some c → p_socket p' = Some c' →
     Daemon.serve_stream (h, d) = (Ok tt, (h', d')) → exchange c c' d d' → reliable (T:=D) →
     ∃ o root_key sv m dek cs parts, Daemon.parse_object_id text = Ok o ∧
       v_root_key (m_value (ds_vault (h_daemon h))) = Some root_key ∧
       Integrity.verified_read (v_vault_id (m_value (ds_vault (h_daemon h)))) root_key (w_db (h_world h)) o sv m dek cs parts ∧
       (p_host p').2 !! output = Some (concat parts)).
Proof.
  intros Hout E0. destruct (get_cases _ _ _ _ _ _ Hout E0) as [Hk [Hl|[Hn Hdl]]]; (split; [done|]); [by left|].
  right. split; [done|]. split; [done|].
  intros c c' h h' d d' Hc Hc' Ed X Hrel.
  destruct Hdl as (c0 & c0' & rq & rest & data & Hc0 & Hc0' & Hrq & Hs & Hf & Hup & _ & Hx).
  assert (c0 = c) as -> by congruence. assert (c0' = c') as -> by congruence. rewrite <-(app_nil_r rq) in Hs.
  destruct (exchange_served _ _ _ _ _ _ _ _ _ _ _ X Hrq Hs Hf Ed) as [F1 [(e & ? & _)|(d1 & Hs1 & _ & E)]]; [done|].
  cbn [serve_request] in E. destruct (accepted_stream _ _ _ _ _ _ _ Hs1 F1 E) as [o Hp].
  pose proof (get_stream_outcomes text o _ _ _ _ _ Hp E) as [_ Hr]. rewrite Hs1 in Hr.
  destruct (Hr eq_refl) as [(e & f & He & Hs2)|[(ready & e & f & Hrd & He & pre & Hs2 & Hpre)
    |(ready & ds & rk & sv & m & dek & cs & parts & Hrd & Hds & Hs2 & Hcat & Hrk & Hvr & _)]].
  - simpl in Hs2. rewrite Hs2, <-(app_nil_r f) in F1. by destruct (frame_at_frame _ _ _ _ _ He F1) as [? _].
  - exfalso. destruct (Hpre Hrel) as (ds & Hds & ->). simpl in Hs2. rewrite Hs2, <-(assoc_L (++)) in F1.
    apply (frame_at_frame _ _ _ _ _ Hrd) in F1 as [_ ->]. by rewrite (scan_error _ _ _ Hds He) in Hup.
  - simpl in Hs2. rewrite Hs2 in F1. apply (frame_at_frame _ _ _ _ _ Hrd) in F1 as [_ ->].
    unfold upload_of in Hup. rewrite <-(app_nil_r (client_items ds)), scan_client_items in Hup by done. injection Hup as <-.
    exists o, rk, sv, m, dek, cs, parts. split_and!; [done..|]. by rewrite Hx, Hcat.
Qed.

End composed.
End CliSpec.
