(* ===== verification/Guarantees.v ===== *)
(** * The contract of the vault

    The properties a user of [vlt1-core] relies on, each proved from the
    component lemmas and applied to a concrete vault over the primitives of
    [Toy]. *)

From S2P Require Import Prelude Format Cde Crypto Witness Fs Storage Vault WitnessService Backup Protocol Toy ToyWire ToyFiles StorageSpec VaultSpec StreamSpec.
From S2P Require Import Refinement Integrity Lifecycle WitnessSpec.
From Stdlib Require Import ZArith Lia.
From stdpp Require Import base numbers list gmap strings sorting relations.

Open Scope Z_scope.
Open Scope vlt_scope.

(** ** A concrete vault *)

Module Scenario.
Import Toy.

Definition path : Path := mkPath true ["n"].
Definition passphrase : bytes := str_bytes "pw".
Definition created := Vault.create path passphrase world.
Definition no_vault : Vault := mkVault path (Crypto.mkEnvelope (mkId []) [] Crypto.interactive (mkSealed [] [])) None.
Definition vault : Vault := match created.1 with Ok v => v | Err _ => no_vault end.
Definition world1 : World := created.2.
Definition plaintext : bytes := [104; 101; 108; 108; 111].
Definition put_run := Vault.put_with_chunk_size oid plaintext 2 ((vault, world1), tt).
Definition world2 : World := put_run.2.1.2.

Lemma created_ok : created = (Ok vault, world1).
Proof.
  assert (is_ok created.1 = true) as E by by vm_compute.
  unfold vault, world1. destruct created as [[v|e] w]; done.
Qed.

End Scenario.

Module Guarantees.
Import StorageSpec VaultSpec StreamSpec Refinement Integrity Lifecycle WitnessSpec.

Section guarantees.
Context `{PrimitivesOk}.

(** ** The session specification *)

(** C2: a vault is a map from objects to plaintexts.  From the creation of a
    vault on, any sequence of publications (buffered or streamed from any
    finite reader), reads, verification sweeps and locks, under any schedule
    of storage faults and with any random bytes, answers as the abstract map
    prescribes: a successful publication inserts, a read returns exactly the
    last value inserted or reports that there is none, an error on intact data
    is only [Locked] or [Storage], and a failed publication has taken effect
    wholly or not at all. *)
Theorem session_refines_map `{ReadOk R} path pw w v w1 (cs : list (Command (R:=R))) resps s' :
  Vault.create path pw w = (Ok v, w1) → Forall wf_command cs → session cs (v, w1) = (resps, s') →
  ∃ root_key kv, v_root_key v = Some root_key ∧ spec_session ∅ cs resps kv ∧
    refines (v_vault_id v) root_key kv (w_db s'.2).
Proof.
  intros (rk & Hk & _ & Hid & _ & _ & Href)%create_ok Hcs Hses.
  eapply (session_simulation _ rk ∅) in Hses as (kv & Hspec & Hr & _); [by eauto 10|done|done| |done].
  split; [done|by left].
Qed.

(** What is published is what is read.  If publishing a plaintext, with any
    chunk size, reports success, then reading the object from the resulting
    tables returns that plaintext, in any later environment without storage
    faults. *)
Lemma put_get_roundtrip {X} o pt size v w (x : X) y s' w2 :
  wf_id o → wf_id (v_vault_id v) → 0 ≤ size → db_wf (w_db w) →
  Vault.put_with_chunk_size o pt size ((v, w), x) = (Ok y, s') →
  w_db w2 = w_db s'.1.2 → no_faults w2 →
  ∃ w3, Vault.get o ((s'.1.1, w2), x) = (Ok pt, ((v, w3), x)) ∧ w_db w3 = w_db w2.
Proof.
  intros Ho Hv Hs Hwf (s1 & E & Ew & _ & Ev)%lock_after_failure_eq Hdb Hn. simpl in Ev.
  apply put_inner_cases in E as (F & _ & [[? _]|(sv & cs & rk & Hk & <- & Edb & Hadm & Hse & _)]); try done.
  rewrite Ev, F. simpl. destruct (get_to_writer_reads v w2 ([] : bytes) rk (sv_object_id sv) pt) as (w3 & Ht & Hc).
  - done.
  - rewrite Hdb, Ew, Edb. by apply stored_published.
  - destruct Hc as [Hc|[_ Hf]]; [|done]. exists w3. split; [|apply Ht].
    unfold Vault.get, Vault.lock_after_failure, Vault.get_inner. by rewrite Hc.
Qed.

(** A streamed publication stores exactly what its reader delivers, however
    the reader splits its data and whenever it is interrupted: if the upload
    reports success, reading the object returns the reader's contents. *)
Lemma put_stream_get_roundtrip `{ReadOk R} {X} o size v w (rd : R) y s' w2 (x : X) :
  wf_id o → wf_id (v_vault_id v) → 0 ≤ size → db_wf (w_db w) →
  Vault.put_from_reader_with_chunk_size o size ((v, w), rd) = (Ok y, s') →
  w_db w2 = w_db s'.1.2 → no_faults w2 →
  ∃ w3, Vault.get o ((s'.1.1, w2), x) = (Ok (contents rd), ((v, w3), x)) ∧ w_db w3 = w_db w2.
Proof.
  intros Ho Hv Hs Hwf (s1 & E & Ew & _ & Ev)%lock_after_failure_eq Hdb Hn. simpl in Ev.
  apply put_from_reader_cases in E as (F & [[? _]|(sv & cs & rk & Hk & <- & Edb & Hadm & Hse & _)]); try done.
  rewrite Ev, F. simpl. destruct (get_to_writer_reads v w2 ([] : bytes) rk (sv_object_id sv) (contents rd)) as (w3 & Ht & Hc).
  - done.
  - rewrite Hdb, Ew, Edb. by apply stored_published.
  - destruct Hc as [Hc|[_ Hf]]; [|done]. exists w3. split; [|apply Ht].
    unfold Vault.get, Vault.lock_after_failure, Vault.get_inner. by rewrite Hc.
Qed.

(** A streamed upload that does not succeed leaves the tables as they were,
    unless it was already committed: under every fault schedule the result is
    the old tables or the old tables plus the whole new version, and the
    invariant and all stored versions are kept. *)
Lemma stream_atomic `{ReadOk R} o size v w (rd : R) r s' :
  wf_id o → wf_id (v_vault_id v) → 0 ≤ size → db_wf (w_db w) →
  Vault.put_from_reader_with_chunk_size o size ((v, w), rd) = (r, s') →
  db_wf (w_db s'.1.2) ∧ db_extends (w_db w) (w_db s'.1.2) ∧
  (is_ok r = false ∧ w_db s'.1.2 = w_db w ∨
   ∃ sv cs, w_db s'.1.2 = published sv cs None (w_db w) ∧ sv_object_id sv = o ∧
     sv_plaintext_len sv = lenZ (contents rd) ∧ sv_chunk_count sv = lenZ cs).
Proof.
  intros Ho Hv Hs Hwf (s1 & E & -> & _ & _)%lock_after_failure_eq.
  apply put_from_reader_cases in E as (_ & [[? ->]|(sv & cs & rk & _ & Hobj & -> & Hadm & Hse & _)]); [| |done..].
  - split_and!; [done|done|by left].
  - split_and!; [by apply published_wf|by apply published_extends|right]. exists sv, cs.
    destruct (seals_len _ _ _ _ _ Hse), (seals_count _ _ _ _ _ Hse). done.
Qed.

(** C35: the amount of fuel that bounds the two loops of a streamed upload is
    enough: with any larger amount the loops return the same result, so the
    loops of the source terminate and the model never stops early. *)
Theorem upload_terminates `{ReadOk R} fuel vault o x dek size u (s : VS R) :
  0 < size → (read_rank s.2 ≤ fuel)%nat →
  Vault.upload_loop fuel vault o x dek size u s = Vault.upload_loop (read_rank s.2) vault o x dek size u s ∧
  Vault.read_next_chunk_fuel (S fuel) size [] s.2 = Vault.read_next_chunk size s.2.
Proof.
  intros Hs Hf. split; [by apply upload_loop_enough|]. apply read_next_chunk_fuel_enough; lia.
Qed.

(** ** Integrity *)

(** C3: a read succeeds only on authenticated data, whatever the database
    contains.  When [get] returns a plaintext, the active version belongs to
    the object, its data key and manifest opened under the vault's key and the
    additional data of this very version, the manifest is canonical and agrees
    with the stored metadata, a stored receipt verifies for this version, the
    chunks are numbered without gaps and hash to the manifest's digest, and
    the plaintext is the concatenation of the opened chunks, each of the
    length the manifest prescribes.  Nothing in the tables has changed. *)
Theorem get_authenticated {X} v w (x : X) o pt s' :
  Vault.get o ((v, w), x) = (Ok pt, s') →
  ∃ root_key sv m dek cs parts, v_root_key v = Some root_key ∧
    verified_read (v_vault_id v) root_key (w_db w) o sv m dek cs parts ∧ agrees m sv ∧
    pt = concat parts ∧ lenZ pt = sv_plaintext_len sv ∧ w_db s'.1.2 = w_db w.
Proof.
  intros (rk & sv & m & dek & cs & parts & Hk & Hv & -> & _ & Hdb)%get_inv. exists rk, sv, m, dek, cs, parts.
  destruct (vr_manifest _ _ _ _ _ _ _ _ _ Hv) as (_ & _ & _ & _ & _ & Hb%binding_agrees).
  split_and!; try done. by rewrite (vr_len _ _ _ _ _ _ _ _ _ Hv), (ag_len _ _ Hb).
Qed.

(** C28: the sealed manifest determines the plaintext.  If two databases agree
    on an object's pointer and on its version row, but their chunk tables
    differ in any way, and a read succeeds on both, then it returns the same
    plaintext, or the two chunk transcripts are distinct and have the same
    hash. *)
Theorem manifest_determines_plaintext {X} v w1 w2 (x : X) o pt1 pt2 s1 s2 vid :
  Vault.get o ((v, w1), x) = (Ok pt1, s1) → Vault.get o ((v, w2), x) = (Ok pt2, s2) →
  blobs_ok (w_db w1) → blobs_ok (w_db w2) →
  db_objects (w_db w1) !! as_bytes o = Some (as_bytes vid) → db_objects (w_db w2) !! as_bytes o = Some (as_bytes vid) →
  db_versions (w_db w2) !! as_bytes vid = db_versions (w_db w1) !! as_bytes vid →
  pt1 = pt2 ∨ transcript vid (w_db w1) ≠ transcript vid (w_db w2) ∧
              sha256 (transcript vid (w_db w1)) = sha256 (transcript vid (w_db w2)).
Proof.
  intros (rk & sv & m & dek & cs & parts & Hk & Hv & -> & _ & _)%get_inv
         (rk' & sv' & m' & dek' & cs' & parts' & Hk' & Hv' & -> & _ & _)%get_inv Hb Hb' Ho Ho' Hrow.
  assert (rk' = rk) as -> by congruence.
  destruct (verified_read_unique _ _ _ _ _ _ _ _ _ _ _ _ _ _ _ Hv Hv' Hb Hb') as [_ Hc].
  - congruence.
  - intros vid'. rewrite Ho. by intros [= <-].
  - assert (sv_version_id sv = vid) as Hx.
    { apply Crypto.id_ext. pose proof (vr_active _ _ _ _ _ _ _ _ _ Hv). congruence. }
    rewrite Hx in Hc. destruct Hc as [->|Hc]; auto.
Qed.

(** C27: nothing unverified reaches the caller.  If a read of any outcome has
    written anything into any sink, then the version is the active one, its
    data key and manifest were authenticated and agree with the metadata, and
    the complete stored chunk list hashes to the manifest's digest. *)
Theorem nothing_written_unverified `{Write W} v w (out : W) o r s' :
  Vault.get_to_writer o ((v, w), out) = (r, s') → s'.2 ≠ out →
  ∃ root_key, v_root_key v = Some root_key ∧ layout_verified (v_vault_id v) root_key (w_db w) o.
Proof.
  intros (s1 & E & _ & Es & _)%lock_after_failure_eq Hne. rewrite Es in Hne. by eapply written_verified.
Qed.

(** ** Lifecycle *)

(** C30: a locked vault refuses every operation that needs the root key, with
    [Locked] and without any effect on the vault, the tables, the random
    generator or the caller's reader, sink or provider. *)
Theorem locked_vault_refuses `{Read R} `{Write W} `{WitnessProvider P} {X A} (m : Op X A) v w x :
  secret_op (R:=R) (W:=W) (P:=P) m → v_root_key v = None →
  m ((v, w), x) = (Err Locked, ((v, w), x)).
Proof.
  intros (body & -> & _ & Hb)%secret_op_body Hk. unfold Vault.lock_after_failure. by rewrite Hb.
Qed.

(** C29: which failures lock the vault.  After an operation on secrets
    ([secret_op]: publications with a positive 32-bit chunk size, reads, sweeps,
    recovery, checkpoint) that returns an authentication, format, invariant,
    storage or witness error the root key is gone and nothing else of the vault
    object has changed; after any other outcome the object is what it was.  A
    failed rotation of the passphrase does the same, and a successful one leaves
    the vault locked.  An unlock that fails leaves the object as it was, and one
    that succeeds adds the key its passphrase opens the envelope to.  A backup
    leaves the object as it was whatever it returns: its storage errors do not
    lock. *)
Theorem failure_locks `{Read R} `{Write W} `{WitnessProvider P} `{!SqliteFile} `{!Tempfile} `{!Json BackupManifest} `{!HexCrate} :
  (∀ X A (m : Op X A) s r s', secret_op (R:=R) (W:=W) (P:=P) m → m s = (r, s') →
     s'.1.1 = match r with
              | Err e => if requires_lock e then mkVault (v_path s.1.1) (v_envelope s.1.1) None else s.1.1
              | Ok _ => s.1.1
              end) ∧
  (∀ X cur new (s : VS X) r s', Vault.rotate_passphrase cur new s = (r, s') →
     match r with
     | Err e => s'.1.1 = if requires_lock e then mkVault (v_path s.1.1) (v_envelope s.1.1) None else s.1.1
     | Ok _ => ∃ env, s'.1.1 = mkVault (v_path s.1.1) env None
     end) ∧
  (∀ X p (s : VS X) r s', Vault.unlock p s = (r, s') →
     match r with
     | Err _ => s'.1.1 = s.1.1
     | Ok _ => ∃ k, Crypto.open_root_key p (v_envelope s.1.1) = Ok k ∧ s'.1.1 = mkVault (v_path s.1.1) (v_envelope s.1.1) (Some k)
     end) ∧
  (∀ destination (s : VS Files) r s', Backup.backup_to destination s = (r, s') → s'.1.1 = s.1.1).
Proof.
  split_and!.
  - intros X A m s r s' (body & -> & Hk & _)%secret_op_body (s1 & E & _ & _ & Ev)%lock_after_failure_eq.
    apply Hk in E. by rewrite Ev, E.
  - intros X cur new s r s' E%rotate_object. by destruct r.
  - intros X p s r s' E%unlock_object. destruct r; [|by subst]. destruct E as (_ & k & ? & ->). by exists k.
  - intros destination [[v w] files] r s'. unfold Backup.backup_to. destruct (Backup.create_backup _ _ _) as [r1 [w1 f1]]. by intros [= _ <-].
Qed.

(** The envelope a vault was created with is what a later [open] of the
    database reads back; the opened vault is locked, and the passphrase
    unlocks it to the root key the vault was created with. *)
Lemma create_open_unlock {X} path pw w v w1 w2 v' w3 (x : X) :
  Vault.create path pw w = (Ok v, w1) → db_meta (w_db w2) = db_meta (w_db w1) →
  Vault.open path w2 = (Ok v', w3) → pw ≠ [] →
  Vault.status v' = StatusLocked ∧ v_envelope v' = v_envelope v ∧ db_wf (w_db w3) ∧
  Vault.unlock pw ((v', w3), x) = (Ok tt, ((mkVault path (v_envelope v) (v_root_key v), w3), x)).
Proof.
  intros Hc Hm Ho Hpw. destruct (create_envelope _ _ _ _ _ Hc) as [Hwe Hmeta].
  apply create_ok in Hc as (rk & Hk & Hp & _ & Hopen & _).
  apply open_ok in Ho as (Hp' & Hn & Hdb & Hwf & row & Hrow & Henv).
  rewrite Hm, Hmeta in Hrow. injection Hrow as <-. rewrite (envelope_of_meta_of_envelope _ Hwe) in Henv. injection Henv as Henv.
  unfold Vault.status. rewrite Hn, Hdb. split_and!; [done|done|done|].
  rewrite (unlock_opens pw rk) by (done || by rewrite <-Henv). by rewrite Hp', <-Henv, Hk.
Qed.


(** C37: a rotation that reports an error has changed nothing on disk, or has
    changed the passphrase.  The permission check runs after the stored envelope
    was replaced, so a failed rotation may leave the new envelope in the tables:
    then the replacement opens it to the root key that the current passphrase
    opened, and a vault opened on these tables unlocks with the replacement; but
    the vault object in memory still has the old envelope and unlocks with the
    current passphrase (and with the replacement only if it opens the old
    envelope too). *)
Theorem rotate_error_after_commit {X} cur new v w (x : X) e s' :
  db_meta (w_db w) = Some (Storage.meta_of_envelope (v_envelope v)) → wf_id (v_vault_id v) →
  Vault.rotate_passphrase cur new ((v, w), x) = (Err e, s') →
  w_db s'.1.2 = w_db w ∨
  ∃ rk env,
    Crypto.open_root_key cur (v_envelope v) = Ok rk ∧ Crypto.open_root_key new env = Ok rk ∧
    w_db s'.1.2 = with_meta (Storage.meta_of_envelope env) (w_db w) ∧
    (∀ path w2 v' w3, w_db w2 = w_db s'.1.2 → Vault.open path w2 = (Ok v', w3) →
       v_envelope v' = env ∧ Vault.unlock new ((v', w3), x) = (Ok tt, ((mkVault path env (Some rk), w3), x))) ∧
    v_envelope s'.1.1 = v_envelope v ∧
    (cur ≠ [] → Vault.unlock cur s' = (Ok tt, ((mkVault (v_path v) (v_envelope v) (Some rk), s'.1.2), s'.2))) ∧
    (∀ s2, Vault.unlock new s' = (Ok tt, s2) → is_ok (Crypto.open_root_key new (v_envelope v)) = true).
Proof.
  intros Hm Hid [(_ & ? & _)|(rk & env & Hcur & Hnew & Hne & Hwe & _ & Hdb & Hv)]%rotate_cases; [by left|right|done|done].
  assert (v_envelope s'.1.1 = v_envelope v ∧ v_path s'.1.1 = v_path v) as [He Hp] by (rewrite Hv; unfold fail_closed; by destruct (requires_lock e)).
  exists rk, env. split_and!; try done.
  - intros path w2 v' w3 E2 (Hp' & _ & _ & _ & row & Hrow & Henv)%open_ok. rewrite E2, Hdb in Hrow. injection Hrow as <-.
    rewrite (envelope_of_meta_of_envelope _ Hwe) in Henv. injection Henv as Henv.
    split; [done|]. rewrite (unlock_opens new rk) by (done || by rewrite <-Henv). by rewrite Hp', <-Henv.
  - intros Hc. destruct s' as [[v1 w1] x1]. cbn [fst snd] in *. rewrite (unlock_opens cur rk) by (done || by rewrite He). by rewrite He, Hp.
  - intros s2 (_ & k & Hk & _)%unlock_object. rewrite He in Hk. by rewrite Hk.
Qed.

End guarantees.

(** ** Witnessed publication *)

Section witnessed.
Context `{PrimitivesOk} {P : Type} `{!WitnessProvider P} `{!ProviderContract P}.

Lemma finalized_fresh vault root_key sv cs pt c e db (p' : P) :
  seals vault root_key sv cs pt → pv_head p' vault (sv_object_id sv) = Some c →
  Witness.verify_request c (Witness.request_new vault (sv_object_id sv) (sv_version_id sv) (sv_manifest sv)) = Ok tt →
  fresh vault (finalized sv c (staged sv cs e db)) p' (sv_object_id sv).
Proof.
  intros Hs Hh (_ & _ & Hx & _)%Witness.verify_request_ok. simpl in Hx.
  exists (sv_version_id sv), (Storage.receipt_row c (rc_epoch c)), c. simpl. split_and!; try done; apply lookup_insert_eq.
Qed.

(** C4: a witnessed publication is visible only with its receipt.  For every
    provider that keeps its contract and every fault schedule, the tables keep
    their invariant and every stored version, and either no active pointer has
    changed (nothing happened, or the version is only staged) or the object
    now has the new plaintext, readable, with a receipt that the provider
    records as the object's current head.  Success means the latter, and no
    other object is affected. *)
Theorem witnessed_put_atomic o pt (s : VS P) r s' :
  wf_id o → wf_id (v_vault_id s.1.1) → pv_inv s.2 → db_wf (w_db s.1.2) →
  Vault.put_with_witness o pt s = (r, s') →
  pv_inv s'.2 ∧ db_wf (w_db s'.1.2) ∧ db_extends (w_db s.1.2) (w_db s'.1.2) ∧
  (is_ok r = false ∧ db_objects (w_db s'.1.2) = db_objects (w_db s.1.2) ∨
   ∃ root_key, v_root_key s.1.1 = Some root_key ∧ stored (v_vault_id s.1.1) root_key (w_db s'.1.2) o pt ∧
     fresh (v_vault_id s.1.1) (w_db s'.1.2) s'.2 o ∧
     ∀ o' pt', o' ≠ o → stored (v_vault_id s.1.1) root_key (w_db s.1.2) o' pt' →
       stored (v_vault_id s.1.1) root_key (w_db s'.1.2) o' pt').
Proof.
  intros Ho Hv Hp Hwf (s1 & E & Ew & Ep & _)%lock_after_failure_eq. rewrite Ew, Ep.
  apply put_with_witness_cases in E as (_ & Hp' & Heff); [|done..]. split; [done|].
  destruct Heff as [[Hr ->]|(sv & cs & rk & e & Hk & <- & Hadm & Hs & Hc)].
  { split_and!; [done|done|by left]. }
  pose proof (staged_wf sv cs e _ Hadm Hwf) as Hwf'. pose proof (staged_extends sv cs e _ Hadm) as Hext.
  destruct Hc as [[Hr ->]|(c & -> & Hh & _ & Hver & ? & ? & ? & _)]; [split_and!; [done|done|by left]|].
  pose proof (version_in_staged (v_vault_id s.1.1) sv cs e _ Hwf Hadm) as Hin.
  assert (db_receipts (staged sv cs e (w_db s.1.2)) !! as_bytes (sv_version_id sv) = None) as Hrn.
  { simpl. destruct (db_receipts _ !! _) as [row|] eqn:E0; [|done]. apply (wf_receipt_fk _ Hwf) in E0.
    rewrite (adm_fresh _ _ _ Hadm) in E0. by destruct E0. }
  split_and!.
  - eapply finalized_wf; [apply (vin_row _ _ _ _ Hin)|done|done].
  - etrans; [exact Hext|]. by apply finalized_extends.
  - right. exists rk. split_and!; [done|by eapply stored_finalized|by eapply finalized_fresh|].
    intros o' pt' Hne Hst. eapply stored_finalized_other; [done|apply (vin_row _ _ _ _ Hin)|done|done|done|].
    by apply stored_staged.
Qed.

(** C24: a rolled-back database is detected.  Suppose the witness once recorded a
    receipt for an object and has since served any requests from anybody.  A
    vault whose tables hold an older receipt for the object's active version
    cannot pass the freshness sweep: it reports no success, in any
    environment. *)
Theorem rollback_detected (p1 p2 : P) v w o (x : VersionId) row h n s' :
  pv_inv p1 → rtc provider_step p1 p2 → pv_head p1 (v_vault_id v) o = Some h →
  wf_id (v_vault_id v) → db_typed (w_db w) →
  db_objects (w_db w) !! as_bytes o = Some (as_bytes x) → db_receipts (w_db w) !! as_bytes x = Some row →
  rr_epoch row < rc_epoch h →
  ~ Vault.verify_active_objects_with_witness ((v, w), p2) = (Ok n, s').
Proof.
  intros Hp Hsteps Hh Hwv Hty Ho Hrow Hlt E.
  destruct (provider_steps_monotone _ _ (v_vault_id v) o Hp Hsteps) as [Hp2 Hmono].
  destruct (verify_with_witness_fresh ((v, w), p2) _ _ Hp2 Hwv Hty E _ _ Ho) as (y & row' & h' & Ho' & Hrow' & Hh' & _ & He & _).
  simpl in *. rewrite Ho in Ho'. injection Ho' as Ho'. rewrite <-Ho', Hrow in Hrow'. injection Hrow' as <-.
  unfold head_epoch in Hmono. rewrite Hh, Hh' in Hmono. lia.
Qed.

(** Crash recovery is idempotent.  If the witness has granted a staged
    publication and the vault crashed before it could finalise it, retrying
    leaves every head of the witness as it is, and the only receipt that can
    be installed, whatever faults occur, is the one that was granted. *)
Lemma recovery_idempotent sv e (s : VS P) c0 r s' :
  pv_inv s.2 → wf_staged s.1.1 sv e →
  pv_head s.2 (v_vault_id s.1.1) (sv_object_id sv) = Some c0 → e < rc_epoch c0 →
  Witness.verify_request c0 (recovery_request s.1.1 sv) = Ok tt →
  Vault.recover_one sv e s = (r, s') →
  (∀ v o, pv_head s'.2 v o = pv_head s.2 v o) ∧
  (is_ok r = false ∧ w_db s'.1.2 = w_db s.1.2 ∨ w_db s'.1.2 = finalized sv c0 (w_db s.1.2)).
Proof. apply recover_one_again. Qed.

(** A recovery that reports success leaves no staged publication behind. *)
Lemma recovery_complete (s : VS P) n s' :
  pv_inv s.2 → wf_id (v_vault_id s.1.1) → db_typed (w_db s.1.2) →
  Vault.recover_pending_witness_publications s = (Ok n, s') → db_pending (w_db s'.1.2) = ∅.
Proof. apply recover_all_ok. Qed.

(** C36: a streamed publication has no receipt, so it cannot coexist with a
    witness.  After a successful streamed publication the freshness sweep
    reports no success, for any provider that keeps its contract. *)
Theorem streamed_put_not_fresh `{ReadOk R} o size v w (rd : R) y s' (p : P) w2 n s2 :
  wf_id o → wf_id (v_vault_id v) → 0 ≤ size → db_wf (w_db w) →
  Vault.put_from_reader_with_chunk_size o size ((v, w), rd) = (Ok y, s') →
  w_db w2 = w_db s'.1.2 → pv_inv p → db_typed (w_db w2) →
  ~ Vault.verify_active_objects_with_witness ((v, w2), p) = (Ok n, s2).
Proof.
  intros Ho Hv Hs Hwf (s1 & E & Ew & _ & _)%lock_after_failure_eq Hdb Hp Hty Hver.
  apply put_from_reader_cases in E as (_ & [[? _]|(sv & cs & rk & _ & <- & Edb & Hadm & _)]); [done| |done..].
  simpl in Edb, Hadm. assert (Edb2 : w_db w2 = published sv cs None (w_db w)) by (rewrite Hdb, Ew; exact Edb).
  assert (Hact : db_objects (w_db w2) !! as_bytes (sv_object_id sv) = Some (as_bytes (sv_version_id sv)))
    by (rewrite Edb2; apply lookup_insert_eq).
  destruct (verify_with_witness_fresh ((v, w2), p) n s2 Hp Hv Hty Hver _ _ Hact) as (x & row & h & Hx & Hrow & _).
  simpl in Hx, Hrow. rewrite Hact in Hx. injection Hx as Hx. rewrite <-Hx, Edb2 in Hrow. simpl in Hrow.
  apply (wf_receipt_fk _ Hwf) in Hrow. rewrite (adm_fresh _ _ _ Hadm) in Hrow. by destruct Hrow.
Qed.

End witnessed.

(** ** On the concrete vault *)

Import Toy ToyWire ToyFiles Scenario.

Definition is_ok_run {A S} (m : Result A * S) (d : A) : A := match m.1 with Ok a => a | Err _ => d end.

Lemma run_ok {A S} (m : Result A * S) d : is_ok m.1 = true → m = (Ok (is_ok_run m d), m.2).
Proof. destruct m as [[a|e] s]; done. Qed.

Lemma created_facts :
  ∃ rk, v_root_key vault = Some rk ∧ wf_id (v_vault_id vault) ∧ db_wf (w_db world1) ∧
    refines (v_vault_id vault) rk ∅ (w_db world1).
Proof.
  destruct (create_ok _ _ _ _ _ created_ok) as (rk & Hk & _ & Hid & _ & _ & Href). exists rk.
  exact (conj Hk (conj Hid (conj (ref_wf _ _ _ _ Href) Href))).
Qed.

Lemma oid_wf : wf_id oid.
Proof. split; [done|]. apply Forall_replicate. done. Qed.

Definition commands : list (Command (R:=bytes)) :=
  [CPut oid plaintext 2; CGet oid; CPutStream oid [7; 8; 9] 2; CGet oid; CVerify; CLock; CGet oid].

Lemma session_refines_map_witness :
  ∃ rk kv, v_root_key vault = Some rk ∧
    spec_session ∅ commands (session commands (vault, world1)).1 kv ∧
    refines (v_vault_id vault) rk kv (w_db (session commands (vault, world1)).2.2).
Proof.
  apply (session_refines_map path passphrase world vault world1 commands).
  - apply created_ok.
  - assert (wf_id oid) by apply oid_wf. repeat constructor; done.
  - apply surjective_pairing.
Defined.

Example session_answers :
  (session commands (vault, world1)).1 !! 1%nat = Some (RData (Ok plaintext)) ∧
  (session commands (vault, world1)).1 !! 3%nat = Some (RData (Ok [7; 8; 9])) ∧
  (session commands (vault, world1)).1 !! 4%nat = Some (RCount (Ok 1)) ∧
  (session commands (vault, world1)).1 !! 6%nat = Some (RData (Err Locked)).
Proof. by vm_compute. Qed.

Lemma put_get_roundtrip_witness :
  is_ok put_run.1 = true ∧
  ∃ w3, Vault.get oid ((put_run.2.1.1, world2), tt) = (Ok plaintext, ((vault, w3), tt)) ∧ w_db w3 = w_db world2.
Proof.
  split; [by vm_compute|]. destruct created_facts as (rk & _ & Hid & Hwf & _).
  apply (put_get_roundtrip oid plaintext 2 vault world1 tt (is_ok_run put_run vid) put_run.2 world2).
  - apply oid_wf.
  - exact Hid.
  - done.
  - exact Hwf.
  - apply (run_ok put_run vid). by vm_compute.
  - reflexivity.
  - intros n. by vm_compute.
Defined.

Definition stream_run := Vault.put_from_reader_with_chunk_size oid 2 ((vault, world1), plaintext).

Lemma put_stream_get_roundtrip_witness :
  is_ok stream_run.1 = true ∧
  ∃ w3, Vault.get oid ((stream_run.2.1.1, stream_run.2.1.2), tt) = (Ok (contents plaintext), ((vault, w3), tt)) ∧
    w_db w3 = w_db stream_run.2.1.2.
Proof.
  split; [by vm_compute|]. destruct created_facts as (rk & _ & Hid & Hwf & _).
  apply (put_stream_get_roundtrip oid 2 vault world1 plaintext (is_ok_run stream_run vid) stream_run.2 stream_run.2.1.2 tt).
  - apply oid_wf.
  - exact Hid.
  - done.
  - exact Hwf.
  - apply (run_ok stream_run vid). by vm_compute.
  - reflexivity.
  - intros n. by vm_compute.
Defined.

Lemma stream_atomic_witness :
  db_wf (w_db stream_run.2.1.2) ∧ db_extends (w_db world1) (w_db stream_run.2.1.2).
Proof.
  destruct created_facts as (rk & _ & Hid & Hwf & _).
  destruct (stream_atomic oid 2 vault world1 plaintext stream_run.1 stream_run.2) as (? & ? & _).
  - apply oid_wf.
  - exact Hid.
  - done.
  - exact Hwf.
  - apply surjective_pairing.
  - split; assumption.
Defined.

Lemma upload_terminates_witness :
  Vault.read_next_chunk_fuel 9 2 [] plaintext = Vault.read_next_chunk 2 plaintext.
Proof.
  apply (upload_terminates 8 (v_vault_id vault) oid vid [] 2
           (Vault.mkUpload (Storage.mkStreaming (Sql.mkTx empty_db) path oid vid 0 0) Crypto.digest_new 0 0)
           ((vault, world1), plaintext)); [lia|]. simpl. lia.
Defined.

(** ** Integrity and lifecycle, concretely *)

Definition get_run := Vault.get oid ((vault, world2), tt).

Lemma get_authenticated_witness :
  ∃ root_key sv m dek cs parts, v_root_key vault = Some root_key ∧
    verified_read (v_vault_id vault) root_key (w_db world2) oid sv m dek cs parts ∧ agrees m sv ∧
    plaintext = concat parts ∧ lenZ plaintext = sv_plaintext_len sv ∧ w_db get_run.2.1.2 = w_db world2.
Proof.
  apply (get_authenticated vault world2 tt oid plaintext get_run.2).
  assert (get_run.1 = Ok plaintext) as E by by vm_compute. rewrite <-E. apply surjective_pairing.
Defined.

(** A second object in the same tables. *)
Definition oid2 : ObjectId := mkId (replicate 16 8).
Definition world3 : World := (Vault.put_with_chunk_size oid2 [1; 2; 3] 2 ((vault, world2), tt)).2.1.2.
Definition get_run3 := Vault.get oid ((vault, world3), tt).
Definition put_vid : VersionId := is_ok_run put_run vid.

Lemma bytes_check l : forallb is_byte l = true → wf_bytes l.
Proof.
  intros Hl. apply Forall_forall. intros b Hin%list_elem_of_In. rewrite forallb_forall in Hl.
  specialize (Hl b Hin). unfold is_byte in Hl. unfold is_u8. lia.
Qed.

Lemma blobs_ok_check db :
  forallb (λ kr : (bytes * Z) * ChunkRow, forallb is_byte (cr_nonce kr.2) && forallb is_byte (cr_ciphertext kr.2)
             && (lenZ (cr_ciphertext kr.2) <=? u64_max)) (map_to_list (db_chunks db)) = true → blobs_ok db.
Proof.
  rewrite forallb_forall. intros Hall k r Hr. specialize (Hall (k, r)).
  rewrite <-list_elem_of_In, elem_of_map_to_list in Hall. specialize (Hall Hr).
  rewrite !andb_true_iff in Hall. simpl in Hall. destruct Hall as [[? ?] ?%Z.leb_le]. split_and!; [by apply bytes_check..|done].
Qed.

Lemma manifest_determines_plaintext_witness :
  db_chunks (w_db world3) !! (as_bytes put_vid, 0) = db_chunks (w_db world2) !! (as_bytes put_vid, 0) ∧
  (plaintext = plaintext ∨
   transcript put_vid (w_db world2) ≠ transcript put_vid (w_db world3) ∧
   sha256 (transcript put_vid (w_db world2)) = sha256 (transcript put_vid (w_db world3))).
Proof.
  split; [by vm_compute|].
  apply (manifest_determines_plaintext vault world2 world3 tt oid plaintext plaintext get_run.2 get_run3.2 put_vid).
  - assert (get_run.1 = Ok plaintext) as E by by vm_compute. rewrite <-E. apply surjective_pairing.
  - assert (get_run3.1 = Ok plaintext) as E by by vm_compute. rewrite <-E. apply surjective_pairing.
  - apply blobs_ok_check. by vm_compute.
  - apply blobs_ok_check. by vm_compute.
  - by vm_compute.
  - by vm_compute.
  - by vm_compute.
Defined.

Definition write_run := Vault.get_to_writer oid ((vault, world2), [] : bytes).

Lemma nothing_written_unverified_witness :
  ∃ root_key, v_root_key vault = Some root_key ∧ layout_verified (v_vault_id vault) root_key (w_db world2) oid.
Proof.
  apply (nothing_written_unverified vault world2 ([] : bytes) oid write_run.1 write_run.2).
  - apply surjective_pairing.
  - assert (write_run.2.2 = plaintext) as -> by by vm_compute. done.
Defined.

Lemma locked_vault_refuses_witness :
  Vault.get oid ((Vault.lock vault, world2), tt) = (Err Locked, ((Vault.lock vault, world2), tt)).
Proof.
  apply (locked_vault_refuses (R:=bytes) (W:=bytes) (P:=Witness.InMemoryTestProvider) (Vault.get oid)).
  - apply secret_get.
  - reflexivity.
Defined.

(** Every statement fails from here on. *)
Definition broken_world : World :=
  set_env (mkEnv (env_fs (w_env world2)) 420 (λ _, true) 0) world2.
Definition broken_run := Vault.get oid ((vault, broken_world), tt).

(** Every call fails once the paths of a backup were found valid. *)
Definition failing_world : World := set_env (mkEnv (env_fs (w_env world2)) 420 (λ n, Nat.leb 3 n) 0) world2.
Definition broken_backup := Backup.backup_to (mkPath true ["b"]) ((vault, failing_world), ∅).

(** A read locks, a backup with the same error does not. *)
Lemma failure_locks_witness :
  broken_run.1 = Err Storage ∧ broken_run.2.1.1 = mkVault path (v_envelope vault) None ∧
  broken_backup.1 = Err Storage ∧ broken_backup.2.1.1 = vault ∧ Vault.status vault = StatusUnlocked.
Proof.
  assert (broken_run.1 = Err Storage) as E by by vm_compute.
  destruct (failure_locks (R:=bytes) (W:=bytes) (P:=Witness.InMemoryTestProvider)) as (Hs & _ & _ & Hb).
  split; [exact E|]. split.
  { apply (Hs unit bytes (Vault.get oid) ((vault, broken_world), tt) (Err Storage) broken_run.2).
    - apply secret_get.
    - rewrite <-E. apply surjective_pairing. }
  split; [by vm_compute|]. split; [|by vm_compute].
  exact (Hb (mkPath true ["b"]) ((vault, failing_world), ∅) broken_backup.1 broken_backup.2 (surjective_pairing _)).
Defined.

Definition open_run := Vault.open path world2.

Lemma create_open_unlock_witness :
  Vault.status (is_ok_run open_run no_vault) = StatusLocked ∧
  v_envelope (is_ok_run open_run no_vault) = v_envelope vault ∧ db_wf (w_db open_run.2) ∧
  Vault.unlock passphrase ((is_ok_run open_run no_vault, open_run.2), tt) =
    (Ok tt, ((mkVault path (v_envelope vault) (v_root_key vault), open_run.2), tt)).
Proof.
  apply (create_open_unlock path passphrase world vault world1 world2 (is_ok_run open_run no_vault) open_run.2 tt).
  - apply created_ok.
  - by vm_compute.
  - apply (run_ok open_run no_vault). by vm_compute.
  - done.
Defined.

Definition new_passphrase : bytes := str_bytes "pw2".


(** The check of the permissions after the update fails, and nothing else. *)
Definition late_world : World := set_env (mkEnv (env_fs (w_env world1)) 420 (λ n, Nat.eqb n 1) 0) world1.
Definition late_run := Vault.rotate_passphrase passphrase new_passphrase ((vault, late_world), tt).
Definition late_open := Vault.open path (set_env (w_env world1) late_run.2.1.2).

(** The replacement opens the stored envelope, the old passphrase the one in
    memory, and neither opens the other. *)
Lemma rotate_error_after_commit_witness :
  late_run.1 = Err Storage ∧ w_db late_run.2.1.2 ≠ w_db late_world ∧
  ∃ rk v', late_open.1 = Ok v' ∧ v_root_key vault = Some rk ∧
    Vault.unlock new_passphrase ((v', late_open.2), tt) = (Ok tt, ((mkVault path (v_envelope v') (Some rk), late_open.2), tt)) ∧
    (Vault.unlock passphrase ((v', late_open.2), tt)).1 = Err UnlockFailed ∧
    (Vault.unlock passphrase late_run.2).1 = Ok tt ∧ (Vault.unlock new_passphrase late_run.2).1 = Err UnlockFailed.
Proof.
  destruct (create_ok _ _ _ _ _ created_ok) as (rk & Hk & _ & Hid & Hopen & _).
  destruct (create_envelope _ _ _ _ _ created_ok) as [_ Hm].
  assert (late_run.1 = Err Storage) as E by by vm_compute.
  assert (db_meta (w_db late_run.2.1.2) ≠ db_meta (w_db late_world)) as Hd by (vm_compute; intros Hc; discriminate Hc).
  split; [exact E|]. split; [intros Hc; apply Hd; rewrite Hc; exact eq_refl|].
  destruct (rotate_error_after_commit passphrase new_passphrase vault late_world tt Storage late_run.2 Hm Hid)
    as [Hc|(rk' & env & Hcur & Hnew & Hdb & Hre & _ & Hold & _)].
  - rewrite <-E. apply surjective_pairing.
  - destruct Hd. rewrite Hc. exact eq_refl.
  - assert (rk' = rk) as -> by (rewrite Hopen in Hcur; injection Hcur as <-; exact eq_refl).
    assert (late_open = (Ok (is_ok_run late_open no_vault), late_open.2)) as Eo by (apply run_ok; by vm_compute).
    destruct (Hre path (set_env (w_env world1) late_run.2.1.2) _ _ eq_refl Eo) as [Henv Hu].
    exists rk, (is_ok_run late_open no_vault). split; [by vm_compute|]. split; [exact Hk|]. split; [rewrite Henv; exact Hu|].
    split; [by vm_compute|]. split; [|by vm_compute]. rewrite Hold; [exact eq_refl|]. intros Hn. discriminate Hn.
Defined.

(** ** Witnessed publication, concretely *)

Definition provider : Witness.InMemoryTestProvider := Witness.mem_from_seed [1; 2; 3].

Lemma provider_inv : pv_inv provider.
Proof. apply MemProvider.mem_from_seed_inv. Qed.

Definition witness_run := Vault.put_with_witness oid plaintext ((vault, world1), provider).

Lemma witnessed_put_atomic_witness :
  witness_run.1 ≠ Err Locked ∧ is_ok witness_run.1 = true ∧ fresh (v_vault_id vault) (w_db witness_run.2.1.2) witness_run.2.2 oid.
Proof.
  assert (is_ok witness_run.1 = true) as Hok by by vm_compute.
  split; [by vm_compute|]. split; [exact Hok|].
  destruct created_facts as (rk & _ & Hid & Hwf & _).
  destruct (witnessed_put_atomic oid plaintext ((vault, world1), provider) witness_run.1 witness_run.2)
    as (_ & _ & _ & [[Hf _]|(rk' & _ & _ & Hfresh & _)]).
  - apply oid_wf.
  - exact Hid.
  - apply provider_inv.
  - exact Hwf.
  - apply surjective_pairing.
  - exfalso. by rewrite Hok in Hf.
  - exact Hfresh.
Defined.

(** The witness has moved on to a second version; the tables are the old ones. *)
Definition witness_run2 := Vault.put_with_witness oid [7] witness_run.2.
Definition old_world : World := witness_run.2.1.2.

(** The type check, executable. *)
Lemma db_typed_check db :
  forallb (λ kv : bytes * bytes, forallb is_byte kv.1) (map_to_list (db_objects db)) = true →
  forallb (λ kv : bytes * VersionRow, forallb is_byte kv.1 && forallb is_byte (vr_object_id kv.2))
    (map_to_list (db_versions db)) = true →
  forallb (λ kv : bytes * Z, kv.2 <=? i64_max) (map_to_list (db_pending db)) = true → db_typed db.
Proof.
  rewrite !forallb_forall. intros Ho Hv Hp.
  assert (∀ V (m : gmap bytes V) k x, m !! k = Some x → In (k, x) (map_to_list m)) as Hin.
  { intros V m k x Hk. by apply list_elem_of_In, elem_of_map_to_list. }
  constructor.
  - intros k x Hk%Hin. apply bytes_check, (Ho _ Hk).
  - intros k x Hk%Hin. specialize (Hv _ Hk). apply andb_true_iff in Hv as [? ?]. split; by apply bytes_check.
  - intros k x Hk%Hin. specialize (Hp _ Hk). simpl in Hp. lia.
Qed.

Lemma witness_run_inv : pv_inv witness_run.2.2 ∧ witness_run.2.1.1 = vault.
Proof.
  destruct created_facts as (rk & _ & Hid & Hwf & _).
  destruct (lock_after_failure_eq _ _ _ _ (surjective_pairing witness_run)) as (s1 & E & _ & Ep & Ev).
  destruct (put_with_witness_cases oid plaintext ((vault, world1), provider) _ _ oid_wf Hid provider_inv E) as (Fv & Hp & _).
  split; [by rewrite Ep|]. assert (is_ok witness_run.1 = true) as Hok by by vm_compute.
  rewrite Ev. destruct witness_run.1; [exact Fv|discriminate Hok].
Qed.

Lemma witness_run2_inv : pv_inv witness_run2.2.2.
Proof.
  destruct created_facts as (rk & _ & Hid & _ & _). destruct witness_run_inv as [Hp Hv].
  destruct (lock_after_failure_eq _ _ _ _ (surjective_pairing witness_run2)) as (s1 & E & _ & Ep & _).
  destruct (put_with_witness_cases oid [7] witness_run.2 _ _ oid_wf ltac:(rewrite Hv; exact Hid) Hp E) as (_ & Hp2 & _).
  by rewrite Ep.
Qed.

Definition new_head : WitnessReceipt :=
  default StorageSpec.receipt_0 (pv_head witness_run2.2.2 (v_vault_id vault) oid).
Definition old_vid : VersionId := is_ok_run witness_run vid.
Definition old_row : ReceiptRow :=
  default (mkReceiptRow [] [] 0 [] [] []) (db_receipts (w_db old_world) !! as_bytes old_vid).

Lemma rollback_detected_witness :
  rc_epoch new_head = 2 ∧ rr_epoch old_row = 1 ∧
  ~ Vault.verify_active_objects_with_witness ((vault, old_world), witness_run2.2.2) =
      (Ok 1, ((vault, old_world), witness_run2.2.2)).
Proof.
  split; [by vm_compute|]. split; [by vm_compute|].
  apply (rollback_detected witness_run2.2.2 witness_run2.2.2 vault old_world oid old_vid old_row new_head).
  - apply witness_run2_inv.
  - apply rtc_refl.
  - by vm_compute.
  - destruct created_facts as (rk & _ & Hid & _). exact Hid.
  - apply db_typed_check; by vm_compute.
  - by vm_compute.
  - by vm_compute.
  - by vm_compute.
Defined.

(** The outcome of that sweep: the vault reports the conflict and locks. *)
Definition old_sweep := Vault.verify_active_objects_with_witness ((vault, old_world), witness_run2.2.2).

Example rollback_reported :
  old_sweep.1 = Err WitnessConflict ∧ Vault.status old_sweep.2.1.1 = StatusLocked ∧
  is_ok (Vault.verify_active_objects_with_witness witness_run2.2).1 = true.
Proof. by vm_compute. Qed.

(** A crash after the witness answered and before the vault finalised. *)
Definition crashed_world : World := set_db (staged Toy.stored [Toy.chunk] 0 (w_db world1)) world1.
Definition granted := issue_receipt (recovery_request vault Toy.stored) 0 provider.
Definition recover_run := Vault.recover_one Toy.stored 0 ((vault, crashed_world), granted.2).

Lemma stored_ids : wf_id (sv_object_id Toy.stored) ∧ wf_id (sv_version_id Toy.stored).
Proof. split; (split; [done|apply bytes_check; done]). Qed.

Lemma granted_inv : pv_inv granted.2.
Proof.
  destruct created_facts as (rk & _ & Hid & _). destruct stored_ids as [Ho Hx].
  apply (pv_issue provider (recovery_request vault Toy.stored) 0 granted.1 granted.2 provider_inv).
  - by apply request_new_wf.
  - done.
  - apply surjective_pairing.
Qed.

Lemma recovery_idempotent_witness :
  is_ok recover_run.1 = true ∧
  pv_head recover_run.2.2 (v_vault_id vault) oid = pv_head granted.2 (v_vault_id vault) oid ∧
  db_objects (w_db recover_run.2.1.2) !! as_bytes oid = Some (as_bytes vid).
Proof.
  split; [by vm_compute|]. split; [|by vm_compute].
  destruct created_facts as (rk & _ & Hid & _). destruct stored_ids as [Ho Hx].
  apply (recovery_idempotent Toy.stored 0 ((vault, crashed_world), granted.2)
           (is_ok_run granted StorageSpec.receipt_0) recover_run.1 recover_run.2).
  - apply granted_inv.
  - assert (is_u64 0) as Hz by done. exact (conj Hid (conj Ho (conj Hx Hz))).
  - by vm_compute.
  - by vm_compute.
  - by vm_compute.
  - apply surjective_pairing.
Defined.

Definition recover_all_run := Vault.recover_pending_witness_publications ((vault, crashed_world), provider).

Lemma recovery_complete_witness :
  db_pending (w_db crashed_world) !! as_bytes vid = Some 0 ∧ db_pending (w_db recover_all_run.2.1.2) = ∅.
Proof.
  split; [by vm_compute|].
  apply (recovery_complete ((vault, crashed_world), provider) 1 recover_all_run.2).
  - apply provider_inv.
  - destruct created_facts as (rk & _ & Hid & _). exact Hid.
  - apply db_typed_check; by vm_compute.
  - assert (recover_all_run.1 = Ok 1) as E by by vm_compute. rewrite <-E. apply surjective_pairing.
Defined.

Lemma streamed_put_not_fresh_witness :
  is_ok stream_run.1 = true ∧
  ~ Vault.verify_active_objects_with_witness ((vault, stream_run.2.1.2), provider) = (Ok 1, ((vault, stream_run.2.1.2), provider)).
Proof.
  split; [by vm_compute|]. destruct created_facts as (rk & _ & Hid & Hwf & _).
  apply (streamed_put_not_fresh oid 2 vault world1 plaintext (is_ok_run stream_run vid) stream_run.2 provider
           stream_run.2.1.2).
  - apply oid_wf.
  - exact Hid.
  - done.
  - exact Hwf.
  - apply (run_ok stream_run vid). by vm_compute.
  - reflexivity.
  - apply provider_inv.
  - apply db_typed_check; by vm_compute.
Defined.

End Guarantees.
