(* ===== verification/WitnessGuarantees.v ===== *)
(** * What the witness guarantees, alone and over the network

    The session theorems of the witness service ([crates/vlt1-witness]): over
    any sequence of requests, under any fault schedule, epochs never go back
    and no epoch of a vault is used for two statements.  Then the guarantees of
    the HTTPS client: what it accepts from an arbitrary network, and that any
    number of retries over a lossy one obtains at most one epoch. *)

From S2P Require Import Prelude Format Crypto Witness Fs Storage Toy WitnessService Https ToyWire.
From Stdlib Require Import ZArith Lia.
From stdpp Require Import base numbers list gmap strings.

Open Scope Z_scope.
Open Scope vlt_scope.

(** ** Sessions of the service *)

Inductive Call : Type := CallIssue (r : IssueRequest) | CallHead (r : HeadRequest).

Inductive Answer : Type := AnswerIssue (r : Result IssueResponse) | AnswerHead (r : Result HeadResponse).

Module WitnessSession.
Section session.
Context `{Primitives} `{HexCrate}.

Definition call (svc : WitnessService) (c : Call) (w : WitnessWorld) : Answer * WitnessWorld :=
  match c with
  | CallIssue q => let '(r, w') := Service.issue_wire svc q w in (AnswerIssue r, w')
  | CallHead q => let '(r, w') := Service.head_wire svc q w in (AnswerHead r, w')
  end.

Fixpoint calls (svc : WitnessService) (cs : list Call) (w : WitnessWorld) : list Answer * WitnessWorld :=
  match cs with
  | [] => ([], w)
  | c :: cs =>
      let '(a, w1) := call svc c w in
      let '(rest, w2) := calls svc cs w1 in
      (a :: rest, w2)
  end.

(** The signed statement in an answer: vault, object, epoch and, when there is
    a head, its version and commitment; all as they appear on the wire. *)
Record Reported : Type := mkReported {
  rp_vault : bytes;
  rp_object : bytes;
  rp_epoch : Z;
  rp_content : option (bytes * bytes);
}.

Definition reported (a : Answer) : option Reported :=
  match a with
  | AnswerIssue (Ok r) =>
      Some (mkReported (is_vault_id r) (is_object_id r) (is_witness_epoch r) (Some (is_version_id r, is_commitment r)))
  | AnswerHead (Ok r) =>
      Some (mkReported (hs_vault_id r) (hs_object_id r) (hs_witness_epoch r)
              (match hs_version_id r, hs_commitment r with Some x, Some c => Some (x, c) | _, _ => None end))
  | _ => None
  end.

(** The report of the head recorded for an object. *)
Definition report_of (svc : WitnessService) (db : WitnessDb) (v : VaultId) (o : ObjectId) : Reported :=
  match Service.head_of svc db v o with
  | Some r => mkReported (to_hex v) (to_hex o) (rc_epoch r)
                (Some (to_hex (rc_version_id r), hex_crate_encode (rc_commitment r)))
  | None => mkReported (to_hex v) (to_hex o) 0 None
  end.

Context `{!HexCrateOk} `{!PrimitivesOk}.

Lemma hex_encode_inj a b : wf_bytes a → wf_bytes b → hex_encode a = hex_encode b → a = b.
Proof.
  intros Ha Hb E. apply (inj Some). by rewrite <-(parse_pairs_hex_encode a), <-(parse_pairs_hex_encode b), E.
Qed.

Lemma to_hex_inj {k} (i j : Identifier k) : wf_id i → wf_id j → to_hex i = to_hex j → i = j.
Proof. intros [_ Hi] [_ Hj] E%hex_encode_inj; [|done..]. by apply Crypto.id_ext. Qed.

(** Whatever text is sent, a parsed field has its width and its byte values. *)
Lemma parse_id_ok n value error bs :
  Service.parse_id n value error = Ok bs → length bs = n ∧ wf_bytes bs.
Proof.
  unfold Service.parse_id. intros E. step_ok E. apply orb_false_iff in E0 as [E1 E2].
  apply negb_false_iff in E1, E2. apply bool_decide_eq_true in E1.
  destruct (parse_pairs_lower n value E1 E2) as (bs' & _ & <- & Hl & Hw).
  rewrite hex_crate_decode_lower in E by done. simpl in E. rewrite Network.fixed_ok in E by done. by injection E as <-.
Qed.

Lemma from_slice_wf {k} bs (i : Identifier k) : wf_bytes bs → from_slice bs = Ok i → wf_id i.
Proof. intros Hw [-> Hl]%from_slice_ok. done. Qed.

Lemma parse_issue_wf wire req e : Service.parse_issue wire = Ok (req, e) → wf_request req.
Proof.
  unfold Service.parse_issue.
  intros (v & [_ ?]%parse_id_ok & (o & [_ ?]%parse_id_ok & (x & [_ ?]%parse_id_ok & (v' & ?%from_slice_wf &
    (o' & ?%from_slice_wf & (x' & ?%from_slice_wf & (c & [? ?]%parse_id_ok & E)%rbind_ok)%rbind_ok)%rbind_ok)%rbind_ok)
    %rbind_ok)%rbind_ok)%rbind_ok; try done. by injection E as <- <-.
Qed.

Lemma parse_head_wf wire v o ch : Service.parse_head wire = Ok (v, o, ch) → wf_id v ∧ wf_id o.
Proof.
  unfold Service.parse_head.
  intros (v' & [_ ?]%parse_id_ok & (v2 & ?%from_slice_wf & (o' & [_ ?]%parse_id_ok & (o2 & ?%from_slice_wf &
    (c & _ & E)%rbind_ok)%rbind_ok)%rbind_ok)%rbind_ok)%rbind_ok; try done. by injection E as <- <- <-.
Qed.

(** One call leaves the state alone or grants one request, and reports the
    head of one object after it. *)
Lemma call_cases svc c w a w' :
  Service.service_ok svc (ww_db w) → call svc c w = (a, w') →
  Service.service_ok svc (ww_db w') ∧
  (ww_db w' = ww_db w ∨ ∃ req, wf_request req ∧ ww_db w' = Service.granted svc (ww_db w) req) ∧
  (∀ rp, reported a = Some rp → ∃ v o, wf_id v ∧ wf_id o ∧ rp = report_of svc (ww_db w') v o).
Proof.
  intros Hok. destruct c as [q|q]; simpl.
  - destruct (Service.issue_wire svc q w) as [r w1] eqn:E. intros [= <- <-].
    destruct (Service.parse_issue q) as [[req e]|er] eqn:Eq.
    2: { unfold Service.issue_wire, sbind, slift in E. rewrite Eq in E. injection E as <- <-. split_and!; [done|by left|done]. }
    pose proof (parse_issue_wf _ _ _ Eq) as Hreq.
    destruct (Service.issue_wire_cases _ _ _ _ _ _ _ Eq Hreq Hok E) as [[Hdb Hr]|(Hdb & Hok' & _ & Hr)].
    + rewrite Hdb. split_and!; [done|by left|]. intros rp Hrp. destruct r as [resp|]; [|done].
      destruct (Hr _ eq_refl) as (c & -> & Hc & _). exists (req_vault_id req), (req_object_id req).
      destruct Hreq as (? & ? & _). split_and!; [done|done|]. unfold report_of. rewrite Hc. injection Hrp as <-.
      apply (Network.head_of_wf _ _ _ _ _) in Hc as (_ & -> & -> & _); done.
    + split_and!; [done|by eauto|]. intros rp Hrp. destruct r as [resp|]; [|done].
      rewrite (Hr _ eq_refl) in Hrp. exists (req_vault_id req), (req_object_id req).
      destruct Hreq as (? & ? & _). split_and!; [done|done|]. injection Hrp as <-. unfold report_of.
      by rewrite Hdb, Service.head_of_granted.
  - destruct (Service.head_wire svc q w) as [r w1] eqn:E. intros [= <- <-].
    destruct (Service.parse_head q) as [[[v o] ch]|er] eqn:Eq.
    2: { unfold Service.head_wire, sbind, slift in E. rewrite Eq in E. injection E as <- <-. split_and!; [done|by left|done]. }
    apply parse_head_wf in Eq as Hw. destruct (Service.head_wire_cases _ _ _ _ _ _ _ _ Eq Hok E) as [Hdb Hr].
    rewrite Hdb. split_and!; [done|by left|]. intros rp Hrp. destruct r as [resp|]; [|done].
    rewrite (Hr _ eq_refl) in Hrp. exists v, o. destruct Hw. split_and!; [done|done|]. injection Hrp as <-.
    unfold report_of. by destruct (Service.head_of _ _ v o).
Qed.

(** *** Epochs never go back *)

Lemma epoch_granted svc db req v o :
  Service.service_ok svc db → Service.epoch_of svc db v o ≤ Service.epoch_of svc (Service.granted svc db req) v o.
Proof.
  intros Hok. destruct (decide ((v, o) = (req_vault_id req, req_object_id req))) as [[= -> ->]|Hne].
  - unfold Service.epoch_of at 2. rewrite Service.head_of_granted. simpl.
    destruct (Service.epoch_below_next svc db (req_vault_id req) (req_object_id req) Hok). lia.
  - unfold Service.epoch_of. by rewrite Service.head_of_granted_other.
Qed.

Lemma call_epochs svc c w a w' v o :
  Service.service_ok svc (ww_db w) → call svc c w = (a, w') →
  Service.epoch_of svc (ww_db w) v o ≤ Service.epoch_of svc (ww_db w') v o.
Proof.
  intros Hok Hc. destruct (call_cases _ _ _ _ _ Hok Hc) as (_ & [->|(req & _ & ->)] & _); [done|].
  by apply epoch_granted.
Qed.

Lemma report_epoch svc db v o : rp_epoch (report_of svc db v o) = Service.epoch_of svc db v o.
Proof. unfold report_of, Service.epoch_of. by destruct (Service.head_of svc db v o). Qed.

Lemma report_ids svc db v o :
  rp_vault (report_of svc db v o) = to_hex v ∧ rp_object (report_of svc db v o) = to_hex o.
Proof. unfold report_of. by destruct (Service.head_of svc db v o). Qed.

(** Every report made from now on is at least the present epoch. *)
Lemma calls_above svc cs w as' w' j rp v o :
  Service.service_ok svc (ww_db w) → calls svc cs w = (as', w') → as' !! j ≫= reported = Some rp →
  wf_id v → wf_id o → rp_vault rp = to_hex v → rp_object rp = to_hex o → Service.epoch_of svc (ww_db w) v o ≤ rp_epoch rp.
Proof.
  revert w as' w' j. induction cs as [|c cs IH]; intros w as' w' j Hok; simpl.
  { by intros [= <- <-]. }
  destruct (call svc c w) as [a w1] eqn:Ec. destruct (calls svc cs w1) as [rest w2] eqn:Er. intros [= <- <-] Hj Hv Ho Ev Eo.
  pose proof (call_epochs _ _ _ _ _ v o Hok Ec) as Hle.
  apply call_cases in Ec as (Hok1 & _ & Hrp); [|done]. destruct j as [|j]; simpl in Hj.
  - destruct (Hrp _ Hj) as (v' & o' & Hv' & Ho' & ->). destruct (report_ids svc (ww_db w1) v' o') as [E1 E2].
    rewrite E1 in Ev. rewrite E2 in Eo. apply to_hex_inj in Ev as ->, Eo as ->; [|done..]. by rewrite report_epoch.
  - etrans; [done|]. eauto.
Qed.

Lemma calls_monotone svc cs w as' w' i j rp rp' :
  Service.service_ok svc (ww_db w) → calls svc cs w = (as', w') → (i ≤ j)%nat →
  as' !! i ≫= reported = Some rp → as' !! j ≫= reported = Some rp' →
  rp_vault rp = rp_vault rp' → rp_object rp = rp_object rp' → rp_epoch rp ≤ rp_epoch rp'.
Proof.
  revert w as' w' i j. induction cs as [|c cs IH]; intros w as' w' i j Hok; simpl.
  { by intros [= <- <-]. }
  destruct (call svc c w) as [a w1] eqn:Ec. destruct (calls svc cs w1) as [rest w2] eqn:Er. intros [= <- <-] Hij Hi Hj Ev Eo.
  apply call_cases in Ec as (Hok1 & _ & Hrp); [|done].
  destruct i as [|i], j as [|j]; simpl in Hi, Hj; try lia.
  - rewrite Hi in Hj. injection Hj as <-. done.
  - destruct (Hrp _ Hi) as (v & o & Hv & Ho & ->). destruct (report_ids svc (ww_db w1) v o) as [E1 E2].
    rewrite report_epoch. eapply calls_above; eauto; congruence.
  - eapply (IH w1 rest w2 i j); eauto. lia.
Qed.

(** *** No epoch is used twice *)

(** Everything the service ever granted, by vault and epoch. *)
Abbreviation History := (gmap (VaultId * Z) (ObjectId * VersionId * bytes)).

Record history_ok (svc : WitnessService) (db : WitnessDb) (h : History) : Prop := {
  hi_below v e x : h !! (v, e) = Some x → e < Service.next_of db v;
  hi_heads v o r : Service.head_of svc db v o = Some r →
    h !! (v, rc_epoch r) = Some (o, rc_version_id r, rc_commitment r);
}.

Lemma history_empty svc : history_ok svc empty_witness_db ∅.
Proof. split; intros *; [by rewrite lookup_empty|]. unfold Service.head_of. simpl. by rewrite lookup_empty. Qed.

Lemma next_granted svc db req v :
  Service.next_of (Service.granted svc db req) v =
    if decide (v = req_vault_id req) then Service.next_of db v + 1 else Service.next_of db v.
Proof.
  unfold Service.next_of at 1. simpl. case_decide as E; [subst; by rewrite lookup_insert_eq|].
  rewrite lookup_insert_ne; [done|]. by intros E'%Crypto.id_ext.
Qed.

Lemma history_granted svc db req h :
  history_ok svc db h →
  ∃ h', history_ok svc (Service.granted svc db req) h' ∧ h ⊆ h'.
Proof.
  intros [Hb Hh]. set (v0 := req_vault_id req). set (n := Service.next_of db v0).
  assert (h !! (v0, n) = None) as Hfresh.
  { destruct (h !! (v0, n)) as [x|] eqn:E; [|done]. apply Hb in E. lia. }
  exists (<[(v0, n) := (req_object_id req, req_version_id req, req_commitment req)]> h).
  split; [split|by apply insert_subseteq].
  - intros v e x Hx. rewrite next_granted. apply lookup_insert_Some in Hx as [[[= <- <-] _]|[_ Hx]].
    + rewrite decide_True by done. fold v0 n. lia.
    + apply Hb in Hx. case_decide; lia.
  - intros v o r. destruct (decide ((v, o) = (v0, req_object_id req))) as [[= -> ->]|Hne].
    + unfold v0 at 1. rewrite Service.head_of_granted. intros [= <-]. simpl. by rewrite lookup_insert_eq.
    + rewrite Service.head_of_granted_other by done. intros Hr%Hh. rewrite lookup_insert_ne; [done|].
      intros [= E1 E2]. rewrite <-E1, <-E2, Hfresh in Hr. done.
Qed.

(** A report with content is an entry of the history. *)
Definition recorded (h : History) (rp : Reported) : Prop :=
  ∃ v o x c, wf_id v ∧ h !! (v, rp_epoch rp) = Some (o, x, c) ∧
    rp = mkReported (to_hex v) (to_hex o) (rp_epoch rp) (Some (to_hex x, hex_crate_encode c)).

Lemma recorded_mono h h' rp : h ⊆ h' → recorded h rp → recorded h' rp.
Proof. intros Hs (v & o & x & c & Hv & Hl & E). exists v, o, x, c. split_and!; [done|by eapply lookup_weaken|done]. Qed.

Lemma calls_history svc cs w as' w' h :
  Service.service_ok svc (ww_db w) → history_ok svc (ww_db w) h → calls svc cs w = (as', w') →
  ∃ h', h ⊆ h' ∧ ∀ i rp, as' !! i ≫= reported = Some rp → rp_content rp ≠ None → recorded h' rp.
Proof.
  revert w as' w' h. induction cs as [|c cs IH]; intros w as' w' h Hok Hh; simpl.
  { intros [= <- <-]. by exists h. }
  destruct (call svc c w) as [a w1] eqn:Ec. destruct (calls svc cs w1) as [rest w2] eqn:Er. intros [= <- <-].
  apply call_cases in Ec as (Hok1 & Hdb & Hrp); [|done].
  assert (∃ h1, history_ok svc (ww_db w1) h1 ∧ h ⊆ h1) as (h1 & Hh1 & Hs1).
  { destruct Hdb as [->|(req & _ & ->)]; [by exists h|by apply history_granted]. }
  destruct (IH w1 rest w2 h1 Hok1 Hh1 Er) as (h2 & Hs2 & Hr2). exists h2. split; [by etrans|].
  intros [|i] rp; [simpl|apply Hr2]. intros Ha Hc. destruct (Hrp _ Ha) as (v & o & Hv & Ho & ->).
  apply (recorded_mono h1); [done|]. revert Hc. unfold report_of.
  destruct (Service.head_of svc (ww_db w1) v o) as [r|] eqn:E; [|done]. intros _.
  exists v, o, (rc_version_id r), (rc_commitment r). split_and!; [done| |done].
  by apply (hi_heads _ _ _ Hh1).
Qed.

Lemma recorded_inj h rp rp' :
  recorded h rp → recorded h rp' → rp_vault rp = rp_vault rp' → rp_epoch rp = rp_epoch rp' → rp = rp'.
Proof.
  intros (v & o & x & c & Hv & Hl & E) (v' & o' & x' & c' & Hv' & Hl' & E') Ev Ee.
  rewrite E, E' in Ev. simpl in Ev. apply to_hex_inj in Ev as ->; [|done..]. rewrite Ee, Hl' in Hl.
  injection Hl as -> -> ->. rewrite E, E'. by rewrite Ee.
Qed.

Lemma service_empty svc : Service.service_ok svc empty_witness_db.
Proof. split; intros *; simpl; by rewrite lookup_empty. Qed.

End session.
End WitnessSession.

(** ** Retries over the network *)

Module Retry.
Import Network.
Section retry.
Context `{Primitives} `{HexCrate}.
Context `{!Json IssueRequest} `{!Json IssueResponse} `{!Json HeadRequest} `{!Json HeadResponse}.

(** The same request sent [n] times, whatever the answers are. *)
Fixpoint attempts (n : nat) (req : WitnessRequest) (e : Z) (p : Client) : list (Result WitnessReceipt) * Client :=
  match n with
  | O => ([], p)
  | S n =>
      let '(r, p1) := issue_receipt req e p in
      let '(rs, p2) := attempts n req e p1 in
      (r :: rs, p2)
  end.

(** A value whose JSON text fits the body limit of both sides. *)
Definition fits {A} `{Json A} (a : A) : Prop := ∃ body, json_to_vec a = Some body ∧ lenZ body ≤ Https.MAX_HTTP_BODY.

Context `{!HexCrateOk} `{!PrimitivesOk}.
Context `{!JsonOk IssueRequest} `{!JsonOk IssueResponse} `{!JsonOk HeadRequest} `{!JsonOk HeadResponse}.

(** Once granted, further attempts change nothing and return the same receipt. *)
Lemma attempts_granted n req e p c rs p' :
  client_inv p → wf_request req → client_head p (req_vault_id req) (req_object_id req) = Some c →
  Witness.already_issued c req e = true → attempts n req e p = (rs, p') →
  client_inv p' ∧ client_db p' = client_db p ∧ client_service p' = client_service p ∧ ∀ r, Ok r ∈ rs → r = c.
Proof.
  revert p rs. induction n as [|n IH]; intros p rs Hp Hreq Hc Ha; simpl.
  { intros [= <- <-]. split_and!; [done..|]. by intros r Hr%elem_of_nil. }
  destruct (Https.https_issue_receipt req e p) as [r1 p1] eqn:E1.
  destruct (attempts n req e p1) as [rs1 p2] eqn:E2. intros [= <- <-].
  pose proof (https_issue_service _ _ _ _ _ E1) as Esvc.
  apply https_issue_cases in E1 as [Hp1 [[Hdb Hr]|(_ & _ & Hn & _)]]; [| |done|done].
  - destruct (IH p1 rs1) as (? & ? & ? & Hrs); [done|done| |done|done|].
    { unfold client_head in *. by rewrite Hdb, Esvc. }
    split_and!; [done|congruence|congruence|]. intros r [<-|Hin]%elem_of_cons; [|by apply Hrs].
    destruct (Hr r eq_refl) as (Hr1 & _). congruence.
  - rewrite (Hn _ Hc) in Ha. done.
Qed.

Lemma attempts_cases n req e p rs p' :
  client_inv p → wf_request req → attempts n req e p = (rs, p') →
  client_inv p' ∧ client_service p' = client_service p ∧
  (client_db p' = client_db p ∨
   client_db p' = Service.granted (client_service p) (client_db p) req ∧
   e = Service.epoch_of (client_service p) (client_db p) (req_vault_id req) (req_object_id req)) ∧
  (∀ r, Ok r ∈ rs → client_head p' (req_vault_id req) (req_object_id req) = Some r ∧ e < rc_epoch r ∧
     Witness.verify_request r req = Ok tt).
Proof.
  revert p rs. induction n as [|n IH]; intros p rs Hp Hreq; simpl.
  { intros [= <- <-]. split_and!; [done|done|by left|]. by intros r Hr%elem_of_nil. }
  destruct (Https.https_issue_receipt req e p) as [r1 p1] eqn:E1.
  destruct (attempts n req e p1) as [rs1 p2] eqn:E2. intros [= <- <-].
  pose proof (https_issue_service _ _ _ _ _ E1) as Esvc.
  apply https_issue_cases in E1 as [Hp1 [[Hdb Hr]|(Hdb & He & _ & Hr)]]; [| |done|done].
  - pose proof (IH _ _ Hp1 Hreq E2) as (Hp2 & Es2 & Hdb2 & Hrs). rewrite Esvc, Hdb in Hdb2.
    split_and!; [done|congruence|done|]. intros r [<-|Hin]%elem_of_cons; [|by apply Hrs].
    destruct (Hr r eq_refl) as (Hc & Hlt & Hv). split_and!; [|done..].
    eapply attempts_granted in E2 as (_ & Hd & Hs & _); [|done|done| |by apply already_issued_granted].
    + unfold client_head in *. by rewrite Hd, Hs, Hdb, Esvc.
    + unfold client_head in *. by rewrite Hdb, Esvc.
  - set (c := Witness.receipt_issue req (Service.next_of (client_db p) (req_vault_id req)) (ws_signing_key (client_service p))).
    assert (client_head p1 (req_vault_id req) (req_object_id req) = Some c) as Hc.
    { unfold client_head. by rewrite Esvc, Hdb, Service.head_of_granted. }
    assert (Witness.verify_request c req = Ok tt) as Hv by apply Witness.receipt_issue_verifies.
    assert (e < rc_epoch c) as Hlt by (simpl; rewrite He; by apply Service.epoch_below_next, ci_service).
    eapply attempts_granted in E2 as (Hp2 & Hd & Hs & Hrs); [|done|done|done|by apply already_issued_granted].
    assert (client_head p2 (req_vault_id req) (req_object_id req) = Some c) as Hc2
      by (unfold client_head in *; by rewrite Hd, Hs).
    split_and!; [done|congruence|right; split; [congruence|done]|].
    intros r [<-|Hin]%elem_of_cons; [|by rewrite (Hrs _ Hin)].
    destruct (Hr r eq_refl) as (Hc3 & _). rewrite Hdb, Service.head_of_granted in Hc3. injection Hc3 as <-. done.
Qed.

(** *** A delivered attempt succeeds *)

Lemma read_json_fits {A} `{!Json A} `{!JsonOk A} (a : A) body m u auth :
  json_to_vec a = Some body → lenZ body ≤ Https.MAX_HTTP_BODY →
  Service.read_json (Service.mkHttpRequest m u auth (Some body)) = Some a ∧ Https.read_json (Some body) = Ok a.
Proof.
  intros Ha Hl. unfold Service.read_json, Https.read_json. cbn [Service.rq_body].
  change Service.MAX_WIRE_BODY with Https.MAX_HTTP_BODY.
  assert (takeZ (Https.MAX_HTTP_BODY + 1) body = body) as ->.
  { rewrite takeZ_take. apply take_ge. unfold lenZ in Hl. lia. }
  destruct (Z.ltb_spec Https.MAX_HTTP_BODY (lenZ body)); [lia|]. by rewrite (json_roundtrip _ _ Ha).
Qed.

Lemma accept_issued cfg req e c :
  wf_receipt c → Witness.verify_request c req = Ok tt → e < rc_epoch c → Https.trusted cfg (rc_public_key c) →
  Https.accept_receipt cfg req e (Service.issue_response c) = Ok c.
Proof.
  intros Hwf Hv He Ht. unfold Https.accept_receipt. rewrite into_receipt_response by done.
  assert (Witness.receipt_new (rc_vault_id c) (rc_object_id c) (rc_version_id c) (rc_epoch c) (rc_commitment c)
    (rc_public_key c) (rc_signature c) = Ok c) as ->.
  { apply Witness.receipt_new_ok. split; [by destruct c|]. by apply Witness.verify_request_ok in Hv as (_ & _ & _ & _ & ?). }
  simpl. rewrite (proj2 (Https.check_trusted_key_ok _ _) Ht). simpl. rewrite Hv. simpl.
  by destruct (Z.leb_spec (rc_epoch c) e); [lia|].
Qed.

(** The request reaches the service and the response comes back. *)
Lemma delivered_issue p req e c w' :
  client_inv p → cn_schedule (agent p) (cn_count (agent p)) = Delivered →
  https_authorization (config p) = cn_expected (agent p) →
  fits (Https.from_request req e) → fits (Service.issue_response c) →
  Service.issue_wire (client_service p) (Https.from_request req e) (cn_world (agent p)) = (Ok (Service.issue_response c), w') →
  wf_receipt c → Witness.verify_request c req = Ok tt → e < rc_epoch c → Https.trusted (config p) (rc_public_key c) →
  ∃ p', issue_receipt req e p = (Ok c, p').
Proof.
  intros [_ Hi _] Hsch Hauth (body & Hb & Hbl) (rbody & Hrb & Hrl) Hw Hwf Hv He Ht. simpl.
  unfold Https.https_issue_receipt, Https.post_issue, Https.post_json, sbind. rewrite Hb. simpl. unfold connection_post.
  rewrite Hsch. unfold forwarded. rewrite Hi, drop_app_length, Hauth. unfold Service.serve, Service.authorized.
  cbn [Service.rq_authorization]. rewrite bool_decide_eq_true_2 by done. unfold Service.dispatch.
  cbn [Service.rq_method Service.rq_url]. rewrite bool_decide_eq_true_2 by done.
  rewrite (proj1 (read_json_fits _ _ _ _ _ Hb Hbl)). unfold client_service in Hw. rewrite Hw.
  unfold Service.serialize_response. rewrite Hrb. unfold outcome_of. cbn [Service.rs_status Service.rs_body].
  change (200 <? 400) with true. cbv iota.
  rewrite (proj2 (read_json_fits (Service.issue_response c) _ Service.Post [] None Hrb Hrl)). unfold slift.
  rewrite accept_issued by done. by eexists.
Qed.

(** The next request is delivered to a correctly configured, fault-free
    service, and the texts of well-formed values fit the body limits. *)
Record reachable (p : Client) : Prop := {
  re_delivered : cn_schedule (agent p) (cn_count (agent p)) = Delivered;
  re_authorized : https_authorization (config p) = cn_expected (agent p);
  re_trusted : Https.trusted (config p) (Service.public_key (client_service p));
  re_quiet : Service.quiet (cn_world (agent p));
  re_files : PrivateFile.state_files (ws_path (client_service p)) (ww_env (cn_world (agent p)));
  re_request req e : wf_request req → is_u64 e → fits (Https.from_request req e);
  re_response c : wf_receipt c → is_u64 (rc_epoch c) → fits (Service.issue_response c);
}.

Lemma head_of_epoch svc db v o r :
  Service.service_ok svc db → Service.head_of svc db v o = Some r → is_u64 (rc_epoch r).
Proof.
  intros Hok. unfold Service.head_of. destruct (wd_heads db !! _) as [row|] eqn:E; [|done]. intros [= <-]. simpl.
  apply (Service.so_heads _ _ Hok) in E as [_ _ _ He _]. destruct (wd_epochs db !! _) as [n|] eqn:En; simpl in He.
  - apply (Service.so_epochs _ _ Hok) in En. unfold is_u64, u64_max, i64_max in *. lia.
  - unfold is_u64, u64_max. lia.
Qed.

(** A repeated request is answered with the recorded receipt. *)
Lemma reachable_retry p req e c :
  client_inv p → reachable p → wf_request req → is_u64 e →
  client_head p (req_vault_id req) (req_object_id req) = Some c → Witness.already_issued c req e = true →
  ∃ p', issue_receipt req e p = (Ok c, p').
Proof.
  intros Hp [? ? Ht ? ? Hf1 Hf2] Hreq He Hc Hai. pose proof (ci_service _ Hp) as Hok.
  destruct (Service.issue_wire_retry (client_service p) (Https.from_request req e) req e (cn_world (agent p)) c)
    as (w' & Ew & _); [by apply parse_issue_from_request|done..|].
  pose proof (head_of_epoch _ _ _ _ _ Hok Hc).
  destruct (head_of_wf _ _ _ _ _ Hok (proj1 Hreq) (proj1 (proj2 Hreq)) Hc) as (Hwf & Ev & Eo & Ek & Hsig).
  unfold Witness.already_issued in Hai. rewrite !andb_true_iff, !bool_decide_eq_true in Hai.
  destruct Hai as [[Ex Ecm] Hlt%Z.ltb_lt].
  apply (delivered_issue p req e c w'); auto; [by apply Witness.verify_request_ok|by rewrite Ek].
Qed.

(** A request that expects the recorded epoch is granted. *)
Lemma reachable_grant p req e :
  client_inv p → reachable p → wf_request req → is_u64 e →
  e = Service.epoch_of (client_service p) (client_db p) (req_vault_id req) (req_object_id req) →
  Service.next_of (client_db p) (req_vault_id req) + 1 ≤ i64_max →
  ∃ r p', issue_receipt req e p = (Ok r, p').
Proof.
  intros Hp [? ? Ht Hq Hfs Hf1 Hf2] Hreq Hu He Hn. pose proof (ci_service _ Hp) as Hok.
  destruct (Service.issue_wire_granted (client_service p) (Https.from_request req e) req e (cn_world (agent p)))
    as (w' & Ew & _); [by apply parse_issue_from_request|done..|].
  pose proof (Service.next_of_pos _ _ (req_vault_id req) Hok).
  eexists. eapply delivered_issue; try exact Ew; auto using receipt_issue_wf, Witness.receipt_issue_verifies.
  - apply Hf2; [by apply receipt_issue_wf|]. simpl. unfold is_u64, u64_max, i64_max, client_db in *. lia.
  - simpl. rewrite He. by apply Service.epoch_below_next.
Qed.

End retry.
End Retry.

(** ** The guarantees *)

Module WitnessGuarantees.
Import WitnessSession Network Retry.
Section guarantees.
Context `{Primitives} `{HexCrate} `{!HexCrateOk} `{!PrimitivesOk}.

(** C31: over any session of the witness service, under any schedule of
    storage faults, the epochs it reports for an object (in receipts or in
    heads) never decrease. *)
Theorem epochs_never_go_back svc cs w as' w' i j rp rp' :
  Service.service_ok svc (ww_db w) → calls svc cs w = (as', w') → (i ≤ j)%nat →
  as' !! i ≫= reported = Some rp → as' !! j ≫= reported = Some rp' →
  rp_vault rp = rp_vault rp' → rp_object rp = rp_object rp' → rp_epoch rp ≤ rp_epoch rp'.
Proof. apply calls_monotone. Qed.

(** C7: the witness never equivocates.  In the life of a witness database, two
    answers (receipts or heads of present objects) that carry the same vault
    and epoch are about the same object, version and commitment, whatever
    requests were sent and whichever statements failed. *)
Theorem never_equivocates svc cs w as' w' i j rp rp' :
  ww_db w = empty_witness_db → calls svc cs w = (as', w') →
  as' !! i ≫= reported = Some rp → as' !! j ≫= reported = Some rp' →
  rp_content rp ≠ None → rp_content rp' ≠ None →
  rp_vault rp = rp_vault rp' → rp_epoch rp = rp_epoch rp' → rp = rp'.
Proof.
  intros E Hc Hi Hj Hr Hr' Ev Ee.
  destruct (calls_history svc cs w as' w' ∅) as (h & _ & Hh); [rewrite E; apply service_empty|rewrite E; apply history_empty|done|].
  eapply recorded_inj; eauto.
Qed.

(** A conditional issue succeeds.  When no statement fails, a request that
    expects the recorded epoch of its object (zero without one) obtains the
    vault's next epoch, and the service records exactly that receipt; only
    an exhausted epoch range can prevent it. *)
Lemma conditional_issue_succeeds svc wire req e w :
  Service.parse_issue wire = Ok (req, e) → Service.service_ok svc (ww_db w) → Service.quiet w →
  PrivateFile.state_files (ws_path svc) (ww_env w) →
  e = Service.epoch_of svc (ww_db w) (req_vault_id req) (req_object_id req) →
  Service.next_of (ww_db w) (req_vault_id req) + 1 ≤ i64_max →
  ∃ r w', Service.issue_wire svc wire w = (Ok (Service.issue_response r), w') ∧ e < rc_epoch r ∧
    Witness.verify_request r req = Ok tt ∧
    Service.head_of svc (ww_db w') (req_vault_id req) (req_object_id req) = Some r ∧
    ∀ v o, (v, o) ≠ (req_vault_id req, req_object_id req) → Service.head_of svc (ww_db w') v o = Service.head_of svc (ww_db w) v o.
Proof.
  intros Hp Hok Hq Hfs He Hn. pose proof (parse_issue_wf _ _ _ Hp) as Hreq.
  destruct (Service.issue_wire_granted svc wire req e w) as (w' & E & Hdb); try done.
  eexists _, w'. split; [done|]. rewrite Hdb, Service.head_of_granted. split_and!; [|apply Witness.receipt_issue_verifies|done|].
  - simpl. rewrite He. by apply Service.epoch_below_next.
  - intros v o. apply Service.head_of_granted_other.
Qed.

Context `{!Json IssueRequest} `{!Json IssueResponse} `{!Json HeadRequest} `{!Json HeadResponse}.

(** What the HTTPS client hands to the vault is authenticated whatever the
    network answers: a receipt is signed by a pinned key over exactly the
    requested vault, object, version and commitment with a later epoch; a
    head is signed by a pinned key over the requested object and the caller's
    challenge, with its fields consistent. *)
Lemma https_client_authenticates {T : Type} `{!Transport T} req e v o ch (p p1 p2 : HttpsWitnessProvider T) r h :
  Https.https_issue_receipt req e p = (Ok r, p1) → Https.https_object_head v o ch p = (Ok h, p2) →
  (Https.trusted (config p) (rc_public_key r) ∧ Witness.verify_request r req = Ok tt ∧ e < rc_epoch r) ∧
  (Https.trusted (config p) (hd_public_key h) ∧ Witness.head_verify_signature h = Ok tt ∧
   hd_vault_id h = v ∧ hd_object_id h = o ∧ hd_challenge h = ch ∧
   hd_present h = Witness.is_some (hd_version_id h) && Witness.is_some (hd_commitment h) ∧
   (hd_present h = false → hd_epoch h = 0)).
Proof.
  unfold Https.https_issue_receipt, Https.https_object_head.
  intros (resp & q & _ & E1)%sbind_ok (resp' & q' & _ & E2)%sbind_ok. injection E1 as E1 _. injection E2 as E2 _.
  apply Https.accept_receipt_ok in E1 as (_ & ? & ? & ?).
  apply Https.accept_head_ok in E2 as (E2 & ? & ? & ? & ?). apply Https.into_head_ok in E2 as (? & ? & ?). by split_and!.
Qed.

Context `{!JsonOk IssueRequest} `{!JsonOk IssueResponse} `{!JsonOk HeadRequest} `{!JsonOk HeadResponse}.

(** C25: retries over a lossy network obtain at most one epoch.  However often
    the client repeats a request, and whichever requests, replies or storage
    operations fail, the witness grants it at most once, and every receipt
    the client accepts is the one the witness has recorded. *)
Theorem retries_obtain_one_epoch n req e (p p' : Client) rs :
  client_inv p → wf_request req → attempts n req e p = (rs, p') →
  client_inv p' ∧
  (client_db p' = client_db p ∨ client_db p' = Service.granted (client_service p) (client_db p) req) ∧
  ∀ r, Ok r ∈ rs → client_head p' (req_vault_id req) (req_object_id req) = Some r ∧ e < rc_epoch r.
Proof.
  intros Hp Hreq E. apply attempts_cases in E as (Hp' & _ & Hdb & Hr); [|done..]. split_and!; [done|naive_solver|].
  intros r Hin. by destruct (Hr r Hin) as (? & ? & _).
Qed.

(** C26: a retry that gets through succeeds.  Let a request expect the epoch that
    the service recorded for the object before the first attempt.  After any
    number of attempts with any losses, one that is delivered to a correctly
    configured and fault-free service ([reachable]), whose range of epochs is not
    exhausted, returns a receipt, the same one that every earlier successful
    attempt returned. *)
Theorem delivered_retry_succeeds n req e (p p' : Client) rs :
  client_inv p → wf_request req → is_u64 e →
  e = Service.epoch_of (client_service p) (client_db p) (req_vault_id req) (req_object_id req) →
  attempts n req e p = (rs, p') → reachable p' → Service.next_of (client_db p') (req_vault_id req) + 1 ≤ i64_max →
  ∃ r p'', issue_receipt req e p' = (Ok r, p'') ∧ ∀ r', Ok r' ∈ rs → r' = r.
Proof.
  intros Hp Hreq Hu He Ha Hre Hn. apply attempts_cases in Ha as (Hp' & Es & Hdb & Hrs); [|done..].
  assert (Hhead : ∀ c, client_head p' (req_vault_id req) (req_object_id req) = Some c →
    Witness.already_issued c req e = true → ∃ r p'', issue_receipt req e p' = (Ok r, p'') ∧ ∀ r', Ok r' ∈ rs → r' = r).
  { intros c Hc Hai. destruct (reachable_retry p' req e c) as (p'' & E); [done..|].
    exists c, p''. split; [done|]. intros r' Hr'. destruct (Hrs _ Hr') as (Hr'' & _). congruence. }
  destruct Hdb as [Hdb|[Hdb _]].
  - destruct (reachable_grant p' req e) as (r & p'' & E); [done..|by rewrite Hdb, Es|done|].
    exists r, p''. split; [done|]. intros r' Hr'. destruct (Hrs _ Hr') as (Hc & Hlt & Hv).
    destruct (Hhead r') as (r2 & p2 & E2 & Heq); [done|by apply already_issued_granted|].
    rewrite E in E2. injection E2 as <- <-. by apply Heq.
  - eapply Hhead; [unfold client_head; by rewrite Es, Hdb, Service.head_of_granted|].
    apply already_issued_granted; [apply Witness.receipt_issue_verifies|]. simpl. rewrite He. apply Service.epoch_below_next, Hp.
Qed.

End guarantees.
End WitnessGuarantees.

(** ** Concrete runs *)

Module WitnessScenario.
Import Toy ToyWire WitnessSession Network Retry WitnessGuarantees.

Definition request2 : WitnessRequest := mkRequest vault_id oid (mkId (replicate 16 6)) (replicate 32 7).
Definition challenge : bytes := replicate 32 4.

(** A receipt, the head, a conflicting request, an update, the head again. *)
Definition script : list Call :=
  let head := CallHead (mkHeadRequest (to_hex vault_id) (to_hex oid) (hex_encode challenge)) in
  [ CallIssue (Https.from_request request 0); head; CallIssue (Https.from_request request2 0);
    CallIssue (Https.from_request request2 1); head ].

Definition run : list Answer * WitnessWorld := calls svc script ww.

Definition report (i : nat) : Reported := default (mkReported [] [] (-1) None) (run.1 !! i ≫= reported).

Lemma report_some i : i ∈ [0; 1; 3; 4]%nat → run.1 !! i ≫= reported = Some (report i).
Proof.
  intros Hi. repeat (apply elem_of_cons in Hi as [-> | Hi]; [vm_compute; exact eq_refl|]). by apply elem_of_nil in Hi.
Qed.

Lemma epochs_never_go_back_witness : rp_epoch (report 0) ≤ rp_epoch (report 4) ∧ rp_epoch (report 4) = 2.
Proof.
  split; [|vm_compute; exact eq_refl].
  apply (epochs_never_go_back svc script ww run.1 run.2 0 4).
  - apply service_empty.
  - apply surjective_pairing.
  - lia.
  - apply report_some. by vm_compute; repeat constructor.
  - apply report_some. by vm_compute; repeat constructor.
  - vm_compute. exact eq_refl.
  - vm_compute. exact eq_refl.
Defined.

Lemma never_equivocates_witness : report 0 = report 1.
Proof.
  apply (never_equivocates svc script ww run.1 run.2 0 1).
  - exact eq_refl.
  - apply surjective_pairing.
  - apply report_some. by vm_compute; repeat constructor.
  - apply report_some. by vm_compute; repeat constructor.
  - vm_compute. discriminate.
  - vm_compute. discriminate.
  - vm_compute. exact eq_refl.
  - vm_compute. exact eq_refl.
Defined.

Lemma env_quiet : PrivateFile.quiet env.
Proof. intros n. exact eq_refl. Qed.

Lemma files_ok m e :
  env_fs e = {[ root := mkMeta FDirectory 493; vault_path := mkMeta FRegular m ]} → PrivateFile.state_files (ws_path svc) e.
Proof.
  intros E. unfold PrivateFile.state_files, PrivateFile.type_at. rewrite E. split_and!; [done| |].
  - by rewrite lookup_insert_ne, lookup_singleton_eq.
  - intros suffix t. rewrite lookup_insert_ne by discriminate.
    destruct (_ !! path_push_suffix _ _) as [md|] eqn:El; [|done].
    apply lookup_singleton_Some in El as [_ <-]. by intros [= <-].
Qed.

Lemma request_wf : wf_request request.
Proof.
  repeat (split; [try done; try (split; [done|]); try (apply Forall_replicate; done)|]). apply Forall_replicate. done.
Qed.

Lemma conditional_issue_succeeds_witness :
  ∃ r w', Service.issue_wire svc (Https.from_request request 0) ww = (Ok (Service.issue_response r), w') ∧ 0 < rc_epoch r ∧
    Witness.verify_request r request = Ok tt ∧ Service.head_of svc (ww_db w') vault_id oid = Some r ∧
    ∀ v o, (v, o) ≠ (vault_id, oid) → Service.head_of svc (ww_db w') v o = Service.head_of svc empty_witness_db v o.
Proof.
  apply (conditional_issue_succeeds svc (Https.from_request request 0) request 0 ww).
  - vm_compute. exact eq_refl.
  - apply service_empty.
  - apply env_quiet.
  - apply (files_ok 420). exact eq_refl.
  - vm_compute. exact eq_refl.
  - vm_compute. discriminate.
Defined.

(** The client over a network that loses a reply and then a request. *)
Definition trials (n : nat) : list (Result WitnessReceipt) * Client := attempts n request 0 (client lossy).

Example trials_results : map is_ok (trials 4).1 = [false; false; true; true].
Proof. by vm_compute. Qed.

Lemma lossy_inv : client_inv (client lossy).
Proof. split; [apply service_empty|by vm_compute|by vm_compute]. Qed.

Lemma retries_obtain_one_epoch_witness :
  client_inv (trials 4).2 ∧
  (client_db (trials 4).2 = empty_witness_db ∨ client_db (trials 4).2 = Service.granted svc empty_witness_db request) ∧
  ∀ r, Ok r ∈ (trials 4).1 → client_head (trials 4).2 vault_id oid = Some r ∧ 0 < rc_epoch r.
Proof.
  apply (retries_obtain_one_epoch 4 request 0 (client lossy) (trials 4).2 (trials 4).1).
  - apply lossy_inv.
  - apply request_wf.
  - apply surjective_pairing.
Defined.

(** *** The texts of well-formed values fit the limits *)

Lemma get_put_fields fs : get_fields (length fs) (put_fields fs) = Some fs.
Proof.
  induction fs as [|f fs IH]; [done|]. change (put_fields (f :: fs)) with (lenZ f :: f ++ put_fields fs).
  cbn [length get_fields].
  rewrite (proj2 (Z.leb_le _ _)) by (unfold lenZ; rewrite length_app; lia).
  rewrite takeZ_take, dropZ_drop. unfold lenZ. rewrite Nat2Z.id, take_app_length, drop_app_length, IH. done.
Qed.

Lemma length_put_fields fs : lenZ (put_fields fs) = lenZ fs + foldr (λ f n, lenZ f + n) 0 fs.
Proof.
  unfold lenZ. induction fs as [|f fs IH]; [done|]. change (put_fields (f :: fs)) with (lenZ f :: f ++ put_fields fs).
  cbn [length foldr]. rewrite length_app. lia.
Qed.

Lemma fits_request req e : wf_request req → fits (Https.from_request req e).
Proof.
  intros ([Hv _] & [Ho _] & [Hx _] & Hc & _). eexists. split.
  - unfold json_to_vec, toy_iq, checked. rewrite decide_True; [done|]. unfold dec_iq, enc_iq.
    rewrite (get_put_fields [_; _; _; _; _]). done.
  - unfold enc_iq. rewrite length_put_fields. unfold Https.from_request, to_hex, lenZ. simpl.
    rewrite !length_hex_encode, Hv, Ho, Hx, Hc. unfold Https.MAX_HTTP_BODY. simpl. lia.
Qed.

Lemma fits_response c : wf_receipt c → fits (Service.issue_response c).
Proof.
  intros ([Hv _] & [Ho _] & [Hx _] & [Hc _] & [Hp _] & [Hs _]). eexists. split.
  - unfold json_to_vec, toy_is, checked. rewrite decide_True; [done|]. unfold dec_is, enc_is.
    rewrite (get_put_fields [_; _; _; _; _; _; _]). done.
  - unfold enc_is. rewrite length_put_fields. unfold Service.issue_response, to_hex, lenZ. simpl.
    rewrite !length_hex_encode, Hv, Ho, Hx, Hc, Hp, Hs. unfold Https.MAX_HTTP_BODY. simpl. lia.
Qed.

Lemma trials_reachable : reachable (trials 2).2.
Proof.
  split.
  - vm_compute. exact eq_refl.
  - vm_compute. exact eq_refl.
  - left. vm_compute. exact eq_refl.
  - intros n. vm_compute. exact eq_refl.
  - apply (files_ok 384). vm_compute. exact eq_refl.
  - intros req e ? _. by apply fits_request.
  - intros c ? _. by apply fits_response.
Qed.

Lemma delivered_retry_succeeds_witness :
  ∃ r p'', issue_receipt request 0 (trials 2).2 = (Ok r, p'') ∧ ∀ r', Ok r' ∈ (trials 2).1 → r' = r.
Proof.
  apply (delivered_retry_succeeds 2 request 0 (client lossy) (trials 2).2 (trials 2).1).
  - apply lossy_inv.
  - apply request_wf.
  - unfold is_u64, u64_max. lia.
  - vm_compute. exact eq_refl.
  - apply surjective_pairing.
  - apply trials_reachable.
  - vm_compute. discriminate.
Defined.

(** A client whose first request was granted, repeating it and asking for the
    head. *)
Definition served : Client := (issue_receipt request 0 (client (λ _, Delivered))).2.
Definition again := issue_receipt request 0 served.
Definition asked := object_head vault_id oid challenge served.
Definition receipt : WitnessReceipt :=
  match again.1 with Ok r => r | Err _ => Witness.receipt_issue request 0 [] end.
Definition head : WitnessHead :=
  match asked.1 with Ok h => h | Err _ => Witness.head_issue vault_id oid None [] [] end.

Lemma https_client_authenticates_witness :
  hd_present head = true ∧
  (Https.trusted (config served) (rc_public_key receipt) ∧ Witness.verify_request receipt request = Ok tt ∧ 0 < rc_epoch receipt) ∧
  (Https.trusted (config served) (hd_public_key head) ∧ Witness.head_verify_signature head = Ok tt ∧
   hd_vault_id head = vault_id ∧ hd_object_id head = oid ∧ hd_challenge head = challenge ∧
   hd_present head = Witness.is_some (hd_version_id head) && Witness.is_some (hd_commitment head) ∧
   (hd_present head = false → hd_epoch head = 0)).
Proof.
  split; [vm_compute; exact eq_refl|].
  apply (https_client_authenticates request 0 vault_id oid challenge served again.2 asked.2 receipt head).
  - vm_compute. exact eq_refl.
  - vm_compute. exact eq_refl.
Defined.

End WitnessScenario.
