(* ===== verification/DaemonGuarantees.v ===== *)
(** * The daemon on a concrete connection

    A socket whose peer has sent a fixed text, a daemon that owns a freshly
    created vault, and the guarantees of [DaemonSpec] applied to them. *)

From S2P Require Import Prelude Format Crypto Witness Fs Storage Vault WitnessService Https Backup Protocol Daemon.
From S2P Require Import Toy ToyWire ToyFiles StorageSpec VaultSpec StreamSpec ProtocolSpec DaemonSpec Guarantees.
From Stdlib Require Import ZArith Lia.
From stdpp Require Import base numbers list gmap strings relations.

Open Scope Z_scope.
Open Scope vlt_scope.

Module ToyDaemon.
Import Toy ToyWire ToyFiles.

#[export] Instance toy_base64 : Base64 := { b64_encode := hex_encode; b64_decode := parse_pairs }.

(** What the peer has sent and not yet been read, what was sent to it. *)
Record Socket : Type := mkSocket { so_in : list Ascii.ascii; so_out : bytes; so_uid : option Z }.

Definition as_ascii (bs : bytes) : list Ascii.ascii := map (λ b, Ascii.ascii_of_N (Z.to_N b)) bs.

#[export] Instance socket_read : Read Socket := {
  read n s := (ReadData (map byte_Z (takeZ n (so_in s))), mkSocket (dropZ n (so_in s)) (so_out s) (so_uid s));
  read_rank s := length (so_in s);
}.
#[export] Instance socket_write : Write Socket := { write_all data s := (true, mkSocket (so_in s) (so_out s ++ data) (so_uid s)) }.
#[export] Instance socket_flush : Flush Socket := { flush s := (true, s) }.
#[export] Instance socket_stream : UnixStream Socket := {
  us_read := socket_read;
  us_write := socket_write;
  us_flush := socket_flush;
  peer_uid := so_uid;
  set_read_timeout s := (true, s);
  set_write_timeout s := (true, s);
  unread s := length (so_in s);
}.

#[export] Program Instance socket_read_ok : ReadOk Socket := { contents s := map byte_Z (so_in s) }.
Next Obligation.
  intros n s d s' Hn [= <- <-]. simpl. rewrite takeZ_take, dropZ_drop. split; [by rewrite <-map_app, take_drop|]. split.
  - unfold lenZ. rewrite length_map, length_take. lia.
  - destruct (so_in s); [done|]. destruct (Z.to_nat n) eqn:E; [lia|done].
Qed.
Next Obligation. done. Qed.
Next Obligation. intros n s o s' _ [= _ <-] _. simpl. rewrite dropZ_drop, length_drop. lia. Qed.
Next Obligation.
  intros n s o s' Hn [= <- <-] _ Hne. simpl. rewrite dropZ_drop, length_drop. destruct (so_in s) as [|b r]; [done|]. simpl. lia.
Qed.

Lemma byte_Z_u8 c : is_u8 (byte_Z c).
Proof.
  unfold byte_Z, is_u8, u8_max. pose proof (Ascii.N_ascii_bounded c). lia.
Qed.

#[export] Program Instance socket_ok : UnixStreamOk Socket := { sent := so_out }.
Next Obligation. intros s. simpl. by rewrite length_map. Qed.
Next Obligation. intros s. simpl. apply Forall_fmap, Forall_true. intros c. apply byte_Z_u8. Qed.
Next Obligation. by intros data s s' [= <-]. Qed.
Next Obligation. done. Qed.
Next Obligation. done. Qed.
Next Obligation. done. Qed.
Next Obligation. done. Qed.
Next Obligation. done. Qed.
Next Obligation. done. Qed.

(** A daemon that owns the vault of [Scenario], and its clients. *)
Definition daemon_config : DaemonConfig := Daemon.for_current_user 1000 (mkPath true ["s"]) Scenario.path.
Definition daemon : DaemonState Connection :=
  mkDaemon daemon_config (mkMutex Scenario.vault false) (mkMutex (mkRecovery [] None) false) None 0 false false.
Definition host : Host Connection := mkHost daemon Scenario.world1 ∅.
Definition object_text : bytes := hex_encode (as_bytes oid).
Definition pieces : list bytes := [[104; 101]; [108; 108; 111]].
Definition request_bytes (r : Request) : bytes := default [] (ProtocolSpec.frame r).
Definition uploader : Socket :=
  mkSocket (as_ascii (request_bytes (RqPutStream object_text) ++ StreamItems.client_items pieces)) [] (Some 1000).

End ToyDaemon.

Module DaemonScenario.
Import Toy ToyWire ToyFiles ToyDaemon ProtocolSpec StreamItems DaemonSpec Daemon.

Definition upload_run := serve_stream (host, uploader).

(** Two pieces arrive and are stored as one plaintext. *)
Lemma upload_stores_stream_witness :
  upload_run.1 = Ok tt ∧
  ∃ o data, parse_object_id object_text = Ok o ∧ upload_of (client_items pieces) = Some data ∧
    reads_back Scenario.vault (w_db (h_world upload_run.2.1)) o data.
Proof.
  split; [vm_compute; exact eq_refl|].
  destruct Guarantees.created_facts as (rk & _ & Hid & Hwf & _).
  destruct (upload_stores_stream object_text (request_bytes (RqPutStream object_text)) (client_items pieces)
              host upload_run.2.1 uploader upload_run.2.2 upload_run.1) as (_ & [Hdb|Hst] & _).
  - vm_compute. exact eq_refl.
  - vm_compute. exact eq_refl.
  - exact Hid.
  - exact Hwf.
  - unfold upload_run. destruct (serve_stream _) as [r [h t]]. exact eq_refl.
  - exfalso. apply (f_equal (λ db, bool_decide (db_objects db = ∅))) in Hdb. vm_compute in Hdb. discriminate Hdb.
  - exact Hst.
Defined.

(** Another client downloads what was uploaded. *)
Definition downloader : Socket := mkSocket (as_ascii (request_bytes (RqGetStream object_text))) [] (Some 1000).
Definition download_run := serve_stream (upload_run.2.1, downloader).

Lemma download_complete_witness :
  download_run.1 = Ok tt ∧
  is_long download_run.2.1 = false ∧
  ∃ ready, frame (ROk SStreamReady) = Some ready ∧ so_out download_run.2.2 = ready ++ client_items [Scenario.plaintext].
Proof.
  split; [vm_compute; exact eq_refl|]. split; [|eexists; split; vm_compute; exact eq_refl].
  destruct (download_complete object_text (request_bytes (RqGetStream object_text)) [] upload_run.2.1 download_run.2.1
              downloader download_run.2.2) as [Hl _].
  - vm_compute. exact eq_refl.
  - vm_compute. exact eq_refl.
  - assert (download_run.1 = Ok tt) as Hok by (vm_compute; exact eq_refl). revert Hok. unfold download_run.
    destruct (serve_stream _) as [r [h t]]. intros Hok. simpl in Hok. by rewrite Hok.
  - rewrite Hl. vm_compute. exact eq_refl.
Defined.

(** Another user's request to shut the daemon down. *)
Definition stranger : Socket :=
  mkSocket (as_ascii (default [] (frame RqShutdown))) [] (Some 1001).
Definition stranger_run := serve_stream (host, stranger).

Lemma refused_without_effect_witness :
  stranger_run.1 = Ok tt ∧ stranger_run.2.1 = host ∧
  ∃ f, frame (error_response CUnauthorized "local peer is not authorized") = Some f ∧ so_out stranger_run.2.2 = f.
Proof.
  split; [vm_compute; exact eq_refl|].
  destruct (refused_without_effect host stranger_run.2.1 stranger stranger_run.2.2 stranger_run.1) as [Hr _].
  - unfold stranger_run. destruct (serve_stream _) as [r [h t]]. exact eq_refl.
  - destruct Hr as [Hh Hs]; [vm_compute; intros Hu; discriminate Hu|]. split; [exact Hh|].
    destruct Hs as (f & Hf & Ho); [vm_compute; exact eq_refl|]. exists f. split; [exact Hf|exact Ho].
Defined.

End DaemonScenario.
