(* ===== verification/ServerGuarantees.v ===== *)
(** * Two interleaved connections

    Concrete runs of [Server]: a verification and a request to lock, the second
    served while the first is in its long operation; and an upload into a newly
    created vault while another client asks for the status, and a download of
    what was stored. *)

From S2P Require Import Prelude Format Crypto Witness Fs Storage Vault WitnessService Https Backup Protocol Daemon Server.
From S2P Require Import Toy ToyWire ToyFiles StorageSpec VaultSpec StreamSpec ProtocolSpec DaemonSpec ServerSpec Refinement Typed TypedServer MapServer Guarantees DaemonGuarantees.
From Stdlib Require Import ZArith Lia.
From stdpp Require Import base numbers list gmap strings relations.

Open Scope Z_scope.
Open Scope vlt_scope.

Module ServerScenario.
Import Toy ToyWire ToyFiles ToyDaemon ServerSpec.

Definition idle_host : Host Connection :=
  mkHost (mkDaemon daemon_config (mkMutex small_vault false) (mkMutex (mkRecovery [] None) false) None 0 false false) small_world ∅.

Definition served := Server.serve (T:=Socket) idle_host.
Definition bound : Host Connection := served.2.
Definition started : Machine Connection Socket := mkMachine bound Checking ∅.

Definition asking (request : Request) : Socket := mkSocket (as_ascii (request_bytes request)) [] (Some 1000).

(** The verifier takes the permit; the other client is told to come back. *)
Definition first_part : list (Server.Move (T:=Socket)) :=
  [Server.MContinue; Server.MAccept (asking RqVerify); Server.MLoad; Server.MSpawn 0%nat;
   Server.MContinue; Server.MAccept (asking RqLock); Server.MLoad; Server.MSpawn 1%nat] ++
  replicate 6 (Server.MThread 0%nat) ++ replicate 6 (Server.MThread 1%nat) ++ [Server.MEnd 1%nat].
(** The verifier ends. *)
Definition second_part : list (Server.Move (T:=Socket)) := replicate 3 (Server.MThread 0%nat) ++ [Server.MEnd 0%nat].

Definition nothing : list (Event Socket) * Machine Connection Socket := ([], started).
Definition middle := default nothing (Server.execute first_part started).
Definition finish := default nothing (Server.execute second_part middle.2).

Lemma serve_eq : served = (Ok started, bound).
Proof. vm_compute. exact eq_refl. Qed.

Lemma middle_steps : Server.steps started middle.1 middle.2.
Proof.
  apply (Server.execute_steps first_part). assert (is_Some (Server.execute first_part started)) as [x E].
  { apply (bool_decide_unpack _). vm_compute. exact I. }
  unfold middle. rewrite E. by destruct x.
Qed.

Lemma finish_steps : Server.steps middle.2 finish.1 finish.2.
Proof.
  apply (Server.execute_steps second_part). assert (is_Some (Server.execute second_part middle.2)) as [x E].
  { apply (bool_decide_unpack _). vm_compute. exact I. }
  unfold finish. rewrite E. by destruct x.
Qed.

Lemma connections_serialise_witness :
  map sd_origin (Server.ended middle.1 ++ Server.ended finish.1) = [asking RqLock; asking RqVerify] ∧
  ∃ before after past1 past2, serial [] bound before (sv_host middle.2) past1 ∧ serial past1 (sv_host middle.2) after (sv_host finish.2) past2 ∧
    Server.ended middle.1 ⊆+ before ∧ before ++ after ≡ₚ Server.ended middle.1 ++ Server.ended finish.1.
Proof.
  split; [vm_compute; exact eq_refl|].
  destruct (connections_serialise idle_host started bound middle.1 middle.2 finish.1 finish.2 serve_eq middle_steps finish_steps)
    as (before & after & past1 & past2 & H1 & H2 & H3 & _ & H4).
  - intros r. vm_compute. intros Hr. discriminate Hr.
  - exists before, after, past1, past2. split; [exact H1|]. split; [exact H2|]. split; [exact H3|]. apply H4. vm_compute. exact eq_refl.
Defined.

Lemma server_permits_witness :
  ∃ phases, in_phases (sv_threads middle.2) phases ∧
    AdmissionSpec.permits_ok 32 (Admission.mkPermits 1 true Admission.Listening phases).
Proof.
  destruct (server_permits idle_host started bound middle.1 middle.2 serve_eq middle_steps) as (phases & Hp & Hok).
  - vm_compute. exact eq_refl.
  - vm_compute. exact eq_refl.
  - vm_compute. split; [exact eq_refl|]. intros Hc. discriminate Hc.
  - exists phases. split; [exact Hp|].
    assert (ds_active_connections (h_daemon (sv_host middle.2)) = 1) as E1 by (vm_compute; exact eq_refl).
    assert (Daemon.is_long (sv_host middle.2) = true) as E2 by (vm_compute; exact eq_refl).
    assert (acceptor_of (sv_loop middle.2) = Admission.Listening) as E3 by (vm_compute; exact eq_refl).
    rewrite E1, E2, E3 in Hok. exact Hok.
Defined.

(** ** An upload *)

Definition upload_bound : Host Connection := (Server.serve (T:=Socket) host).2.
Definition upload_started : Machine Connection Socket := mkMachine upload_bound Checking ∅.

(** The uploader has its permit when the other client is accepted; it ends first. *)
Definition upload_schedule : list (Server.Move (T:=Socket)) :=
  [Server.MContinue; Server.MAccept uploader; Server.MLoad; Server.MSpawn 0%nat] ++ replicate 5 (Server.MThread 0%nat) ++
  [Server.MContinue; Server.MAccept (asking RqStatus); Server.MLoad; Server.MSpawn 1%nat] ++ replicate 3 (Server.MThread 1%nat) ++
  replicate 4 (Server.MThread 0%nat) ++ [Server.MEnd 0%nat] ++ replicate 2 (Server.MThread 1%nat).

Definition uploaded := default ([], upload_started) (Server.execute upload_schedule upload_started).

Lemma upload_serve_eq : Server.serve (T:=Socket) host = (Ok upload_started, upload_bound).
Proof. vm_compute. exact eq_refl. Qed.

Lemma uploaded_steps : Server.steps upload_started uploaded.1 uploaded.2.
Proof.
  apply (Server.execute_steps upload_schedule). assert (is_Some (Server.execute upload_schedule upload_started)) as [x E].
  { apply (bool_decide_unpack _). vm_compute. exact I. }
  unfold uploaded. rewrite E. by destruct x.
Qed.

Lemma host_typed : db_typed (TypedServer.tables host).
Proof. exact (TypedServer.create_typed _ _ _ _ _ Scenario.created_ok). Qed.

Definition uploaded_version : bytes := default [] (db_objects (TypedServer.tables (sv_host uploaded.2)) !! as_bytes oid).

Lemma tables_typed_witness :
  size (db_versions (TypedServer.tables (sv_host uploaded.2))) = 1%nat ∧
  db_typed (TypedServer.tables (sv_host uploaded.2)) ∧ TypedServer.readable (TypedServer.tables (sv_host uploaded.2)).
Proof.
  split; [vm_compute; exact eq_refl|].
  exact (TypedServer.tables_typed host upload_started upload_bound uploaded.1 uploaded.2 host_typed upload_serve_eq uploaded_steps).
Defined.

Lemma nonce_budget_witness :
  lenZ (Sql.select_chunks uploaded_version (TypedServer.tables (sv_host uploaded.2))) = 1 ∧
  NoDup ((λ row, cr_nonce row.2) <$> Sql.select_chunks uploaded_version (TypedServer.tables (sv_host uploaded.2))).
Proof.
  split; [vm_compute; exact eq_refl|].
  exact (proj2 (TypedServer.nonce_budget host upload_started upload_bound uploaded.1 uploaded.2 uploaded_version host_typed
                  upload_serve_eq uploaded_steps)).
Defined.

(** ** The shared map *)

(** The other client ends, and a third one downloads what was uploaded. *)
Definition download_schedule : list (Server.Move (T:=Socket)) :=
  replicate 4 (Server.MThread 1%nat) ++ [Server.MEnd 1%nat] ++
  [Server.MContinue; Server.MAccept DaemonScenario.downloader; Server.MLoad; Server.MSpawn 2%nat] ++
  replicate 9 (Server.MThread 2%nat) ++ [Server.MEnd 2%nat].
Definition downloaded := default ([], uploaded.2) (Server.execute download_schedule uploaded.2).

Lemma downloaded_steps : Server.steps uploaded.2 downloaded.1 downloaded.2.
Proof.
  apply (Server.execute_steps download_schedule). assert (is_Some (Server.execute download_schedule uploaded.2)) as [x E].
  { apply (bool_decide_unpack _). vm_compute. exact I. }
  unfold downloaded. rewrite E. by destruct x.
Qed.

Definition root_key : bytes := default [] (v_root_key Scenario.vault).

Lemma host_holds : MapServer.holds (v_vault_id Scenario.vault) root_key ∅ host.
Proof.
  split; [exact eq_refl|]. split.
  - split; [split; [exact eq_refl|left; vm_compute; exact eq_refl]|]. exists Scenario.passphrase. vm_compute. exact eq_refl.
  - destruct Guarantees.created_facts as (rk & Hk & _ & _ & Hr). unfold root_key. rewrite Hk. exact Hr.
Qed.

(** No client of the run unlocks or rotates. *)
Lemma nobody_unlocks (sd : Served Socket) :
  sd ∈ Server.ended uploaded.1 ++ Server.ended downloaded.1 → ∃ request, requested (sd_origin sd) = Some request ∧ MapServer.presented request = None.
Proof.
  revert sd. apply Forall_forall, (Forall_impl (λ sd, is_Some (requested (sd_origin sd) ≫= λ request, if MapServer.presented request then None else Some tt))).
  - apply (bool_decide_unpack _). vm_compute. exact I.
  - intros sd [u E]. destruct (requested _) as [request|]; [|done]. simpl in E. exists request. by destruct (MapServer.presented request).
Qed.

Lemma clients_share_map_witness :
  lenZ (Server.ended uploaded.1) = 1 ∧ lenZ (Server.ended downloaded.1) = 2 ∧
  ∃ before after kv1 kv2, MapServer.map_session ∅ before kv1 ∧ MapServer.map_session kv1 after kv2 ∧
    before ++ after ≡ₚ Server.ended uploaded.1 ++ Server.ended downloaded.1.
Proof.
  split; [vm_compute; exact eq_refl|]. split; [vm_compute; exact eq_refl|].
  destruct Guarantees.created_facts as (_ & _ & Hid & _).
  destruct (MapServer.clients_share_map (v_vault_id Scenario.vault) root_key Hid ∅ host upload_started upload_bound
              uploaded.1 uploaded.2 downloaded.1 downloaded.2 host_holds upload_serve_eq uploaded_steps downloaded_steps)
    as (before & after & _ & _ & H3 & Hc).
  - intros r. vm_compute. intros Hr. discriminate Hr.
  - assert (before ++ after ≡ₚ Server.ended uploaded.1 ++ Server.ended downloaded.1) as Hp by (apply H3; vm_compute; exact eq_refl).
    destruct Hc as [(kv1 & kv2 & H1 & _ & H2 & _)|Hf]; [exists before, after, kv1, kv2; split; [exact H1|]; split; [exact H2|exact Hp]|].
    destruct (MapServer.forged_presents _ _ Hid _ _ _ _ Hf) as (sd & Hsd & Hn). rewrite Hp in Hsd.
    destruct (nobody_unlocks sd Hsd) as (request & Hq & Hnone). destruct (Hn request Hq Hnone).
Defined.

End ServerScenario.
