(* ===== verification/StartupGuarantees.v ===== *)
(** * A concrete deployment

    A witness and a daemon with their secret files, set up as the theorems of
    [StartupSpec] describe, and a token file that does not work. *)

From S2P Require Import Prelude Format Crypto Fs Storage Vault Witness WitnessService Https Backup Protocol Daemon Cli Utf8 Startup.
From S2P Require Import Toy ToyWire StorageSpec StartupSpec Guarantees.
From Stdlib Require Import ZArith Lia.
From stdpp Require Import base numbers list gmap strings.

Open Scope Z_scope.
Open Scope vlt_scope.

Module Deployment.
Import Toy ToyWire Secrets StartupSpec.

(** No symbolic links. *)
#[export] Instance no_indirection : Links := { resolve _ p := Some p }.

Definition seed_path : Path := mkPath true ["seed"].
Definition token_path : Path := mkPath true ["token"].
Definition key_path : Path := mkPath true ["key"].
Definition old_key_path : Path := mkPath true ["old-key"].
Definition state_path : Path := mkPath true ["w"].
Definition secret : Metadata := mkMeta FRegular 0x180.

Definition seed : bytes := replicate 32 7.
Definition token : bytes := str_bytes "swordfish".

(** The witness's host. *)
Definition witness_env : Env :=
  set_fs ({[ root := mkMeta FDirectory 493; seed_path := secret; token_path := secret ]}) env.
Definition witness_files (token : bytes) : Files := {[ seed_path := seed; token_path := token ]}.
Definition witness_state (token : bytes) : WitnessWorld * Files := (mkWW empty_witness_db witness_env, witness_files token).
Definition loopback : SocketAddr := mkAddr (V4 127 0 0 1) 9823.
Definition arguments : WitnessProcess.Arguments := WitnessProcess.mkArguments state_path seed_path token_path loopback.
#[export] Instance one_request : Listener :=
  { http _ := Some [Service.mkHttpRequest Service.Get (str_bytes "/healthz") (Some (str_bytes "Bearer swordfish")) (Some [])] }.

(** The key tool's line, and the daemon's host: it holds a final line feed after
    the token, and a key that was used before. *)
Definition tool_run := KeyTool.main seed_path (witness_env, witness_files token).
Definition line : bytes := match tool_run.1 with Ok line => line | Err _ => [] end.
Definition old_key : bytes := replicate 32 5.
Definition daemon_env : Env :=
  set_fs ({[ key_path := secret; token_path := secret; old_key_path := secret ]}) env.
Definition daemon_state (token : bytes) : Env * Files :=
  (daemon_env, {[ key_path := line; token_path := token; old_key_path := [32] ++ hex_encode old_key ]}).
Definition endpoint : bytes := str_bytes "https://witness.example".

Definition start_run (token : bytes) := WitnessProcess.start arguments (witness_state token).
Definition service : WitnessService := mkService state_path seed.

Definition main_run := WitnessProcess.main arguments (witness_state token).
Definition config_run (token : bytes) (previous : option Path) :=
  DaemonProcess.witness_config (Some endpoint) (Some token_path) (Some key_path) previous (daemon_state token).

(** A vault beside the daemon's secrets, and its command line. *)
Definition vault_world : World :=
  set_env (set_fs (env_fs daemon_env ∪ env_fs (w_env Scenario.world1)) (w_env Scenario.world1)) Scenario.world1.
Definition daemon_files : Files := (daemon_state (token ++ [10])).2.
Definition socket_path : Path := mkPath true ["s"].
Definition command_line : DaemonProcess.Arguments :=
  DaemonProcess.mkArguments Scenario.path socket_path (Some 1000) true (Some endpoint) (Some token_path) (Some key_path) (Some old_key_path).
Definition daemon_run := DaemonProcess.start 0 tt command_line (vault_world, daemon_files).
Definition started_daemon : option (DaemonState unit) := match daemon_run.1 with Ok d => Some d | Err _ => None end.
Definition trust : WitnessConfig := mkWitnessConfig endpoint token (ed_public seed) (Some old_key).

Lemma trust_configuration_witness :
  ∃ d s', DaemonProcess.start 0 tt command_line (vault_world, daemon_files) = (Ok d, s') ∧
    dc_witness (ds_config d) = Some trust ∧ dc_allowed_uid (ds_config d) = 1000 ∧ client_of tt (Some trust) (ds_witness d) ∧
    ∃ path, Some old_key_path = Some path ∧ pinned (w_env vault_world, daemon_files) path old_key.
Proof.
  assert ((λ d : DaemonState unit, dc_witness (ds_config d)) <$> started_daemon = Some (Some trust)) as E by (vm_compute; exact eq_refl).
  unfold started_daemon in E. destruct daemon_run as [[d|e] [w' files']] eqn:Er; [|discriminate E]. injection E as Ed.
  destruct (trust_configuration 0 tt command_line vault_world daemon_files d w' files' Er) as ((_ & _ & Hu & _) & Hg & Hc & _).
  rewrite Ed in Hg, Hc. exists d, (w', files'). split; [exact Er|]. split; [exact Ed|]. split; [exact Hu|]. split; [exact Hc|].
  exact (proj2 (proj2 (proj2 (proj2 Hg)))).
Defined.

Lemma witness_serves_private_witness :
  ∃ responses s', WitnessProcess.main arguments (witness_state token) = (Ok responses, s') ∧
    responses = [Service.healthy] ∧
    ∃ seed token requests w, http loopback = Some requests ∧
      private_secret (witness_env, witness_files Deployment.token) seed_path seed ∧ length seed = 32%nat ∧
      private_secret (witness_env, witness_files Deployment.token) token_path token ∧
      PrivateFile.private_at (env_fs (ww_env w)) state_path ∧ ww_db w = empty_witness_db ∧
      WitnessProcess.serve_all (mkService state_path seed) token requests w = (responses, s'.1).
Proof.
  assert (main_run.1 = Ok [Service.healthy]) as E by (vm_compute; exact eq_refl).
  apply run_eq in E. unfold main_run at 1 in E.
  exists [Service.healthy], main_run.2. split; [exact E|]. split; [exact eq_refl|].
  destruct (witness_serves_private arguments (witness_state token) (Ok [Service.healthy]) main_run.2 E) as [_ Hs].
  exact (Hs _ eq_refl).
Defined.

Lemma deployment_pairs_witness :
  ∃ wc d', DaemonProcess.witness_config (Some endpoint) (Some token_path) (Some key_path) None (daemon_state (token ++ [10])) = (Ok (Some wc), d') ∧
    wc_public_key wc = Service.public_key service ∧
    ∀ cfg request, Https.new_with_previous (wc_endpoint wc) (wc_bearer_token wc) (wc_public_key wc) (wc_previous_public_key wc) = Ok cfg →
      Service.rq_authorization request = Some (https_authorization cfg) →
      Https.trusted cfg (Service.public_key service) ∧ Service.authorized request (WitnessProcess.expected token) = true.
Proof.
  assert (tool_run.1 = Ok line) as E1 by (vm_compute; exact eq_refl).
  assert ((start_run token).1 = Ok (service, token)) as E2 by (vm_compute; exact eq_refl).
  apply (deployment_pairs arguments (witness_state token) line tool_run.2 service token (start_run token).2
           (daemon_state (token ++ [10])) endpoint token_path key_path [] [] [] [10] (run_eq tool_run _ E1) (run_eq (start_run token) _ E2)).
  - intros n. exact eq_refl.
  - exists key_path, secret. split_and!; vm_compute; exact eq_refl.
  - exists token_path, secret. split_and!; vm_compute; exact eq_refl.
  - exact Utf8.blank_nil.
  - exact Utf8.blank_nil.
  - exact Utf8.blank_nil.
  - split; [vm_compute; exact eq_refl|]. repeat constructor. 
  - split; vm_compute; exact eq_refl.
  - intros Hn. discriminate Hn.
Defined.

(** The same line feed in the witness's token file. *)
Lemma unusable_token_witness :
  ∃ wc, ∀ cfg request w,
    Https.new_with_previous (wc_endpoint wc) (wc_bearer_token wc) (wc_public_key wc) (wc_previous_public_key wc) = Ok cfg →
    Service.rq_authorization request = Some (https_authorization cfg) →
    Service.serve service (WitnessProcess.expected (token ++ [10])) request w = (Service.unauthorized, w).
Proof.
  set (bad := token ++ [10]).
  assert ((start_run bad).1 = Ok (service, bad)) as E by (vm_compute; exact eq_refl).
  destruct (unusable_token arguments (witness_state bad) service bad (start_run bad).2 (daemon_state bad) endpoint token_path key_path None
              (config_run bad None).1 (config_run bad None).2 (run_eq (start_run bad) _ E)) as [Hr|(wc & _ & Hr)].
  - intros [[_ Ht] _]. vm_compute in Ht. discriminate Ht.
  - exists token_path, secret. split_and!; vm_compute; exact eq_refl.
  - exact (surjective_pairing (config_run bad None)).
  - exfalso. vm_compute in Hr. discriminate Hr.
  - exists wc. exact Hr.
Defined.

End Deployment.
