(* ===== verification/CliGuarantees.v ===== *)
(** * The client's loops and errors, and a concrete session

    The two transfer loops terminate, a failed upload is reported with the
    wrong error, and a client that uploads a file and downloads it again
    through the daemon of [DaemonGuarantees]. *)

From S2P Require Import Prelude Format Crypto Witness Fs Storage Vault WitnessService Https Backup Protocol Daemon Cli.
From S2P Require Import Toy ToyWire ToyFiles StorageSpec VaultSpec StreamSpec Integrity BackupSpec ProtocolSpec DaemonSpec CliSpec.
From S2P Require Import Guarantees DaemonGuarantees.
From Stdlib Require Import ZArith Lia.
From stdpp Require Import base numbers list gmap strings.

Open Scope Z_scope.
Open Scope vlt_scope.

#[local] Arguments be_bytes : simpl never.

Module CliGuarantees.
Import Cli Protocol ProtocolSpec StreamItems DaemonSpec CliSpec.

Section transfers.
Context `{!Json Request} `{!Json Response} `{!JsonOk Response} `{UnixStreamOk T} `{!Connect T} `{OpenFileOk F}.

(** The transfer loops terminate.  Fuel at least the rank of the file
    (for the upload) or above the number of unread bytes (for the download)
    never runs out: more fuel gives the same result. *)
Lemma transfers_terminate :
  (∀ f1 f2 input (file : F) (s : Process T * T), (read_rank file ≤ f1)%nat → (read_rank file ≤ f2)%nat →
     send_file f1 input file s = send_file f2 input file s) ∧
  (∀ f1 f2 temporary output (s : Process T * T), (unread s.2 < f1)%nat → (unread s.2 < f2)%nat →
     receive_items f1 temporary output s = receive_items f2 temporary output s).
Proof.
  split.
  - assert (0 < MAX_STREAM_CHUNK_BYTES) as Hm by done.
    induction f1 as [|f1 IH]; intros f2 input file s Hf1 Hf2.
    all: destruct f2 as [|f2]; cbn [send_file]; destruct (read MAX_STREAM_CHUNK_BYTES file) as [[[|b d]| |] file1] eqn:E; try done.
    1, 2: pose proof (read_rank_lt _ _ _ _ Hm E ltac:(done) ltac:(done)); lia.
    apply sbind_ext. intros _ s1 _. pose proof (read_rank_lt _ _ _ _ Hm E ltac:(done) ltac:(done)). apply IH; lia.
  - induction f1 as [|f1 IH]; intros [|f2] temporary output [p t] Hf1 Hf2; try (simpl in *; lia). cbn [receive_items].
    apply sbind_ext. intros item [p1 t1] (-> & E)%on_socket_ok. destruct item as [d| |[]]; try done.
    apply read_item_ok in E as (_ & lb & Hc & Hl & _ & Hd). apply sbind_ext. intros u [p2 t2] E2.
    unfold on_process, szoom in E2. cbn [fst snd] in E2. destruct (io _ _ p) as [r3 p3]. injection E2 as _ _ <-.
    simpl in Hf1, Hf2. rewrite unread_length, Hc, !length_app in Hf1, Hf2.
    apply IH; simpl; rewrite unread_length; lia.
Qed.

(** Every read of the file delivers data or its end. *)
Definition always_reads : Prop := ∀ n (file : F), 0 < n → ∃ data, (read n file).1 = ReadData data.

Lemma send_file_succeeds fuel input (file : F) p (t : T) :
  always_reads → reliable (T:=T) → (read_rank file ≤ fuel)%nat →
  ∃ t', send_file fuel input file (p, t) = (Ok tt, (p, t')) ∧ contents t' = contents t.
Proof.
  intros Ha Hr. assert (0 < MAX_STREAM_CHUNK_BYTES) as Hm by done.
  revert file t. induction fuel as [|fuel IH]; intros file t Hf; cbn [send_file];
    destruct (Ha _ file Hm) as [data Hd]; destruct (read MAX_STREAM_CHUNK_BYTES file) as [o file1] eqn:E; simpl in Hd; subst o;
    destruct data as [|b d]; [by eauto| |by eauto|]; pose proof (read_rank_lt _ _ _ _ Hm E ltac:(done) ltac:(done)); [lia|].
  destruct (read_data _ _ _ _ Hm E) as (_ & Hl & _).
  destruct (reliable_item (b :: d) t Hr) as [t1 E1]; [split; [unfold lenZ; simpl; lia|done]|].
  destruct (sends_item (b :: d) _ _ _ E1) as [Hc1 _].
  unfold sbind, on_socket, smap_err, szoom. cbn [fst snd]. rewrite E1. destruct (IH file1 t1) as (t2 & -> & Hc2); [lia|].
  exists t2. split; [done|congruence].
Qed.

Lemma on_socket_succeeds {A} context (m : M T ProtocolError A) p (t : T) a t' :
  m t = (Ok a, t') → on_socket context m (p, t) = (Ok a, (p, t')).
Proof. intros E. unfold on_socket, smap_err, szoom. cbn [fst snd]. by rewrite E. Qed.

(** Reading a frame where an error item comes. *)
Lemma read_frame_error {A} `{!Json A} resp f rest (t : T) :
  never_fails (R:=T) → item_bytes (ItemError resp) = Some f → contents t = f ++ rest →
  ∃ t', read_frame (A:=A) t = (Err InvalidLength, t').
Proof.
  intros Hnf. cbn [item_bytes]. destruct (frame resp) as [g|]; [|done]. intros <-%(inj Some) Hc. rewrite <-(assoc_L (++)) in Hc.
  destruct (read_exact_complete _ _ t Hnf Hc) as (t1 & R1 & _). exists t1. unfold read_frame, sbind.
  unfold lenZ in R1. rewrite length_be_bytes in R1. change (Z.of_nat 4) with 4 in R1. rewrite R1.
  rewrite from_be_len by (unfold STREAM_ERROR, u32_max; lia). done.
Qed.

(** C39: the error of a failed upload is lost.  When the daemon answers a
    finished upload with an error item, as it does for every upload the vault
    refuses, the client reads it as a frame: with a readable input and a
    connection that works, it always reports an invalid response length, never
    the daemon's error. *)
Theorem upload_error_masked socket text input content s1 (p : Process T) (c : T) rq ready error f rest :
  Backup.read_file input (p_host p) = (Ok content, s1) → connect socket = Some c →
  frame (RqPutStream text) = Some rq → frame (ROk SStreamReady) = Some ready →
  item_bytes (ItemError (RError error)) = Some f → contents c = ready ++ f ++ rest →
  always_reads → reliable (T:=T) → never_fails (R:=T) →
  ∃ p', put (F:=F) socket text input p =
    (Err (Caused (Some [PText "could not read daemon response"]) (ByProtocol InvalidLength)), p').
Proof.
  intros Hin Hc Hrq Hrd Hf Hct Ha Hr Hnf. unfold put, sbind at 1.
  assert (io [PText "could not read "; PPath input] (Backup.read_file input) p = (Ok content, set_host s1 p)) as ->.
  { unfold io, on_host, smap_err, szoom. by rewrite Hin. }
  unfold connected. rewrite Hc. cbv zeta. set (q := set_host s1 p).
  destruct (reliable_frame _ _ c Hr Hrq) as [c1 E1]. destruct (sends_frame _ _ _ _ E1) as [C1 _]. rewrite Hct in C1.
  rewrite (sbind_eq _ _ _ tt (q, c1)) by (by apply on_socket_succeeds).
  destruct (read_frame_complete _ _ _ c1 Hnf Hrd C1) as (c2 & E2 & C2).
  rewrite (sbind_eq _ _ _ SStreamReady (q, c2)).
  2: { unfold read_response. by rewrite (sbind_eq _ _ _ (ROk SStreamReady) (q, c2)) by (by apply on_socket_succeeds). }
  rewrite (sbind_eq _ _ _ tt (q, c2)) by done.
  destruct (send_file_succeeds (read_rank (opened content)) input (opened content : F) q c2 Ha Hr (le_n _)) as (c3 & E3 & C3).
  rewrite (sbind_eq _ _ _ _ _ E3). destruct (reliable_end c3 Hr) as [c4 E4]. destruct (sends_stream_end _ _ _ E4) as [C4 _].
  rewrite (sbind_eq _ _ _ tt (q, c4)) by (by apply on_socket_succeeds).
  destruct (read_frame_error (A:=Response) _ _ rest c4 Hnf Hf) as [c5 E5]; [congruence|].
  unfold sbind, read_response, sbind, on_socket, smap_err, szoom. cbn [fst snd]. rewrite E5. by eexists.
Qed.

End transfers.

Section creation.
Context `{PrimitivesOk} `{!Symlinks} {T : Type}.

Lemma prompt_new_passphrase_ok (p : Process T) passphrase p' :
  prompt_new_passphrase p = (Ok passphrase, p') →
  passphrase ≠ [] ∧ p_host p' = p_host p ∧ ∃ rest, p_answers p = Some passphrase :: Some passphrase :: rest.
Proof.
  destruct p as [s answers pr so]. unfold prompt_new_passphrase, prompt_password, sbind. cbn [p_answers p_host p_printed p_socket].
  destruct answers as [|[first|] answers]; [done| |done]. simpl. case_bool_decide as Hf; [done|]. simpl.
  destruct answers as [|[second|] answers]; [done| |done]. simpl. case_bool_decide as Hs; [|done]. subst second. simpl.
  intros [= <- <-]. split_and!; [done|done|]. by exists answers.
Qed.

(** C34: a vault made by [init] opens to its user.  When the command reports
    success, the passphrase was typed twice and is not empty, and whenever the
    database it left is opened later with its envelope unchanged, the vault is
    locked, its tables satisfy their invariant and that passphrase unlocks it. *)
Theorem init_then_unlock {X} path (p p' : Process T) w2 v w3 (x : X) :
  init path p = (Ok tt, p') → db_meta (w_db w2) = db_meta (w_db (p_host p').1) → Vault.open path w2 = (Ok v, w3) →
  Vault.status v = StatusLocked ∧ db_wf (w_db w3) ∧
  ∃ passphrase rest root_key, p_answers p = Some passphrase :: Some passphrase :: rest ∧ passphrase ≠ [] ∧
    Vault.unlock passphrase ((v, w3), x) = (Ok tt, ((mkVault path (v_envelope v) root_key, w3), x)).
Proof.
  intros E Hm Ho. assert (∀ q (p1 : Process T) r p2, path_exists q p1 = (r, p2) → p_answers p2 = p_answers p1) as Hex
    by (by intros q p1 r p2 [= _ <-]).
  unfold init in E. sbind_step E. apply Hex in E0 as A1. destruct a; [done|]. sbind_step E. injection E1 as _ <-.
  sbind_step E. apply Hex in E1 as A2. destruct (negb a0); [done|].
  sbind_step E. apply prompt_new_passphrase_ok in E2 as (Hne & _ & rest & Hans).
  sbind_step E. unfold core in E2. apply on_host_ok in E2 as [E2 _].
  assert (p_host p' = p_host s2) as Hh by (unfold sbind, println, smodify in E; by injection E as <-). rewrite Hh in Hm.
  unfold Backup.in_world, szoom in E2. destruct (Vault.create path a1 (p_host s1).1) as [r w1] eqn:Ec. injection E2 as -> E2.
  rewrite <-E2 in Hm. cbn [fst] in Hm.
  destruct (Guarantees.create_open_unlock path a1 _ _ _ w2 v w3 x Ec Hm Ho Hne) as (Hs & Hv & Hwf & Hu).
  split_and!; [done..|]. exists a1, rest, (v_root_key a2). split_and!; [congruence|done|]. by rewrite Hu, Hv.
Qed.

End creation.
End CliGuarantees.

(** ** A concrete session *)

Module ToyClient.
Import Toy ToyWire ToyFiles ToyDaemon.

#[export] Instance slice_file : OpenFile bytes := { opened bs := bs }.
#[export] Program Instance slice_file_ok : OpenFileOk bytes.
Next Obligation. done. Qed.
#[export] Instance no_links : Symlinks := { target_exists _ _ := false }.

(** The daemon's end of each connection: an upload, a download of what was
    uploaded, a lock request, an upload to the locked vault, and a backup; each
    with its outcome evaluated. *)
Definition incoming (bs : bytes) : Socket := mkSocket (as_ascii bs) [] (Some 1000).
Definition upload_end : Socket := incoming (request_bytes (RqPutStream object_text) ++ StreamItems.client_items [Scenario.plaintext]).
Definition upload_served := Eval vm_compute in Daemon.serve_stream (host, upload_end).
Definition download_end : Socket := incoming (request_bytes (RqGetStream object_text)).
Definition download_served := Eval vm_compute in Daemon.serve_stream (upload_served.2.1, download_end).
Definition lock_end : Socket := incoming (request_bytes RqLock).
Definition lock_served := Eval vm_compute in Daemon.serve_stream (upload_served.2.1, lock_end).
Definition refused_served := Eval vm_compute in Daemon.serve_stream (lock_served.2.1, upload_end).
Definition snapshot : Path := mkPath true ["snapshot"].
Definition backup_end : Socket := incoming (request_bytes (RqBackup (Cli.to_string_lossy snapshot))).
Definition backup_served := Daemon.serve_stream (host, backup_end).

Lemma upload_eq : Daemon.serve_stream (host, upload_end) = upload_served.
Proof. vm_compute. exact eq_refl. Qed.
Lemma download_eq : Daemon.serve_stream (upload_served.2.1, download_end) = download_served.
Proof. vm_compute. exact eq_refl. Qed.
Lemma lock_eq : Daemon.serve_stream (upload_served.2.1, lock_end) = lock_served.
Proof. vm_compute. exact eq_refl. Qed.

(** The client's end: what the daemon sends is what will arrive. *)
Definition client_of {A} (served : A * (Host Connection * Socket)) : Socket := incoming (so_out served.2.2).

Definition upload_socket : Path := mkPath true ["upload"].
Definition download_socket : Path := mkPath true ["download"].
Definition lock_socket : Path := mkPath true ["lock"].
Definition refused_socket : Path := mkPath true ["refused"].
Definition backup_socket : Path := mkPath true ["backup"].
#[export] Instance sockets : Connect Socket := {
  connect path :=
    if bool_decide (path = upload_socket) then Some (client_of upload_served) else
    if bool_decide (path = download_socket) then Some (client_of download_served) else
    if bool_decide (path = lock_socket) then Some (client_of lock_served) else
    if bool_decide (path = refused_socket) then Some (client_of refused_served) else
    if bool_decide (path = backup_socket) then Some (client_of backup_served) else None;
}.

Definition input : Path := mkPath true ["in"].
Definition output : Path := mkPath true ["out"].
Definition process : Process Socket :=
  mkProcess (set_env (set_fs (<[input := mkMeta FRegular 420]> (env_fs env)) env) world, {[ input := Scenario.plaintext ]}) [] [] None.

End ToyClient.

Module CliScenario.
Import Toy ToyWire ToyFiles ToyDaemon ToyClient Cli Protocol ProtocolSpec StreamItems DaemonSpec CliSpec CliGuarantees.

Definition put_run := Eval vm_compute in put upload_socket object_text input process.
Definition get_run := Eval vm_compute in get download_socket object_text output process.
Definition lock_run := Eval vm_compute in main (F:=bytes) (CmdLock lock_socket) process.
Definition request_run := Eval vm_compute in request lock_socket RqLock process.

Lemma put_run_eq : put upload_socket object_text input process = put_run.
Proof. vm_compute. exact eq_refl. Qed.
Lemma get_run_eq : get download_socket object_text output process = get_run.
Proof. vm_compute. exact eq_refl. Qed.
Lemma lock_run_eq : main (F:=bytes) (CmdLock lock_socket) process = lock_run.
Proof. vm_compute. exact eq_refl. Qed.
Lemma request_run_eq : request lock_socket RqLock process = request_run.
Proof. vm_compute. exact eq_refl. Qed.

Definition used (p : Process Socket) : Socket := default (incoming []) (p_socket p).


Lemma put_stores_file_witness :
  put_run.1 = Ok tt ∧
  ∃ o content, Daemon.parse_object_id object_text = Ok o ∧ (p_host process).2 !! input = Some content ∧
    reads_back Scenario.vault (w_db (h_world upload_served.2.1)) o content.
Proof.
  split; [exact eq_refl|].
  destruct Guarantees.created_facts as (rk & _ & Hid & Hwf & _).
  apply (put_stores_file (Net:=Connection) (F:=bytes) upload_socket object_text input process put_run.2
           (client_of upload_served) (used put_run.2) host upload_served.2.1 upload_end upload_served.2.2).
  - exact put_run_eq.
  - vm_compute. exact eq_refl.
  - exact eq_refl.
  - exact upload_eq.
  - split; vm_compute; exact eq_refl.
  - exact Hid.
  - exact Hwf.
Defined.

Lemma get_delivers_plaintext_witness :
  get_run.1 = Ok tt ∧ (p_host get_run.2).2 !! output = Some Scenario.plaintext ∧
  BackupSpec.existing_kept (p_host process) (p_host get_run.2) ∧
  ∃ o root_key sv m dek cs parts, Daemon.parse_object_id object_text = Ok o ∧
    Integrity.verified_read (v_vault_id (m_value (ds_vault (h_daemon upload_served.2.1)))) root_key
      (w_db (h_world upload_served.2.1)) o sv m dek cs parts ∧
    (p_host get_run.2).2 !! output = Some (concat parts).
Proof.
  split; [exact eq_refl|]. split; [vm_compute; exact eq_refl|].
  destruct (get_delivers_plaintext (Net:=Connection) (D:=Socket) download_socket object_text output process get_run.2 get_run.1)
    as [Hk [[Hno _]|(_ & _ & Hd)]].
  - intros s. vm_compute. intros Hs. discriminate Hs.
  - exact get_run_eq.
  - destruct (Hno tt eq_refl).
  - split; [exact Hk|].
    destruct (Hd (client_of download_served) (used get_run.2) upload_served.2.1 download_served.2.1 download_end download_served.2.2)
      as (o & rk & sv & m & dek & cs & parts & Hp & _ & Hv & Hf).
    + vm_compute. exact eq_refl.
    + exact eq_refl.
    + exact download_eq.
    + split; vm_compute; exact eq_refl.
    + by split.
    + exists o, rk, sv, m, dek, cs, parts. split; [exact Hp|]. split; [exact Hv|exact Hf].
Defined.

Lemma request_answered_witness :
  p_host request_run.2 = p_host process ∧
  Daemon.dispatch RqLock upload_served.2.1 = (ROk SEmpty, lock_served.2.1).
Proof.
  assert (connect lock_socket = Some (client_of lock_served)) as E3 by (vm_compute; exact eq_refl).
  assert (exchange (client_of lock_served) (used request_run.2) lock_end lock_served.2.2) as E5 by (split; vm_compute; exact eq_refl).
  exact (request_answered (Net:=Connection) lock_socket RqLock process request_run.2 (Ok SEmpty)
           (client_of lock_served) (used request_run.2) upload_served.2.1 lock_served.2.1 lock_end lock_served.2.2
           request_run_eq eq_refl E3 eq_refl lock_eq E5).
Defined.

Lemma lifecycle_announced_witness :
  lock_run.1 = Ok tt ∧ Vault.status (m_value (ds_vault (h_daemon lock_served.2.1))) = StatusLocked.
Proof.
  split; [exact eq_refl|].
  assert (connect lock_socket = Some (client_of lock_served)) as E3 by (vm_compute; exact eq_refl).
  assert (exchange (client_of lock_served) (used lock_run.2) lock_end lock_served.2.2) as E5 by (split; vm_compute; exact eq_refl).
  exact (lifecycle_announced (Net:=Connection) (F:=bytes) (CmdLock lock_socket) lock_socket StatusLocked process lock_run.2
           (client_of lock_served) (used lock_run.2) upload_served.2.1 lock_served.2.1 lock_end lock_served.2.2
           eq_refl lock_run_eq E3 eq_refl lock_eq E5).
Defined.


Definition typist : Process Socket := mkProcess (world, ∅) [Some Scenario.passphrase; Some Scenario.passphrase] [] None.
Definition init_run := Eval vm_compute in init Scenario.path typist.
Definition reopened := Eval vm_compute in Vault.open Scenario.path (p_host init_run.2).1.

Lemma init_run_eq : init Scenario.path typist = init_run.
Proof. vm_compute. exact eq_refl. Qed.
Lemma reopened_eq : Vault.open Scenario.path (p_host init_run.2).1 = reopened.
Proof. vm_compute. exact eq_refl. Qed.

Lemma init_then_unlock_witness :
  ∃ v passphrase rest root_key, reopened.1 = Ok v ∧ Vault.status v = StatusLocked ∧
    p_answers typist = Some passphrase :: Some passphrase :: rest ∧
    (Vault.unlock passphrase ((v, reopened.2), tt)).1 = Ok tt ∧
    v_root_key (Vault.unlock passphrase ((v, reopened.2), tt)).2.1.1 = root_key.
Proof.
  pose proof reopened_eq as Er. destruct reopened as [[v|e] w3] eqn:E2; [|discriminate E2].
  destruct (init_then_unlock Scenario.path typist init_run.2 (p_host init_run.2).1 v w3 tt init_run_eq eq_refl Er)
    as (Hs & _ & passphrase & rest & rk & Ha & _ & Hu).
  exists v, passphrase, rest, rk. split; [exact eq_refl|]. split; [exact Hs|]. split; [exact Ha|]. simpl. rewrite Hu. split; exact eq_refl.
Defined.

Lemma transfers_terminate_witness :
  send_file 5 input (Scenario.plaintext : bytes) (process, incoming []) =
  send_file 9 input (Scenario.plaintext : bytes) (process, incoming []).
Proof. apply (proj1 (transfers_terminate (T:=Socket) (F:=bytes))); vm_compute; lia. Defined.

(** The vault is locked, and the client does not say so. *)
Lemma upload_error_masked_witness :
  ∃ p', put (F:=bytes) refused_socket object_text input process =
    (Err (Caused (Some [PText "could not read daemon response"]) (ByProtocol InvalidLength)), p').
Proof.
  assert ((Backup.read_file input (p_host process)).1 = Ok Scenario.plaintext) as E1 by (vm_compute; exact eq_refl).
  assert (connect refused_socket = Some (client_of refused_served)) as E2 by (vm_compute; exact eq_refl).
  assert (contents (client_of refused_served) = default [] (frame (ROk SStreamReady)) ++
    default [] (item_bytes (ItemError (RError (Daemon.map_vault_error Locked)))) ++ []) as E3 by (vm_compute; exact eq_refl).
  apply (upload_error_masked (F:=bytes) refused_socket object_text input Scenario.plaintext _ process (client_of refused_served)
            (request_bytes (RqPutStream object_text)) (default [] (frame (ROk SStreamReady)))
            (Daemon.map_vault_error Locked) (default [] (item_bytes (ItemError (RError (Daemon.map_vault_error Locked))))) []
            (run_eq _ _ E1) E2).
  - vm_compute. exact eq_refl.
  - vm_compute. exact eq_refl.
  - vm_compute. exact eq_refl.
  - exact E3.
  - intros n file _. by eexists.
  - by split.
  - by intros n t.
Defined.

End CliScenario.
