(* ===== verification/BenchGuarantees.v ===== *)
(** * A concrete benchmark

    A pair of connected sockets, a wire format whose fields have four length
    bytes, and one run of the whole benchmark on an empty disk: direct, then
    through a daemon; and one whose shutdown request is lost. *)

From S2P Require Import Prelude Format Crypto Witness Fs Storage Vault WitnessService Https Backup Protocol Daemon Cli Utf8 Startup Server Bench.
From S2P Require Import Toy ToyWire ToyFiles StorageSpec VaultSpec StreamSpec ProtocolSpec DaemonSpec BenchSpec Guarantees DaemonGuarantees.
From Stdlib Require Import ZArith Lia.
From stdpp Require Import base numbers list gmap strings.

Open Scope Z_scope.
Open Scope vlt_scope.

Module ToyBench.
Import Toy ToyFiles.

#[export] Existing Instances ToyWire.toy_hex ToyWire.toy_iq ToyWire.toy_is ToyWire.toy_hq ToyWire.toy_hs.

(** ** A connected pair *)

(** What will arrive, what was sent, and the peer's user. *)
Record End : Type := mkEnd { en_in : list Ascii.ascii; en_out : list Ascii.ascii; en_uid : option Z }.

Abbreviation as_ascii := ToyDaemon.as_ascii.

#[export] Instance end_read : Read End := {
  read n e := (ReadData (map byte_Z (takeZ n (en_in e))), mkEnd (dropZ n (en_in e)) (en_out e) (en_uid e));
  read_rank e := length (en_in e);
}.
#[export] Instance end_write : Write End := {
  write_all data e := if forallb Toy.is_byte data then (true, mkEnd (en_in e) (en_out e ++ as_ascii data) (en_uid e)) else (false, e);
}.
#[export] Instance end_flush : Flush End := { flush e := (true, e) }.
#[export] Instance end_stream : UnixStream End := {
  us_read := end_read;
  us_write := end_write;
  us_flush := end_flush;
  peer_uid := en_uid;
  set_read_timeout e := (true, e);
  set_write_timeout e := (true, e);
  unread e := length (en_in e);
}.
#[export] Instance end_loopback : Loopback End := {
  client_end := mkEnd [] [] (Some 1000);
  accepted c := mkEnd (en_out c) [] (Some 1000);
  replied c t := mkEnd (en_out t) (en_out c) (Some 1000);
  reset c := mkEnd [] (en_out c) (Some 1000);
}.

Lemma byte_Z_as_ascii data : forallb Toy.is_byte data = true → map byte_Z (as_ascii data) = data.
Proof.
  induction data as [|b data IH]; [done|]. cbn [forallb]. intros [Hb Hd]%andb_prop. unfold as_ascii in *. cbn [map]. rewrite IH by done. f_equal.
  unfold Toy.is_byte, u8_max in Hb. unfold byte_Z. rewrite Ascii.N_ascii_embedding by lia. lia.
Qed.

#[export] Program Instance end_read_ok : ReadOk End := { contents e := map byte_Z (en_in e) }.
Next Obligation.
  intros n s d s' Hn [= <- <-]. simpl. rewrite takeZ_take, dropZ_drop. split; [by rewrite <-map_app, take_drop|]. split.
  - unfold lenZ. rewrite length_map, length_take. lia.
  - destruct (en_in s); [done|]. destruct (Z.to_nat n) eqn:E; [lia|done].
Qed.
Next Obligation. done. Qed.
Next Obligation. intros n s o s' _ [= _ <-] _. simpl. rewrite dropZ_drop, length_drop. lia. Qed.
Next Obligation.
  intros n s o s' Hn [= <- <-] _ Hne. simpl. rewrite dropZ_drop, length_drop. destruct (en_in s) as [|b r]; [done|]. simpl. lia.
Qed.

#[export] Program Instance end_ok : UnixStreamOk End := { sent e := map byte_Z (en_out e) }.
Next Obligation. intros s. simpl. by rewrite length_map. Qed.
Next Obligation. intros s. simpl. apply Forall_fmap, Forall_true. intros c. apply ToyDaemon.byte_Z_u8. Qed.
Next Obligation.
  intros data s s'. simpl. destruct (forallb _ data) eqn:E; [|done]. intros [= <-]. simpl. by rewrite map_app, byte_Z_as_ascii.
Qed.
Next Obligation. intros data s. simpl. by destruct (forallb _ data). Qed.
Next Obligation. done. Qed.
Next Obligation. done. Qed.
Next Obligation. done. Qed.
Next Obligation. done. Qed.
Next Obligation. done. Qed.

#[export] Instance end_loopback_ok : LoopbackOk End.
Proof.
  split; try done. intros data t t'. simpl. destruct (forallb _ data); [done|]. intros [= <-]. exists []. split; [apply prefix_nil|by rewrite app_nil_r].
Qed.

#[export] Instance toy_b64 : Base64 := ToyDaemon.toy_base64.
#[export] Instance toy_b64_ok : Base64Ok.
Proof. split. intros data Hd. by apply parse_pairs_hex_encode. Qed.

(** ** The wire format *)

Definition put_wide (fs : list bytes) : bytes := concat (map (λ f, be_bytes 4 (lenZ f) ++ f) fs).
Fixpoint get_wide (n : nat) (s : bytes) : option (list bytes) :=
  match n with
  | O => if s is [] then Some [] else None
  | S n =>
      let l := from_be_bytes (takeZ 4 s) in let s := dropZ 4 s in
      if l <=? lenZ s then cons (takeZ l s) <$> get_wide n (dropZ l s) else None
  end.
Definition enc_rq (r : Request) : bytes := put_wide (ToyWire.rq_fields r).
Definition dec_rq (s : bytes) : option Request := get_wide 3 s ≫= ToyWire.rq_of_fields.
Definition enc_rs (r : Response) : bytes := put_wide (ToyWire.rs_fields r).
Definition dec_rs (s : bytes) : option Response := get_wide 6 s ≫= ToyWire.rs_of_fields.

#[export] Instance wide_rq : Json Request := { json_to_vec := ToyWire.checked enc_rq dec_rq; json_from_slice := dec_rq }.
#[export] Instance wide_rs : Json Response := { json_to_vec := ToyWire.checked enc_rs dec_rs; json_from_slice := dec_rs }.
#[export] Instance wide_rq_ok : JsonOk Request.
Proof. split. apply ToyWire.checked_ok. Qed.
#[export] Instance wide_rs_ok : JsonOk Response.
Proof. split. apply ToyWire.checked_ok. Qed.

(** ** An empty disk *)

#[export] Instance bench_symlinks : Symlinks := { target_exists _ _ := false }.
#[export] Instance bench_links : Links := { resolve _ p := Some p }.

Definition tmp : Path := mkPath true ["tmp"].
Definition bench_env (faults : nat → bool) : Env := mkEnv {[ root := mkMeta FDirectory 493; tmp := mkMeta FDirectory 511 ]} 420 faults 0.
Definition around : Surroundings := mkSurroundings tmp 7 1000 (Some 99) 493.
Definition agent : Connection := ToyWire.connection (λ _, Delivered).

(** A microsecond passes before every reading of the clock, and the daemon binds
    after three polls. *)
Definition driver (faults : nat → bool) : Driver Connection :=
  mkDriver (mkWorld empty_db true (bench_env faults) rng, ∅) Absent [] 0 (λ _, 1000%N) 0 3.

Definition arguments : list bytes :=
  [str_bytes "--payloads-kib"; str_bytes "1"; str_bytes "--runs"; str_bytes "+1"; str_bytes "--mode"; str_bytes "both"].

End ToyBench.

Module BenchScenario.
Import Toy ToyFiles ToyBench Bench BenchSpec.

Definition main_run := main (T:=End) around agent arguments (driver (λ _, false)).

(** One kibibyte makes its way through a vault and through a daemon. *)
Lemma benchmark_reports_witness :
  main_run.1 = Ok tt ∧
  lines main_run.2 = [Header; Row "direct" "put" 1024 0 0; Row "direct" "get" 1024 0 0; Row "rpc" "put" 1024 0 0; Row "rpc" "get" 1024 0 0] ∧
  ∃ config directory, Options.parse arguments = Ok (Options.Run config) ∧ benchmark_directory around = Ok directory ∧
    lines main_run.2 = expected config ∧ env_fs (w_env (b_host main_run.2).1) !! directory = None.
Proof.
  assert (main_run.1 = Ok tt) as E by (vm_compute; exact eq_refl).
  split; [exact E|]. split; [vm_compute; exact eq_refl|].
  pose proof (benchmark_reports (T:=End) around 99 agent arguments (driver (λ _, false)) main_run.1 main_run.2 eq_refl
                (surjective_pairing main_run)) as Hr.
  rewrite E in Hr. destruct Hr as [[Hp _]|Hr]; [vm_compute in Hp; discriminate Hp|exact Hr].
Defined.

(** ** A lost shutdown request *)

Definition config : Options.Config := Options.mkConfig [1] 1 Options.Rpc.
Abbreviation opened faults := (open_daemon 1000 agent (join tmp "vlt1-bench.sock") (join tmp "rpc.vlt.sqlite") (driver faults)).
Abbreviation waited faults := (wait_for_socket (T:=End) (join tmp "vlt1-bench.sock") (opened faults).2).
Abbreviation measured faults := (kept (measure (T:=End) config (join tmp "vlt1-bench.sock")) (waited faults).2).
Abbreviation next_call b := (env_tick (w_env (b_host b).1)).
(** The call that connects for the shutdown request. *)
Definition shutdown_call : nat := Eval vm_compute in next_call (measured (λ _, false)).2.
Definition last_call_fails (n : nat) : bool := (n =? shutdown_call)%nat.

Lemma lost_shutdown_blocks_witness :
  (measured last_call_fails).1 = Ok (Ok tt) ∧
  ∃ b', benchmark_rpc (T:=End) 1000 agent config tmp (driver last_call_fails) = (Err Blocks, b') ∧ stuck b'.
Proof.
  assert ((measured last_call_fails).1 = Ok (Ok tt)) as E3 by (vm_compute; exact eq_refl).
  split; [exact E3|].
  assert ((opened last_call_fails).1 = Ok tt) as E1 by (vm_compute; exact eq_refl).
  assert ((waited last_call_fails).1 = Ok tt) as E2 by (vm_compute; exact eq_refl).
  assert (match b_service (measured last_call_fails).2 with Serving d => negb (ds_shutdown d) | _ => false end = true) as E4
    by (vm_compute; exact eq_refl).
  assert (env_faults (w_env (b_host (measured last_call_fails).2).1) (next_call (measured last_call_fails).2) = true) as E5
    by (vm_compute; exact eq_refl).
  destruct (b_service (measured last_call_fails).2) as [|d|d|r] eqn:Ed; try discriminate E4.
  apply run_eq in E1, E2, E3.
  apply (lost_shutdown_blocks (T:=End) 1000 agent config tmp (driver last_call_fails) (opened last_call_fails).2 (waited last_call_fails).2
           (measured last_call_fails).2 (Ok tt) d E1 E2 E3 Ed).
  - destruct (ds_shutdown d); [discriminate E4|exact eq_refl].
  - exact E5.
Defined.

End BenchScenario.
